(* ===== verification/_CoqProject ===== *)
-Q . S2P
Prelude.v
CInt.v
Bitmap.v
Config.v
Bus.v
FlashLog.v
ListHeap.v
Shm.v
Buffer.v
Hcl.v
TaskQueue.v
Fcl.v
FclReg.v
L2P.v
Backend.v
Ftl.v
FtlSpec.v
Pipeline.v
System.v
Emulator.v
Scenarios.v
Guarantees.v
HostLld.v
HostDma.v
HostNvme.v
CqBoard.v
EmuIo.v
Lock.v
Contracts.v
FlashUse.v
Axmap.v
Rand.v
Lfsr.v
LfsrPeriod.v
IoBlocks.v
Crc.v
Stream.v
Digest.v
DigestSpec.v
Xxhash.v
Pattern.v
Verify.v
VerifySpec.v
Latency.v
LatencySpec.v
Double.v
Stat.v
StatSpec.v
IoLog.v
IoLogSpec.v
JobStat.v
JobSpec.v
BlockInfo.v
