(* ===== verification/Prelude.v ===== *)
(** * OpenSSDEmu: a verification library

    OpenSSDEmu runs the firmware of a solid-state drive board on a PC.  Three
    threads share 1 GB of memory that stands for the board's DRAM: a front end
    (or fio, through an engine of its own) puts read and write commands into a
    segment of shared memory; the flash translation layer (FTL) takes them,
    moves them through task queues and sends submission entries to the flash;
    a back end serves the entries from a log file and reports completions.  The
    same sources build for the board, where the front end is an NVMe controller
    and the back end a flash controller, both behind registers.  The emulator is
    modelled in the configuration of its build (EMU, NORMAL_MODE,
    MULTI_CORE_MODE, 4 channels); of the board the drivers, the NVMe task, the
    completion polling and the locks.

    ** How the code is translated

    A C function is a function on the state it touches.  Pointers to elements of
    a table are indices, other pointers are symbolic ([list_node *] is a head or
    a field of a buffer); unsigned integers are [Z] with [u8], [u16], [u32] where
    the code wraps; bit-field structures are lists of 32-bit words with named
    fields.  An access the C language leaves undefined (NULL, a freed node, an
    index out of range) has no result, [None], so every theorem that gives a
    result also says the code stays defined.  [M S A] is the monad of such
    computations.  A function that waits for another party is a step that is
    enabled when the wait is over.

    ** Files

    - Foundations.  This file: record update, the state monad, array access
      ([zget], [zset]).  CInt: integers and bit-fields (src/lib/type.h).
      Bitmap: the search for a clear bit, and [SlotAllocator], what a table with
      a bitmap promises.  Config: src/config.  Bus: src/emu/emu_io.h.
    - Data structures.  ListHeap: src/lib/list.c.  Buffer: the page cache,
      src/buffer.  Hcl: the command table, src/hcl.  TaskQueue: the ring buffers
      of src/ftl/ftl_taskqueue.c, and [QueueBank], what the handlers rely on.
      Fcl: submission entries and their bitmaps, src/fcl.  Shm: the slots of
      src/emu/fe/shmem.h and shmem.c and their lock.  Contracts: what lists,
      queues and the command table promise under any sequence of calls.
    - Mapping and flash.  L2P: src/l2p/l2p.c.  FlashLog: the log file, with the
      formatted printing and scanning of its records.  Backend: src/emu/be/be.c.
    - The firmware.  Ftl: src/ftl/ftl.c, ftl_core0.c, ftl_core1.c, ftl_nvme.c
      and the polling loop of ftl_taskqueue.c, as computations on [emu], and the
      initialisation of src/emu/emu_main.c.  FtlSpec: what each does, against
      the interfaces.
    - The whole.  Pipeline: the abstract machine, without data structures:
      commands move between places, entries are allocated and released.  System:
      the three threads interleaved, one critical section at a time, and the
      simulation of [Pipeline].  Emulator: the initial state and the main loop.
      Scenarios: schedules that run, from which the instances come.
      Guarantees: the theorems on every reachable state.  FlashUse: what the
      runs do with flash and page buffers.
    - The host.  EmuIo: src/fio4emu/engines/emu_io.c.  The parts of fio that choose
      the requests of a run: Axmap (lib/axmap.c), the map of blocks already done;
      Rand (lib/rand.c) and Lfsr (lib/lfsr.c), the generators, with LfsrPeriod, why
      the register passes every block; IoBlocks (io_u.c, filesetup.c), offset and
      length of the next request.  The parts that check the data: Crc, the
      checksums, Digest, MD5 to SHA-3, and Xxhash (crc/), with Stream, what the
      buffering of the digests has in common, and DigestSpec, the digests as
      functions of the message; Pattern (lib/pattern.c); Verify (verify.c), headers
      and checks, with VerifySpec, what is accepted and what is found.  The parts
      that measure: Latency, the latency histograms of stat.h and the percentiles of
      stat.c, with LatencySpec, how close these are; Stat (stat.c), the statistics
      of a job and their sums over a group, with StatSpec; IoLog (iolog.c, stat.c),
      the logs of samples in growing chunks and their averaging windows, with
      IoLogSpec; JobStat (io_u.c, stat.c), what a finished request adds to a job, with
      JobSpec; Double, the bounds rounding respects; BlockInfo (stat.c, thread_options.h), the lifetimes of blocks.
    - The board.  FclReg: the registers of the flash controller, src/fcl/fcl.c.
      HostLld and HostDma: the driver src/nvme/host_lld.c.  HostNvme: the NVMe
      task, src/ftl/ftl_nvme.c.  CqBoard: completion polling,
      src/ftl/ftl_core1.c.  Lock: src/lib/lock.c.

    ** What the theorems show

    - The emulator refines the pipeline, whatever the host submits and however
      the threads interleave: no step is undefined, a turn of the main loop
      returns, no command is in two places or lost, no slot is lost, no queue
      overflows, a submission entry is always there when one is needed, a
      released entry is clear, and without new submissions the firmware and the
      back end make at most 4864 steps that do more than poll, nine for each table
      entry and ten for each slot.  The log
      holds records of one page only, so the back end never hangs and every
      one-page command is finished.
    - The limits of the code, proved as such: commands of any other size never
      finish, and 256 of them block the table for ever; every command goes to one
      flash page and no user data moves; the flash log finds only
      its newest record, and a page of blanks makes its search endless; a buffer
      given to two commands makes their release endless; a trim through the fio
      engine keeps both locks.
    - The components keep their contracts: the cache is a FIFO cache of 1500
      pages, the ring buffers are bounded queues, the circular lists are
      sequences, the table hands out its lowest free entry; the page mapping is
      injective into the geometry, and its object variant agrees with it; a page
      written is read back through entry, decoder and log; the memory map has no
      overlaps.
    - The drivers meet their devices: the DMA counters never overrun the FIFO and
      decide completion exactly, waits end (for direct transfers, where the driver
      does not wait for room, with less than 256 sent since the last look), register
      members are independent, the completion rings of the four channels are
      drained once and in order, the NVMe task follows its state machine, the locks
      exclude.

    - The host side: the block map refines a set of blocks, the generators stay
      in their ranges and the shift register visits every block once, so a random
      job covers its file; the engine submits what it is given.  Checksums are
      divisions by their polynomials and find bursts of errors; digests do not
      depend on the pieces they are fed; what verification writes it accepts, and
      a changed byte is found, except where the code forgets the error of an
      earlier interval or compares no digest, proved as such.  A completed request
      is counted once, whether its logs average or not; the statistics of a group are those of all its samples; a
      reported percentile is within a 128th of the sample of its rank; a log keeps
      its samples in their order, all of them while there is memory, and a window is logged once, when it is over.  The
      limits again: more samples can wait than the next chunk of a log holds, a
      bandwidth log without a job follows a NULL pointer, a reset keeps the
      statistics of synchronising, and the comparison of the lifetimes of blocks
      takes in the next word and fails its assertion.

    ** Bounds and fuel

    The loops of the FTL are bounded by counters of the code, and get as many
    turns.  Of the host, [count_levels] gets the 6 levels a 64-bit size has,
    [set_nr_loop] a turn per word and two more, the shift register two turns per
    number and 7, loops over a buffer as many as it has bytes, [dup_loop] the 33 a
    length of 32 bits needs; where the code tries block lengths until one fits, the
    number of tries is an argument; the scan for the next requested percentile
    ([reach_loop]) gets as many turns as there are percentiles.  Walks over the lists of the cache get 1501, one more than there are
    buffers.  The search in the flash log, and the waits for a device, take fuel
    as an argument: the theorems say how much is enough, or that none is.

    ** Not modelled

    Printing (src/emu/emu_log.c, src/lib/dprint.c), except reads for a message
    that can be undefined; src/gc, all commented out; the rest of fio, vendored
    under src/fio4emu (options, the control of jobs, the printed reports, the
    writing of log files, the network, zoned devices, the other distributions of
    random blocks, the threads and files of verification); the creation of threads, files and the segment, which is taken
    to succeed except where the engine tests it; the set-up of the second core's
    memory management and the admin and I/O command handlers, which the
    repository does not contain.  Memory is sequentially consistent; the
    registers of a device are a [Bus], with what the device does stated as a
    class that a concrete device satisfies.  The doubles of the statistics are
    the 53-bit (long doubles: 64-bit) numbers of SpecFloat; pow is a parameter, and
    qsort is a merge sort by the comparison it is given. *)
From Stdlib Require Export ZArith Lia ZifyNat ZifyBool.
From stdpp Require Export base tactics option list gmap numbers relations.
#[export] Set Default Goal Selector "!".
#[export] Set Warnings "-clear-no-such-hyp".

(** ** Scope and conventions *)
Declare Scope emu_scope.
Delimit Scope emu_scope with emu.
#[global] Open Scope emu_scope.
Open Scope Z_scope.

(** C status codes and booleans (src/lib/type.h). *)
Definition TRUE : Z := 1.
Definition FALSE : Z := 0.
Definition FAIL : Z := 1.
Definition SUCCESS : Z := 0.

(** [C bool to int]: the value of a C comparison. *)
Definition c_bool (b : bool) : Z := if b then 1 else 0.

(** ** Record update

    [r <| f := v |>] replaces the field [f].  A record type declares the
    eta-expansion of its constructor as an instance of [Settable]; the setter
    of a projection is found by abstracting that projection in it. *)
Class Settable (R : Type) := eta_of : R → R.
#[global] Hint Mode Settable + : typeclass_instances.

Class Setter {R T : Type} (p : R → T) := set_field_of : (T → T) → R → R.
#[global] Arguments set_field_of {R T} p {_} _ _ /.

Ltac solve_setter :=
  match goal with
  | |- @Setter ?R ?T ?p =>
      let eta := constr:(_ : Settable R) in
      let eta' := eval cbv beta delta [eta_of] in eta in
      let body := lazymatch eta' with
                  | ?f _ => eval unfold f in eta'
                  | _ => eval unfold eta' in eta'
                  end in
      let abs := (eval pattern p in body) in
      match abs with
      | ?k _ => let r := (eval cbv beta in (λ (f : T → T), k (λ r : R, f (p r)))) in
                exact r
      end
  end.
#[global] Hint Extern 1 (Setter _) => solve_setter : typeclass_instances.

Notation "r <| p := v |>" := (set_field_of p (λ _, v) r)
  (at level 1, left associativity, format "r  <| p  :=  v |>") : emu_scope.

(** ** Undefined behaviour

    An operation that C leaves undefined (an access out of range, a NULL or
    dangling dereference, a call of a NULL function pointer, falling off the
    end of a function whose value is used) is [None] in the model; a defined
    result is [Some].  stdpp's [x ← e; k] sequences such computations. *)

(** State-passing computations that may be undefined. *)
Definition M (S A : Type) : Type := S → option (A * S).

#[global] Instance M_ret {S} : MRet (M S) := λ A a s, Some (a, s).
#[global] Instance M_bind {S} : MBind (M S) := λ A B f m s, '(a, s') ← m s; f a s'.

Lemma bind_run {S A B} (m : M S A) (k : A → M S B) s a s' :
  m s = Some (a, s') → (m ≫= k) s = k a s'.
Proof. intros E. unfold mbind, M_bind. by rewrite E. Qed.

Definition gets {S A} (f : S → A) : M S A := λ s, Some (f s, s).
Definition modify {S} (f : S → S) : M S unit := λ s, Some (tt, f s).
(** An operation that may be undefined, read from the state. *)
Definition try_get {S A} (f : S → option A) : M S A := λ s, a ← f s; Some (a, s).
Definition try_mod {S} (f : S → option S) : M S unit := λ s, s' ← f s; Some (tt, s').
Definition skip {S} : M S unit := mret tt.

Lemma try_get_run {S A} (f : S → option A) s a : f s = Some a → try_get f s = Some (a, s).
Proof. intros E. unfold try_get. by rewrite E. Qed.

Lemma try_get_bind {S A B} (f : S → option A) (k : A → M S B) s a :
  f s = Some a → (try_get f ≫= k) s = k a s.
Proof. intros E. by apply bind_run, try_get_run. Qed.

Lemma try_mod_run {S} (f : S → option S) s s' : f s = Some s' → try_mod f s = Some (tt, s').
Proof. intros E. unfold try_mod. by rewrite E. Qed.

(** No result: undefined behaviour, or no fuel left. *)
Definition undef {S A} : M S A := λ _, None.

(** Run a computation on a part of the state. *)
Definition zoom {S T A} (p : S → T) (put : T → S → S) (m : M T A) : M S A :=
  λ s, '(a, t) ← m (p s); Some (a, put t s).

(** [for_M n i m]: the [n] turns [m i], [m (i + 1)], ... of a counting loop. *)
Fixpoint for_M {St} (n : nat) (i : nat) (m : nat → M St unit) : M St unit :=
  match n with
  | O => mret tt
  | S n' => m i ≫= λ _, for_M n' (S i) m
  end.

Lemma for_M_ind {St} (P : nat → St → Prop) n i (m : nat → M St unit) s :
  P i s →
  (∀ j s, (i ≤ j < i + n)%nat → P j s → ∃ s', m j s = Some (tt, s') ∧ P (S j) s') →
  ∃ s', for_M n i m s = Some (tt, s') ∧ P (i + n)%nat s'.
Proof.
  revert i s. induction n as [|n IH]; intros i s Hp Hm; simpl.
  - exists s. by rewrite Nat.add_0_r.
  - destruct (Hm i s) as (s1 & E & H1); [lia|done|]. rewrite (bind_run _ _ _ _ _ E).
    destruct (IH (S i) s1 H1) as (s2 & E2 & H2); [intros; apply Hm; [lia|done]|].
    exists s2. split; [done|]. by rewrite Nat.add_succ_r.
Qed.

(** The loop [for (i = 0; i < n; i++) s = f(i, s)] over operations that may be
    undefined, and its invariant rule. *)
Fixpoint for_opt {St} (n : nat) (f : nat → St → option St) (s : St) : option St :=
  match n with
  | O => Some s
  | S n' => s ← for_opt n' f s; f n' s
  end.

Lemma for_opt_inv {St} (P : nat → St → Prop) n (f : nat → St → option St) s :
  P O s → (∀ i s, (i < n)%nat → P i s → ∃ s', f i s = Some s' ∧ P (S i) s') →
  ∃ s', for_opt n f s = Some s' ∧ P n s'.
Proof.
  intros H0. induction n as [|n IH]; intros Hf; simpl; [eauto|].
  destruct IH as (s1 & -> & H1); [intros; apply Hf; [lia|done]|]. simpl. apply Hf; [lia|done].
Qed.

(** ** Arrays

    A C array is a list of the declared length; an index is a C integer. *)
Definition zget {A} (l : list A) (i : Z) : option A :=
  if decide (0 ≤ i) then l !! Z.to_nat i else None.
Definition zset {A} (l : list A) (i : Z) (x : A) : option (list A) :=
  if decide (0 ≤ i < Z.of_nat (length l)) then Some (<[Z.to_nat i := x]> l) else None.

Section arrays.
Context {A : Type}.
Implicit Types (l : list A) (x y : A) (i j : Z).

Lemma zget_nat l (n : nat) : zget l (Z.of_nat n) = l !! n.
Proof. unfold zget. rewrite decide_True by lia. by rewrite Nat2Z.id. Qed.

Lemma zset_nat l (n : nat) x :
  (n < length l)%nat → zset l (Z.of_nat n) x = Some (<[n := x]> l).
Proof. intros. unfold zset. rewrite decide_True by lia. by rewrite Nat2Z.id. Qed.

Lemma zget_Some_range l i x : zget l i = Some x → 0 ≤ i < Z.of_nat (length l).
Proof.
  unfold zget. case_decide; [|done]. intros ?%lookup_lt_Some. lia.
Qed.

Lemma zget_is_Some l i : 0 ≤ i < Z.of_nat (length l) → ∃ x, zget l i = Some x.
Proof.
  intros. unfold zget. rewrite decide_True by lia.
  apply lookup_lt_is_Some_2. lia.
Qed.

Lemma zset_is_Some l i x :
  0 ≤ i < Z.of_nat (length l) → zset l i x = Some (<[Z.to_nat i := x]> l).
Proof. intros. unfold zset. by rewrite decide_True. Qed.

Lemma zset_Some l l' i x :
  zset l i x = Some l' → 0 ≤ i < Z.of_nat (length l) ∧ l' = <[Z.to_nat i := x]> l.
Proof. unfold zset. case_decide; by intros [= <-]. Qed.

Lemma zset_length l l' i x : zset l i x = Some l' → length l' = length l.
Proof. intros [? ->]%zset_Some. apply length_insert. Qed.

Lemma zget_zset_eq l l' i x : zset l i x = Some l' → zget l' i = Some x.
Proof.
  intros [? ->]%zset_Some. unfold zget. rewrite decide_True by lia.
  apply list_lookup_insert_eq. lia.
Qed.

Lemma zget_zset_ne l l' i j x : i ≠ j → zset l i x = Some l' → zget l' j = zget l j.
Proof.
  intros ? [? ->]%zset_Some. unfold zget. case_decide; [|done].
  apply list_lookup_insert_ne. lia.
Qed.

Lemma lookup_repeat_lt x (n k : nat) : (k < n)%nat → repeat x n !! k = Some x.
Proof. revert k; induction n; intros [|k] ?; simpl; try lia; [done|]. apply IHn. lia. Qed.

Lemma zget_repeat x n i : 0 ≤ i < Z.of_nat n → zget (repeat x n) i = Some x.
Proof.
  intros. unfold zget. rewrite decide_True by lia. apply lookup_repeat_lt. lia.
Qed.

Lemma Forall_repeat_intro (P : A → Prop) x n : P x → Forall P (repeat x n).
Proof. induction n; simpl; by constructor; auto. Qed.
End arrays.

(** ** Generic lemmas on lists *)
Section lists.
Context {A : Type}.
Implicit Types (l : list A).

Lemma list_snoc_inv l : l = [] ∨ ∃ l' x, l = l' ++ [x].
Proof. destruct l as [|x l _] using rev_ind; [by left|right; eauto]. Qed.

Lemma last_cons_default (x y : A) l : default x (last (y :: l)) = default y (last l).
Proof.
  destruct l as [|z l]; [done|].
  assert (is_Some (last (z :: l))) as [w Hw] by by apply last_is_Some.
  by rewrite last_cons_cons, Hw.
Qed.

Lemma last_snoc_default (d x : A) l : default d (last (l ++ [x])) = x.
Proof. by rewrite last_snoc. Qed.

Lemma not_elem_of_NoDup_app_cons (l1 l2 : list A) x :
  NoDup (l1 ++ x :: l2) → (x ∉ l1) ∧ (x ∉ l2).
Proof.
  rewrite NoDup_app, NoDup_cons. intros (_ & H & ? & _). split; [|done].
  intros Hx. apply (H x Hx). left.
Qed.

Lemma NoDup_remove_mid (l1 l2 : list A) x : NoDup (l1 ++ x :: l2) → NoDup (l1 ++ l2).
Proof.
  rewrite !NoDup_app, NoDup_cons. intros (? & H & ? & ?). split_and!; [done| |done].
  intros y Hy Hy'. apply (H y Hy). by right.
Qed.

Lemma NoDup_snoc l x : NoDup l → x ∉ l → NoDup (l ++ [x]).
Proof.
  intros. apply NoDup_app. split_and!; [done| |apply NoDup_singleton].
  intros y ? ->%list_elem_of_singleton. done.
Qed.
End lists.

(** A list of distinct naturals below [n] has at most [n] elements: the
    pigeonhole argument behind the queue capacity bounds. *)
Lemma NoDup_bounded_length (l : list nat) (n : nat) :
  NoDup l → (∀ x, x ∈ l → (x < n)%nat) → (length l ≤ n)%nat.
Proof.
  intros Hnd Hb. rewrite <- (length_seq n 0).
  apply submseteq_length, NoDup_submseteq; [done|].
  intros x Hx. apply elem_of_seq. specialize (Hb x Hx). lia.
Qed.

(** Fewer than [n] numbers leave one below [n] out. *)
Lemma free_index (l : list nat) (n : nat) :
  (length l < n)%nat → ∃ j, (j < n)%nat ∧ j ∉ l.
Proof.
  intros Hl. destruct (decide (Forall (λ j, j ∈ l) (seq 0 n))) as [Hf|Hf].
  - exfalso. assert (seq 0 n ⊆+ l) as Hs%submseteq_length.
    { apply NoDup_submseteq; [apply NoDup_seq|]. intros j Hj. by apply (proj1 (Forall_forall _ _) Hf). }
    rewrite length_seq in Hs. lia.
  - apply not_Forall_Exists in Hf; [|apply _].
    apply Exists_exists in Hf as (j & Hj%elem_of_seq & Hn). exists j. split; [lia|done].
Qed.

(** ** Automation *)

(** Break the tuples and binds of a computation that returned [Some]. *)
Ltac run_inv :=
  repeat first
    [ progress simplify_eq/=
    | match goal with
      | H : mbind _ ?m = Some _ |- _ =>
          apply bind_Some in H; destruct H as (? & ? & H)
      | H : (let '(_, _) := ?p in _) = Some _ |- _ => destruct p eqn:?
      | H : match ?p with (_, _) => _ end = Some _ |- _ => destruct p eqn:?
      | H : Some _ = Some _ |- _ => injection H as H
      end ].

(** Linear arithmetic with division and modulo by constants. *)
Ltac dlia := zify; Z.to_euclidean_division_equations; lia.

(** Split conjunctions, introduce, and finish with linear arithmetic. *)
Ltac crush := repeat (intros || split || simplify_eq/=); try done; try lia.

Create HintDb emu discriminated.
#[export] Hint Resolve zget_Some_range zset_length : emu.
#[export] Hint Extern 5 (_ ≤ _) => lia : emu.
#[export] Hint Extern 5 (_ < _) => lia : emu.
#[export] Hint Extern 5 (_ ≤ _ < _) => lia : emu.

(** ** Sequences of calls

    The calls of a component that return a value, and those of its reference. *)
Section calls.
Context {O R S T : Type} (ok : O → Prop) (rep : S → T → Prop).
Context (f : O → S → option (R * S)) (g : O → T → R * T).

Fixpoint code_calls (os : list O) (s : S) : option (list R * S) :=
  match os with
  | [] => Some ([], s)
  | o :: os' => '(r, s) ← f o s; '(rs, s) ← code_calls os' s; Some (r :: rs, s)
  end.

Fixpoint spec_calls (os : list O) (t : T) : list R * T :=
  match os with
  | [] => ([], t)
  | o :: os' => let '(r, t) := g o t in let '(rs, t) := spec_calls os' t in (r :: rs, t)
  end.

(** One call simulated is every sequence of calls simulated. *)
Lemma calls_simulate os s t :
  (∀ o s t, ok o → rep s t → ∃ s', f o s = Some ((g o t).1, s') ∧ rep s' (g o t).2) →
  Forall ok os → rep s t →
  ∃ s', code_calls os s = Some ((spec_calls os t).1, s') ∧ rep s' (spec_calls os t).2.
Proof.
  intros Hstep Hos. revert s t. induction Hos as [|o os Ho _ IH]; intros s t Hr; simpl; [eauto|].
  destruct (Hstep o s t Ho Hr) as (s1 & -> & Hr1). destruct (g o t) as [r t1]. simpl in *.
  destruct (IH s1 t1 Hr1) as (s2 & -> & Hr2). destruct (spec_calls os t1) as [rs t2]. simpl. eauto.
Qed.

(** An undefined call leaves the sequence undefined. *)
Lemma calls_undefined os o os' s rs s' :
  code_calls os s = Some (rs, s') → f o s' = None → code_calls (os ++ o :: os') s = None.
Proof.
  revert s rs. induction os as [|o1 os IH]; intros s rs; simpl; [by intros [= _ ->] ->|].
  destruct (f o1 s) as [[r s1]|]; [|done]. simpl. intros E Ho.
  destruct (code_calls os s1) as [[rs1 s2]|] eqn:E1; [|done]. simpl in E. injection E as _ ->.
  by rewrite (IH s1 rs1).
Qed.
End calls.

(** ** Invariants of computations

    [preserves I m]: a run of [m] that returns keeps [I].  The rules follow the
    code, so such an invariant needs no description of the result. *)
Definition preserves {S A} (I : S → Prop) (m : M S A) : Prop :=
  ∀ s a s', m s = Some (a, s') → I s → I s'.

Create HintDb preserves.

Section preserves.
Context {St : Type} (I : St → Prop).

Lemma preserves_ret {A} (a : A) : preserves I (mret a).
Proof. intros s b s' [= _ <-]. done. Qed.
Lemma preserves_skip : preserves I skip.
Proof. apply preserves_ret. Qed.
Lemma preserves_undef {A} : preserves I (undef (A := A)).
Proof. done. Qed.
Lemma preserves_bind {A B} (m : M St A) (f : A → M St B) :
  preserves I m → (∀ a, preserves I (f a)) → preserves I (m ≫= f).
Proof.
  intros Hm Hf s b s' E Hs. apply bind_Some in E as ([a s1] & E & E').
  by eapply Hf; [exact E'|eapply Hm].
Qed.
Lemma preserves_try_get {A} (f : St → option A) : preserves I (try_get f).
Proof. intros s a s' E. apply bind_Some in E as (b & _ & [= _ <-]). done. Qed.
Lemma preserves_gets {A} (f : St → A) : preserves I (gets f).
Proof. intros s a s' [= _ <-]. done. Qed.
Lemma preserves_modify (f : St → St) : (∀ s, I s → I (f s)) → preserves I (modify f).
Proof. intros Hf s a s' [= _ <-]. apply Hf. Qed.
Lemma preserves_zoom {T A} (p : St → T) (put : T → St → St) (m : M T A) :
  (∀ s a t, m (p s) = Some (a, t) → I s → I (put t s)) → preserves I (zoom p put m).
Proof. intros Hm s a s' E. apply bind_Some in E as ([b t] & E & [= _ <-]). by eapply Hm. Qed.
Lemma preserves_for n i (m : nat → M St unit) :
  (∀ j, preserves I (m j)) → preserves I (for_M n i m).
Proof.
  intros Hm. revert i. induction n as [|n IH]; intros i; [apply preserves_ret|].
  apply preserves_bind; [done|]. intros _. apply IH.
Qed.
End preserves.
#[export] Hint Resolve preserves_ret preserves_skip preserves_undef preserves_try_get preserves_gets : preserves.

(** Follow the code: sequences, branches, the known computations. *)
Ltac preserves :=
  repeat first
    [ solve [auto with preserves]
    | apply preserves_bind; [|intros ?]
    | apply preserves_for; intros ?
    | match goal with
      | |- preserves _ (if ?b then _ else _) => destruct b
      | |- preserves _ (match ?x with _ => _ end) => destruct x
      end ].
