(* ===== verification/CInt.v ===== *)
(** * Machine integers and bit-fields

    Unsigned machine integers are [Z] values with their wrap-around written
    out.  A bit-field [BF word low width] is read and assigned in the list of
    words of its structure. *)
From S2P Require Import Prelude.

(** ** Fixed-width unsigned integers *)
Definition wrap (w x : Z) : Z := x mod 2 ^ w.
Definition u8 (x : Z) : Z := wrap 8 x.
Definition u16 (x : Z) : Z := wrap 16 x.
Definition u32 (x : Z) : Z := wrap 32 x.
Definition u64 (x : Z) : Z := wrap 64 x.

Definition is_u (w x : Z) : Prop := 0 ≤ x < 2 ^ w.

Lemma wrap_small w x : is_u w x → wrap w x = x.
Proof. unfold is_u, wrap. intros. by apply Z.mod_small. Qed.

Lemma wrap_is_u w x : 0 ≤ w → is_u w (wrap w x).
Proof. intros. unfold is_u, wrap. apply Z.mod_pos_bound. lia. Qed.

Lemma wrap_wrap w x : 0 ≤ w → wrap w (wrap w x) = wrap w x.
Proof. intros. by apply wrap_small, wrap_is_u. Qed.

Lemma u8_small x : 0 ≤ x < 256 → u8 x = x.
Proof. intros. by apply wrap_small. Qed.
Lemma u16_small x : 0 ≤ x < 65536 → u16 x = x.
Proof. intros. by apply wrap_small. Qed.
Lemma u32_small x : 0 ≤ x < 4294967296 → u32 x = x.
Proof. intros. by apply wrap_small. Qed.

Lemma u8_range x : 0 ≤ u8 x < 256.
Proof. by apply (wrap_is_u 8). Qed.
Lemma u16_range x : 0 ≤ u16 x < 65536.
Proof. by apply (wrap_is_u 16). Qed.
Lemma u32_range x : 0 ≤ u32 x < 4294967296.
Proof. by apply (wrap_is_u 32). Qed.

Lemma u32_add_l x y : u32 (u32 x + y) = u32 (x + y).
Proof. unfold u32, wrap. by rewrite Zplus_mod_idemp_l. Qed.

Create Rewrite HintDb emu_int.
#[export] Hint Resolve u8_range u16_range u32_range : emu.
#[export] Hint Rewrite u8_small u16_small u32_small using lia : emu_int.

(** ** Bit-level reasoning *)
Create Rewrite HintDb emu_bits.
#[export] Hint Rewrite Z.land_spec Z.lor_spec Z.ldiff_spec Z.lxor_spec : emu_bits.
#[export] Hint Rewrite Z.shiftl_spec Z.shiftr_spec Z.lnot_spec using lia : emu_bits.
#[export] Hint Rewrite Z.testbit_0_l : emu_bits.

Lemma testbit_ones w i : 0 ≤ w → Z.testbit (Z.ones w) i = bool_decide (0 ≤ i < w).
Proof.
  intros. case_bool_decide.
  - by apply Z.ones_spec_low.
  - destruct (decide (i < 0)); [by apply Z.testbit_neg_r|]. apply Z.ones_spec_high. lia.
Qed.

Lemma testbit_high w x i : is_u w x → w ≤ i → Z.testbit x i = false.
Proof.
  intros [? ?] ?. destruct (decide (0 ≤ w)); [|assert (2 ^ w = 0) by
    (apply Z.pow_neg_r; lia); lia].
  rewrite <- (Z.mod_small x (2 ^ w)) by lia. by apply Z.mod_pow2_bits_high.
Qed.

(** A non-negative number whose bits from [w] up are clear is below [2^w]. *)
Lemma is_u_of_bits w x :
  0 ≤ w → 0 ≤ x → (∀ i, w ≤ i → Z.testbit x i = false) → is_u w x.
Proof.
  intros Hw Hx Hb. split; [done|].
  assert (x = x mod 2 ^ w) as ->; [|apply Z.mod_pos_bound; lia].
  rewrite <- Z.land_ones by done. apply Z.bits_inj'. intros i ?.
  rewrite Z.land_spec, testbit_ones by done. case_bool_decide; [by rewrite andb_true_r|].
  rewrite andb_false_r. apply Hb. lia.
Qed.

Lemma wrap_bit w x i : 0 ≤ w → 0 ≤ i → Z.testbit (wrap w x) i = bool_decide (i < w) && Z.testbit x i.
Proof.
  intros. unfold wrap. rewrite <- Z.land_ones, Z.land_spec, testbit_ones, andb_comm by done. f_equal.
  apply bool_decide_ext. lia.
Qed.

(** The bit operations stay within a width. *)
Section width.
Context (w : Z) (Hw : 0 ≤ w).
Implicit Types x y : Z.

Lemma land_is_u x y : is_u w x → is_u w y → is_u w (Z.land x y).
Proof.
  intros Hx Hy. apply is_u_of_bits; [done|apply Z.land_nonneg; left; apply Hx|].
  intros i Hi. rewrite Z.land_spec. by rewrite (testbit_high w x i) by done.
Qed.
Lemma lor_is_u x y : is_u w x → is_u w y → is_u w (Z.lor x y).
Proof.
  intros Hx Hy. apply is_u_of_bits; [done|apply Z.lor_nonneg; split; [apply Hx|apply Hy]|].
  intros i Hi. by rewrite Z.lor_spec, !(testbit_high w) by done.
Qed.
Lemma lxor_is_u x y : is_u w x → is_u w y → is_u w (Z.lxor x y).
Proof.
  intros Hx Hy. apply is_u_of_bits; [done| |].
  - apply Z.lxor_nonneg. split; intros _; [apply Hy|apply Hx].
  - intros i Hi. by rewrite Z.lxor_spec, !(testbit_high w) by done.
Qed.
Lemma shiftr_is_u x b : 0 ≤ b → is_u w x → is_u w (Z.shiftr x b).
Proof.
  intros Hb Hx. apply is_u_of_bits; [done|apply Z.shiftr_nonneg, Hx|].
  intros i Hi. rewrite Z.shiftr_spec by lia. apply (testbit_high w); [done|lia].
Qed.
Lemma ones_is_u n : 0 ≤ n ≤ w → is_u w (Z.ones n).
Proof.
  intros. apply is_u_of_bits; [done| |].
  - rewrite Z.ones_equiv. pose proof (Z.pow_pos_nonneg 2 n). lia.
  - intros i Hi. rewrite testbit_ones by lia. apply bool_decide_eq_false. lia.
Qed.
End width.

(** ** Bit-fields *)
Definition get_bits (x lo w : Z) : Z := Z.land (Z.shiftr x lo) (Z.ones w).
Definition set_bits (x lo w v : Z) : Z :=
  Z.lor (Z.ldiff x (Z.shiftl (Z.ones w) lo)) (Z.shiftl (Z.land v (Z.ones w)) lo).

Lemma get_bits_spec x lo w i :
  0 ≤ lo → 0 ≤ w → 0 ≤ i →
  Z.testbit (get_bits x lo w) i = Z.testbit x (i + lo) && bool_decide (i < w).
Proof.
  intros. unfold get_bits. autorewrite with emu_bits.
  rewrite testbit_ones by done. f_equal. apply bool_decide_ext. lia.
Qed.

Lemma set_bits_spec x lo w v i :
  0 ≤ lo → 0 ≤ w → 0 ≤ i →
  Z.testbit (set_bits x lo w v) i =
    if decide (lo ≤ i < lo + w) then Z.testbit v (i - lo) else Z.testbit x i.
Proof.
  intros. unfold set_bits. autorewrite with emu_bits. rewrite !testbit_ones by done.
  case_decide.
  - rewrite bool_decide_true by lia. by rewrite andb_false_r, orb_false_l, andb_true_r.
  - rewrite bool_decide_false by lia.
    by rewrite andb_true_r, andb_false_r, orb_false_r.
Qed.

Lemma get_set_bits_same x lo w v :
  0 ≤ lo → 0 ≤ w → get_bits (set_bits x lo w v) lo w = wrap w v.
Proof.
  intros. unfold wrap. rewrite <- Z.land_ones by done.
  apply Z.bits_inj'. intros i ?.
  rewrite get_bits_spec, set_bits_spec, Z.land_spec, testbit_ones by lia.
  destruct (decide (i < w)).
  - rewrite decide_True, !bool_decide_true by lia. do 2 f_equal. lia.
  - rewrite !(bool_decide_false (_ < _)), bool_decide_false by lia.
    by rewrite !andb_false_r.
Qed.

Lemma get_set_bits_other x lo w v lo' w' :
  0 ≤ lo → 0 ≤ w → 0 ≤ lo' → 0 ≤ w' → lo + w ≤ lo' ∨ lo' + w' ≤ lo →
  get_bits (set_bits x lo w v) lo' w' = get_bits x lo' w'.
Proof.
  intros. apply Z.bits_inj'. intros i ?.
  rewrite !get_bits_spec, set_bits_spec by lia.
  destruct (decide (i < w')); [|by rewrite !bool_decide_false, !andb_false_r by lia].
  by rewrite decide_False by lia.
Qed.

Lemma get_bits_range x lo w : 0 ≤ lo → 0 ≤ w → is_u w (get_bits x lo w).
Proof. intros. unfold get_bits. rewrite Z.land_ones by done. by apply wrap_is_u. Qed.

Lemma get_bits_0 x w : 0 ≤ w → get_bits x 0 w = wrap w x.
Proof. intros. unfold get_bits. by rewrite Z.shiftr_0_r, Z.land_ones. Qed.

Lemma get_bits_div_mod x lo w :
  0 ≤ lo → 0 ≤ w → get_bits x lo w = (x / 2 ^ lo) mod 2 ^ w.
Proof. intros. unfold get_bits. by rewrite Z.land_ones, Z.shiftr_div_pow2 by done. Qed.

Lemma set_bits_is_u n x lo w v :
  0 ≤ lo → 0 ≤ w → lo + w ≤ n → is_u n x → is_u n (set_bits x lo w v).
Proof.
  intros ? ? ? Hx. apply is_u_of_bits; [lia| |].
  - unfold set_bits. apply Z.lor_nonneg. split.
    + apply Z.ldiff_nonneg. left. apply Hx.
    + apply Z.shiftl_nonneg, Z.land_nonneg. right. rewrite Z.ones_equiv.
      assert (0 < 2 ^ w) by lia. lia.
  - intros i ?. rewrite set_bits_spec by lia. rewrite decide_False by lia.
    by apply (testbit_high n).
Qed.

(** ** Bit-fields of a union over 32-bit words *)
Record bitfield := BF { bf_word : nat; bf_lo : Z; bf_width : Z }.

Definition bf_get (f : bitfield) (e : list Z) : Z :=
  get_bits (default 0 (e !! bf_word f)) (bf_lo f) (bf_width f).
Definition bf_set (f : bitfield) (v : Z) (e : list Z) : list Z :=
  <[bf_word f := set_bits (default 0 (e !! bf_word f)) (bf_lo f) (bf_width f) v]> e.

Definition bf_ok (n : nat) (f : bitfield) : Prop :=
  (bf_word f < n)%nat ∧ 0 ≤ bf_lo f ∧ 0 ≤ bf_width f ∧ bf_lo f + bf_width f ≤ 32.
Definition bf_disjoint (f g : bitfield) : Prop :=
  bf_word f ≠ bf_word g ∨ bf_lo f + bf_width f ≤ bf_lo g ∨ bf_lo g + bf_width g ≤ bf_lo f.

#[export] Instance bf_ok_dec n f : Decision (bf_ok n f).
Proof. unfold bf_ok. apply _. Defined.
#[export] Instance bf_disjoint_dec f g : Decision (bf_disjoint f g).
Proof. unfold bf_disjoint. apply _. Defined.

Lemma bf_set_length f v e : length (bf_set f v e) = length e.
Proof. apply length_insert. Qed.

Lemma bf_get_set_same f v e :
  bf_ok (length e) f → bf_get f (bf_set f v e) = wrap (bf_width f) v.
Proof.
  intros (? & ? & ? & ?). unfold bf_get, bf_set.
  rewrite list_lookup_insert_eq by done. by apply get_set_bits_same.
Qed.

Lemma bf_get_set_other f g v e :
  bf_ok (length e) f → bf_ok (length e) g → bf_disjoint f g →
  bf_get g (bf_set f v e) = bf_get g e.
Proof.
  intros (? & ? & ? & ?) (? & ? & ? & ?) Hd. unfold bf_get, bf_set.
  destruct (decide (bf_word f = bf_word g)) as [E|Hne].
  - rewrite <- E, list_lookup_insert_eq by done. simpl.
    apply get_set_bits_other; try done. destruct Hd; [congruence|done].
  - by rewrite list_lookup_insert_ne.
Qed.
