(* ===== verification/Bitmap.v ===== *)
(** * Allocation bitmaps

    The pattern shared by the host-command table (src/hcl/hcl.c) and the
    submission-queue entries (src/fcl/fcl.c): a bitmap of 32-bit words in
    which the lowest clear bit is the slot handed out.  [SlotAllocator] is the
    interface the FTL relies on; [Hcl] and [Fcl] discharge it. *)
From S2P Require Import Prelude CInt.

(** ** Single words *)

(** [((w & (1 << j)) >> j) == 0] *)
Definition bit_clear (w j : Z) : bool :=
  Z.shiftr (Z.land w (u32 (Z.shiftl 1 j))) j =? 0.
(** [w | (1 << j)] *)
Definition bit_set (w j : Z) : Z := Z.lor w (u32 (Z.shiftl 1 j)).
(** [w & ~(1 << j)] *)
Definition bit_unset (w j : Z) : Z := Z.land w (u32 (Z.lnot (Z.shiftl 1 j))).

Lemma u32_shiftl_1 j : 0 ≤ j < 32 → u32 (Z.shiftl 1 j) = 2 ^ j.
Proof.
  intros. rewrite Z.shiftl_1_l. apply u32_small. split; [lia|].
  change 4294967296 with (2 ^ 32). apply Z.pow_lt_mono_r; lia.
Qed.

Lemma bit_clear_spec w j : 0 ≤ j < 32 → bit_clear w j = negb (Z.testbit w j).
Proof.
  intros. unfold bit_clear. rewrite u32_shiftl_1 by done.
  destruct (Z.testbit w j) eqn:E; simpl.
  - apply Z.eqb_neq. intros Hz. apply (f_equal (λ x, Z.testbit x 0)) in Hz.
    autorewrite with emu_bits in Hz. rewrite Z.add_0_l, Z.pow2_bits_true, E in Hz by lia. done.
  - apply Z.eqb_eq, Z.bits_inj'. intros i ?. autorewrite with emu_bits.
    destruct (decide (i = 0)) as [->|]; [by rewrite Z.add_0_l, E|].
    rewrite Z.pow2_bits_false by lia. by rewrite andb_false_r.
Qed.

Lemma bit_set_spec w j i :
  0 ≤ j < 32 → 0 ≤ i → Z.testbit (bit_set w j) i = bool_decide (i = j) || Z.testbit w i.
Proof.
  intros. unfold bit_set. rewrite u32_shiftl_1, Z.lor_spec by done. rewrite orb_comm.
  f_equal. case_bool_decide; subst; [apply Z.pow2_bits_true; lia|apply Z.pow2_bits_false; lia].
Qed.

Lemma bit_unset_spec w j i :
  0 ≤ j < 32 → 0 ≤ i < 32 →
  Z.testbit (bit_unset w j) i = negb (bool_decide (i = j)) && Z.testbit w i.
Proof.
  intros. unfold bit_unset, u32, wrap. rewrite Z.shiftl_1_l, <- Z.land_ones by done.
  autorewrite with emu_bits. rewrite testbit_ones, (bool_decide_true (0 ≤ i < 32)) by lia.
  rewrite andb_true_r, andb_comm. f_equal. case_bool_decide; subst.
  - by rewrite Z.pow2_bits_true by lia.
  - by rewrite Z.pow2_bits_false by lia.
Qed.

Lemma bit_set_is_u w j : 0 ≤ j < 32 → is_u 32 w → is_u 32 (bit_set w j).
Proof.
  intros ? Hw. apply is_u_of_bits; [done| |].
  - unfold bit_set. apply Z.lor_nonneg. rewrite u32_shiftl_1 by done. destruct Hw. lia.
  - intros i ?. rewrite bit_set_spec, bool_decide_false by lia. by apply (testbit_high 32).
Qed.

Lemma bit_unset_is_u w j : is_u 32 w → is_u 32 (bit_unset w j).
Proof.
  intros Hw. apply is_u_of_bits; [done| |].
  - unfold bit_unset. apply Z.land_nonneg. left. apply Hw.
  - intros i ?. unfold bit_unset. by rewrite Z.land_spec, (testbit_high 32 w).
Qed.

(** ** The scan

    [find_bit] is the loop over [j], [find_word] the loop over the words. *)
Fixpoint find_bit (n : nat) (j w : Z) : option Z :=
  match n with
  | O => None
  | S n' => if bit_clear w j then Some j else find_bit n' (j + 1) w
  end.

Fixpoint find_word (i : Z) (ws : list Z) : option (Z * Z) :=
  match ws with
  | [] => None
  | w :: ws' =>
      match find_bit 32 0 w with
      | Some j => Some (i, j)
      | None => find_word (i + 1) ws'
      end
  end.

Lemma find_bit_spec n j w :
  0 ≤ j → j + Z.of_nat n ≤ 32 →
  match find_bit n j w with
  | Some k => j ≤ k < j + Z.of_nat n ∧ Z.testbit w k = false ∧
              ∀ i, j ≤ i < k → Z.testbit w i = true
  | None => ∀ i, j ≤ i < j + Z.of_nat n → Z.testbit w i = true
  end.
Proof.
  revert j. induction n as [|n IH]; intros j Hj Hn; simpl; [intros; lia|].
  rewrite bit_clear_spec by lia. destruct (Z.testbit w j) eqn:E; simpl.
  - specialize (IH (j + 1) ltac:(lia) ltac:(lia)). destruct (find_bit n (j + 1) w).
    + destruct IH as (? & ? & Hb). split_and!; [lia|lia|done|]. intros i ?.
      destruct (decide (i = j)) as [->|]; [done|]. apply Hb. lia.
    + intros i ?. destruct (decide (i = j)) as [->|]; [done|]. apply IH. lia.
  - split_and!; [lia|lia|done|]. intros; lia.
Qed.

#[global] Arguments find_bit : simpl never.

(** ** The bitmap as a set of slot numbers *)
Definition bm_bit (ws : list Z) (k : nat) : bool :=
  match ws !! (k / 32)%nat with
  | Some w => Z.testbit w (Z.of_nat (k mod 32))
  | None => false
  end.

Lemma bm_bit_cons_lt w ws k : (k < 32)%nat → bm_bit (w :: ws) k = Z.testbit w (Z.of_nat k).
Proof. intros. unfold bm_bit. by rewrite Nat.div_small, Nat.mod_small. Qed.

Lemma bm_bit_cons_ge w ws k : (32 ≤ k)%nat → bm_bit (w :: ws) k = bm_bit ws (k - 32).
Proof.
  intros. unfold bm_bit.
  assert (k / 32 = S ((k - 32) / 32))%nat as -> by dlia.
  by assert (k mod 32 = (k - 32) mod 32)%nat as -> by dlia.
Qed.

Lemma find_word_spec i ws :
  0 ≤ i →
  match find_word i ws with
  | Some (a, j) => i ≤ a < i + Z.of_nat (length ws) ∧ 0 ≤ j < 32 ∧
      bm_bit ws (Z.to_nat (32 * (a - i) + j)) = false ∧
      ∀ k, Z.of_nat k < 32 * (a - i) + j → bm_bit ws k = true
  | None => ∀ k, (k < 32 * length ws)%nat → bm_bit ws k = true
  end.
Proof.
  revert i. induction ws as [|w ws IH]; intros i Hi; simpl; [intros; lia|].
  pose proof (find_bit_spec 32 0 w ltac:(lia) ltac:(lia)) as Hb.
  destruct (find_bit 32 0 w) as [j|].
  - destruct Hb as (? & Hc & Hb). rewrite Z.sub_diag. split_and!; [lia..| |].
    + rewrite bm_bit_cons_lt by lia. rewrite Z2Nat.id by lia. done.
    + intros k ?. rewrite bm_bit_cons_lt by lia. apply Hb. lia.
  - specialize (IH (i + 1) ltac:(lia)). destruct (find_word (i + 1) ws) as [[a j]|].
    + destruct IH as (? & ? & Hc & Hk). split_and!; [lia..| |].
      * rewrite bm_bit_cons_ge by lia. rewrite <- Hc. f_equal. lia.
      * intros k ?. destruct (decide (k < 32)%nat).
        -- rewrite bm_bit_cons_lt by lia. apply Hb. lia.
        -- rewrite bm_bit_cons_ge by lia. apply Hk. lia.
    + intros k ?. destruct (decide (k < 32)%nat).
      * rewrite bm_bit_cons_lt by lia. apply Hb. lia.
      * rewrite bm_bit_cons_ge by lia. apply IH. lia.
Qed.

(** Setting or clearing bit [j] of word [a] changes slot [32 * a + j] only. *)
Definition bm_upd (f : Z → Z → Z) (ws : list Z) (a j : Z) : option (list Z) :=
  w ← zget ws a; zset ws a (f w j).

Lemma bm_upd_bit f (v : bool) ws a j ws' k :
  (∀ w i, 0 ≤ i < 32 → Z.testbit (f w j) i = if decide (i = j) then v else Z.testbit w i) →
  0 ≤ j < 32 → bm_upd f ws a j = Some ws' →
  bm_bit ws' k = if decide (Z.of_nat k = 32 * a + j) then v else bm_bit ws k.
Proof.
  intros Hf Hj H. unfold bm_upd in H. run_inv.
  match goal with H : zset _ _ _ = Some _ |- _ => apply zset_Some in H as [? ->] end.
  unfold zget in *. rewrite decide_True in * by lia.
  pose proof (Nat.div_mod_eq k 32). pose proof (Nat.mod_upper_bound k 32).
  unfold bm_bit. destruct (decide (k / 32 = Z.to_nat a)%nat) as [Ha|Ha].
  - rewrite Ha, list_lookup_insert_eq by lia.
    match goal with H : ws !! _ = Some _ |- _ => rewrite H end.
    rewrite Hf by lia. apply decide_ext. lia.
  - rewrite list_lookup_insert_ne by done. rewrite decide_False by lia. done.
Qed.

Lemma bm_upd_length f ws a j ws' : bm_upd f ws a j = Some ws' → length ws' = length ws.
Proof. unfold bm_upd. intros H. run_inv. by eapply zset_length. Qed.

Lemma bm_upd_is_Some f ws a j :
  0 ≤ a < Z.of_nat (length ws) → ∃ ws', bm_upd f ws a j = Some ws'.
Proof.
  intros. unfold bm_upd. destruct (zget_is_Some ws a) as [w ->]; [done|]. simpl.
  rewrite zset_is_Some by done. eauto.
Qed.

Lemma bm_upd_Forall f (P : Z → Prop) ws a j ws' :
  (∀ w, P w → P (f w j)) → Forall P ws → bm_upd f ws a j = Some ws' → Forall P ws'.
Proof.
  unfold bm_upd. intros Hf HP H. run_inv.
  match goal with H : zset _ _ _ = Some _ |- _ => apply zset_Some in H as [? ->] end.
  apply Forall_insert; [done|]. unfold zget in *. rewrite decide_True in * by lia.
  apply Hf. eapply (proj1 (Forall_lookup P ws)); eauto.
Qed.

(** ** The allocator interface

    What a bitmap-managed table promises to its clients: it hands out the
    lowest free slot below its capacity, changes no other slot, and reports
    exhaustion only when every slot is taken. *)
Class SlotAllocator {St : Type} (cap : nat) (wf : St → Prop) (used : St → nat → bool)
    (alloc : St → option (option nat * St)) (free : nat → St → option St) : Prop := {
  sa_alloc s :
    wf s → ∃ r s', alloc s = Some (r, s') ∧ wf s' ∧
      match r with
      | Some k => (k < cap)%nat ∧ used s k = false ∧
                  (∀ j, (j < k)%nat → used s j = true) ∧
                  (∀ j, (j < cap)%nat → used s' j = bool_decide (j = k) || used s j)
      | None => s' = s ∧ ∀ j, (j < cap)%nat → used s j = true
      end;
  sa_free s k :
    wf s → (k < cap)%nat → ∃ s', free k s = Some s' ∧ wf s' ∧
      ∀ j, (j < cap)%nat → used s' j = negb (bool_decide (j = k)) && used s j;
}.

Section allocator_client.
Context {St : Type} (cap : nat) (wf : St → Prop) (used : St → nat → bool)
        (alloc : St → option (option nat * St)) (free : nat → St → option St)
        `{!SlotAllocator cap wf used alloc free}.

(** [n] allocations in a row; the list stops growing when the table is full. *)
Fixpoint alloc_n (n : nat) (s : St) : option (list nat * St) :=
  match n with
  | O => Some ([], s)
  | S n' =>
      '(r, s1) ← alloc s;
      match r with
      | None => Some ([], s1)
      | Some k => '(ks, s2) ← alloc_n n' s1; Some (k :: ks, s2)
      end
  end.

Lemma alloc_n_spec n s :
  wf s → ∃ ks s', alloc_n n s = Some (ks, s') ∧ wf s' ∧ NoDup ks ∧
    (∀ k, k ∈ ks → (k < cap)%nat ∧ used s k = false) ∧
    (∀ j, (j < cap)%nat → used s' j = bool_decide (j ∈ ks) || used s j) ∧
    (length ks < n → ∀ j, j < cap → used s' j = true)%nat.
Proof.
  revert s. induction n as [|n IH]; intros s Hs; simpl.
  - exists [], s. split_and!; try done; [constructor|by intros ? ?%elem_of_nil|lia].
  - destruct (sa_alloc (alloc := alloc) (free := free) s Hs) as (r & s1 & -> & Hs1 & Hr).
    destruct r as [k|]; simpl.
    + destruct Hr as (Hk & Hu & _ & Hset).
      destruct (IH s1 Hs1) as (ks & s2 & -> & Hs2 & Hnd & Hfr & Hset2 & Hfull).
      exists (k :: ks), s2. simpl. split_and!; [done|done| | | |intros ?; apply Hfull; lia].
      * constructor; [|done]. intros [_ Hx]%Hfr. rewrite Hset in Hx by done.
        by rewrite bool_decide_true in Hx by done.
      * intros k' [->|Hk']%elem_of_cons; [done|]. destruct (Hfr k' Hk') as [? Hx].
        split; [done|]. rewrite Hset in Hx by done. by apply orb_false_iff in Hx as [_ ?].
      * intros j Hj. rewrite Hset2, Hset by done. rewrite orb_assoc. f_equal.
        rewrite <- bool_decide_or. apply bool_decide_ext. set_solver.
    + destruct Hr as [-> Hfull]. exists [], s.
      split_and!; try done; [constructor|by intros ? ?%elem_of_nil].
Qed.
End allocator_client.
