(* ===== verification/Config.v ===== *)
(** * Build configuration and memory map

    The constants of src/config/config.h, the DRAM layout of
    src/config/mem.h, the register windows of src/config/reg.h and the base
    address computation of src/emu/emu_main.c. *)
From S2P Require Import Prelude CInt.

Definition KB : Z := Z.shiftl 1 10.
Definition MB : Z := Z.shiftl 1 20.
Definition GB : Z := Z.shiftl 1 30.

(** Polls of the host interface in one turn (src/ftl/ftl_nvme.h). *)
Definition MAX_POLLING_NUM : nat := 8.

(** ** Flash geometry *)
Definition TOTAL_CHANNEL : Z := 4.
Definition NORMAL_CHANNEL : list Z := [1; 1; 1; 1].
Definition PAGE_PER_BLOCK_SLC_MODE : Z := 384.
Definition BLOCK_PER_PLANE : Z := 1006.
Definition PAGE_PER_BLOCK : Z := 384.
Definition PAGE_SIZE : Z := 4 * 4096.
Definition TU_SIZE : Z := 4096.
Definition PLANE_PER_LUN : Z := 2.
Definition PLANE_PER_CE : Z := 2.
Definition LUN_PER_CE : Z := 1.
Definition CE_PER_CH : Z := 8.
Definition CH_PER_BOARD : Z := 4.
Definition TOTAL_BOARD : Z := 1.
Definition TOTAL_CH : Z := TOTAL_BOARD * CH_PER_BOARD.
Definition TOTAL_CE : Z := TOTAL_CH * CE_PER_CH.
Definition TOTAL_LUN : Z := TOTAL_CE * LUN_PER_CE.
Definition TOTAL_PLANE : Z := TOTAL_LUN * PLANE_PER_LUN.
Definition TOTAL_BLOCK : Z := TOTAL_PLANE * BLOCK_PER_PLANE.
Definition TOTAL_PAGE : Z := TOTAL_BLOCK * PAGE_PER_BLOCK.
Definition PAGE_PER_ROW : Z :=
  PAGE_PER_BLOCK * PLANE_PER_LUN * LUN_PER_CE * CE_PER_CH * TOTAL_BOARD * CH_PER_BOARD.

(** ** Tables and markers *)
Definition BUFFER_NUMBER : Z := 1500.
Definition HW_QUEUE_DEPTH : Z := 256.
Definition INVALID_INDEX : Z := 0xffffffff.
Definition INVALID_ID : Z := 0xffffffff.

(** ** DRAM layout, relative to [mem_base] *)
Section memory_map.
Context (mem_base : Z).

Definition SPIN_LOCK_SZ : Z := 4.
Definition GLOBAL_SPIN_LOCK_1_ADDR : Z := mem_base + 5 * MB.
Definition CH_SQ_SPIN_LOCK : Z := GLOBAL_SPIN_LOCK_1_ADDR + 1 * SPIN_LOCK_SZ.
Definition TQ_FROMCQ_SPIN_LOCK : Z := CH_SQ_SPIN_LOCK + TOTAL_CHANNEL * SPIN_LOCK_SZ.

Definition SQ_ENTRY_SZ_PER_CHANNEL : Z := 4 * KB.
Definition SQ_BITMAP_SZ_PER_CHANNEL : Z := 32.
Definition HW_CH_SQ_ENTRY_ADDR : Z := mem_base + 6 * MB.
Definition HW_CH_SQ_BITMAP_ADDR : Z :=
  HW_CH_SQ_ENTRY_ADDR + TOTAL_CHANNEL * SQ_ENTRY_SZ_PER_CHANNEL.
Definition CQ_ENTRY_SZ_PER_CHANNEL : Z := 4 * KB.
Definition HW_CH_CQ_ENTRY_ADDR : Z := mem_base + 7 * MB.
Definition HCMD_BASE_ADDR : Z := mem_base + 8 * MB.
Definition FTL_TASK_Q : Z := mem_base + 9 * MB.
Definition BUFFER_ENTRY_BASE_ADDR : Z := mem_base + 500 * MB.
Definition BUFFER_BASE_ADDR : Z := mem_base + 600 * MB.
Definition HASH_TABLE_BASE_ADDR : Z := mem_base + 750 * MB.
Definition HCMD_BUFFER_TABLE_BASE_ADDR : Z := mem_base + 800 * MB.
End memory_map.

(** Flash-controller register windows, relative to [fcl_base] (src/config/reg.h). *)
Section register_map.
Context (fcl_base : Z).
Definition FCTL_BASE_ADDR : Z := fcl_base.
Definition FCTL_BASE_SYS_REG : Z := FCTL_BASE_ADDR + 0x00000000.
Definition FCTL_BASE_SWQ_CMD_SRAM : Z := FCTL_BASE_ADDR + 0x00100000.
Definition FCTL_BASE_SWQ_SDR_SRAM : Z := FCTL_BASE_ADDR + 0x00200000.
Definition FCTL_BASE_SWQ_DDR_SRAM : Z := FCTL_BASE_ADDR + 0x00300000.
Definition FLASH_CTL_QUEUE_SZ_PER_CH : Z := 1 * MB.
Definition FLASH_CTL_REG_SZ_PER_CH : Z := 1 * MB.
Definition FCTL_SZ_PER_CH : Z := FLASH_CTL_QUEUE_SZ_PER_CH + FLASH_CTL_REG_SZ_PER_CH.
Definition FCTL_CH_REG_BASE_ADDR : Z := FCTL_BASE_ADDR + 0x00800000.
Definition FCTL_CH_QUEUE_BASE_ADDR : Z := FCTL_BASE_ADDR + 0x00900000.
End register_map.

(** ** Aligning an allocation to 16 KB

    [((((u32)(p)) >> 14) << 14) + 16 * KB], applied to the result [p] of
    [malloc(size + 16 * KB)] for DRAM (main) and for the flash controller
    (FCL_init_flash_controller). *)
Definition align_16K (p : Z) : Z :=
  u32 (u32 (Z.shiftl (Z.shiftr (u32 p) 14) 14) + 16 * KB).

Lemma align_16K_spec p size :
  0 ≤ size → 0 ≤ p → p + size + 16 * KB < 2 ^ 32 →
  align_16K p mod (16 * KB) = 0 ∧
  p < align_16K p ∧ align_16K p + size ≤ p + (size + 16 * KB).
Proof.
  change (16 * KB) with 16384. change (2 ^ 32) with 4294967296. intros.
  assert (align_16K p = p / 16384 * 16384 + 16384) as ->; [|split_and!; dlia].
  unfold align_16K. rewrite (u32_small p) by lia.
  rewrite Z.shiftl_mul_pow2, Z.shiftr_div_pow2 by lia.
  change (2 ^ 14) with 16384. change (16 * KB) with 16384.
  rewrite (u32_small (_ * _)) by dlia. apply u32_small. dlia.
Qed.

(** ** The regions in use

    Start and size in bytes of every table the firmware places in the
    simulated DRAM; sizes are those of the C structures on a 32-bit target. *)
Definition dram_regions (mem_base : Z) : list (Z * Z) :=
  [ (GLOBAL_SPIN_LOCK_1_ADDR mem_base, SPIN_LOCK_SZ);
    (CH_SQ_SPIN_LOCK mem_base, TOTAL_CHANNEL * SPIN_LOCK_SZ);
    (TQ_FROMCQ_SPIN_LOCK mem_base, SPIN_LOCK_SZ);
    (HW_CH_SQ_ENTRY_ADDR mem_base, TOTAL_CHANNEL * SQ_ENTRY_SZ_PER_CHANNEL);
    (HW_CH_SQ_BITMAP_ADDR mem_base, TOTAL_CHANNEL * SQ_BITMAP_SZ_PER_CHANNEL);
    (HW_CH_CQ_ENTRY_ADDR mem_base, TOTAL_CHANNEL * CQ_ENTRY_SZ_PER_CHANNEL);
    (HCMD_BASE_ADDR mem_base, 256 * 64 + 256);
    (FTL_TASK_Q mem_base, 6 * 1036);
    (BUFFER_ENTRY_BASE_ADDR mem_base, BUFFER_NUMBER * 48);
    (BUFFER_BASE_ADDR mem_base, BUFFER_NUMBER * PAGE_SIZE);
    (HASH_TABLE_BASE_ADDR mem_base, 1000 * 8);
    (HCMD_BUFFER_TABLE_BASE_ADDR mem_base, 256 * (8 + 4 + 4)) ].

(** Consecutive regions do not overlap. *)
Fixpoint regions_from (lo hi : Z) (rs : list (Z * Z)) : Prop :=
  match rs with
  | [] => lo ≤ hi
  | (a, n) :: rs' => lo ≤ a ∧ 0 < n ∧ regions_from (a + n) hi rs'
  end.

Definition disjoint_range (r s : Z * Z) : Prop :=
  r.1 + r.2 ≤ s.1 ∨ s.1 + s.2 ≤ r.1.

Lemma regions_from_weaken lo lo' hi rs :
  lo' ≤ lo → regions_from lo hi rs → regions_from lo' hi rs.
Proof. destruct rs as [|[a n] rs]; simpl; [lia|]. intros ? (? & ? & ?). split_and!; [lia|done..]. Qed.

Lemma regions_from_le lo hi rs : regions_from lo hi rs → lo ≤ hi.
Proof.
  revert lo. induction rs as [|[a n] rs IH]; intros lo; simpl; [done|].
  intros (? & ? & ?%IH). lia.
Qed.

Lemma regions_from_elem lo hi rs r :
  regions_from lo hi rs → r ∈ rs → lo ≤ r.1 ∧ 0 < r.2 ∧ r.1 + r.2 ≤ hi.
Proof.
  revert lo. induction rs as [|[a n] rs IH]; intros lo H Hr; [by apply elem_of_nil in Hr|].
  destruct H as (? & ? & H). apply elem_of_cons in Hr as [->|Hr]; simpl.
  - split_and!; [done..|]. by eapply regions_from_le.
  - apply (IH lo); [|done]. apply (regions_from_weaken (a + n)); [lia|done].
Qed.

Lemma regions_from_disjoint lo hi rs i j r s :
  regions_from lo hi rs → rs !! i = Some r → rs !! j = Some s → i ≠ j → disjoint_range r s.
Proof.
  revert lo i j. induction rs as [|[a n] rs IH]; intros lo i j H Hi Hj Hne; [done|].
  destruct H as (? & ? & H). unfold disjoint_range in *.
  destruct i as [|i], j as [|j]; simplify_eq/=.
  - apply list_elem_of_lookup_2 in Hj. apply (regions_from_elem _ _ _ _ H) in Hj. lia.
  - apply list_elem_of_lookup_2 in Hi. apply (regions_from_elem _ _ _ _ H) in Hi. lia.
  - eapply IH; eauto.
Qed.

(** Every table lies inside the 1 GB allocation at [mem_base] and no two
    tables overlap. *)
Theorem dram_regions_disjoint mem_base i j r s :
  dram_regions mem_base !! i = Some r → dram_regions mem_base !! j = Some s → i ≠ j →
  mem_base ≤ r.1 ∧ r.1 + r.2 ≤ mem_base + 1 * GB ∧ disjoint_range r s.
Proof.
  assert (regions_from mem_base (mem_base + 1 * GB) (dram_regions mem_base)) as H.
  { simpl. unfold HW_CH_SQ_BITMAP_ADDR, HW_CH_SQ_ENTRY_ADDR, TQ_FROMCQ_SPIN_LOCK,
      CH_SQ_SPIN_LOCK, GLOBAL_SPIN_LOCK_1_ADDR, HW_CH_CQ_ENTRY_ADDR, HCMD_BASE_ADDR,
      FTL_TASK_Q, BUFFER_ENTRY_BASE_ADDR, BUFFER_BASE_ADDR, HASH_TABLE_BASE_ADDR,
      HCMD_BUFFER_TABLE_BASE_ADDR, SPIN_LOCK_SZ, TOTAL_CHANNEL, SQ_ENTRY_SZ_PER_CHANNEL,
      SQ_BITMAP_SZ_PER_CHANNEL, CQ_ENTRY_SZ_PER_CHANNEL, BUFFER_NUMBER, PAGE_SIZE,
      MB, GB, KB.
    change (Z.shiftl 1 10) with 1024. change (Z.shiftl 1 20) with 1048576.
    change (Z.shiftl 1 30) with 1073741824. repeat split; lia. }
  intros Hi Hj Hne. split_and!.
  - by apply list_elem_of_lookup_2, (regions_from_elem _ _ _ _ H) in Hi as (? & ? & ?).
  - by apply list_elem_of_lookup_2, (regions_from_elem _ _ _ _ H) in Hi as (? & ? & ?).
  - eapply regions_from_disjoint; eauto.
Qed.

(** The host command table (1) and the buffer list heads (4) of a concrete allocation. *)
Lemma dram_regions_disjoint_witness :
  let t := dram_regions 0x40000000 in
  let r := default (0, 0) (t !! 1%nat) in
  let s := default (0, 0) (t !! 4%nat) in
  0x40000000 ≤ r.1 ∧ r.1 + r.2 ≤ 0x40000000 + 1 * GB ∧ disjoint_range r s.
Proof.
  intros t r s. apply (dram_regions_disjoint 0x40000000 1 4 r s); [reflexivity|reflexivity|discriminate].
Defined.
