(* ===== verification/Bus.v ===== *)
(** * The register bus (src/emu/emu_io.h)

    [Bus] is what the register routines use: 32-bit reads and writes of an
    address.  In the emulator both are plain accesses to the allocated memory
    ([ram]); on the board they reach a device, whose documented behaviour is
    stated where a routine relies on it. *)
From S2P Require Import Prelude CInt Config.

Class Bus (St : Type) := {
  Xil_Out32 : Z → Z → M St unit;
  Xil_In32 : Z → M St Z;
}.

(** Addresses and values are [u32]. *)
Definition out32 {St} `{Bus St} (addr value : Z) : M St unit := Xil_Out32 (u32 addr) (u32 value).
Definition in32 {St} `{Bus St} (addr : Z) : M St Z := Xil_In32 (u32 addr).

#[global] Arguments out32 : simpl never.
#[global] Arguments in32 : simpl never.

(** Consecutive words, as the routines write them: [addr = addr + 4] after each. *)
Fixpoint out_words {St} `{Bus St} (addr : Z) (vs : list Z) : M St unit :=
  match vs with
  | [] => mret tt
  | v :: vs' => _ ← out32 addr v; out_words (addr + 4) vs'
  end.

(** ** Memory: the emulator's bus *)
Record ram := Ram { ram_lo : Z; ram_len : Z; ram_words : gmap Z Z }.
#[export] Instance ram_eta : Settable ram := λ r, Ram (ram_lo r) (ram_len r) (ram_words r).

(** A word inside the allocation. *)
Definition ram_ok (r : ram) (addr : Z) : Prop :=
  ram_lo r ≤ addr ∧ addr + 4 ≤ ram_lo r + ram_len r ∧ addr mod 4 = 0.
#[export] Instance ram_ok_dec r addr : Decision (ram_ok r addr).
Proof. unfold ram_ok. apply _. Defined.

Definition ram_get (r : ram) (addr : Z) : Z := default 0 (ram_words r !! addr).

#[export] Instance ram_bus : Bus ram := {|
  Xil_Out32 addr value r :=
    if decide (ram_ok r addr)
    then Some (tt, r <| ram_words := <[addr := value]> (ram_words r) |>) else None;
  Xil_In32 addr r := if decide (ram_ok r addr) then Some (ram_get r addr, r) else None;
|}.

Lemma ram_out r addr v :
  ram_ok r (u32 addr) →
  out32 addr v r = Some (tt, Ram (ram_lo r) (ram_len r) (<[u32 addr := u32 v]> (ram_words r))).
Proof. intros. unfold out32. simpl. by rewrite decide_True. Qed.

Lemma ram_in r addr : ram_ok r (u32 addr) → in32 addr r = Some (ram_get r (u32 addr), r).
Proof. intros. unfold in32. simpl. by rewrite decide_True. Qed.

(** The window of the flash controller: 16 MB at a 16 KB boundary. *)
Definition fcl_window (fcl_base : Z) (r : ram) : Prop :=
  ram_lo r = fcl_base ∧ ram_len r = 16 * MB ∧ fcl_base mod (16 * KB) = 0 ∧
  0 ≤ fcl_base ∧ fcl_base + 16 * MB ≤ 2 ^ 32.

Lemma fcl_window_ok fcl_base r off :
  fcl_window fcl_base r → 0 ≤ off → off + 4 ≤ 16 * MB → off mod 4 = 0 →
  ram_ok r (u32 (fcl_base + off)) ∧ u32 (fcl_base + off) = fcl_base + off.
Proof.
  change (16 * MB) with 16777216. change (2 ^ 32) with 4294967296.
  intros (Hlo & Hlen & Hal & H0 & Hb). change (16 * KB) with 16384 in Hal.
  change (16 * MB) with 16777216 in *. change (2 ^ 32) with 4294967296 in *. intros.
  rewrite u32_small by lia. split; [|done]. unfold ram_ok. rewrite Hlo, Hlen.
  split_and!; dlia.
Qed.

(** ** A recording bus: every write, in order; reads are answered with 0. *)
Record trace := Trace { writes : list (Z * Z) }.
#[export] Instance trace_bus : Bus trace := {|
  Xil_Out32 addr value t := Some (tt, Trace (writes t ++ [(addr, value)]));
  Xil_In32 addr t := Some (0, t);
|}.
