(* ===== verification/FlashLog.v ===== *)
(** * The flash log (BE_write_log and BE_read_log of src/emu/be/be.c)

    The emulated flash is one file: a text header of 58 bytes and 16 KB of data
    for each page write, appended.  The C library calls the code makes are
    modelled as documented: [fprintf] and [fscanf] interpret one format over
    bytes, [fseek] moves a position and fails below 0, [fread] copies what the
    file still has.  Bytes are integers below 256. *)
From Stdlib Require Import String Ascii.
From S2P Require Import Prelude CInt Config.
#[local] Open Scope Z_scope.

(** ** Formats *)
Inductive fitem := FChar (b : Z) | FU4.

Definition byte_of (a : ascii) : Z := Z.of_nat (nat_of_ascii a).
Definition newline : Z := 10.

(** ["...%4u..."] as items. *)
Fixpoint fmt_of (s : list ascii) : list fitem :=
  match s with
  | "%"%char :: "4"%char :: "u"%char :: s' => FU4 :: fmt_of s'
  | a :: s' => FChar (byte_of a) :: fmt_of s'
  | [] => []
  end.

(** ["\nch:%4u ce:%4u lun:%4u plane:%4u block:%4u page:%4u\n"] *)
Definition log_fmt : list fitem :=
  FChar newline ::
  fmt_of (list_ascii_of_string "ch:%4u ce:%4u lun:%4u plane:%4u block:%4u page:%4u") ++
  [FChar newline].

(** ** Printing *)
Fixpoint digits_aux (fuel : nat) (n : Z) (acc : list Z) : list Z :=
  match fuel with
  | O => acc
  | S fuel' =>
      let acc := (48 + n mod 10) :: acc in
      if decide (n < 10) then acc else digits_aux fuel' (n / 10) acc
  end.
(** Decimal digits of a [u32]: at most ten. *)
Definition digits (n : Z) : list Z := digits_aux 10 n [].
(** [%4u] *)
Definition pad4 (n : Z) : list Z := repeat 32 (4 - length (digits n)) ++ digits n.

Fixpoint print (f : list fitem) (args : list Z) : list Z :=
  match f, args with
  | [], _ => []
  | FChar b :: f', _ => b :: print f' args
  | FU4 :: f', n :: args' => pad4 n ++ print f' args'
  | FU4 :: f', [] => print f' []
  end.

(** ** Scanning *)
Definition is_space (b : Z) : bool := bool_decide (b = 32 ∨ 9 ≤ b ≤ 13).
Definition is_digit (b : Z) : bool := bool_decide (48 ≤ b ≤ 57).

Fixpoint skip_ws (l : list Z) : list Z :=
  match l with
  | b :: l' => if is_space b then skip_ws l' else l
  | [] => []
  end.

(** Up to [width] digits; the flag says whether there was one. *)
Fixpoint scan_digits (width : nat) (acc : Z) (some : bool) (l : list Z) : option Z * list Z :=
  match width, l with
  | S w, b :: l' => if is_digit b then scan_digits w (acc * 10 + (b - 48)) true l'
                    else (if some then Some acc else None, l)
  | _, _ => (if some then Some acc else None, l)
  end.

(** [%4u]: blanks, an optional sign inside the width, digits. *)
Definition scan_u4 (l : list Z) : option Z * list Z :=
  match skip_ws l with
  | [] => (None, [])
  | b :: l' =>
      if decide (b = 43) then scan_digits 3 0 false l'
      else if decide (b = 45) then
        let '(v, r) := scan_digits 3 0 false l' in (v ≫= λ x, Some (u32 (- x)), r)
      else scan_digits 4 0 false (b :: l')
  end.

(** The values assigned before the first mismatch, and the rest of the input. *)
Fixpoint scan (f : list fitem) (l : list Z) : list Z * list Z :=
  match f with
  | [] => ([], l)
  | FChar b :: f' =>
      if is_space b then scan f' (skip_ws l)
      else match l with
           | c :: l' => if decide (c = b) then scan f' l' else ([], l)
           | [] => ([], [])
           end
  | FU4 :: f' =>
      match scan_u4 l with
      | (Some v, l') => let '(vs, r) := scan f' l' in (v :: vs, r)
      | (None, l') => ([], l')
      end
  end.

(** ** Memory and the two operations *)
Definition memory : Type := Z → Z.

Fixpoint load_bytes (m : memory) (a : Z) (n : nat) : list Z :=
  match n with O => [] | S n' => m a :: load_bytes m (a + 1) n' end.
Definition store_bytes (m : memory) (a : Z) (bs : list Z) : memory :=
  λ x, if decide (a ≤ x < a + Z.of_nat (length bs)) then default 0 (bs !! Z.to_nat (x - a)) else m x.

(** A page address: channel, chip, lun, plane, block, page. *)
Definition PPA_LOG_LEN : Z := 58.
Definition LOG_REC : Z := 16 * KB + PPA_LOG_LEN.
Definition page_bytes : nat := Z.to_nat (16 * KB).

Definition BE_write_log (addr : list Z) (buf_addr : Z) (m : memory) (file : list Z) : list Z :=
  let file := file ++ print log_fmt addr in
  file ++ load_bytes m buf_addr page_bytes.

(** The variables [fscanf] fills: those behind the mismatch keep their value. *)
Definition assign (vars : list (option Z)) (vals : list Z) : list (option Z) :=
  (Some <$> vals) ++ drop (length vals) vars.

(** The chain of [&&]: it stops at the first difference; reading an unassigned
    variable is undefined. *)
Fixpoint same_addr (vars : list (option Z)) (addr : list Z) : option bool :=
  match vars, addr with
  | v :: vars', a :: addr' => x ← v; if decide (x = a) then same_addr vars' addr' else Some false
  | _, _ => Some true
  end.

(** The search loop from position [pos]: [Some (Some p)] with the position
    behind a matching header, [Some None] when [fseek] fails. *)
Fixpoint find_log (fuel : nat) (file : list Z) (addr : list Z) (vars : list (option Z)) (pos : Z)
    : option (option Z) :=
  match fuel with
  | O => None
  | S fuel' =>
      let pos := pos - LOG_REC in
      if decide (pos < 0) then Some None
      else
        let input := drop (Z.to_nat pos) file in
        let '(vals, rest) := scan log_fmt input in
        let vars := assign vars vals in
        let pos := pos + Z.of_nat (length input - length rest) in
        same ← same_addr vars addr;
        if (same : bool) then Some (Some pos) else find_log fuel' file addr vars pos
  end.

Definition BE_read_log (fuel : nat) (addr : list Z) (buf_addr : Z) (file : list Z) (m : memory)
    : option memory :=
  r ← find_log fuel file addr (repeat None 6) (Z.of_nat (length file));
  match r with
  | Some pos => Some (store_bytes m buf_addr (take page_bytes (drop (Z.to_nat pos) file)))
  | None => Some m
  end.

(** ** Round trip of the header *)
Definition is_page_addr (addr : list Z) : Prop :=
  length addr = 6%nat ∧ Forall (λ n, 0 ≤ n < 10000) addr.

Fixpoint value_of (acc : Z) (ds : list Z) : Z :=
  match ds with [] => acc | d :: ds' => value_of (acc * 10 + (d - 48)) ds' end.

(** What the digits of a number below 10000 look like. *)
Definition digits_ok (n : Z) : bool :=
  let ds := digits n in
  (1 <=? length ds)%nat && (length ds <=? 4)%nat && forallb is_digit ds && (value_of 0 ds =? n).

Fixpoint all_below (n : nat) (i : Z) (P : Z → bool) : bool :=
  match n with O => true | S n' => P i && all_below n' (i + 1) P end.

Lemma all_below_spec n i P : all_below n i P = true → ∀ x, i ≤ x < i + Z.of_nat n → P x = true.
Proof.
  revert i. induction n as [|n IH]; simpl; intros i H x Hx; [lia|].
  apply andb_true_iff in H as [Hi H]. destruct (decide (x = i)) as [->|]; [done|].
  apply (IH (i + 1) H). lia.
Qed.

Lemma digits_spec n : 0 ≤ n < 10000 →
  (1 ≤ length (digits n) ≤ 4)%nat ∧ Forall (λ d, is_digit d = true) (digits n) ∧
  value_of 0 (digits n) = n.
Proof.
  intros Hn. assert (all_below (Z.to_nat 10000) 0 digits_ok = true) as H by (vm_compute; reflexivity).
  assert (digits_ok n = true) as Hd.
  { apply (all_below_spec (Z.to_nat 10000) 0 digits_ok H). rewrite Z2Nat.id by done. done. }
  clear H. unfold digits_ok in Hd.
  rewrite !andb_true_iff in Hd. destruct Hd as [[[H1 H2] H3] H4].
  apply Nat.leb_le in H1, H2. apply Z.eqb_eq in H4. split; [lia|]. split; [|done].
  apply Forall_forall. intros d Hin. rewrite forallb_forall in H3.
  by apply H3, list_elem_of_In.
Qed.

Lemma digit_not_space d : is_digit d = true → is_space d = false ∧ d ≠ 43 ∧ d ≠ 45.
Proof.
  unfold is_digit, is_space. intros ?%bool_decide_eq_true_1.
  rewrite bool_decide_eq_false. lia.
Qed.

Lemma scan_digits_app w acc b ds c rest :
  Forall (λ d, is_digit d = true) ds → (length ds ≤ w)%nat → is_digit c = false →
  b = true ∨ ds ≠ [] →
  scan_digits w acc b (ds ++ c :: rest) = (Some (value_of acc ds), c :: rest).
Proof.
  revert w acc b. induction ds as [|d ds IH]; intros w acc b Hd Hl Hc Hb; simpl in *.
  - destruct Hb as [->|]; [|done]. destruct w; simpl; [done|]. by rewrite Hc.
  - destruct w as [|w]; [lia|]. simpl. apply Forall_cons in Hd as [Hd1 Hd]. rewrite Hd1.
    apply IH; [done|lia|done|by left].
Qed.

Lemma skip_ws_spaces k l : skip_ws (repeat 32 k ++ l) = skip_ws l.
Proof. by induction k. Qed.

Lemma scan_pad4 n c rest :
  0 ≤ n < 10000 → is_digit c = false → scan_u4 (pad4 n ++ c :: rest) = (Some n, c :: rest).
Proof.
  intros Hn Hc. destruct (digits_spec n Hn) as (Hl & Hd & Hv). unfold scan_u4, pad4.
  rewrite <- app_assoc, skip_ws_spaces.
  destruct (digits n) as [|d ds]; [simpl in Hl; lia|]. cbn [app skip_ws].
  assert (is_digit d = true) as Hd1 by by apply Forall_cons in Hd as [? _].
  destruct (digit_not_space d Hd1) as (Hs & ? & ?). rewrite Hs.
  rewrite !decide_False by done. rewrite <- Hv.
  apply (scan_digits_app 4 0 false (d :: ds)); [done|lia|done|by right].
Qed.

Lemma pad4_length n : 0 ≤ n < 10000 → length (pad4 n) = 4%nat.
Proof.
  intros Hn. destruct (digits_spec n Hn) as (Hl & _). unfold pad4.
  rewrite length_app, repeat_length. lia.
Qed.

(** One item at a time. *)
Lemma print_char b f args : print (FChar b :: f) args = b :: print f args.
Proof. done. Qed.
Lemma print_num f n args : print (FU4 :: f) (n :: args) = pad4 n ++ print f args.
Proof. done. Qed.
Lemma scan_blank b f l : is_space b = true → scan (FChar b :: f) l = scan f (skip_ws l).
Proof. simpl. by intros ->. Qed.
Lemma scan_lit b f l : is_space b = false → scan (FChar b :: f) (b :: l) = scan f l.
Proof. simpl. intros ->. by rewrite decide_True. Qed.
Lemma scan_mismatch b c f l : is_space b = false → c ≠ b → scan (FChar b :: f) (c :: l) = ([], c :: l).
Proof. simpl. intros -> ?. by rewrite decide_False. Qed.
Lemma scan_num f n c l :
  0 ≤ n < 10000 → is_digit c = false →
  scan (FU4 :: f) (pad4 n ++ c :: l) = (n :: (scan f (c :: l)).1, (scan f (c :: l)).2).
Proof.
  intros Hn Hc. cbn [scan]. rewrite scan_pad4 by done. by destruct (scan f (c :: l)).
Qed.
Lemma skip_ws_blank b l : is_space b = true → skip_ws (b :: l) = skip_ws l.
Proof. simpl. by intros ->. Qed.
Lemma skip_ws_other b l : is_space b = false → skip_ws (b :: l) = b :: l.
Proof. simpl. by intros ->. Qed.

Definition log_items : list fitem := Eval vm_compute in log_fmt.
Lemma log_fmt_items : log_fmt = log_items.
Proof. by vm_compute. Qed.

Ltac scan_step :=
  first [rewrite scan_blank by reflexivity|rewrite scan_lit by reflexivity
        |rewrite scan_num by (assumption || reflexivity)
        |rewrite skip_ws_blank by reflexivity|rewrite skip_ws_other by reflexivity
        |progress cbn [fst snd]].

(** [fscanf] reads back what [fprintf] wrote, and then skips the blanks the
    data starts with: the format ends in a newline. *)
Lemma scan_header addr data :
  is_page_addr addr → scan log_fmt (print log_fmt addr ++ data) = (addr, skip_ws data).
Proof.
  intros [Hl Ha]. do 6 (destruct addr as [|? addr]; [done|]). destruct addr; [|done].
  repeat (apply Forall_cons in Ha as [? Ha]). rewrite log_fmt_items. unfold log_items.
  repeat first [rewrite print_char|rewrite print_num].
  cbn [print]. rewrite <- ?app_comm_cons.
  repeat (rewrite <- ?app_assoc, <- ?app_comm_cons; scan_step).
  done.
Qed.

Lemma header_length addr : is_page_addr addr → length (print log_fmt addr) = 58%nat.
Proof.
  intros [Hl Ha]. do 6 (destruct addr as [|? addr]; [done|]). destruct addr; [|done].
  repeat (apply Forall_cons in Ha as [? Ha]). rewrite log_fmt_items. unfold log_items.
  repeat first [rewrite print_char|rewrite print_num]. cbn [print length].
  repeat (rewrite length_app; rewrite pad4_length by done; cbn [length]). done.
Qed.

Lemma load_bytes_length m a n : length (load_bytes m a n) = n.
Proof. revert a. induction n; intros a; simpl; auto. Qed.
#[global] Arguments load_bytes : simpl never.
#[global] Arguments print : simpl never.
#[global] Arguments page_bytes : simpl never.

Lemma page_bytes_Z : Z.of_nat page_bytes = 16384.
Proof. unfold page_bytes. by rewrite Z2Nat.id. Qed.
#[global] Opaque page_bytes log_fmt.

(** Blanks are skipped from the front only. *)
Lemma skip_ws_suffix l : ∃ k, skip_ws l = drop k l ∧ (k ≤ length l)%nat ∧
  (length l - length (skip_ws l) = k)%nat.
Proof.
  induction l as [|b l (k & E & Hk & Hd)]; [by exists O|]. simpl. destruct (is_space b).
  - exists (S k). simpl. split_and!; [done|lia|].
    rewrite E, length_drop in *. lia.
  - exists O. simpl. split_and!; [done|lia|lia].
Qed.

Lemma same_addr_refl addr : same_addr (Some <$> addr) addr = Some true.
Proof. induction addr; simpl; [done|]. by rewrite decide_True. Qed.
Lemma same_addr_ne a b : length a = length b → a ≠ b → same_addr (Some <$> a) b = Some false.
Proof.
  revert b. induction a as [|x a IH]; intros [|y b] Hl Hne; simpl in *; try done.
  case_decide; [|done]. subst. apply IH; [lia|congruence].
Qed.
Lemma assign_all vals (vars : list (option Z)) :
  length vals = length vars → assign vars vals = Some <$> vals.
Proof. intros E. unfold assign. rewrite E, drop_all. apply app_nil_r. Qed.
Lemma assign_none vars : assign vars [] = vars.
Proof. done. Qed.

(** One turn of the search at a record boundary. *)
Lemma find_log_at fuel F addr' data rest addr vars :
  is_page_addr addr' → length vars = 6%nat → length data = page_bytes →
  let file := F ++ (print log_fmt addr' ++ data) ++ rest in
  find_log (S fuel) file addr vars (Z.of_nat (length F) + LOG_REC) =
    let skipped := Z.of_nat (length (data ++ rest) - length (skip_ws (data ++ rest))) in
    same ← same_addr (Some <$> addr') addr;
    if (same : bool) then Some (Some (Z.of_nat (length F) + 58 + skipped))
    else find_log fuel file addr (Some <$> addr') (Z.of_nat (length F) + 58 + skipped).
Proof.
  intros Ha Hv Hd file. cbn [find_log].
  replace (Z.of_nat (length F) + LOG_REC - LOG_REC) with (Z.of_nat (length F)) by lia.
  rewrite decide_False by lia. rewrite Nat2Z.id. subst file. rewrite drop_app_length.
  rewrite <- app_assoc, scan_header by done.
  rewrite assign_all by (rewrite Hv; apply Ha).
  rewrite length_app, header_length by done.
  destruct (skip_ws_suffix (data ++ rest)) as (k & E & Hk & Hd').
  assert (length (skip_ws (data ++ rest)) ≤ length (data ++ rest))%nat by (rewrite E, length_drop; lia).
  replace (Z.of_nat (length F) + Z.of_nat (58 + length (data ++ rest) - length (skip_ws (data ++ rest))))
    with (Z.of_nat (length F) + 58 +
          Z.of_nat (length (data ++ rest) - length (skip_ws (data ++ rest)))) by lia.
  done.
Qed.

Lemma write_shape addr buf m F :
  BE_write_log addr buf m F = F ++ (print log_fmt addr ++ load_bytes m buf page_bytes) ++ [].
Proof. unfold BE_write_log. by rewrite app_nil_r, app_assoc. Qed.

Lemma write_length addr buf m F :
  is_page_addr addr →
  Z.of_nat (length (BE_write_log addr buf m F)) = Z.of_nat (length F) + LOG_REC.
Proof.
  intros Ha. unfold BE_write_log. rewrite !length_app, header_length, load_bytes_length by done.
  pose proof page_bytes_Z. change LOG_REC with 16442. lia.
Qed.

(** Reading the page written last: the buffer receives the written data from
    its first byte that is not a blank, and nothing behind it. *)
Lemma read_latest fuel addr buf buf' m m' F :
  is_page_addr addr →
  BE_read_log (S fuel) addr buf' (BE_write_log addr buf m F) m' =
    Some (store_bytes m' buf' (skip_ws (load_bytes m buf page_bytes))).
Proof.
  intros Ha. unfold BE_read_log. rewrite write_length by done. rewrite write_shape.
  rewrite find_log_at by (done || apply load_bytes_length).
  rewrite same_addr_refl. cbn [mbind option_bind]. do 2 f_equal.
  set (data := load_bytes m buf page_bytes). rewrite !app_nil_r.
  destruct (skip_ws_suffix data) as (k & E & Hk & Hd). rewrite Hd, E.
  replace (Z.to_nat (Z.of_nat (length F) + 58 + Z.of_nat k)) with (length F + (58 + k))%nat by lia.
  rewrite drop_app_add. rewrite <- (header_length addr Ha) at 1. rewrite drop_app_add.
  apply take_ge. subst data. rewrite length_drop, load_bytes_length. lia.
Qed.

Lemma load_bytes_cons m a n : load_bytes m a (S n) = m a :: load_bytes m (a + 1) n.
Proof. done. Qed.
Lemma load_bytes_lookup m a n i : (i < n)%nat → load_bytes m a n !! i = Some (m (a + Z.of_nat i)).
Proof.
  revert a i. induction n as [|n IH]; intros a [|i] Hi; try lia; rewrite load_bytes_cons; simpl.
  - do 2 f_equal. lia.
  - rewrite IH by lia. do 2 f_equal. lia.
Qed.
Lemma load_store m a bs n : n = length bs → load_bytes (store_bytes m a bs) a n = bs.
Proof.
  intros ->. apply list_eq. intros i. destruct (decide (i < length bs)%nat) as [Hi|Hi].
  - rewrite load_bytes_lookup by done. unfold store_bytes. rewrite decide_True by lia.
    replace (Z.to_nat (a + Z.of_nat i - a)) with i by lia.
    destruct (lookup_lt_is_Some_2 bs i Hi) as [x ->]. done.
  - rewrite !lookup_ge_None_2; [done|lia|rewrite load_bytes_length; lia].
Qed.

Lemma skip_ws_data m a :
  is_space (m a) = false → skip_ws (load_bytes m a page_bytes) = load_bytes m a page_bytes.
Proof.
  intros Hs. pose proof page_bytes_Z. destruct page_bytes as [|n]; [lia|].
  rewrite load_bytes_cons. by apply skip_ws_other.
Qed.

(** Reading back the page written last returns its data, whatever the log held
    before, provided the data does not begin with a blank byte (blank, tab,
    newline, ...): [fscanf]'s trailing newline directive swallows leading
    blanks, so such a page comes back shifted. *)
Theorem flash_read_after_write fuel addr buf buf' m m' F :
  is_page_addr addr → (0 < fuel)%nat →
  ∃ m'', BE_read_log fuel addr buf' (BE_write_log addr buf m F) m' = Some m'' ∧
    m'' = store_bytes m' buf' (skip_ws (load_bytes m buf page_bytes)) ∧
    (is_space (m buf) = false →
     load_bytes m'' buf' page_bytes = load_bytes m buf page_bytes).
Proof.
  intros Ha Hf. destruct fuel as [|fuel]; [lia|]. eexists.
  split; [by apply read_latest|]. split; [done|]. intros Hs.
  rewrite (skip_ws_data m buf Hs). apply load_store. by rewrite load_bytes_length.
Qed.

(** ** Older pages *)
(** The writes of a run: address, buffer and memory. *)
Record page_write := PageWrite { pw_addr : list Z; pw_buf : Z; pw_mem : memory }.
Definition write_page (w : page_write) (file : list Z) : list Z :=
  BE_write_log (pw_addr w) (pw_buf w) (pw_mem w) file.
(** In their order, to an empty log. *)
Definition write_all (ws : list page_write) : list Z := foldl (λ file w, write_page w file) [] ws.
Definition page_data (w : page_write) : list Z := load_bytes (pw_mem w) (pw_buf w) page_bytes.
(** The page is not mistaken for a header: it begins neither with a blank nor with "c". *)
Definition plain_page (w : page_write) : Prop :=
  is_page_addr (pw_addr w) ∧ is_space (pw_mem w (pw_buf w)) = false ∧ pw_mem w (pw_buf w) ≠ byte_of "c"%char.

Lemma write_all_snoc ws w : write_all (ws ++ [w]) = write_page w (write_all ws).
Proof. unfold write_all. by rewrite foldl_app. Qed.
Lemma write_page_shape w file : write_page w file = file ++ print log_fmt (pw_addr w) ++ page_data w.
Proof. unfold write_page. by rewrite write_shape, app_nil_r. Qed.

(** Scanning at the data of a page assigns nothing and does not move. *)
Lemma scan_plain w rest : plain_page w → scan log_fmt (page_data w ++ rest) = ([], page_data w ++ rest).
Proof.
  intros (_ & Hs & Hc). unfold page_data. pose proof page_bytes_Z. destruct page_bytes as [|n]; [lia|].
  rewrite (load_bytes_cons (pw_mem w)). cbn [app]. rewrite log_fmt_items. unfold log_items.
  rewrite scan_blank by done. rewrite skip_ws_other by done. by rewrite scan_mismatch by (reflexivity || exact Hc).
Qed.

(** From behind the header of a record the search steps from page to page and reads no
    other header. *)
Lemma find_log_plain ws rest a b fuel :
  Forall plain_page ws → (length ws < fuel)%nat → length b = length a → b ≠ a →
  find_log fuel (write_all ws ++ rest) a (Some <$> b) (Z.of_nat (length (write_all ws)) + 58) = Some None.
Proof.
  intros Hws. revert rest fuel. induction ws as [|w ws IH] using rev_ind; intros rest fuel Hf Hl Hne;
    (destruct fuel as [|fuel]; [lia|]); cbn [find_log]; change LOG_REC with 16442.
  - by rewrite decide_True by (simpl; lia).
  - apply Forall_app in Hws as [Hws Hw]. rewrite Forall_singleton in Hw. rewrite length_app in Hf. simpl in Hf.
    pose proof (write_length (pw_addr w) (pw_buf w) (pw_mem w) (write_all ws) (proj1 Hw)) as Hlen.
    change LOG_REC with 16442 in Hlen. fold (write_page w (write_all ws)) in Hlen.
    rewrite write_all_snoc, Hlen, decide_False by lia.
    replace (Z.to_nat _) with (length (write_all ws) + 58)%nat by lia.
    rewrite write_page_shape, <- !app_assoc, drop_app_add.
    rewrite (drop_app_length' (print log_fmt (pw_addr w)) _ 58), scan_plain by (done || by rewrite header_length by apply Hw).
    cbv beta iota zeta. rewrite assign_none, same_addr_ne by done. rewrite Nat.sub_diag. cbn [mbind option_bind].
    replace (_ - 16442 + Z.of_nat 0) with (Z.of_nat (length (write_all ws)) + 58) by lia.
    apply IH; [done|lia|done|done].
Qed.

(** C22. Only the newest record can be found, of a log of any length whose pages begin
    neither with a blank (blank, tab, newline, ...) nor, the newest apart, with the "c" of
    a header: after the first comparison the cursor stands behind the header it has just
    read, so each step back lands at the data of the record before and not at its header.
    When the newest record is of another page than [a], [BE_read_log] ends after a step
    for each record and one more, has not found [a], and leaves the buffer as it was,
    whether or not an older record is of [a]. *)
Theorem flash_older_page_lost fuel ws w a buf' m' :
  Forall plain_page ws → is_page_addr (pw_addr w) → is_space (pw_mem w (pw_buf w)) = false →
  is_page_addr a → pw_addr w ≠ a → (length ws + 2 ≤ fuel)%nat →
  BE_read_log fuel a buf' (write_all (ws ++ [w])) m' = Some m'.
Proof.
  intros Hws Hw Hs Ha Hne Hf. destruct fuel as [|fuel]; [lia|]. unfold BE_read_log.
  assert (length (pw_addr w) = length a) as Hlen by (by rewrite (proj1 Ha), (proj1 Hw)).
  rewrite write_all_snoc. unfold write_page. rewrite write_length by done. rewrite write_shape.
  rewrite find_log_at by (done || apply load_bytes_length).
  rewrite same_addr_ne by done. rewrite !app_nil_r, skip_ws_data by done.
  cbv zeta. rewrite Nat.sub_diag, Z.add_0_r. cbn [mbind option_bind].
  by rewrite find_log_plain by (done || lia).
Qed.

(** A page of blanks written last makes the search for any other page endless:
    [fscanf] runs to the end of the file and the next step back lands on the
    same record. *)
Theorem flash_blank_page_loops fuel a b buf buf' m m' F :
  is_page_addr a → is_page_addr b → a ≠ b → (∀ x, is_space (m x) = true) →
  BE_read_log fuel a buf' (BE_write_log b buf m F) m' = None.
Proof.
  intros Ha Hb Hab Hm. unfold BE_read_log.
  assert (length b = length a) as Hlen by (by rewrite (proj1 Ha), (proj1 Hb)). rewrite write_length by done. rewrite write_shape.
  assert (∀ n x, skip_ws (load_bytes m x n) = []) as Hblank.
  { induction n as [|n IH]; intros x; [done|]. rewrite load_bytes_cons.
    rewrite skip_ws_blank by done. apply IH. }
  assert (∀ vars, length vars = 6%nat →
    find_log fuel (F ++ (print log_fmt b ++ load_bytes m buf page_bytes) ++ []) a vars
      (Z.of_nat (length F) + LOG_REC) = None) as Hloop.
  { induction fuel as [|fuel IH]; intros vars Hv; [done|].
    rewrite find_log_at by (done || apply load_bytes_length).
    rewrite same_addr_ne by first [exact Hlen|exact (not_eq_sym Hab)].
    cbn [mbind option_bind]. rewrite !app_nil_r, Hblank, load_bytes_length. simpl.
    pose proof page_bytes_Z.
    replace (Z.of_nat (length F) + 58 + Z.of_nat (page_bytes - 0))
      with (Z.of_nat (length F) + LOG_REC) by (change LOG_REC with 16442; lia).
    rewrite !app_nil_r in IH. apply IH. rewrite length_fmap. apply Hb. }
  by rewrite Hloop by done.
Qed.

Lemma flash_read_after_write_witness :
  ∃ m'', BE_read_log 1 [1; 0; 0; 1; 7; 42] 16384 (BE_write_log [1; 0; 0; 1; 7; 42] 0 (λ _, 65) []) (λ _, 0)
    = Some m'' ∧
    m'' = store_bytes (λ _, 0) 16384 (skip_ws (load_bytes (λ _, 65) 0 page_bytes)) ∧
    (is_space 65 = false → load_bytes m'' 16384 page_bytes = load_bytes (λ _, 65) 0 page_bytes).
Proof.
  apply (flash_read_after_write 1 [1; 0; 0; 1; 7; 42] 0 16384 (λ _, 65)); [|lia].
  split; [reflexivity|repeat constructor; lia].
Defined.

(** A page written first, and then overtaken by two others. *)
Lemma flash_older_page_lost_witness :
  let a := [0; 0; 0; 0; 0; 1] in
  BE_read_log 4 a 16384
    (write_all ([PageWrite a 0 (λ _, 65); PageWrite [0; 0; 0; 0; 0; 2] 0 (λ _, 66)] ++ [PageWrite [0; 0; 0; 0; 0; 3] 0 (λ _, 67)]))
    (λ _, 0) = Some (λ _, 0).
Proof.
  intros a. apply flash_older_page_lost;
    first [reflexivity|discriminate|simpl; lia|split; [reflexivity|repeat constructor; lia]|idtac].
  repeat constructor; (reflexivity || discriminate || (simpl; lia)).
Defined.

Lemma flash_blank_page_loops_witness :
  BE_read_log 1000 [0; 0; 0; 0; 0; 1] 16384 (BE_write_log [0; 0; 0; 0; 0; 2] 0 (λ _, 32) []) (λ _, 0) = None.
Proof.
  apply (flash_blank_page_loops 1000 [0; 0; 0; 0; 0; 1] [0; 0; 0; 0; 0; 2] 0 16384 (λ _, 32) (λ _, 0) []);
    first [discriminate|intros; reflexivity|split; [reflexivity|repeat constructor; lia]].
Defined.
