(* ===== verification/ListHeap.v ===== *)
(** * Intrusive doubly linked lists (src/lib/list.c, src/lib/list.h)

    Nodes live in a heap indexed by symbolic pointers; NULL is [None] and a
    dereference of NULL or of an unallocated pointer is undefined.  The
    operations are the assignments of list.c in their order, so aliasing
    (a list of one node, the head alone) is what the code computes.
    [is_list h head l] relates a circular list to the sequence of its nodes;
    each operation refines its sequence operation and leaves every node
    outside the list untouched. *)
From S2P Require Import Prelude.

Record list_node (ptr : Type) := Node { prev : option ptr; next : option ptr }.
Arguments Node {ptr}.
Arguments prev {ptr}.
Arguments next {ptr}.

#[export] Instance list_node_eq_dec `{EqDecision ptr} : EqDecision (list_node ptr).
Proof. solve_decision. Defined.

Section list_c.
Context {ptr : Type} `{Countable ptr}.
Abbreviation heap := (gmap ptr (list_node ptr)).
Implicit Types (h : heap) (p q a b : ptr) (l : list ptr).

(** ** Field accesses *)
Definition load_next h (p : option ptr) : option (option ptr) :=
  p ← p; n ← h !! p; Some (next n).
Definition load_prev h (p : option ptr) : option (option ptr) :=
  p ← p; n ← h !! p; Some (prev n).
(** [p->next = v] and [p->prev = v] *)
Definition store_next (p : option ptr) (v : option ptr) h : option heap :=
  p ← p; n ← h !! p; Some (<[p := Node (prev n) v]> h).
Definition store_prev (p : option ptr) (v : option ptr) h : option heap :=
  p ← p; n ← h !! p; Some (<[p := Node v (next n)]> h).

(** ** The operations of list.c *)
Definition list_add (new prev next : option ptr) h : option heap :=
  h ← store_prev next new h;
  h ← store_next new next h;
  h ← store_prev new prev h;
  store_next prev new h.

Definition list_delete (node : option ptr) h : option heap :=
  match node with
  | None => Some h
  | Some _ =>
      nx ← load_next h node;
      pv ← load_prev h node;
      if decide (nx = None ∨ pv = None) then Some h
      else
        pv ← load_prev h node; nx ← load_next h node; h ← store_next pv nx h;
        nx ← load_next h node; pv ← load_prev h node; h ← store_prev nx pv h;
        h ← store_prev node None h;
        store_next node None h
  end.

Definition list_empty (head : option ptr) h : option Z :=
  nx ← load_next h head;
  if decide (nx = head) then Some 1 else Some 0.

Definition list_delete_tail (head : option ptr) h : option heap :=
  pv ← load_prev h head; list_delete pv h.

Definition list_delete_head (head : option ptr) h : option heap :=
  nx ← load_next h head; list_delete nx h.

Definition list_move_head (node head : option ptr) h : option heap :=
  nx ← load_next h node; pv ← load_prev h node; h ← store_prev nx pv h;
  pv ← load_prev h node; nx ← load_next h node; h ← store_next pv nx h;
  hn ← load_next h head; list_add node head hn h.

Definition list_move_tail_to_head (head : option ptr) h : option heap :=
  pv ← load_prev h head; list_move_head pv head h.

Definition list_add_tail (new head : option ptr) h : option heap :=
  pv ← load_prev h head; list_add new pv head h.

Definition list_add_head (new head : option ptr) h : option heap :=
  nx ← load_next h head; list_add new head nx h.

(** [list_for_each_entry]: run the body [f] on each node, threading its local
    variables [x], until it returns from the function ([inr]) or the head is
    reached again ([inl], the final locals).  [fuel] bounds the walk; the
    theorems show that the length of the list suffices. *)
Fixpoint list_walk {X A} (fuel : nat) (f : X → ptr → option (X + A)) h
    (head : ptr) (pos : option ptr) (x : X) : option (X + A) :=
  match fuel with
  | O => None
  | S fuel' =>
      if decide (pos = Some head) then Some (inl x)
      else
        p ← pos; r ← f x p;
        match r with
        | inr a => Some (inr a)
        | inl x' => nx ← load_next h pos; list_walk fuel' f h head nx x'
        end
  end.
Definition list_for_each {X A} (fuel : nat) (f : X → ptr → option (X + A)) h
    (head : ptr) (x : X) : option (X + A) :=
  nx ← load_next h (Some head); list_walk fuel f h head nx x.

(** ** Representation *)
Definition nxt h p : option ptr := h !! p ≫= next.
Definition prv h p : option ptr := h !! p ≫= prev.

(** [b] follows [a]. *)
Definition edge h a b : Prop := nxt h a = Some b ∧ prv h b = Some a.

Fixpoint chain h a l b : Prop :=
  match l with
  | [] => edge h a b
  | x :: l' => edge h a x ∧ chain h x l' b
  end.

Definition is_list h (head : ptr) l : Prop := NoDup (head :: l) ∧ chain h head l head.

(** A node that is in no list. *)
Definition unlinked h p : Prop := h !! p = Some (Node None None).
Definition allocated h p : Prop := is_Some (h !! p).

(** Two heaps agree outside a set of nodes. *)
Definition same_outside (X : list ptr) h h' : Prop := ∀ p, p ∉ X → h' !! p = h !! p.
Definition same_dom h h' : Prop := ∀ p, is_Some (h' !! p) ↔ is_Some (h !! p).

#[global] Instance same_dom_equivalence : Equivalence same_dom.
Proof.
  split; unfold same_dom.
  - intros h p. done.
  - intros h1 h2 Hd p. by rewrite Hd.
  - intros h1 h2 h3 H1 H2 p. by rewrite H2, H1.
Qed.

Lemma nxt_Some h a b : nxt h a = Some b → ∃ n, h !! a = Some n ∧ next n = Some b.
Proof. unfold nxt. intros (n & ? & ?)%bind_Some. eauto. Qed.
Lemma prv_Some h a b : prv h a = Some b → ∃ n, h !! a = Some n ∧ prev n = Some b.
Proof. unfold prv. intros (n & ? & ?)%bind_Some. eauto. Qed.

Lemma load_next_nxt h a b : nxt h a = Some b → load_next h (Some a) = Some (Some b).
Proof. intros (n & E & ?)%nxt_Some. unfold load_next. simpl. rewrite E. simpl. by f_equal. Qed.
Lemma load_prev_prv h a b : prv h a = Some b → load_prev h (Some a) = Some (Some b).
Proof. intros (n & E & ?)%prv_Some. unfold load_prev. simpl. rewrite E. simpl. by f_equal. Qed.

Lemma edge_allocated_l h a b : edge h a b → allocated h a.
Proof. intros [(n & ? & _)%nxt_Some _]. by exists n. Qed.
Lemma edge_allocated_r h a b : edge h a b → allocated h b.
Proof. intros [_ (n & ? & _)%prv_Some]. by exists n. Qed.

(** ** The effect of the stores on the links *)
Lemma store_next_spec h p v :
  allocated h p → ∃ h', store_next (Some p) v h = Some h' ∧
    (∀ q, nxt h' q = if decide (q = p) then v else nxt h q) ∧
    (∀ q, prv h' q = prv h q) ∧ same_outside [p] h h' ∧ same_dom h h'.
Proof.
  intros [n Hn]. unfold store_next. simpl. rewrite Hn. simpl. eexists. split; [done|].
  unfold nxt, prv, same_outside, same_dom. split_and!; intros q.
  - case_decide as E; subst; [by rewrite lookup_insert_eq|by rewrite lookup_insert_ne].
  - destruct (decide (q = p)) as [->|?];
      [by rewrite lookup_insert_eq, Hn|by rewrite lookup_insert_ne].
  - intros Hq. rewrite lookup_insert_ne; [done|]. intros ->. apply Hq. by left.
  - destruct (decide (q = p)) as [->|?]; [|by rewrite lookup_insert_ne].
    rewrite lookup_insert_eq, Hn. by split.
Qed.

Lemma store_prev_spec h p v :
  allocated h p → ∃ h', store_prev (Some p) v h = Some h' ∧
    (∀ q, prv h' q = if decide (q = p) then v else prv h q) ∧
    (∀ q, nxt h' q = nxt h q) ∧ same_outside [p] h h' ∧ same_dom h h'.
Proof.
  intros [n Hn]. unfold store_prev. simpl. rewrite Hn. simpl. eexists. split; [done|].
  unfold nxt, prv, same_outside, same_dom. split_and!; intros q.
  - case_decide as E; subst; [by rewrite lookup_insert_eq|by rewrite lookup_insert_ne].
  - destruct (decide (q = p)) as [->|?];
      [by rewrite lookup_insert_eq, Hn|by rewrite lookup_insert_ne].
  - intros Hq. rewrite lookup_insert_ne; [done|]. intros ->. apply Hq. by left.
  - destruct (decide (q = p)) as [->|?]; [|by rewrite lookup_insert_ne].
    rewrite lookup_insert_eq, Hn. by split.
Qed.

Lemma same_outside_trans X h1 h2 h3 :
  same_outside X h1 h2 → same_outside X h2 h3 → same_outside X h1 h3.
Proof. intros H1 H2 p Hp. by rewrite H2, H1. Qed.
Lemma same_outside_mono X Y h h' : X ⊆ Y → same_outside X h h' → same_outside Y h h'.
Proof. intros HXY Hs p Hp. apply Hs. set_solver. Qed.
Lemma same_dom_allocated h h' p : same_dom h h' → allocated h p → allocated h' p.
Proof. intros Hd. apply Hd. Qed.

#[global] Arguments load_next : simpl never.
#[global] Arguments load_prev : simpl never.
#[global] Arguments store_next : simpl never.
#[global] Arguments store_prev : simpl never.

(** ** Chains *)
Lemma chain_app h a l1 x l2 b :
  chain h a (l1 ++ x :: l2) b ↔ chain h a l1 x ∧ chain h x l2 b.
Proof.
  revert a. induction l1 as [|y l1 IH]; intros a; simpl; [done|].
  rewrite IH. tauto.
Qed.

Lemma chain_frame h h' a l b :
  (∀ q, q ∈ a :: l → nxt h' q = nxt h q) →
  (∀ q, q ∈ l ++ [b] → prv h' q = prv h q) →
  chain h a l b → chain h' a l b.
Proof.
  revert a. induction l as [|x l IH]; intros a Hn Hp; simpl.
  - intros [? ?]. split; [rewrite Hn by (by left)|rewrite Hp by (by left)]; done.
  - intros [[? ?] Hc]. split.
    + split; [rewrite Hn by (by left)|rewrite Hp by (by left)]; done.
    + apply IH; [|intros q Hq; apply Hp; by right|done].
      intros q Hq. apply Hn. by right.
Qed.

Lemma chain_first h a l b : chain h a l b → edge h a (default b (head l)).
Proof. destruct l as [|x l]; simpl; [done|]. tauto. Qed.

Lemma chain_last h a l b : chain h a l b → edge h (default a (last l)) b.
Proof.
  destruct (list_snoc_inv l) as [->|(l' & x & ->)]; [done|].
  intros [_ ?]%chain_app. by rewrite last_snoc.
Qed.

Lemma is_list_frame h h' head l :
  is_list h head l → same_outside [] h h' ∨ (∀ q, q ∈ head :: l → h' !! q = h !! q) →
  is_list h' head l.
Proof.
  intros [Hnd Hc] Hs. split; [done|].
  assert (∀ q, q ∈ head :: l → h' !! q = h !! q) as Hs'.
  { destruct Hs as [Hs|Hs]; [|done]. intros q _. apply Hs, not_elem_of_nil. }
  eapply chain_frame; [| |done].
  - intros q Hq. unfold nxt. by rewrite Hs'.
  - intros q Hq. unfold prv. rewrite Hs'; [done|].
    apply elem_of_app in Hq as [Hq|Hq]; [by right|].
    apply list_elem_of_singleton in Hq as ->. by left.
Qed.

Lemma is_list_allocated h head l q : is_list h head l → q ∈ head :: l → allocated h q.
Proof.
  intros [_ Hc] Hq. apply elem_of_cons in Hq as [->|Hq].
  - eapply edge_allocated_l, chain_first, Hc.
  - apply list_elem_of_split in Hq as (l1 & l2 & ->).
    apply chain_app in Hc as [_ Hc]. eapply edge_allocated_l, chain_first, Hc.
Qed.

Lemma is_list_NoDup h head l : is_list h head l → NoDup l ∧ head ∉ l.
Proof. intros [[? ?]%NoDup_cons _]. done. Qed.

Lemma is_list_first h head l : is_list h head l → nxt h head = Some (default head (list.head l)).
Proof. intros [_ Hc]. apply (chain_first _ _ _ _ Hc). Qed.

Lemma is_list_last h head l : is_list h head l → prv h head = Some (default head (last l)).
Proof. intros [_ Hc]. apply (chain_last _ _ _ _ Hc). Qed.

(** ** Insertion *)
Lemma list_add_edges h new p n :
  edge h p n → allocated h new → new ≠ p → new ≠ n →
  ∃ h', list_add (Some new) (Some p) (Some n) h = Some h' ∧
    edge h' p new ∧ edge h' new n ∧
    (∀ q, q ≠ p → q ≠ new → nxt h' q = nxt h q) ∧
    (∀ q, q ≠ n → q ≠ new → prv h' q = prv h q) ∧
    same_outside [p; n; new] h h' ∧ same_dom h h'.
Proof.
  intros He Hnew Hp Hn. unfold list_add.
  destruct (store_prev_spec h n (Some new)) as (h1 & -> & P1 & N1 & O1 & D1);
    [by eapply edge_allocated_r|]. simpl.
  destruct (store_next_spec h1 new (Some n)) as (h2 & -> & N2 & P2 & O2 & D2);
    [by eapply same_dom_allocated|]. simpl.
  destruct (store_prev_spec h2 new (Some p)) as (h3 & -> & P3 & N3 & O3 & D3);
    [by eapply same_dom_allocated, same_dom_allocated|]. simpl.
  destruct (store_next_spec h3 p (Some new)) as (h4 & -> & N4 & P4 & O4 & D4);
    [eapply same_dom_allocated, same_dom_allocated, same_dom_allocated; eauto;
     by eapply edge_allocated_l|].
  exists h4. split; [done|]. unfold edge. split_and!.
  - rewrite N4. by case_decide.
  - rewrite P4, P3. by case_decide.
  - rewrite N4, N3, N2. do 2 (case_decide; try congruence).
  - rewrite P4, P3, P2, P1. do 2 (case_decide; try congruence).
  - intros q ? ?. rewrite N4, N3, N2, N1. by do 2 (case_decide; try congruence).
  - intros q ? ?. rewrite P4, P3, P2, P1. by do 2 (case_decide; try congruence).
  - intros q Hq. rewrite O4, O3, O2, O1; set_solver.
  - by rewrite D1, D2, D3, D4.
Qed.

Lemma chain_insert h h' a l1 l2 b new :
  NoDup (a :: l1 ++ l2) → b ∉ l1 ++ l2 → new ∉ a :: b :: l1 ++ l2 →
  edge h' (default a (last l1)) new → edge h' new (default b (list.head l2)) →
  (∀ q, q ≠ default a (last l1) → q ≠ new → nxt h' q = nxt h q) →
  (∀ q, q ≠ default b (list.head l2) → q ≠ new → prv h' q = prv h q) →
  chain h a (l1 ++ l2) b → chain h' a (l1 ++ new :: l2) b.
Proof.
  revert a. induction l1 as [|y l1 IH]; intros a Hnd Hb Hnew He1 He2 HN HP Hc.
  - simpl in *. split; [done|]. destruct l2 as [|x l2]; [done|]. split; [done|].
    destruct Hc as [_ Hc]. apply NoDup_cons in Hnd as [Ha Hnd].
    apply NoDup_cons in Hnd as [Hx Hnd]. eapply chain_frame; [| |done].
    + intros q Hq. apply HN; [|set_solver]. intros ->. done.
    + intros q Hq. apply HP; set_solver.
  - rewrite last_cons_default in He1. destruct Hc as [[Hn Hp] Hc].
    apply NoDup_cons in Hnd as [Ha Hnd]. rewrite last_cons_default in HN.
    assert (default y (last l1) ≠ a) as Hla.
    { intros <-. apply Ha. destruct (list_snoc_inv l1) as [->|(l' & z & ->)]; [by left|].
      rewrite last_snoc. simpl. set_solver. }
    assert (default b (list.head l2) ≠ y) as Hhy.
    { destruct l2 as [|z l2]; simpl; [set_solver|]. intros ->.
      apply NoDup_cons in Hnd as [Hy _]. set_solver. }
    simpl. split.
    + split; [rewrite HN|rewrite HP]; set_solver.
    + apply IH; try done; set_solver.
Qed.

Lemma is_list_insert h head l1 l2 new :
  is_list h head (l1 ++ l2) → allocated h new → new ∉ head :: l1 ++ l2 →
  ∃ h', list_add (Some new) (Some (default head (last l1)))
                 (Some (default head (list.head l2))) h = Some h' ∧
    is_list h' head (l1 ++ new :: l2) ∧
    same_outside (new :: head :: l1 ++ l2) h h' ∧ same_dom h h'.
Proof.
  intros [Hnd Hc] Hal Hnew.
  assert (edge h (default head (last l1)) (default head (list.head l2))) as He.
  { destruct (list_snoc_inv l1) as [->|(l' & z & ->)]; [by apply chain_first in Hc|].
    rewrite last_snoc. simpl. rewrite <- app_assoc in Hc.
    by apply chain_app in Hc as [_ Hc%chain_first]. }
  assert (default head (last l1) ∈ head :: l1 ++ l2) as Hin1.
  { destruct (list_snoc_inv l1) as [->|(l' & z & ->)]; simpl; [by left|].
    rewrite last_snoc. simpl. set_solver. }
  assert (default head (list.head l2) ∈ head :: l1 ++ l2) as Hin2.
  { destruct l2; simpl; set_solver. }
  destruct (list_add_edges h new _ _ He) as (h' & ? & ? & ? & ? & ? & ? & ?);
    [done|congruence || (intros ->; done)..|].
  exists h'. split_and!; [done| |by eapply same_outside_mono; [|done]; set_solver|done].
  apply NoDup_cons in Hnd as Hnd'. destruct Hnd' as [Hh Hnd']. split.
  - apply NoDup_cons. split; [set_solver|]. rewrite <- Permutation_middle.
    apply NoDup_cons. split; [set_solver|done].
  - eapply chain_insert; eauto. set_solver.
Qed.

Theorem list_add_tail_spec h head l new :
  is_list h head l → allocated h new → new ∉ head :: l →
  ∃ h', list_add_tail (Some new) (Some head) h = Some h' ∧
    is_list h' head (l ++ [new]) ∧ same_outside (new :: head :: l) h h' ∧ same_dom h h'.
Proof.
  intros Hl Hal Hnew. unfold list_add_tail.
  rewrite (load_prev_prv _ _ _ (is_list_last _ _ _ Hl)). simpl.
  rewrite <- (app_nil_r l) in Hl.
  destruct (is_list_insert _ _ _ _ _ Hl Hal) as (h' & ? & ? & ? & ?); [by rewrite app_nil_r|].
  exists h'. rewrite app_nil_r in *. done.
Qed.

Theorem list_add_head_spec h head l new :
  is_list h head l → allocated h new → new ∉ head :: l →
  ∃ h', list_add_head (Some new) (Some head) h = Some h' ∧
    is_list h' head (new :: l) ∧ same_outside (new :: head :: l) h h' ∧ same_dom h h'.
Proof.
  intros Hl Hal Hnew. unfold list_add_head.
  rewrite (load_next_nxt _ _ _ (is_list_first _ _ _ Hl)). simpl.
  by apply (is_list_insert _ _ [] l).
Qed.

(** ** Deletion *)
Lemma list_delete_edges h x p n :
  nxt h x = Some n → prv h x = Some p → allocated h p → allocated h n →
  x ≠ p → x ≠ n →
  ∃ h', list_delete (Some x) h = Some h' ∧ unlinked h' x ∧
    nxt h' p = Some n ∧ prv h' n = Some p ∧
    (∀ q, q ≠ p → q ≠ x → nxt h' q = nxt h q) ∧
    (∀ q, q ≠ n → q ≠ x → prv h' q = prv h q) ∧
    same_outside [p; n; x] h h' ∧ same_dom h h'.
Proof.
  intros Hn Hp Hpa Hna Hxp Hxn. unfold list_delete.
  assert (allocated h x) as Hxa by (apply nxt_Some in Hn as (? & ? & ?); by eexists).
  rewrite (load_next_nxt _ _ _ Hn). simpl. rewrite (load_prev_prv _ _ _ Hp). simpl.
 
  destruct (store_next_spec h p (Some n) Hpa) as (h1 & -> & N1 & P1 & O1 & D1). simpl.
  assert (nxt h1 x = Some n) as Hn1 by (rewrite N1; by case_decide).
  assert (prv h1 x = Some p) as Hp1 by by rewrite P1.
  rewrite (load_next_nxt _ _ _ Hn1). simpl. rewrite (load_prev_prv _ _ _ Hp1). simpl.
  destruct (store_prev_spec h1 n (Some p)) as (h2 & -> & P2 & N2 & O2 & D2);
    [by eapply same_dom_allocated|]. simpl.
  destruct (store_prev_spec h2 x None) as (h3 & -> & P3 & N3 & O3 & D3);
    [by eapply same_dom_allocated, same_dom_allocated|]. simpl.
  destruct (store_next_spec h3 x None) as (h4 & -> & N4 & P4 & O4 & D4);
    [by eapply same_dom_allocated, same_dom_allocated, same_dom_allocated|].
  exists h4. split; [done|]. split_and!.
  - assert (allocated h4 x) as [[pv nx] Hx]
      by by do 4 (eapply same_dom_allocated; [eassumption|]).
    specialize (N4 x). specialize (P4 x). rewrite P3 in P4.
    rewrite decide_True in N4, P4 by done.
    unfold unlinked, nxt, prv in *. rewrite Hx in *. simpl in *. by rewrite N4, P4.
  - rewrite N4, N3, N2, N1. do 2 (case_decide; try congruence).
  - rewrite P4, P3, P2. do 2 (case_decide; try congruence).
  - intros q ? ?. rewrite N4, N3, N2, N1. by do 2 (case_decide; try congruence).
  - intros q ? ?. rewrite P4, P3, P2, P1. by do 2 (case_decide; try congruence).
  - intros q Hq. rewrite O4, O3, O2, O1; set_solver.
  - by rewrite D1, D2, D3, D4.
Qed.

(** [list_delete] returns without effect on a node that is in no list. *)
Lemma list_delete_unlinked h x : unlinked h x → list_delete (Some x) h = Some h.
Proof.
  intros Hx. unfold unlinked in Hx. unfold list_delete, load_next, load_prev. simpl.
  by rewrite Hx.
Qed.

Lemma chain_remove h h' a l1 l2 b x :
  NoDup (a :: l1 ++ x :: l2) → b ∉ l1 ++ x :: l2 →
  nxt h' (default a (last l1)) = Some (default b (list.head l2)) →
  prv h' (default b (list.head l2)) = Some (default a (last l1)) →
  (∀ q, q ≠ default a (last l1) → q ≠ x → nxt h' q = nxt h q) →
  (∀ q, q ≠ default b (list.head l2) → q ≠ x → prv h' q = prv h q) →
  chain h a (l1 ++ x :: l2) b → chain h' a (l1 ++ l2) b.
Proof.
  revert a. induction l1 as [|y l1 IH]; intros a Hnd Hb Hn Hp HN HP Hc.
  - simpl in *. destruct Hc as [_ Hc]. destruct l2 as [|z l2]; [done|].
    destruct Hc as [_ Hc]. simpl. split; [done|].
    apply NoDup_cons in Hnd as [Ha Hnd].
    apply NoDup_cons in Hnd as [Hx Hnd]. apply NoDup_cons in Hnd as [Hz Hnd].
    eapply chain_frame; [| |done].
    + intros q Hq. apply HN; [|set_solver]. intros ->. set_solver.
    + intros q Hq. apply HP; set_solver.
  - destruct Hc as [[Hn1 Hp1] Hc]. apply NoDup_cons in Hnd as [Ha Hnd].
    rewrite last_cons_default in Hn, Hp, HN.
    assert (default y (last l1) ≠ a) as Hla.
    { intros <-. apply Ha. destruct (list_snoc_inv l1) as [->|(l' & z & ->)]; [by left|].
      rewrite last_snoc. simpl. set_solver. }
    assert (default b (list.head l2) ≠ y) as Hhy.
    { destruct l2 as [|z l2]; simpl; [set_solver|]. intros ->.
      apply NoDup_cons in Hnd as [Hy _]. set_solver. }
    apply NoDup_cons in Hnd as Hnd'. destruct Hnd' as [Hy _]. simpl. split.
    + split; [rewrite HN|rewrite HP]; set_solver.
    + apply IH; try done; set_solver.
Qed.

Theorem list_delete_spec h head l1 x l2 :
  is_list h head (l1 ++ x :: l2) →
  ∃ h', list_delete (Some x) h = Some h' ∧ is_list h' head (l1 ++ l2) ∧ unlinked h' x ∧
    same_outside (head :: l1 ++ x :: l2) h h' ∧ same_dom h h'.
Proof.
  intros Hl. pose proof Hl as [Hnd Hc].
  apply chain_app in Hc as [Hc1 Hc2].
  apply chain_last in Hc1 as [Hc1n Hc1p]. apply chain_first in Hc2 as [Hc2n Hc2p].
  assert (default head (last l1) ∈ head :: l1) as Hin1.
  { destruct (list_snoc_inv l1) as [->|(l' & z & ->)]; simpl; [by left|].
    rewrite last_snoc. simpl. set_solver. }
  assert (default head (list.head l2) ∈ head :: l2) as Hin2.
  { destruct l2; simpl; set_solver. }
  pose proof Hnd as [Hh Hnd']%NoDup_cons.
  pose proof (not_elem_of_NoDup_app_cons _ _ _ Hnd') as [Hx1 Hx2].
  destruct (list_delete_edges h x _ _ Hc2n Hc1p) as (h' & ? & ? & ? & ? & ? & ? & ? & ?).
  - eapply is_list_allocated; [done|]. set_solver.
  - eapply is_list_allocated; [done|]. set_solver.
  - intros ->. set_solver.
  - intros ->. set_solver.
  - exists h'. split_and!; [done| |done| |done].
    + split; [|eapply chain_remove; eauto; apply Hl].
      apply NoDup_cons. split; [set_solver|by eapply NoDup_remove_mid].
    + eapply same_outside_mono; [|done]. set_solver.
Qed.

Theorem list_delete_head_spec h head x l :
  is_list h head (x :: l) →
  ∃ h', list_delete_head (Some head) h = Some h' ∧ is_list h' head l ∧ unlinked h' x ∧
    same_outside (head :: x :: l) h h' ∧ same_dom h h'.
Proof.
  intros Hl. unfold list_delete_head.
  rewrite (load_next_nxt _ _ _ (is_list_first _ _ _ Hl)). simpl.
  by apply (list_delete_spec h head [] x l).
Qed.

Theorem list_delete_tail_spec h head l x :
  is_list h head (l ++ [x]) →
  ∃ h', list_delete_tail (Some head) h = Some h' ∧ is_list h' head l ∧ unlinked h' x ∧
    same_outside (head :: l ++ [x]) h h' ∧ same_dom h h'.
Proof.
  intros Hl. unfold list_delete_tail.
  rewrite (load_prev_prv _ _ _ (is_list_last _ _ _ Hl)), last_snoc. simpl.
  destruct (list_delete_spec _ _ _ _ _ Hl) as (h' & ? & ? & ?).
  exists h'. by rewrite app_nil_r in *.
Qed.

(** Deleting from an empty list unlinks the head itself: the list is destroyed
    and reads as non-empty afterwards. *)
Theorem list_delete_head_empty h head :
  is_list h head [] →
  ∃ h', list_delete_head (Some head) h = Some h' ∧ unlinked h' head ∧
    list_empty (Some head) h' = Some 0.
Proof.
  intros Hl. pose proof (is_list_first _ _ _ Hl) as Hn. pose proof (is_list_last _ _ _ Hl) as Hp.
  simpl in *. unfold list_delete_head. rewrite (load_next_nxt _ _ _ Hn). simpl.
  assert (h !! head = Some (Node (Some head) (Some head))) as Hh.
  { unfold nxt, prv in *. destruct (h !! head) as [[pv nx]|]; simplify_eq/=. done. }
  unfold load_next, load_prev, store_next, store_prev. simpl. rewrite Hh. simpl.
  repeat (rewrite ?Hh, ?lookup_insert_eq; simpl). eexists. split; [done|].
  unfold unlinked, list_empty, load_next. simpl.
  repeat (rewrite lookup_insert_eq; simpl). done.
Qed.

(** ** Moving to the front *)
Theorem list_move_head_spec h head l1 x l2 :
  is_list h head (l1 ++ x :: l2) →
  ∃ h', list_move_head (Some x) (Some head) h = Some h' ∧
    is_list h' head (x :: l1 ++ l2) ∧
    same_outside (head :: l1 ++ x :: l2) h h' ∧ same_dom h h'.
Proof.
  intros Hl. pose proof Hl as [Hnd Hc]. apply chain_app in Hc as [Hc1 Hc2].
  apply chain_last in Hc1 as [Hc1n Hc1p]. apply chain_first in Hc2 as [Hc2n Hc2p].
  set (p := default head (last l1)) in *. set (n := default head (list.head l2)) in *.
  assert (p ∈ head :: l1) as Hin1.
  { subst p. destruct (list_snoc_inv l1) as [->|(l' & z & ->)]; simpl; [by left|].
    rewrite last_snoc. simpl. set_solver. }
  assert (n ∈ head :: l2) as Hin2 by (subst n; destruct l2; simpl; set_solver).
  pose proof Hnd as [Hh Hnd']%NoDup_cons.
  pose proof (not_elem_of_NoDup_app_cons _ _ _ Hnd') as [Hx1 Hx2].
  assert (x ≠ p ∧ x ≠ n) as [Hxp Hxn] by (split; intros ->; set_solver).
  unfold list_move_head.
  rewrite (load_next_nxt _ _ _ Hc2n). simpl. rewrite (load_prev_prv _ _ _ Hc1p). simpl.
  destruct (store_prev_spec h n (Some p)) as (h1 & -> & P1 & N1 & O1 & D1);
    [eapply is_list_allocated; [done|set_solver]|]. simpl.
  assert (prv h1 x = Some p) as Hp1 by (rewrite P1; by case_decide).
  assert (nxt h1 x = Some n) as Hn1 by by rewrite N1.
  rewrite (load_prev_prv _ _ _ Hp1). simpl. rewrite (load_next_nxt _ _ _ Hn1). simpl.
  destruct (store_next_spec h1 p (Some n)) as (h2 & -> & N2 & P2 & O2 & D2);
    [eapply same_dom_allocated; [done|]; eapply is_list_allocated; [done|set_solver]|]. simpl.
  assert (is_list h2 head (l1 ++ l2)) as Hl2.
  { split; [apply NoDup_cons; split; [set_solver|by eapply NoDup_remove_mid]|].
    eapply (chain_remove h); eauto; try apply Hl.
    - fold p. rewrite N2. by case_decide.
    - fold n. rewrite P2, P1. by case_decide.
    - fold p. intros q ? ?. rewrite N2, N1. by case_decide.
    - fold n. intros q ? ?. rewrite P2, P1. by case_decide. }
  rewrite (load_next_nxt _ _ _ (is_list_first _ _ _ Hl2)). simpl.
  destruct (is_list_insert h2 head [] (l1 ++ l2) x) as (h3 & ? & ? & O3 & D3); [done| | |].
  - do 2 (eapply same_dom_allocated; [eassumption|]).
    eapply is_list_allocated; [done|set_solver].
  - set_solver.
  - exists h3. split_and!; [done|done| |by rewrite D1, D2, D3].
    intros q Hq. rewrite O3, O2, O1; set_solver.
Qed.

Theorem list_move_tail_to_head_spec h head l x :
  is_list h head (l ++ [x]) →
  ∃ h', list_move_tail_to_head (Some head) h = Some h' ∧ is_list h' head (x :: l) ∧
    same_outside (head :: l ++ [x]) h h' ∧ same_dom h h'.
Proof.
  intros Hl. unfold list_move_tail_to_head.
  rewrite (load_prev_prv _ _ _ (is_list_last _ _ _ Hl)), last_snoc. simpl.
  destruct (list_move_head_spec _ _ _ _ _ Hl) as (h' & ? & ? & ?).
  exists h'. by rewrite app_nil_r in *.
Qed.

(** ** Tests and walks *)
Theorem list_empty_spec h head l :
  is_list h head l → list_empty (Some head) h = Some (c_bool (bool_decide (l = []))).
Proof.
  intros Hl. unfold list_empty. rewrite (load_next_nxt _ _ _ (is_list_first _ _ _ Hl)). simpl.
  destruct l as [|x l]; simpl; [by rewrite decide_True|].
  rewrite decide_False; [done|]. intros [= ->].
  destruct Hl as [[Hh _]%NoDup_cons _]. set_solver.
Qed.

(** What a walk computes on the sequence of nodes. *)
Fixpoint fold_until {X A} (f : X → ptr → option (X + A)) l x : option (X + A) :=
  match l with
  | [] => Some (inl x)
  | p :: l' =>
      r ← f x p;
      match r with inr a => Some (inr a) | inl x' => fold_until f l' x' end
  end.

Lemma fold_until_none {X A} (f : X → ptr → option (X + A)) l x :
  (∀ p, p ∈ l → f x p = Some (inl x)) → fold_until f l x = Some (inl x).
Proof.
  induction l as [|p l IH]; intros Hf; simpl; [done|].
  rewrite Hf by (by left). simpl. apply IH. intros q ?. apply Hf. by right.
Qed.

Lemma fold_until_hit {X A} (f : X → ptr → option (X + A)) l1 p l2 x :
  (∀ q, q ∈ l1 → f x q = Some (inl x)) → (∀ r, f x p = Some r → ∃ v, r = inr v) →
  fold_until f (l1 ++ p :: l2) x = f x p.
Proof.
  intros Hf Hp. induction l1 as [|q l1 IH]; simpl.
  - destruct (f x p) as [r|]; [|done]. by destruct (Hp r eq_refl) as [v ->].
  - rewrite Hf by (by left). simpl. apply IH. intros q' ?. apply Hf. by right.
Qed.

Lemma list_walk_spec {X A} fuel (f : X → ptr → option (X + A)) h hd a l x :
  hd ∉ l → chain h a l hd → (length l < fuel)%nat →
  list_walk fuel f h hd (Some (default hd (list.head l))) x = fold_until f l x.
Proof.
  revert a fuel x. induction l as [|y l IH]; intros a [|fuel] x Hh Hc Hf; simpl in *; try lia.
  - by rewrite decide_True.
  - rewrite decide_False by set_solver. destruct (f x y) as [[x'|]|]; simpl; try done.
    destruct Hc as [_ Hc].
    rewrite (load_next_nxt h y _ (proj1 (chain_first _ _ _ _ Hc))). simpl.
    apply (IH y); [set_solver|done|lia].
Qed.

(** The walk terminates and computes [fold_until] when its fuel exceeds the
    length of the list. *)
Lemma list_for_each_spec {X A} fuel (f : X → ptr → option (X + A)) h head l x :
  is_list h head l → (length l < fuel)%nat →
  list_for_each fuel f h head x = fold_until f l x.
Proof.
  intros Hl Hf. unfold list_for_each.
  rewrite (load_next_nxt _ _ _ (is_list_first _ _ _ Hl)). simpl.
  destruct Hl as [[Hh _]%NoDup_cons Hc]. by eapply list_walk_spec.
Qed.

(** ** Separate lists *)
Lemma is_list_same_outside h h' head l X :
  is_list h head l → same_outside X h h' → (∀ q, q ∈ head :: l → q ∉ X) →
  is_list h' head l.
Proof. intros Hl Hs Hd. eapply is_list_frame; [done|]. right. intros q ?. by apply Hs, Hd. Qed.

Lemma unlinked_same_outside h h' p X :
  unlinked h p → same_outside X h h' → p ∉ X → unlinked h' p.
Proof. unfold unlinked. intros Hp Hs ?. by rewrite Hs. Qed.
End list_c.

#[global] Arguments list_add : simpl never.
#[global] Arguments list_delete : simpl never.
#[global] Arguments list_empty : simpl never.
#[global] Arguments list_delete_tail : simpl never.
#[global] Arguments list_delete_head : simpl never.
#[global] Arguments list_add_tail : simpl never.
#[global] Arguments list_add_head : simpl never.
#[global] Arguments list_for_each : simpl never.
