(* ===== verification/Shm.v ===== *)
(** * Command slots in shared memory (src/emu/fe/shmem.h, src/emu/fe/shmem.c)

    256 command slots are threaded through three index-based lists: FREE, RDY
    and PROC.  The host process (src/fio4emu/engines/emu_io.c, or the test
    thread of src/emu/fe/fe.c) moves a slot from FREE to RDY; the firmware
    takes it from RDY and gives it back to FREE.  The index 256 marks the end
    of a list.  Every operation refines its operation on sequences of slot
    numbers, and the lists never share a slot. *)
From stdpp Require Import functions.
From S2P Require Import Prelude CInt Config.

Definition EMU_SSD_SIZE : Z := 1 * GB.
Definition HOST_BLOCK_SIZE : Z := 4 * KB.
Definition CMD_SLOT_NUM : Z := 256.
Definition SHM_READ_OPS : Z := 1.
Definition SHM_WRITE_OPS : Z := 2.

Record shm_list := ShmList { l_next : Z; l_prev : Z }.
Record shm_cmd := ShmCmd { c_next : Z; c_prev : Z; ops : Z; lpn : Z; size : Z }.

Inductive LIST_TYPE := FREE_LIST | RDY_LIST | PROC_LIST.
#[export] Instance LIST_TYPE_eq_dec : EqDecision LIST_TYPE.
Proof. solve_decision. Defined.

(** The segment: the slots, the three list heads and the lock word. *)
Record shm := Shm {
  slots : list shm_cmd;
  heads : LIST_TYPE → shm_list;
  ctrl : Z;
}.

#[export] Instance shm_list_eta : Settable shm_list := λ r, ShmList (l_next r) (l_prev r).
#[export] Instance shm_cmd_eta : Settable shm_cmd :=
  λ r, ShmCmd (c_next r) (c_prev r) (ops r) (lpn r) (size r).
#[export] Instance shm_eta : Settable shm := λ r, Shm (slots r) (heads r) (ctrl r).

(** ** Accesses *)

(** [SHM_SLOT(n)->f]: slot 256 is NULL and a larger index is out of the table. *)
Definition SHM_SLOT (s : shm) (n : Z) : option shm_cmd :=
  if decide (n = CMD_SLOT_NUM) then None else zget (slots s) n.
Definition slot_set (n : Z) (f : shm_cmd → shm_cmd) (s : shm) : option shm :=
  c ← SHM_SLOT s n; l ← zset (slots s) n (f c); Some (s <| slots := l |>).
Definition head_set (lt : LIST_TYPE) (f : shm_list → shm_list) (s : shm) : shm :=
  s <| heads := <[lt := f (heads s lt)]> (heads s) |>.

(** ** The lock

    [shm_get] spins on a test-and-set of CTRL_BYTE; it returns in the states in
    which the word reads 0. *)
Definition shm_get (s : shm) : option shm :=
  if decide (ctrl s = 0) then Some (s <| ctrl := 1 |>) else None.
Definition shm_release (s : shm) : shm := s <| ctrl := 0 |>.

(** ** List operations *)
Definition shm_list_empty (lt : LIST_TYPE) (s : shm) : Z :=
  if decide (l_next (heads s lt) = CMD_SLOT_NUM) then 1 else 0.

Definition shm_list_add (i : Z) (lt : LIST_TYPE) (s : shm) : option shm :=
  if decide (shm_list_empty lt s = 1) then
    s ← slot_set i (λ c, c <| c_next := l_next (heads s lt) |>) s;
    let s := head_set lt (λ h, h <| l_next := i |>) s in
    s ← slot_set i (λ c, c <| c_prev := l_prev (heads s lt) |>) s;
    Some (head_set lt (λ h, h <| l_prev := i |>) s)
  else
    let slot_tail := l_prev (heads s lt) in
    s ← slot_set i (λ c, c <| c_prev := l_prev (heads s lt) |>) s;
    let s := head_set lt (λ h, h <| l_prev := i |>) s in
    t ← SHM_SLOT s slot_tail;
    s ← slot_set i (λ c, c <| c_next := c_next t |>) s;
    slot_set slot_tail (λ c, c <| c_next := i |>) s.

Definition shm_list_remove (lt : LIST_TYPE) (s : shm) : option (Z * shm) :=
  if decide (shm_list_empty lt s = 1) then Some (CMD_SLOT_NUM, s)
  else
    let i := l_next (heads s lt) in
    slot_remove ← SHM_SLOT s i;
    if decide (c_next slot_remove = CMD_SLOT_NUM) then
      Some (i, head_set lt (λ _, ShmList CMD_SLOT_NUM CMD_SLOT_NUM) s)
    else
      s ← slot_set (c_next slot_remove) (λ c, c <| c_prev := c_prev slot_remove |>) s;
      Some (i, head_set lt (λ h, h <| l_next := c_next slot_remove |>) s).

(** The 64-bit host compiles its own copies of the three operations. *)
Definition shm_list_empty_x64 (lt : LIST_TYPE) (s : shm) : Z :=
  if decide (l_next (heads s lt) = CMD_SLOT_NUM) then 1 else 0.

Definition shm_list_add_x64 (i : Z) (lt : LIST_TYPE) (s : shm) : option shm :=
  if decide (shm_list_empty_x64 lt s = 1) then
    s ← slot_set i (λ c, c <| c_next := l_next (heads s lt) |>) s;
    let s := head_set lt (λ h, h <| l_next := i |>) s in
    s ← slot_set i (λ c, c <| c_prev := l_prev (heads s lt) |>) s;
    Some (head_set lt (λ h, h <| l_prev := i |>) s)
  else
    let slot_tail := l_prev (heads s lt) in
    s ← slot_set i (λ c, c <| c_prev := l_prev (heads s lt) |>) s;
    let s := head_set lt (λ h, h <| l_prev := i |>) s in
    t ← SHM_SLOT s slot_tail;
    s ← slot_set i (λ c, c <| c_next := c_next t |>) s;
    slot_set slot_tail (λ c, c <| c_next := i |>) s.

Definition shm_list_remove_x64 (lt : LIST_TYPE) (s : shm) : option (Z * shm) :=
  if decide (shm_list_empty_x64 lt s = 1) then Some (CMD_SLOT_NUM, s)
  else
    let i := l_next (heads s lt) in
    slot_remove ← SHM_SLOT s i;
    if decide (c_next slot_remove = CMD_SLOT_NUM) then
      Some (i, head_set lt (λ _, ShmList CMD_SLOT_NUM CMD_SLOT_NUM) s)
    else
      s ← slot_set (c_next slot_remove) (λ c, c <| c_prev := c_prev slot_remove |>) s;
      Some (i, head_set lt (λ h, h <| l_next := c_next slot_remove |>) s).

(** ** Operations of the front end (shmem.c) *)

(** The segment after [memset(SHM_BASE, 0, SHM_SIZE)]. *)
Definition shm_zero : shm :=
  Shm (repeat (ShmCmd 0 0 0 0 0) (Z.to_nat CMD_SLOT_NUM)) (λ _, ShmList 0 0) 0.

(** [for (i = 0; i < n; i++) shm_list_add(i, FREE_LIST)] *)
Fixpoint add_slots (n : nat) (s : shm) : option shm :=
  match n with
  | O => Some s
  | S n' => s ← add_slots n' s; shm_list_add (Z.of_nat n') FREE_LIST s
  end.

(** SHM_init once the segment is mapped. *)
Definition SHM_init : option shm :=
  let s := shm_zero in
  let s := head_set FREE_LIST (λ _, ShmList CMD_SLOT_NUM CMD_SLOT_NUM) s in
  let s := head_set RDY_LIST (λ _, ShmList CMD_SLOT_NUM CMD_SLOT_NUM) s in
  let s := head_set PROC_LIST (λ _, ShmList CMD_SLOT_NUM CMD_SLOT_NUM) s in
  s ← add_slots (Z.to_nat CMD_SLOT_NUM) s;
  Some (s <| ctrl := 0 |>).

(** Writes [*pindex] and, when a command was ready, [*scmd]. *)
Definition SHM_get_rdy_list (s : shm) : option ((Z * option shm_cmd) * shm) :=
  s ← shm_get s;
  if decide (shm_list_empty RDY_LIST s = 1) then
    Some ((CMD_SLOT_NUM, None), shm_release s)
  else
    '(index, s) ← shm_list_remove RDY_LIST s;
    cmd ← SHM_SLOT s index;
    Some ((index, Some cmd), shm_release s).

Definition SHM_add_rdy_list (index : Z) (scmd : shm_cmd) (s : shm) : option shm :=
  s ← shm_get s;
  s ← slot_set index (λ _, scmd) s;
  s ← shm_list_add index RDY_LIST s;
  Some (shm_release s).

Definition SHM_add_free_list (index : Z) (s : shm) : option shm :=
  s ← shm_get s;
  s ← shm_list_add index FREE_LIST s;
  Some (shm_release s).

(** ** The host side *)

(** One command of the test thread (fe.c): [shm_get], wait for a free slot,
    write it and put it on RDY.  It makes no step while FREE is empty. *)
Definition host_submit (op lp sz : Z) (s : shm) : option (Z * shm) :=
  s ← shm_get s;
  if decide (shm_list_empty FREE_LIST s = 1) then None
  else
    '(t_i, s) ← shm_list_remove FREE_LIST s;
    s ← slot_set t_i (λ c, c <| lpn := lp |> <| ops := op |> <| size := sz |>) s;
    s ← shm_list_add t_i RDY_LIST s;
    Some (t_i, shm_release s).

(** ** Representation

    [linked s p l]: the slots of [l] are chained in order, the first one with
    predecessor [p] and the last one with successor 256. *)
Definition hd_or (l : list Z) : Z := default CMD_SLOT_NUM (head l).
Definition last_or (l : list Z) : Z := default CMD_SLOT_NUM (last l).

Fixpoint linked (sl : list shm_cmd) (p : Z) (l : list Z) : Prop :=
  match l with
  | [] => True
  | x :: l' => (∃ c, zget sl x = Some c ∧ c_prev c = p ∧ c_next c = hd_or l') ∧
               linked sl x l'
  end.

(** List [lt] holds the sequence [l] of slot numbers. *)
Definition shm_rep (s : shm) (lt : LIST_TYPE) (l : list Z) : Prop :=
  NoDup l ∧ (∀ x, x ∈ l → 0 ≤ x < CMD_SLOT_NUM) ∧
  heads s lt = ShmList (hd_or l) (last_or l) ∧ linked (slots s) CMD_SLOT_NUM l.

(** The three lists together: every list is well formed and no slot is in two. *)
Definition shm_lists (s : shm) (ls : LIST_TYPE → list Z) : Prop :=
  length (slots s) = Z.to_nat CMD_SLOT_NUM ∧
  (∀ lt, shm_rep s lt (ls lt)) ∧
  (∀ lt lt' x, lt ≠ lt' → x ∈ ls lt → x ∉ ls lt').

(** What the protocol may not touch: the command a slot carries. *)
Definition payload (c : shm_cmd) : Z * Z * Z := (ops c, lpn c, size c).
Definition slot_payload (s : shm) (x : Z) : option (Z * Z * Z) :=
  payload <$> zget (slots s) x.

Lemma hd_or_range l : (∀ x, x ∈ l → 0 ≤ x < CMD_SLOT_NUM) → l ≠ [] → 0 ≤ hd_or l < CMD_SLOT_NUM.
Proof. destruct l as [|x l]; [done|]. intros Hr _. apply Hr. left. Qed.

Lemma hd_or_nil l : (∀ x, x ∈ l → 0 ≤ x < CMD_SLOT_NUM) → hd_or l = CMD_SLOT_NUM ↔ l = [].
Proof.
  intros Hr. split; [|by intros ->]. destruct l as [|x l]; [done|].
  intros Hx. specialize (Hr x ltac:(left)). unfold hd_or in Hx. simpl in Hx. lia.
Qed.

Lemma shm_list_empty_spec s lt l :
  shm_rep s lt l → shm_list_empty lt s = c_bool (bool_decide (l = [])).
Proof.
  intros (_ & Hr & Hh & _). unfold shm_list_empty. rewrite Hh. simpl.
  case_decide as E; rewrite hd_or_nil in E by done; case_bool_decide; done.
Qed.

Lemma SHM_SLOT_zget s n c : zget (slots s) n = Some c → n ≠ CMD_SLOT_NUM → SHM_SLOT s n = Some c.
Proof. intros. unfold SHM_SLOT. by rewrite decide_False. Qed.

Lemma slot_set_spec s n :
  length (slots s) = Z.to_nat CMD_SLOT_NUM → 0 ≤ n < CMD_SLOT_NUM →
  ∀ f, ∃ s' c, slot_set n f s = Some s' ∧ zget (slots s) n = Some c ∧
    zget (slots s') n = Some (f c) ∧
    (∀ x, x ≠ n → zget (slots s') x = zget (slots s) x) ∧
    heads s' = heads s ∧ ctrl s' = ctrl s ∧ length (slots s') = Z.to_nat CMD_SLOT_NUM.
Proof.
  intros Hlen Hn f. unfold slot_set, SHM_SLOT. rewrite decide_False by lia.
  destruct (zget_is_Some (slots s) n) as [c Hc]; [lia|]. rewrite Hc. simpl.
  destruct (zset (slots s) n (f c)) as [l|] eqn:E;
    [|rewrite zset_is_Some in E by lia; done].
  simpl. eexists _, c. split_and!; try done; simpl.
  - by eapply zget_zset_eq.
  - intros x ?. by eapply zget_zset_ne.
  - by rewrite (zset_length _ _ _ _ E).
Qed.

(** [linked] depends on the link fields of its own slots only. *)
Lemma linked_frame sl sl' p l :
  (∀ x c, x ∈ l → zget sl x = Some c →
     ∃ c', zget sl' x = Some c' ∧ c_prev c' = c_prev c ∧ c_next c' = c_next c) →
  linked sl p l → linked sl' p l.
Proof.
  revert p. induction l as [|x l IH]; intros p Hf; simpl; [done|].
  intros [(c & Hc & <- & Hn) Hl]. split.
  - destruct (Hf x c) as (c' & ? & ? & ?); [left|done|]. exists c'. split_and!; congruence.
  - apply IH; [|done]. intros y d ?. apply Hf. by right.
Qed.

Lemma linked_elem sl p l x : linked sl p l → x ∈ l → ∃ c, zget sl x = Some c.
Proof.
  revert p. induction l as [|y l IH]; intros p; simpl; [intros _ []%elem_of_nil|].
  intros [(c & ? & _) Hl] [->|?]%elem_of_cons; eauto.
Qed.

(** Appending [i]: the new slot points back to the last one, the last one
    points to the new slot. *)
Lemma linked_snoc sl sl' p l i :
  linked sl p l → NoDup l → i ∉ l →
  (∃ c, zget sl' i = Some c ∧ c_prev c = default p (last l) ∧ c_next c = CMD_SLOT_NUM) →
  (∀ x c, x ∈ l → zget sl x = Some c →
     ∃ c', zget sl' x = Some c' ∧ c_prev c' = c_prev c ∧
           c_next c' = if decide (Some x = last l) then i else c_next c) →
  linked sl' p (l ++ [i]).
Proof.
  revert p. induction l as [|x l IH]; intros p Hl Hnd Hi Hnew Hf; simpl in *; [done|].
  destruct Hl as [(c & Hc & <- & Hn) Hl]. apply NoDup_cons in Hnd as [Hx Hnd]. split.
  - destruct (Hf x c) as (c' & ? & ? & Hn'); [left|done|]. exists c'. split_and!; [done..|].
    rewrite Hn'. destruct l as [|y l]; simpl; [by rewrite decide_True|].
    rewrite decide_False; [done|]. intros Heq. apply Hx.
    apply last_Some_elem_of. by rewrite <- Heq.
  - apply IH; [done|done|set_solver| |].
    + destruct Hnew as (d & ? & Hd & ?). exists d. split_and!; [done| |done].
      rewrite Hd. apply (last_cons_default c.(c_prev) x l).
    + intros y d Hy Hd. destruct (Hf y d) as (d' & ? & ? & Hn'); [by right|done|].
      exists d'. split_and!; [done..|]. rewrite Hn'.
      destruct l as [|z l]; [by apply elem_of_nil in Hy|done].
Qed.

Lemma heads_head_set s lt f lt' :
  heads (head_set lt f s) lt' = if decide (lt' = lt) then f (heads s lt) else heads s lt'.
Proof.
  unfold head_set. simpl. case_decide; subst; [by rewrite fn_lookup_insert|].
  by rewrite fn_lookup_insert_ne by done.
Qed.

#[global] Arguments head_set : simpl never.
#[global] Arguments slot_set : simpl never.

(** ** Appending a slot *)
Lemma shm_list_add_effect s lt l i :
  shm_rep s lt l → length (slots s) = Z.to_nat CMD_SLOT_NUM →
  0 ≤ i < CMD_SLOT_NUM → i ∉ l →
  ∃ s', shm_list_add i lt s = Some s' ∧ ctrl s' = ctrl s ∧
    length (slots s') = Z.to_nat CMD_SLOT_NUM ∧
    (∀ lt', heads s' lt' = if decide (lt' = lt) then ShmList (hd_or (l ++ [i])) i
                           else heads s lt') ∧
    (∃ c c', zget (slots s) i = Some c ∧ zget (slots s') i = Some c' ∧
       c_prev c' = last_or l ∧ c_next c' = CMD_SLOT_NUM ∧ payload c' = payload c) ∧
    (∀ x c, x ≠ i → zget (slots s) x = Some c → ∃ c', zget (slots s') x = Some c' ∧
       c_prev c' = c_prev c ∧ payload c' = payload c ∧
       c_next c' = if decide (Some x = last l) then i else c_next c).
Proof.
  intros Hrep Hlen Hi Hil. pose proof (shm_list_empty_spec _ _ _ Hrep) as He.
  destruct Hrep as (Hnd & Hr & Hh & Hl). unfold shm_list_add. rewrite He.
  destruct (list_snoc_inv l) as [->|(l' & t & ->)].
  - rewrite bool_decide_true by done. simpl.
    edestruct (slot_set_spec s i Hlen Hi)
      as (s1 & c & -> & Hc & Hc1 & Ho1 & Hh1 & Ht1 & Hlen1). simpl.
    set (s2 := head_set lt _ s1).
    edestruct (slot_set_spec s2 i Hlen1 Hi)
      as (s3 & c' & -> & Hc' & Hc3 & Ho3 & Hh3 & Ht3 & Hlen3). simpl.
    change (slots s2) with (slots s1) in *. rewrite Hc1 in Hc'. injection Hc' as <-.
    assert (l_prev (heads s2 lt) = CMD_SLOT_NUM) as Hp.
    { subst s2. rewrite heads_head_set, decide_True, Hh1, Hh by done. done. }
    eexists. split; [done|]. split_and!; [exact (eq_trans Ht3 Ht1)|done| | |].
    + intros lt'. rewrite heads_head_set, Hh3. subst s2. rewrite !heads_head_set, Hh1.
      case_decide; [by rewrite decide_True|done].
    + exists c. eexists. split_and!; [done|exact Hc3|by simpl|by simpl; rewrite Hh|done].
    + intros x d ? Hd. exists d. change (zget (slots s3) x = Some d ∧ c_prev d = c_prev d ∧
        payload d = payload d ∧ c_next d = c_next d). by rewrite Ho3, Ho1 by done.
  - rewrite bool_decide_false by (by destruct l'). simpl.
    assert (l_prev (heads s lt) = t) as Htl by (rewrite Hh; unfold last_or; by rewrite last_snoc).
    assert (0 ≤ t < CMD_SLOT_NUM) as Ht by (apply Hr; set_solver).
    assert (t ≠ i) as Hti by set_solver.
    edestruct (slot_set_spec s i Hlen Hi)
      as (s1 & c & -> & Hc & Hc1 & Ho1 & Hh1 & Ht1 & Hlen1). simpl.
    set (s2 := head_set lt _ s1). rewrite Htl.
    destruct (linked_elem _ _ _ t Hl) as [d Hd]; [set_solver|].
    rewrite (SHM_SLOT_zget s2 t d) by (try lia; change (slots s2) with (slots s1); by rewrite Ho1).
    simpl.
    edestruct (slot_set_spec s2 i Hlen1 Hi)
      as (s3 & c' & -> & Hc' & Hc3 & Ho3 & Hh3 & Ht3 & Hlen3). simpl.
    edestruct (slot_set_spec s3 t Hlen3 Ht)
      as (s4 & d' & -> & Hd' & Hd4 & Ho4 & Hh4 & Ht4 & Hlen4).
    change (slots s2) with (slots s1) in *. rewrite Hc1 in Hc'. injection Hc' as <-.
    rewrite Ho3, Ho1, Hd in Hd' by done. injection Hd' as <-.
    assert (c_next d = CMD_SLOT_NUM) as Hdn.
    { assert (∀ p l', linked (slots s) p (l' ++ [t]) → c_next d = CMD_SLOT_NUM) as Hgen.
      { clear -Hd. intros p l'. revert p. induction l' as [|y l' IH]; intros p; simpl.
        - intros [(c & Hc & _ & Hn) _]. rewrite Hd in Hc. by injection Hc as ->.
        - intros [_ ?]. eauto. }
      by eapply Hgen. }
    eexists. split; [done|]. split_and!; [rewrite Ht4, Ht3; exact Ht1|done| | |].
    + intros lt'. rewrite Hh4, Hh3. subst s2. rewrite heads_head_set, Hh1.
      case_decide; subst; [|done]. rewrite Hh. simpl. f_equal. by destruct l'.
    + exists c. eexists. split_and!; [done|rewrite Ho4 by done; exact Hc3| |done|done].
      simpl. unfold last_or. by rewrite last_snoc.
    + intros x e Hx He'. rewrite last_snoc. destruct (decide (x = t)) as [->|Hxt].
      * rewrite Hd in He'. injection He' as <-. rewrite decide_True by done.
        eexists. split_and!; [exact Hd4|done..].
      * exists e. rewrite Ho4, Ho3, Ho1 by done. rewrite decide_False by congruence. done.
Qed.

Theorem shm_list_add_spec s lt ls i :
  shm_lists s ls → 0 ≤ i < CMD_SLOT_NUM → (∀ lt', i ∉ ls lt') →
  ∃ s', shm_list_add i lt s = Some s' ∧ shm_lists s' (<[lt := ls lt ++ [i]]> ls) ∧
    ctrl s' = ctrl s ∧ ∀ x, slot_payload s' x = slot_payload s x.
Proof.
  intros (Hlen & Hrep & Hdisj) Hi Hnew.
  destruct (shm_list_add_effect s lt (ls lt) i (Hrep lt) Hlen Hi (Hnew lt))
    as (s' & -> & Ht & Hlen' & Hh' & (c & c' & Hc & Hc' & Hp & Hn & Hpl) & Hoth).
  exists s'. split; [done|]. split_and!; [split_and!; [done| |]|done|].
  - intros lt'. destruct (Hrep lt') as (Hnd & Hr & Hh & Hl). unfold shm_rep. rewrite Hh'.
    destruct (decide (lt' = lt)) as [->|Hne].
    + rewrite fn_lookup_insert. split_and!.
      * apply NoDup_snoc; [done|apply Hnew].
      * intros x [?| ->%list_elem_of_singleton]%elem_of_app; [by apply Hr|done].
      * f_equal. unfold last_or. by rewrite last_snoc.
      * eapply linked_snoc; [done|done|apply Hnew|by eauto|].
        intros x d Hx Hd. destruct (Hoth x d) as (d' & ? & ? & ? & ?); [|done|by eauto].
        intros ->. by apply (Hnew lt).
    + rewrite fn_lookup_insert_ne by done. split_and!; [done..|].
      eapply linked_frame; [|done]. intros x d Hx Hd.
      destruct (Hoth x d) as (d' & ? & ? & _ & Hnx); [|done|].
      { intros ->. by apply (Hnew lt'). }
      exists d'. split_and!; [done..|]. rewrite Hnx, decide_False; [done|].
      intros Heq. apply (Hdisj lt' lt x Hne Hx). apply last_Some_elem_of. by rewrite <- Heq.
  - intros lt1 lt2 x Hne. destruct (decide (lt1 = lt)) as [->|];
      [rewrite fn_lookup_insert, fn_lookup_insert_ne by done|
       rewrite (fn_lookup_insert_ne _ lt lt1) by done].
    + intros [?| ->%list_elem_of_singleton]%elem_of_app; [by apply (Hdisj lt)|apply Hnew].
    + intros Hx. destruct (decide (lt2 = lt)) as [->|];
        [rewrite fn_lookup_insert|rewrite fn_lookup_insert_ne by done].
      * intros [?| ->%list_elem_of_singleton]%elem_of_app;
          [by apply (Hdisj lt1 lt x)|by apply (Hnew lt1)].
      * by apply (Hdisj lt1).
  - intros x. unfold slot_payload. destruct (decide (x = i)) as [->|].
    + rewrite Hc, Hc'. simpl. by rewrite Hpl.
    + destruct (zget (slots s) x) as [d|] eqn:Hd; simpl.
      * destruct (Hoth x d) as (d' & -> & _ & Hpd & _); [done..|]. simpl. by rewrite Hpd.
      * destruct (zget (slots s') x) eqn:E; [|done]. exfalso.
        apply zget_Some_range in E. destruct (zget_is_Some (slots s) x); [lia|congruence].
Qed.

(** ** Taking the first slot *)
Lemma slot_payload_length s s' :
  length (slots s') = length (slots s) →
  (∀ x c, zget (slots s) x = Some c → ∃ c', zget (slots s') x = Some c' ∧ payload c' = payload c) →
  ∀ x, slot_payload s' x = slot_payload s x.
Proof.
  intros Hlen Hf x. unfold slot_payload. destruct (zget (slots s) x) as [c|] eqn:Hc; simpl.
  - destruct (Hf x c Hc) as (c' & -> & Hp). simpl. by rewrite Hp.
  - destruct (zget (slots s') x) eqn:E; [|done]. exfalso. apply zget_Some_range in E.
    destruct (zget_is_Some (slots s) x); [lia|congruence].
Qed.

(** What removing the first slot does to links and heads. *)
Lemma shm_list_remove_effect s lt i l :
  shm_rep s lt (i :: l) → length (slots s) = Z.to_nat CMD_SLOT_NUM →
  ∃ s', shm_list_remove lt s = Some (i, s') ∧ ctrl s' = ctrl s ∧
    length (slots s') = Z.to_nat CMD_SLOT_NUM ∧
    (∀ lt', heads s' lt' = if decide (lt' = lt) then ShmList (hd_or l) (last_or l)
                           else heads s lt') ∧
    (∀ x c, zget (slots s) x = Some c → ∃ c', zget (slots s') x = Some c' ∧
       payload c' = payload c ∧ c_next c' = c_next c ∧
       c_prev c' = if decide (Some x = head l) then CMD_SLOT_NUM else c_prev c).
Proof.
  intros Hrep Hlen. pose proof (shm_list_empty_spec _ _ _ Hrep) as He.
  destruct Hrep as (Hnd & Hr & Hh & [(c & Hc & Hcp & Hcn) Hl]). unfold shm_list_remove.
  rewrite He. simpl. rewrite Hh. change (l_next (ShmList (hd_or (i :: l)) (last_or (i :: l)))) with i.
  assert (0 ≤ i < CMD_SLOT_NUM) as Hi by (apply Hr; left).
  rewrite (SHM_SLOT_zget s i c) by (done || lia). simpl. rewrite Hcn.
  assert (∀ x, x ∈ l → 0 ≤ x < CMD_SLOT_NUM) as Hr' by (intros x ?; apply Hr; by right).
  destruct l as [|j l].
  - rewrite decide_True by done. eexists. split; [done|]. split_and!; [done|done| |].
    + intros lt'. by rewrite heads_head_set.
    + intros x d Hd. exists d. by rewrite decide_False.
  - rewrite decide_False by (rewrite hd_or_nil by done; done).
    assert (0 ≤ j < CMD_SLOT_NUM) as Hj by (apply Hr'; left).
    change (hd_or (j :: l)) with j.
    edestruct (slot_set_spec s j Hlen Hj) as (s1 & d & -> & Hd & Hd1 & Ho1 & Hh1 & Ht1 & Hlen1).
    simpl. eexists. split; [done|]. split_and!; [exact Ht1|exact Hlen1| |].
    + intros lt'. rewrite heads_head_set, Hh1, Hh. by case_decide.
    + intros x e He'. change (slots (head_set lt _ s1)) with (slots s1).
      destruct (decide (x = j)) as [->|Hxj].
      * rewrite Hd in He'. injection He' as <-. rewrite decide_True by done.
        eexists. split_and!; [exact Hd1|done..].
      * exists e. rewrite Ho1 by done. rewrite decide_False by congruence. done.
Qed.

Theorem shm_list_remove_spec s lt ls i l :
  shm_lists s ls → ls lt = i :: l →
  ∃ s', shm_list_remove lt s = Some (i, s') ∧ shm_lists s' (<[lt := l]> ls) ∧
    ctrl s' = ctrl s ∧ (∀ x, slot_payload s' x = slot_payload s x).
Proof.
  intros (Hlen & Hrep & Hdisj) Hlt. pose proof (Hrep lt) as Hi. rewrite Hlt in Hi.
  destruct (shm_list_remove_effect s lt i l Hi Hlen) as (s' & -> & Ht & Hlen' & Hh' & Hf).
  exists s'. split; [done|]. split_and!; [split_and!; [done| |]|done|].
  - intros lt'. destruct (decide (lt' = lt)) as [->|Hne].
    + rewrite fn_lookup_insert. destruct Hi as (Hnd & Hr & _ & [_ Hl]).
      apply NoDup_cons in Hnd as [Hil Hnd]. split_and!; [done| | |].
      * intros x ?. apply Hr. by right.
      * by rewrite Hh', decide_True.
      * destruct l as [|j l]; [done|]. destruct Hl as [(c & Hc & _ & Hn) Hl].
        destruct (Hf j c Hc) as (c' & Hc' & _ & Hn' & Hp'). rewrite decide_True in Hp' by done.
        split; [exists c'; split_and!; [done..|congruence]|].
        eapply linked_frame; [|done]. intros x d Hx Hd.
        destruct (Hf x d Hd) as (d' & ? & _ & ? & Hpd). exists d'. split_and!; [done| |done].
        rewrite Hpd, decide_False; [done|]. intros [= ->]. by apply NoDup_cons in Hnd as [? _].
    + rewrite fn_lookup_insert_ne by done. destruct (Hrep lt') as (Hnd & Hr & Hh & Hl).
      split_and!; [done|done|by rewrite Hh', decide_False|].
      eapply linked_frame; [|done]. intros x d Hx Hd.
      destruct (Hf x d Hd) as (d' & ? & _ & ? & Hpd). exists d'. split_and!; [done| |done].
      rewrite Hpd, decide_False; [done|]. intros Hxh. apply (Hdisj lt' lt x Hne Hx).
      rewrite Hlt. right. by apply head_Some_elem_of.
  - intros lt1 lt2 x Hne Hx. destruct (decide (lt2 = lt)) as [->|].
    + rewrite fn_lookup_insert. rewrite fn_lookup_insert_ne in Hx by done.
      intros ?. apply (Hdisj lt1 lt x Hne Hx). rewrite Hlt. by right.
    + rewrite fn_lookup_insert_ne by done. destruct (decide (lt1 = lt)) as [->|].
      * rewrite fn_lookup_insert in Hx. apply (Hdisj lt lt2 x Hne). rewrite Hlt. by right.
      * rewrite fn_lookup_insert_ne in Hx by done. by apply (Hdisj lt1).
  - apply slot_payload_length; [congruence|]. intros x c ?.
    destruct (Hf x c) as (c' & ? & ? & _); [done|]. eauto.
Qed.

Lemma shm_list_remove_nil s lt ls :
  shm_lists s ls → ls lt = [] → shm_list_remove lt s = Some (CMD_SLOT_NUM, s).
Proof.
  intros (_ & Hrep & _) Hlt. unfold shm_list_remove.
  by rewrite (shm_list_empty_spec s lt (ls lt) (Hrep lt)), Hlt.
Qed.

(** ** The abstract state

    [shm_lists] does not distinguish pointwise equal assignments of sequences,
    so abstract states are rewritten up to pointwise equality. *)
#[export] Instance shm_lists_proper :
  Proper ((=) ==> pointwise_relation _ (=) ==> iff) shm_lists.
Proof.
  intros s _ <- ls ls' Heq. unfold shm_lists. split; intros (Hl & Hr & Hd).
  - split_and!; [done|intros lt; rewrite <- Heq; apply Hr|].
    intros lt lt' x. rewrite <- !Heq. apply Hd.
  - split_and!; [done|intros lt; rewrite Heq; apply Hr|].
    intros lt lt' x. rewrite !Heq. apply Hd.
Qed.

(** The sequences held by the three lists. *)
Definition abs (f r p : list Z) (lt : LIST_TYPE) : list Z :=
  match lt with FREE_LIST => f | RDY_LIST => r | PROC_LIST => p end.

Lemma abs_insert lt l f r p :
  pointwise_relation _ (=) (<[lt := l]> (abs f r p))
    (abs (if decide (lt = FREE_LIST) then l else f)
         (if decide (lt = RDY_LIST) then l else r)
         (if decide (lt = PROC_LIST) then l else p)).
Proof. intros [| |]; destruct lt; done. Qed.

Lemma shm_lists_ctrl s ls t :
  shm_lists s ls → shm_lists (s <| ctrl := t |>) ls.
Proof. done. Qed.

(** Writing the payload of a slot keeps the lists. *)
Lemma slot_set_payload s ls n f :
  shm_lists s ls → 0 ≤ n < CMD_SLOT_NUM →
  (∀ c, c_next (f c) = c_next c ∧ c_prev (f c) = c_prev c) →
  ∃ s' c, slot_set n f s = Some s' ∧ shm_lists s' ls ∧ ctrl s' = ctrl s ∧
    zget (slots s) n = Some c ∧ zget (slots s') n = Some (f c) ∧
    ∀ x, x ≠ n → slot_payload s' x = slot_payload s x.
Proof.
  intros (Hlen & Hrep & Hdisj) Hn Hf.
  edestruct (slot_set_spec s n Hlen Hn f) as (s' & c & -> & Hc & Hc' & Ho & Hh & Ht & Hlen').
  exists s', c. split_and!; [done| |done..|].
  - split_and!; [done| |done]. intros lt. destruct (Hrep lt) as (? & ? & Hhd & Hl).
    split_and!; [done|done|by rewrite Hh|]. eapply linked_frame; [|done].
    intros x d Hx Hd. destruct (decide (x = n)) as [->|].
    + rewrite Hc in Hd. injection Hd as <-. exists (f c). destruct (Hf c). done.
    + exists d. by rewrite Ho.
  - intros x ?. unfold slot_payload. by rewrite Ho.
Qed.

(** ** Initialisation *)
Lemma add_slots_spec n s :
  (n ≤ Z.to_nat CMD_SLOT_NUM)%nat → shm_lists s (abs [] [] []) →
  ∃ s', add_slots n s = Some s' ∧ shm_lists s' (abs (seqZ 0 (Z.of_nat n)) [] []).
Proof.
  induction n as [|n IH]; intros Hn Hs; simpl; [by exists s|].
  destruct IH as (s1 & -> & Hs1); [lia|done|]. simpl.
  destruct (shm_list_add_spec s1 FREE_LIST _ (Z.of_nat n) Hs1) as (s2 & -> & Hs2 & _).
  - unfold CMD_SLOT_NUM in *. lia.
  - intros [| |]; simpl; [|by apply not_elem_of_nil..]. rewrite elem_of_seqZ. lia.
  - exists s2. split; [done|]. rewrite abs_insert in Hs2. simpl in Hs2.
    replace (Z.of_nat (S n)) with (Z.of_nat n + 1) by lia.
    by rewrite seqZ_app by lia.
Qed.

Lemma shm_lists_empty s :
  length (slots s) = Z.to_nat CMD_SLOT_NUM →
  (∀ lt, heads s lt = ShmList CMD_SLOT_NUM CMD_SLOT_NUM) → shm_lists s (abs [] [] []).
Proof.
  intros Hlen Hh. split_and!; [done| |].
  - intros lt. assert (abs [] [] [] lt = []) as -> by by destruct lt.
    split_and!; [constructor| |by rewrite Hh|done]. by intros x ?%elem_of_nil.
  - intros [] lt' x; simpl; by intros ? ?%elem_of_nil.
Qed.

(** SHM_init leaves every slot on FREE, in order, RDY and PROC empty and the
    lock released. *)
Theorem SHM_init_spec :
  ∃ s, SHM_init = Some s ∧ ctrl s = 0 ∧
    shm_lists s (abs (seqZ 0 CMD_SLOT_NUM) [] []).
Proof.
  unfold SHM_init.
  edestruct (add_slots_spec (Z.to_nat CMD_SLOT_NUM)) as (s & E & Hs);
    [apply Nat.le_refl| |rewrite E; eexists; split_and!; [reflexivity|reflexivity|by apply shm_lists_ctrl]].
  apply shm_lists_empty; [by apply repeat_length|]. intros lt.
  rewrite !heads_head_set. by destruct lt.
Qed.

(** ** The front-end operations *)
Lemma shm_get_spec s ls :
  shm_lists s ls → ctrl s = 0 →
  ∃ s', shm_get s = Some s' ∧ shm_lists s' ls ∧ ctrl s' = 1 ∧
        slots s' = slots s ∧ ∀ x, slot_payload s' x = slot_payload s x.
Proof. intros Hs Hc. unfold shm_get. rewrite decide_True by done. by eexists. Qed.


(** With a command ready, SHM_get_rdy_list returns the oldest one and takes its
    slot off RDY; with none it reports 256 and changes nothing. *)
Theorem SHM_get_rdy_list_spec s f r p :
  shm_lists s (abs f r p) → ctrl s = 0 →
  match r with
  | [] => SHM_get_rdy_list s = Some ((CMD_SLOT_NUM, None), s <| ctrl := 0 |>)
  | i :: r' => ∃ c s', SHM_get_rdy_list s = Some ((i, Some c), s') ∧
      Some (payload c) = slot_payload s i ∧ ctrl s' = 0 ∧
      shm_lists s' (abs f r' p) ∧ ∀ x, slot_payload s' x = slot_payload s x
  end.
Proof.
  intros Hs Hc. unfold SHM_get_rdy_list.
  destruct (shm_get_spec s _ Hs Hc) as (s1 & E & Hs1 & _ & _ & Hp1). rewrite E. simpl.
  rewrite (shm_list_empty_spec s1 RDY_LIST r (proj1 (proj2 Hs1) RDY_LIST)).
  destruct r as [|i r'].
  - unfold shm_get in E. rewrite decide_True in E by done. by injection E as <-.
  - simpl.
    destruct (shm_list_remove_spec _ RDY_LIST _ i r' Hs1) as (s' & -> & Hs' & Ht & Hp); [done|].
    simpl. rewrite abs_insert in Hs'. simpl in Hs'.
    assert (0 ≤ i < CMD_SLOT_NUM) as Hi.
    { destruct (proj1 (proj2 Hs) RDY_LIST) as (_ & Hr & _). apply Hr. left. }
    destruct (zget_is_Some (slots s') i) as [c Hc']; [destruct Hs' as [-> _]; lia|].
    rewrite (SHM_SLOT_zget s' i c) by (done || lia). simpl.
    exists c, (shm_release s'). split_and!; [done| |done|by apply shm_lists_ctrl|].
    + rewrite <- Hp1, <- Hp. unfold slot_payload. by rewrite Hc'.
    + intros x. by rewrite <- Hp1, <- Hp.
Qed.

Theorem SHM_add_free_list_spec s f r p i :
  shm_lists s (abs f r p) → ctrl s = 0 → 0 ≤ i < CMD_SLOT_NUM →
  i ∉ f → i ∉ r → i ∉ p →
  ∃ s', SHM_add_free_list i s = Some s' ∧ ctrl s' = 0 ∧
    shm_lists s' (abs (f ++ [i]) r p) ∧ ∀ x, slot_payload s' x = slot_payload s x.
Proof.
  intros Hs Hc Hi Hf Hr Hp. unfold SHM_add_free_list.
  destruct (shm_get_spec s _ Hs Hc) as (s1 & -> & Hs1 & _ & _ & Hp1). simpl.
  destruct (shm_list_add_spec s1 FREE_LIST _ i Hs1 Hi)
    as (s' & -> & Hs' & _ & Hpl); [by intros []|]. simpl.
  rewrite abs_insert in Hs'. exists (shm_release s').
  split_and!; [done|done|by apply shm_lists_ctrl|]. intros x. by rewrite <- Hp1, <- Hpl.
Qed.

(** A command taken off RDY and put back keeps its contents and goes to the end. *)
Theorem SHM_add_rdy_list_spec s f r p i scmd :
  shm_lists s (abs f r p) → ctrl s = 0 → 0 ≤ i < CMD_SLOT_NUM →
  i ∉ f → i ∉ r → i ∉ p →
  ∃ s', SHM_add_rdy_list i scmd s = Some s' ∧ ctrl s' = 0 ∧
    shm_lists s' (abs f (r ++ [i]) p) ∧ slot_payload s' i = Some (payload scmd) ∧
    ∀ x, x ≠ i → slot_payload s' x = slot_payload s x.
Proof.
  intros Hs Hc Hi Hf Hr Hp. unfold SHM_add_rdy_list.
  destruct (shm_get_spec s _ Hs Hc) as (s0 & -> & (Hlen & Hrep & Hdisj) & _ & Hsl & _). simpl.
  edestruct (slot_set_spec s0 i Hlen Hi (λ _, scmd))
    as (s1 & c & -> & Hci & Hc1 & Ho & Hh & Ht & Hlen1). simpl.
  assert (shm_lists s1 (abs f r p)) as Hs1.
  { split_and!; [done| |done]. intros lt. destruct (Hrep lt) as (? & ? & Hhd & Hl).
    split_and!; [done|done|by rewrite Hh|]. eapply linked_frame; [|done].
    intros x d Hx Hd. exists d. rewrite Ho; [done|]. intros ->. by destruct lt. }
  destruct (shm_list_add_spec _ RDY_LIST _ i Hs1 Hi) as (s' & -> & Hs' & _ & Hpl);
    [by intros []|]. simpl. rewrite abs_insert in Hs'. exists (shm_release s').
  split_and!; [done|done|by apply shm_lists_ctrl| |].
  - change (slot_payload s' i = Some (payload scmd)). rewrite Hpl. unfold slot_payload.
    by rewrite Hc1.
  - intros x ?. change (slot_payload s' x = slot_payload s x). rewrite Hpl.
    unfold slot_payload. by rewrite Ho, Hsl.
Qed.

(** The host moves the oldest free slot to the end of RDY with the command it
    carries, and leaves every other slot's command alone. *)
Theorem host_submit_spec s i f r p op lp sz :
  shm_lists s (abs (i :: f) r p) → ctrl s = 0 →
  ∃ s', host_submit op lp sz s = Some (i, s') ∧ ctrl s' = 0 ∧
    shm_lists s' (abs f (r ++ [i]) p) ∧ slot_payload s' i = Some (op, lp, sz) ∧
    ∀ x, x ≠ i → slot_payload s' x = slot_payload s x.
Proof.
  intros Hs Hc. unfold host_submit.
  destruct (shm_get_spec s _ Hs Hc) as (s0 & -> & Hs0 & _ & _ & Hp0). simpl.
  rewrite (shm_list_empty_spec s0 FREE_LIST (i :: f) (proj1 (proj2 Hs0) FREE_LIST)). simpl.
  destruct (proj1 (proj2 Hs) FREE_LIST) as ([Hif _]%NoDup_cons & Hr & _).
  assert (0 ≤ i < CMD_SLOT_NUM) as Hi by (apply Hr; left).
  destruct (shm_list_remove_spec _ FREE_LIST _ i f Hs0) as (s1 & -> & Hs1 & _ & Hp1); [done|].
  simpl. rewrite abs_insert in Hs1. simpl in Hs1.
  edestruct (slot_set_payload s1 _ i (λ c, ShmCmd (c_next c) (c_prev c) op lp sz) Hs1 Hi)
    as (s2 & c & -> & Hs2 & _ & _ & Hc2 & Hp2); [done|]. simpl.
  destruct (shm_list_add_spec _ RDY_LIST _ i Hs2 Hi) as (s3 & -> & Hs3 & _ & Hp3).
  { destruct Hs as (_ & _ & Hd). intros []; simpl; [done|..].
    - apply (Hd FREE_LIST RDY_LIST i ltac:(done)). left.
    - apply (Hd FREE_LIST PROC_LIST i ltac:(done)). left. }
  simpl. rewrite abs_insert in Hs3. exists (shm_release s3).
  split_and!; [done|done|by apply shm_lists_ctrl| |].
  - change (slot_payload s3 i = Some (op, lp, sz)). rewrite Hp3. unfold slot_payload.
    by rewrite Hc2.
  - intros x ?. change (slot_payload s3 x = slot_payload s x). by rewrite Hp3, Hp2, Hp1, Hp0.
Qed.

(** The 64-bit host and the 32-bit firmware run the same list operations. *)
Lemma shm_x64_same s lt i :
  shm_list_empty_x64 lt s = shm_list_empty lt s ∧
  shm_list_add_x64 i lt s = shm_list_add i lt s ∧
  shm_list_remove_x64 lt s = shm_list_remove lt s.
Proof. done. Qed.

(** ** Mutual exclusion

    Threads of both processes run [shm_get], a critical section that leaves
    CTRL_BYTE alone, and [shm_release].  [inside] records which threads are
    between the two calls; [Lock_spin] is a test-and-set that reads 1. *)
Section lock.
Context {T : Type} `{EqDecision T}.

Inductive lock_step : shm * (T → bool) → shm * (T → bool) → Prop :=
| Lock_get t s s' inside :
    inside t = false → shm_get s = Some s' →
    lock_step (s, inside) (s', <[t := true]> inside)
| Lock_spin t s inside :
    inside t = false → shm_get s = None → lock_step (s, inside) (s <| ctrl := 1 |>, inside)
| Lock_body t s s' inside :
    inside t = true → ctrl s' = ctrl s → lock_step (s, inside) (s', inside)
| Lock_release t s inside :
    inside t = true → lock_step (s, inside) (shm_release s, <[t := false]> inside).

Definition lock_inv (st : shm * (T → bool)) : Prop :=
  (ctrl st.1 = 0 ∧ ∀ t, st.2 t = false) ∨
  (ctrl st.1 = 1 ∧ ∃ t, st.2 t = true ∧ ∀ t', st.2 t' = true → t' = t).

Lemma lock_step_inv st st' : lock_step st st' → lock_inv st → lock_inv st'.
Proof.
  intros Hst Hi. destruct Hst as [t s s' inside Ht Hg|t s inside Ht Hg|t s s' inside Ht Hc|
    t s inside Ht]; unfold lock_inv in *; simpl in *.
  - unfold shm_get in Hg. case_decide; [|done]. injection Hg as <-.
    destruct Hi as [[_ Hno]|[? _]]; [|congruence]. right. split; [done|]. exists t.
    rewrite fn_lookup_insert. split; [done|]. intros t'.
    destruct (decide (t' = t)) as [->|]; [done|]. rewrite fn_lookup_insert_ne, Hno by done. done.
  - unfold shm_get in Hg. case_decide; [done|]. destruct Hi as [[? _]|[_ ?]]; [done|]. by right.
  - rewrite Hc. done.
  - destruct Hi as [[_ Hno]|[_ (t0 & _ & Hu)]]; [by rewrite Hno in Ht|]. left.
    split; [done|]. intros t'. destruct (decide (t' = t)) as [->|];
      [by rewrite fn_lookup_insert|]. rewrite fn_lookup_insert_ne by done.
    destruct (inside t') eqn:E; [|done]. pose proof (Hu t' E). pose proof (Hu t Ht). congruence.
Qed.

(** From a released lock, at most one thread is inside at any time, and the
    lock word says whether there is one. *)
Theorem shm_lock_mutex s st t t' :
  ctrl s = 0 → rtc lock_step (s, λ _, false) st →
  st.2 t = true → st.2 t' = true → t = t' ∧ ctrl st.1 = 1.
Proof.
  intros Hs Hr Ht Ht'.
  assert (lock_inv st) as [[_ Hno]|[Hc (t0 & _ & Hu)]].
  { assert (lock_inv (s, λ _ : T, false)) as Hi by (left; done). revert Hi. clear -Hr.
    induction Hr as [|x y z Hst _ IH]; [done|]. intros Hi. by eapply IH, lock_step_inv. }
  - by rewrite Hno in Ht.
  - split; [|done]. by rewrite (Hu t Ht), (Hu t' Ht').
Qed.
End lock.

(** Thread 1 takes the lock and thread 0 spins. *)
Definition held_by_1 : shm * (nat → bool) :=
  (Shm (slots shm_zero) (heads shm_zero) 1, <[1%nat := true]> (λ _, false)).
Lemma shm_lock_mutex_witness : 1%nat = 1%nat ∧ ctrl held_by_1.1 = 1.
Proof.
  apply (shm_lock_mutex shm_zero held_by_1 1%nat 1%nat); [reflexivity| |reflexivity|reflexivity].
  eapply rtc_l; [apply (Lock_get 1%nat shm_zero held_by_1.1); reflexivity|].
  eapply rtc_l; [apply (Lock_spin 0%nat held_by_1.1 held_by_1.2); reflexivity|]. apply rtc_refl.
Defined.
