(* ===== verification/Buffer.v ===== *)
(** * Buffer cache (src/buffer/buffer.c, src/buffer/buffer.h)

    1500 page buffers on intrusive lists ([ListHeap]): a free list, a list of
    cached buffers with the most recently allocated first, 1000 hash chains
    and one list of buffers per host command.  A list head is a symbolic
    pointer and the node a list threads through buffer [b] is
    [BufNode k b], [k] naming the field of [buffer_entry]. *)
From stdpp Require Import functions.
From S2P Require Import Prelude CInt Config ListHeap.

Definition HASH_TABLE_SIZE : Z := 1000.

(** ** Data *)

(** The [list_node] fields of [buffer_entry]. *)
Inductive node_field := free_list_node | lru_list_node | hash_table_node | hcmd_buf_list_node.
#[export] Instance node_field_eq_dec : EqDecision node_field.
Proof. solve_decision. Defined.

(** The list heads. *)
Inductive list_id :=
  | free_buf_list_head | lru_buf_list_head | hash_table (i : nat) | table_entry (i : nat).
#[export] Instance list_id_eq_dec : EqDecision list_id.
Proof. solve_decision. Defined.

Inductive buf_ptr := BufHead (i : list_id) | BufNode (k : node_field) (b : nat).
#[export] Instance buf_ptr_eq_dec : EqDecision buf_ptr.
Proof. solve_decision. Defined.

#[export] Instance node_field_countable : Countable node_field.
Proof.
  refine (inj_countable' (λ k, match k with free_list_node => 0 | lru_list_node => 1
      | hash_table_node => 2 | hcmd_buf_list_node => 3 end%nat)
    (λ n, match n with 0 => free_list_node | 1 => lru_list_node
      | 2 => hash_table_node | _ => hcmd_buf_list_node end%nat) _).
  by intros [].
Defined.
#[export] Instance list_id_countable : Countable list_id.
Proof.
  refine (inj_countable' (λ i, match i with free_buf_list_head => inl (inl tt)
      | lru_buf_list_head => inl (inr tt) | hash_table i => inr (inl i)
      | table_entry i => inr (inr i) end)
    (λ x, match x with inl (inl _) => free_buf_list_head | inl (inr _) => lru_buf_list_head
      | inr (inl i) => hash_table i | inr (inr i) => table_entry i end) _).
  by intros [].
Defined.
#[export] Instance buf_ptr_countable : Countable buf_ptr.
Proof.
  refine (inj_countable' (λ p, match p with BufHead i => inl i | BufNode k b => inr (k, b) end)
    (λ x, match x with inl i => BufHead i | inr (k, b) => BufNode k b end) _).
  by intros [].
Defined.

Record buffer_entry := BufferEntry { b_lpn : Z; buf_id : Z; dirty : Z; valid : Z }.
#[export] Instance buffer_entry_eta : Settable buffer_entry :=
  λ r, BufferEntry (b_lpn r) (buf_id r) (dirty r) (valid r).

Abbreviation buf_heap := (gmap buf_ptr (list_node buf_ptr)).

(** [buffer_list_ptr], the list nodes, and [hcmd_buf_table_ptr]. *)
Record buffers := Buffers {
  entries : list buffer_entry;
  nodes : buf_heap;
  hb_cnt : list Z;
  cur_buf_id : list Z;
}.
#[export] Instance buffers_eta : Settable buffers :=
  λ r, Buffers (entries r) (nodes r) (hb_cnt r) (cur_buf_id r).

(** Every walk and loop over a list gets this fuel: one more than the number
    of buffers. *)
Definition BUF_FUEL : nat := S (Z.to_nat BUFFER_NUMBER).

(** [&buf->field], and [container_of] back to the buffer. *)
Definition node_of (k : node_field) (b : nat) : option buf_ptr := Some (BufNode k b).
Definition container_of (k : node_field) (p : option buf_ptr) : option nat :=
  match p with
  | Some (BufNode k' b) => if decide (k' = k) then Some b else None
  | _ => None
  end.

(** Run a list operation on the nodes. *)
Definition on_nodes (f : buf_heap → option buf_heap) (s : buffers) : option buffers :=
  h ← f (nodes s); Some (s <| nodes := h |>).
Definition entry_set (b : nat) (f : buffer_entry → buffer_entry) (s : buffers) : option buffers :=
  e ← entries s !! b; Some (s <| entries := <[b := f e]> (entries s) |>).

(** ** Hash table *)
Definition get_hash_code (key : Z) : Z := key mod HASH_TABLE_SIZE.
Definition hash_head (key : Z) : list_id := hash_table (Z.to_nat (get_hash_code key)).

Definition init_hash_table (s : buffers) : option buffers :=
  for_opt (Z.to_nat HASH_TABLE_SIZE) (λ i s,
    let hd := Some (BufHead (hash_table i)) in
    s ← on_nodes (store_next hd hd) s; on_nodes (store_prev hd hd) s) s.

Definition insert_hash_table_entry (key : Z) (be : nat) (s : buffers) : option buffers :=
  on_nodes (list_add_tail (node_of hash_table_node be) (Some (BufHead (hash_head key)))) s.

(** The walk both functions below make: [act] is the body of
    [if (buf->lpn == key)], which returns. *)
Definition hash_walk {A} (key : Z) (act : nat → option A) (s : buffers) : option (unit + A) :=
  list_for_each BUF_FUEL
    (λ _ p, buf ← container_of hash_table_node (Some p);
            e ← entries s !! buf;
            if decide (b_lpn e = key) then a ← act buf; Some (inr a) else Some (inl tt))
    (nodes s) (BufHead (hash_head key)) tt.

Definition search_hash_table_entry (key : Z) (s : buffers) : option (option nat) :=
  r ← hash_walk key Some s;
  match r with inr buf => Some (Some buf) | inl _ => Some None end.

Definition delete_hash_table_entry (key : Z) (s : buffers) : option buffers :=
  r ← hash_walk key (λ buf, on_nodes (list_delete (node_of hash_table_node buf)) s) s;
  match r with inr s' => Some s' | inl _ => Some s end.

(** ** Buffers of a host command *)
Definition init_hcmd_buf_table (s : buffers) : option buffers :=
  for_opt 256 (λ i s,
    let hd := Some (BufHead (table_entry i)) in
    s ← on_nodes (store_next hd hd) s; s ← on_nodes (store_prev hd hd) s;
    c ← zset (hb_cnt s) (Z.of_nat i) 0; b ← zset (cur_buf_id s) (Z.of_nat i) 0xffffffff;
    Some (s <| hb_cnt := c |> <| cur_buf_id := b |>)) s.

Definition L2P_get_hcmd_buff_cnt (hcmd_id : Z) (s : buffers) : option Z := zget (hb_cnt s) hcmd_id.

Definition L2P_hcmd_add_buffer (hcmd_id buffer_id lpn : Z) (s : buffers) : option buffers :=
  let buf := Z.to_nat buffer_id in
  s ← entry_set buf (λ e, e <| b_lpn := lpn |>) s;
  s ← on_nodes (list_add_tail (node_of hcmd_buf_list_node buf)
                              (Some (BufHead (table_entry (Z.to_nat hcmd_id))))) s;
  c ← zget (hb_cnt s) hcmd_id; l ← zset (hb_cnt s) hcmd_id (u32 (c + 1));
  Some (s <| hb_cnt := l |>).

(** The walk both getters make: [ret] of the buffer at position [offset];
    reaching the end of the list is reaching the end of the function. *)
Definition hcmd_step (ret : buffer_entry → Z) (offset : Z) (s : buffers) (tmp_cnt : Z)
    (p : buf_ptr) : option (Z + Z) :=
  buf ← container_of hcmd_buf_list_node (Some p);
  e ← entries s !! buf;
  if decide (offset ≤ tmp_cnt) then Some (inr (ret e)) else Some (inl (u32 (tmp_cnt + 1))).
#[global] Arguments hcmd_step : simpl never.
Definition hcmd_walk (ret : buffer_entry → Z) (hcmd_id offset : Z) (s : buffers) : option Z :=
  r ← list_for_each BUF_FUEL (hcmd_step ret offset s)
        (nodes s) (BufHead (table_entry (Z.to_nat hcmd_id))) 0;
  match r with inr v => Some v | inl _ => None end.

Definition L2P_hcmd_buf_get_lpn (hcmd_id buf_offset : Z) (s : buffers) : option Z :=
  hcmd_walk b_lpn hcmd_id buf_offset s.

(** The counter is read for the diagnostic before the walk. *)
Definition L2P_hcmd_get_buffer (hcmd_index offset : Z) (s : buffers) : option Z :=
  _ ← zget (hb_cnt s) hcmd_index; hcmd_walk buf_id hcmd_index offset s.

(** [while (FALSE == list_empty(head)) list_delete_tail(head);] *)
Fixpoint delete_all (fuel : nat) (head : buf_ptr) (h : buf_heap) : option buf_heap :=
  match fuel with
  | O => None
  | S fuel' =>
      e ← list_empty (Some head) h;
      if decide (e = FALSE) then h ← list_delete_tail (Some head) h; delete_all fuel' head h
      else Some h
  end.

Definition L2P_hcmd_free_buf (hcmd_index : Z) (s : buffers) : option buffers :=
  s ← on_nodes (delete_all BUF_FUEL (BufHead (table_entry (Z.to_nat hcmd_index)))) s;
  l ← zset (hb_cnt s) hcmd_index 0;
  Some (s <| hb_cnt := l |>).

(** ** The cache *)
Definition L2P_init_buffer (s : buffers) : option buffers :=
  s ← init_hash_table s;
  s ← init_hcmd_buf_table s;
  s ← for_opt (Z.to_nat BUFFER_NUMBER) (λ i s,
        s ← entry_set i (λ e, e <| b_lpn := 0xffffffff |> <| buf_id := Z.of_nat i |>) s;
        s ← on_nodes (store_next (node_of free_list_node i) None) s;
        s ← on_nodes (store_prev (node_of free_list_node i) None) s;
        s ← on_nodes (store_next (node_of lru_list_node i) None) s;
        s ← on_nodes (store_prev (node_of lru_list_node i) None) s;
        s ← on_nodes (store_next (node_of hash_table_node i) None) s;
        on_nodes (store_prev (node_of hash_table_node i) None) s) s;
  for_opt (Z.to_nat BUFFER_NUMBER) (λ i s,
    on_nodes (list_add_tail (node_of free_list_node i) (Some (BufHead free_buf_list_head))) s) s.

Definition L2P_check_buf_hit (lpn : Z) (s : buffers) : option Z :=
  buf ← search_hash_table_entry lpn s;
  match buf with
  | None => Some INVALID_ID
  | Some b => e ← entries s !! b; Some (buf_id e)
  end.

Definition L2P_allocate_buf (lpn : Z) (s : buffers) : option (Z * buffers) :=
  e ← list_empty (Some (BufHead free_buf_list_head)) (nodes s);
  '(buf, s) ←
    (if decide (e = TRUE) then
       p ← load_prev (nodes s) (Some (BufHead lru_buf_list_head));
       buf ← container_of lru_list_node p;
       be ← entries s !! buf;
       s ← delete_hash_table_entry (b_lpn be) s;
       s ← entry_set buf (λ e, e <| b_lpn := lpn |>) s;
       s ← insert_hash_table_entry lpn buf s;
       s ← on_nodes (list_delete_tail (Some (BufHead lru_buf_list_head))) s;
       s ← on_nodes (list_add_head (node_of lru_list_node buf)
                                   (Some (BufHead lru_buf_list_head))) s;
       Some (buf, s)
     else
       p ← load_next (nodes s) (Some (BufHead free_buf_list_head));
       buf ← container_of free_list_node p;
       s ← on_nodes (list_delete_head (Some (BufHead free_buf_list_head))) s;
       s ← on_nodes (list_add_head (node_of lru_list_node buf)
                                   (Some (BufHead lru_buf_list_head))) s;
       s ← insert_hash_table_entry lpn buf s;
       Some (buf, s));
  s ← entry_set buf (λ e, e <| b_lpn := lpn |>) s;
  be ← entries s !! buf;
  Some (buf_id be, s).

(** The buffer numbers the two dump functions print, in order. *)
Definition dump_list (k : node_field) (hd : list_id) (s : buffers) : option (list Z) :=
  r ← list_for_each (A := Empty_set) BUF_FUEL
        (λ out p, buf ← container_of k (Some p); e ← entries s !! buf;
                  Some (inl (out ++ [buf_id e])))
        (nodes s) (BufHead hd) [];
  match r with inl out => Some out | inr v => Empty_set_rect (λ _, option (list Z)) v end.
Definition dump_free_buf_list : buffers → option (list Z) :=
  dump_list free_list_node free_buf_list_head.
Definition dump_lru_buf_list : buffers → option (list Z) :=
  dump_list lru_list_node lru_buf_list_head.

Definition L2P_get_buffer_addr (mem_base buff_id : Z) : Z :=
  u32 (buff_id * 16 * 1024 + BUFFER_BASE_ADDR mem_base).

(** ** The DRAM at start-up: zeroed, the two static heads linked to themselves *)
Definition all_nodes : list buf_ptr :=
  [BufHead free_buf_list_head; BufHead lru_buf_list_head] ++
  ((λ i, BufHead (hash_table i)) <$> seq 0 (Z.to_nat HASH_TABLE_SIZE)) ++
  ((λ i, BufHead (table_entry i)) <$> seq 0 256) ++
  (b ← seq 0 (Z.to_nat BUFFER_NUMBER);
   [BufNode free_list_node b; BufNode lru_list_node b;
    BufNode hash_table_node b; BufNode hcmd_buf_list_node b]).

Definition self_loop (p : buf_ptr) (h : buf_heap) : buf_heap := <[p := Node (Some p) (Some p)]> h.

Definition buffers_zero : buffers :=
  Buffers (repeat (BufferEntry 0 0 0 0) (Z.to_nat BUFFER_NUMBER))
    (self_loop (BufHead free_buf_list_head) (self_loop (BufHead lru_buf_list_head)
      (list_to_map ((λ p, (p, Node None None)) <$> all_nodes))))
    (repeat 0 256) (repeat 0 256).

(** ** The lists as sequences of buffer numbers *)
Definition field_of (i : list_id) : node_field :=
  match i with
  | free_buf_list_head => free_list_node
  | lru_buf_list_head => lru_list_node
  | hash_table _ => hash_table_node
  | table_entry _ => hcmd_buf_list_node
  end.
Definition valid_id (i : list_id) : Prop :=
  match i with
  | hash_table i => (i < 1000)%nat
  | table_entry i => (i < 256)%nat
  | _ => True
  end.
Abbreviation buf_nodes i l := (BufNode (field_of i) <$> l).

Definition buffer_no (b : nat) : Prop := (b < 1500)%nat.

(** Every list holds its sequence; two lists through the same field share no
    buffer. *)
Record lists_rep (h : buf_heap) (L : list_id → list nat) : Prop := {
  lr_list i : valid_id i → is_list h (BufHead i) (buf_nodes i (L i));
  lr_range i b : b ∈ L i → valid_id i ∧ buffer_no b;
  lr_disj i j b : b ∈ L i → b ∈ L j → field_of i = field_of j → i = j;
  lr_alloc k b : buffer_no b → allocated h (BufNode k b);
}.

#[export] Instance BufNode_inj k : Inj (=) (=) (BufNode k).
Proof. by intros ?? [= ->]. Qed.

Lemma elem_of_buf_nodes k (l : list nat) b : BufNode k b ∈ (BufNode k <$> l) ↔ b ∈ l.
Proof.
  rewrite list_elem_of_fmap. split; [|by eauto]. by intros (y & [= ->] & ?).
Qed.

Lemma head_not_node i (l : list nat) k : (BufHead i ∉ (BufNode k <$> l)).
Proof. rewrite list_elem_of_fmap. by intros (? & ? & _). Qed.

(** Replacing list [i] by [l'] when only nodes of its field, of buffers in no
    other list of the field, changed. *)
Lemma lists_rep_update h h' L i (bs l' : list nat) :
  lists_rep h L → valid_id i → is_list h' (BufHead i) (buf_nodes i l') →
  same_outside (BufHead i :: buf_nodes i bs) h h' → same_dom h h' → l' ⊆ bs →
  (∀ b, b ∈ bs → buffer_no b ∧ ∀ j, j ≠ i → field_of j = field_of i → b ∉ L j) →
  lists_rep h' (<[i := l']> L).
Proof.
  intros [Hl Hr Hd Ha] Hi Hl' Ho Hdom Hsub Hbs. split.
  - intros j Hj. destruct (decide (j = i)) as [->|Hne]; [by rewrite fn_lookup_insert|].
    rewrite fn_lookup_insert_ne by done. eapply is_list_same_outside; [by apply Hl|done|].
    intros q [->|Hq]%elem_of_cons.
    + intros [[= ?]|?%head_not_node]%elem_of_cons; done.
    + apply list_elem_of_fmap in Hq as (b & -> & Hb).
      intros [[=]|(c & [= Hf ->] & Hc)%list_elem_of_fmap]%elem_of_cons.
      by apply (proj2 (Hbs c Hc) j).
  - intros j b Hb. destruct (decide (j = i)) as [->|Hne].
    + rewrite fn_lookup_insert in Hb. split; [done|]. by apply Hbs, Hsub.
    + rewrite fn_lookup_insert_ne in Hb by done. eauto.
  - intros j j' b Hb Hb' Hf.
    destruct (decide (j = i)) as [->|?], (decide (j' = i)) as [->|?]; [done|..].
    + rewrite fn_lookup_insert in Hb. rewrite fn_lookup_insert_ne in Hb' by done.
      by destruct (proj2 (Hbs b (Hsub _ Hb)) j').
    + rewrite fn_lookup_insert in Hb'. rewrite fn_lookup_insert_ne in Hb by done.
      by destruct (proj2 (Hbs b (Hsub _ Hb')) j).
    + rewrite fn_lookup_insert_ne in Hb, Hb' by done. eauto.
  - intros k b Hb. eapply same_dom_allocated; eauto.
Qed.

Lemma lists_rep_ext h L L' : (∀ j, L' j = L j) → lists_rep h L → lists_rep h L'.
Proof.
  intros He [Hl Hr Hd Ha]. split; [| | |done].
  - intros j. rewrite He. apply Hl.
  - intros j b. rewrite He. apply Hr.
  - intros j j' b. rewrite !He. apply Hd.
Qed.

Section list_ops.
Context (h : buf_heap) (L : list_id → list nat) (i : list_id).
Hypothesis HL : lists_rep h L.
Hypothesis Hi : valid_id i.

(** The buffers of a list satisfy the side condition of [lists_rep_update]. *)
Lemma own_elem b : b ∈ L i → buffer_no b ∧ ∀ j, j ≠ i → field_of j = field_of i → b ∉ L j.
Proof.
  intros Hb. split; [by eapply lr_range|]. intros j Hne Hf Hb'.
  by apply Hne, (lr_disj h L HL j i b).
Qed.

Definition fresh_in (b : nat) : Prop :=
  buffer_no b ∧ ∀ j, field_of j = field_of i → b ∉ L j.

Lemma fresh_not_elem b : fresh_in b → BufNode (field_of i) b ∉ BufHead i :: buf_nodes i (L i).
Proof. intros [_ Hf] [[=]|Hb%elem_of_buf_nodes]%elem_of_cons. by apply (Hf i). Qed.

Lemma fresh_own b c : fresh_in b → c ∈ b :: L i →
  buffer_no c ∧ ∀ j, j ≠ i → field_of j = field_of i → c ∉ L j.
Proof. intros [? Hf] [->|Hc]%elem_of_cons; [split; eauto|by apply own_elem]. Qed.

Lemma lists_add_tail b : fresh_in b → ∃ h',
  list_add_tail (Some (BufNode (field_of i) b)) (Some (BufHead i)) h = Some h' ∧
  lists_rep h' (<[i := L i ++ [b]]> L).
Proof.
  intros Hb. destruct (list_add_tail_spec h _ _ (BufNode (field_of i) b) (lr_list _ _ HL i Hi))
    as (h' & -> & Hl & Ho & Hd); [apply HL, Hb|by apply fresh_not_elem|].
  exists h'. split; [done|]. eapply (lists_rep_update h h' L i (b :: L i)); eauto.
  - by rewrite fmap_app.
  - eapply same_outside_mono; [|done]. simpl. set_solver.
  - set_solver.
  - intros c. by apply fresh_own.
Qed.

Lemma lists_add_head b : fresh_in b → ∃ h',
  list_add_head (Some (BufNode (field_of i) b)) (Some (BufHead i)) h = Some h' ∧
  lists_rep h' (<[i := b :: L i]> L).
Proof.
  intros Hb. destruct (list_add_head_spec h _ _ (BufNode (field_of i) b) (lr_list _ _ HL i Hi))
    as (h' & -> & Hl & Ho & Hd); [apply HL, Hb|by apply fresh_not_elem|].
  exists h'. split; [done|]. eapply (lists_rep_update h h' L i (b :: L i)); eauto.
  - eapply same_outside_mono; [|done]. simpl. set_solver.
  - intros c. by apply fresh_own.
Qed.

Lemma lists_delete l1 b l2 : L i = l1 ++ b :: l2 → ∃ h',
  list_delete (Some (BufNode (field_of i) b)) h = Some h' ∧
  lists_rep h' (<[i := l1 ++ l2]> L).
Proof.
  intros Hb. pose proof (lr_list _ _ HL i Hi) as Hl. rewrite Hb, fmap_app, fmap_cons in Hl.
  destruct (list_delete_spec _ _ _ _ _ Hl) as (h' & -> & Hl' & _ & Ho & Hd).
  exists h'. split; [done|]. eapply (lists_rep_update h h' L i (L i)); eauto.
  - by rewrite fmap_app.
  - by rewrite Hb, fmap_app, fmap_cons.
  - rewrite Hb. set_solver.
  - intros c. apply own_elem.
Qed.

Lemma lists_delete_tail l b : L i = l ++ [b] → ∃ h',
  list_delete_tail (Some (BufHead i)) h = Some h' ∧ lists_rep h' (<[i := l]> L).
Proof.
  intros Hb. pose proof (lr_list _ _ HL i Hi) as Hl. rewrite Hb, fmap_app in Hl.
  destruct (list_delete_tail_spec _ _ _ _ Hl) as (h' & -> & Hl' & _ & Ho & Hd).
  exists h'. split; [done|]. eapply (lists_rep_update h h' L i (L i)); eauto.
  - by rewrite Hb, fmap_app.
  - rewrite Hb. set_solver.
  - intros c. apply own_elem.
Qed.

Lemma lists_delete_head b l : L i = b :: l → ∃ h',
  list_delete_head (Some (BufHead i)) h = Some h' ∧ lists_rep h' (<[i := l]> L).
Proof.
  intros Hb. pose proof (lr_list _ _ HL i Hi) as Hl. rewrite Hb, fmap_cons in Hl.
  destruct (list_delete_head_spec _ _ _ _ Hl) as (h' & -> & Hl' & _ & Ho & Hd).
  exists h'. split; [done|]. eapply (lists_rep_update h h' L i (L i)); eauto.
  - by rewrite Hb, fmap_cons.
  - rewrite Hb. set_solver.
  - intros c. apply own_elem.
Qed.

Lemma lists_empty : list_empty (Some (BufHead i)) h = Some (c_bool (bool_decide (L i = []))).
Proof.
  rewrite (list_empty_spec _ _ _ (lr_list _ _ HL i Hi)). do 2 f_equal.
  apply bool_decide_ext. split; [|by intros ->]. by intros ?%fmap_nil_inv.
Qed.

Lemma lists_first b l : L i = b :: l →
  load_next h (Some (BufHead i)) = Some (Some (BufNode (field_of i) b)).
Proof.
  intros Hb. apply load_next_nxt. rewrite (is_list_first _ _ _ (lr_list _ _ HL i Hi)).
  by rewrite Hb.
Qed.

Lemma lists_last l b : L i = l ++ [b] →
  load_prev h (Some (BufHead i)) = Some (Some (BufNode (field_of i) b)).
Proof.
  intros Hb. apply load_prev_prv. rewrite (is_list_last _ _ _ (lr_list _ _ HL i Hi)).
  rewrite Hb, fmap_app. simpl. by rewrite last_snoc.
Qed.

Lemma lists_length : NoDup (L i) ∧ (length (L i) < BUF_FUEL)%nat.
Proof.
  pose proof (is_list_NoDup _ _ _ (lr_list _ _ HL i Hi)) as [Hnd _].
  apply NoDup_fmap_1 in Hnd. split; [done|].
  apply Nat.lt_succ_r. change (Z.to_nat BUFFER_NUMBER) with 1500%nat.
  apply NoDup_bounded_length; [done|]. intros b Hb. by apply (lr_range h L HL i).
Qed.

Lemma lists_walk {X A} (f : X → buf_ptr → option (X + A)) x :
  list_for_each BUF_FUEL f h (BufHead i) x = fold_until f (buf_nodes i (L i)) x.
Proof.
  apply list_for_each_spec; [by apply HL|]. rewrite length_fmap. apply lists_length.
Qed.
End list_ops.

(** ** The cache invariant *)
Definition lpn_of (s : buffers) (b : nat) : Z := default 0 (b_lpn <$> entries s !! b).

Abbreviation free_of L := (L free_buf_list_head).
Abbreviation lru_of L := (L lru_buf_list_head).

Record buf_rep (s : buffers) (L : list_id → list nat) : Prop := {
  br_lists : lists_rep (nodes s) L;
  br_len : length (entries s) = 1500%nat;
  br_id b e : entries s !! b = Some e → buf_id e = Z.of_nat b;
  (** every buffer is either free or cached *)
  br_part : free_of L ++ lru_of L ≡ₚ seq 0 1500;
  (** the hash chains index the cached buffers by logical page *)
  br_hash b i : b ∈ L (hash_table i) ↔ b ∈ lru_of L ∧ hash_head (lpn_of s b) = hash_table i;
  (** no logical page is cached twice *)
  br_inj b c : b ∈ lru_of L → c ∈ lru_of L → lpn_of s b = lpn_of s c → b = c;
  br_cnt_len : length (hb_cnt s) = 256%nat;
  br_cnt i : (i < 256)%nat → hb_cnt s !! i = Some (Z.of_nat (length (L (table_entry i))));
}.

Lemma hash_head_valid key : valid_id (hash_head key).
Proof. unfold hash_head, get_hash_code, HASH_TABLE_SIZE. simpl. dlia. Qed.

Section cache.
Context (s : buffers) (L : list_id → list nat) (Hs : buf_rep s L).

Lemma br_entry b : buffer_no b → ∃ e, entries s !! b = Some e ∧ lpn_of s b = b_lpn e.
Proof.
  intros Hb. destruct (lookup_lt_is_Some_2 (entries s) b) as [e He].
  - rewrite (br_len s L Hs). exact Hb.
  - exists e. unfold lpn_of. by rewrite He.
Qed.

Lemma br_elem i b : b ∈ L i → buffer_no b.
Proof. intros Hb. by eapply lr_range, Hb; apply Hs. Qed.

Lemma br_part_elem b : buffer_no b ↔ b ∈ free_of L ∨ b ∈ lru_of L.
Proof. rewrite <- elem_of_app, (br_part s L Hs), elem_of_seq. unfold buffer_no. lia. Qed.

Lemma br_part_NoDup : NoDup (free_of L ++ lru_of L).
Proof. rewrite (br_part s L Hs). apply NoDup_seq. Qed.

Lemma entry_set_eq b f : buffer_no b → ∃ e, entries s !! b = Some e ∧
  entry_set b f s = Some (s <| entries := <[b := f e]> (entries s) |>).
Proof.
  intros (e & He & _)%br_entry. exists e. unfold entry_set. rewrite He. done.
Qed.

(** What a walk over the hash chain of [key] visits. *)
Lemma chain_step {A} key b (act : nat → option A) :
  b ∈ L (hash_head key) →
  (buf ← container_of hash_table_node (Some (BufNode (field_of (hash_head key)) b));
   e ← entries s !! buf;
   if decide (b_lpn e = key) then a ← act buf; Some (inr a) else Some (inl tt))
  = if decide (lpn_of s b = key) then a ← act b; Some (inr a) else Some (inl tt : unit + A).
Proof.
  intros (e & He & Hl)%br_elem%br_entry. simpl. rewrite He, Hl. simpl. done.
Qed.

Lemma hash_walk_miss {A} key (act : nat → option A) :
  (∀ b, b ∈ lru_of L → lpn_of s b ≠ key) →
  hash_walk key act s = Some (inl tt).
Proof.
  intros Hm. unfold hash_walk. rewrite (lists_walk (nodes s) L (hash_head key) (br_lists s L Hs) (hash_head_valid key)).
  apply fold_until_none. intros p (b & -> & Hb)%list_elem_of_fmap.
  rewrite chain_step by done. apply decide_False.
  apply Hm. by apply (br_hash s L Hs) in Hb as [? _].
Qed.

Lemma hash_walk_hit {A} key b (act : nat → option A) :
  b ∈ lru_of L → lpn_of s b = key →
  hash_walk key act s = (a ← act b; Some (inr a)).
Proof.
  intros Hb Hkey. unfold hash_walk. rewrite (lists_walk (nodes s) L (hash_head key) (br_lists s L Hs) (hash_head_valid key)).
  assert (b ∈ L (hash_head key)) as Hin by (apply (br_hash s L Hs); by rewrite Hkey).
  apply list_elem_of_split in Hin as (l1 & l2 & E).
  rewrite E, fmap_app, fmap_cons, fold_until_hit.
  - rewrite chain_step by (rewrite E; set_solver). by rewrite decide_True.
  - intros p (c & -> & Hc)%list_elem_of_fmap.
    rewrite chain_step by (rewrite E; set_solver).
    apply decide_False. intros Hck.
    assert (c ∈ L (hash_head key)) as Hcin by (rewrite E; set_solver).
    apply (br_hash s L Hs) in Hcin as [Hcl _].
    assert (c = b) as -> by (by apply (br_inj s L Hs); congruence).
    destruct (lists_length (nodes s) L (hash_head key)) as [Hnd _];
      [apply Hs|apply hash_head_valid|].
    rewrite E in Hnd. by apply not_elem_of_NoDup_app_cons in Hnd as [? _].
  - intros r. rewrite chain_step by (rewrite E; set_solver). rewrite decide_True by done.
    intros Hr. run_inv. eauto.
Qed.

Lemma check_hit_miss lpn :
  (∀ b, b ∈ lru_of L → lpn_of s b ≠ lpn) → L2P_check_buf_hit lpn s = Some INVALID_ID.
Proof.
  intros Hm. unfold L2P_check_buf_hit, search_hash_table_entry.
  by rewrite (hash_walk_miss lpn Some).
Qed.

Lemma check_hit_hit lpn b :
  b ∈ lru_of L → lpn_of s b = lpn → L2P_check_buf_hit lpn s = Some (Z.of_nat b).
Proof.
  intros Hb Hl. unfold L2P_check_buf_hit, search_hash_table_entry.
  rewrite (hash_walk_hit lpn b Some) by done. simpl.
  destruct (br_entry b) as (e & He & _); [by eapply br_elem|].
  rewrite He. simpl. f_equal. by eapply br_id.
Qed.

Lemma delete_hash_spec b :
  b ∈ lru_of L → ∃ h' l1 l2, L (hash_head (lpn_of s b)) = l1 ++ b :: l2 ∧
    delete_hash_table_entry (lpn_of s b) s = Some (s <| nodes := h' |>) ∧
    lists_rep h' (<[hash_head (lpn_of s b) := l1 ++ l2]> L).
Proof.
  intros Hb. assert (b ∈ L (hash_head (lpn_of s b))) as Hin by by apply (br_hash s L Hs).
  apply list_elem_of_split in Hin as (l1 & l2 & E).
  destruct (lists_delete (nodes s) L (hash_head (lpn_of s b)) (br_lists s L Hs)
    (hash_head_valid _) l1 b l2 E) as (h' & Hd & Hl').
  exists h', l1, l2. split_and!; [done| |done]. unfold delete_hash_table_entry.
  rewrite (hash_walk_hit (lpn_of s b) b
    (λ buf, on_nodes (list_delete (node_of hash_table_node buf)) s)) by done.
  unfold on_nodes, node_of. simpl in Hd. rewrite Hd. done.
Qed.
End cache.

(** Reading a list family after an update. *)
Ltac lk := repeat (rewrite fn_lookup_insert || (rewrite fn_lookup_insert_ne by done)).
Ltac lk_in H :=
  repeat (rewrite fn_lookup_insert in H || (rewrite fn_lookup_insert_ne in H by done)).

Lemma lpn_of_insert s b e h :
  buffer_no b → length (entries s) = 1500%nat →
  ∀ c, lpn_of (Buffers (<[b := e]> (entries s)) h (hb_cnt s) (cur_buf_id s)) c =
       if decide (c = b) then b_lpn e else lpn_of s c.
Proof.
  intros Hb Hl c. unfold lpn_of, buffer_no in *. simpl. case_decide as E; subst.
  - by rewrite list_lookup_insert_eq by lia.
  - by rewrite list_lookup_insert_ne by done.
Qed.

Section allocate.
Context (s : buffers) (L : list_id → list nat) (Hs : buf_rep s L) (lpn : Z).
Hypothesis miss : ∀ b, b ∈ lru_of L → lpn_of s b ≠ lpn.

(** The invariant after buffer [b] has been given to [lpn]: it heads the
    cached list, is in the chain of [lpn] and in no other. *)
Lemma alloc_rep b e h L' :
  entries s !! b = Some e → lists_rep h L' →
  free_of L' ++ lru_of L' ≡ₚ seq 0 1500 →
  (∀ c, c ∈ lru_of L' ↔ c = b ∨ c ∈ lru_of L) →
  (∀ c i, c ∈ L' (hash_table i) ↔
     c = b ∧ hash_head lpn = hash_table i ∨ c ≠ b ∧ c ∈ L (hash_table i)) →
  (∀ i, L' (table_entry i) = L (table_entry i)) →
  let s' := Buffers (<[b := e <| b_lpn := lpn |>]> (entries s)) h (hb_cnt s) (cur_buf_id s) in
  buf_rep s' L' ∧ ∀ c, lpn_of s' c = if decide (c = b) then lpn else lpn_of s c.
Proof.
  intros He Hl Hp Hlru Hh Ht s'.
  assert (buffer_no b) as Hb.
  { apply lookup_lt_Some in He. by rewrite (br_len s L Hs) in He. }
  pose proof (lpn_of_insert s b (e <| b_lpn := lpn |>) h Hb (br_len s L Hs)) as Hlpn.
  split; [|exact Hlpn]. split; simpl.
  - done.
  - by rewrite length_insert, (br_len s L Hs).
  - intros c e' Hc. destruct (decide (c = b)) as [->|].
    + apply list_lookup_insert_Some in Hc as [(_ & <- & _)|[? _]]; [|done].
      simpl. by apply (br_id s L Hs).
    + rewrite list_lookup_insert_ne in Hc by done. by apply (br_id s L Hs).
  - done.
  - intros c i. rewrite Hh, Hlru, Hlpn, (br_hash s L Hs). case_decide as Hcb; clear - Hcb; tauto.
  - intros c d Hc Hd. rewrite Hlru in Hc, Hd. rewrite !Hlpn.
    repeat case_decide; subst; intros E; try done.
    + destruct Hd as [->|Hd]; [done|]. by destruct (miss d Hd).
    + destruct Hc as [->|Hc]; [done|]. by destruct (miss c Hc).
    + apply (br_inj s L Hs); [by destruct Hc|by destruct Hd|done].
  - apply (br_cnt_len s L Hs).
  - intros i Hi. rewrite Ht. by apply (br_cnt s L Hs).
Qed.

(** A buffer in no chain and a list change elsewhere. *)
Lemma fresh_hash b L1 :
  buffer_no b → (∀ i, b ∉ L1 (hash_table i)) → fresh_in L1 (hash_head lpn) b.
Proof. intros Hb Hf. split; [done|]. intros [| |i|i] [=]. apply Hf. Qed.

Lemma fresh_lru b L1 : buffer_no b → b ∉ lru_of L1 → fresh_in L1 lru_buf_list_head b.
Proof. intros Hb Hf. split; [done|]. by intros [| |i|i] [=]. Qed.

Lemma not_lru_not_hash b i : b ∉ lru_of L → b ∉ L (hash_table i).
Proof. intros Hb [? _]%(br_hash s L Hs). done. Qed.

Lemma hash_add_elem (L1 : list_id → list nat) b c i :
  c ∈ (<[hash_head lpn := L1 (hash_head lpn) ++ [b]]> L1) (hash_table i) ↔
  c = b ∧ hash_head lpn = hash_table i ∨ c ∈ L1 (hash_table i).
Proof.
  destruct (decide (hash_table i = hash_head lpn)) as [E|E].
  - rewrite E, fn_lookup_insert, elem_of_app, list_elem_of_singleton. tauto.
  - rewrite fn_lookup_insert_ne by done. intuition congruence.
Qed.

(** A free buffer: it moves from the free list to the front of the cache. *)
Lemma allocate_free b l :
  free_of L = b :: l → ∃ s' L', L2P_allocate_buf lpn s = Some (Z.of_nat b, s') ∧
    buf_rep s' L' ∧ free_of L' = l ∧ lru_of L' = b :: lru_of L ∧
    (∀ i, L' (table_entry i) = L (table_entry i)) ∧
    ∀ c, lpn_of s' c = if decide (c = b) then lpn else lpn_of s c.
Proof.
  intros Hf. pose proof (br_lists s L Hs) as HL.
  pose proof (br_part_NoDup s L Hs) as Hnd. rewrite Hf in Hnd.
  apply NoDup_cons in Hnd as [Hb1 Hnd]. rewrite elem_of_app in Hb1.
  assert (b ∉ lru_of L) as Hbl by tauto.
  assert (∀ i, b ∉ L (hash_table i)) as Hbh by (intros i; by apply not_lru_not_hash).
  assert (buffer_no b) as Hb by (eapply br_elem; [done|]; rewrite Hf; left).
  destruct (br_entry s L Hs b Hb) as (e & He & _). rewrite <- (br_id s L Hs b e He).
  unfold L2P_allocate_buf. rewrite (lists_empty _ _ free_buf_list_head HL I), Hf. simpl.
  rewrite (lists_first _ _ free_buf_list_head HL I b l Hf). simpl.
  destruct (lists_delete_head _ _ free_buf_list_head HL I b l Hf) as (h1 & E1 & HL1).
  unfold on_nodes, node_of. rewrite E1. simpl.
  destruct (lists_add_head _ _ lru_buf_list_head HL1 I b) as (h2 & E2 & HL2).
  { apply fresh_lru; [done|]. by lk. }
  simpl in E2. rewrite E2. simpl.
  destruct (lists_add_tail _ _ (hash_head lpn) HL2 (hash_head_valid lpn) b) as (h3 & E3 & HL3).
  { apply fresh_hash; [done|]. intros i. by lk. }
  unfold insert_hash_table_entry, on_nodes, node_of. simpl in E3. simpl. rewrite E3. simpl.
  unfold entry_set. simpl. rewrite He. simpl.
  assert (b < length (entries s))%nat by (rewrite (br_len s L Hs); exact Hb).
  rewrite list_lookup_insert_eq by done. simpl.
  eexists _, _. split; [done|].
  match type of HL3 with lists_rep _ ?L3 => pose proof (alloc_rep b e h3 L3 He HL3) as HR end.
  destruct HR as [HR1 HR2].
  - unfold hash_head. lk. rewrite <- (br_part s L Hs), Hf. solve_Permutation.
  - intros c. unfold hash_head. lk. apply elem_of_cons.
  - intros c i. rewrite hash_add_elem. lk. specialize (Hbh i). clear - Hbh.
    destruct (decide (c = b)) as [->|]; tauto.
  - intros i. unfold hash_head. lk. done.
  - split; [exact HR1|]. unfold hash_head. lk. split_and!; [done|done| |exact HR2].
    intros i. by lk.
Qed.

(** No free buffer: the buffer cached longest is taken from its page. *)
Lemma allocate_evict b l :
  free_of L = [] → lru_of L = l ++ [b] →
  ∃ s' L', L2P_allocate_buf lpn s = Some (Z.of_nat b, s') ∧
    buf_rep s' L' ∧ free_of L' = [] ∧ lru_of L' = b :: l ∧
    (∀ i, L' (table_entry i) = L (table_entry i)) ∧
    ∀ c, lpn_of s' c = if decide (c = b) then lpn else lpn_of s c.
Proof.
  intros Hf Hlru. pose proof (br_lists s L Hs) as HL.
  assert (b ∈ lru_of L) as Hb' by (rewrite Hlru; set_solver).
  assert (buffer_no b) as Hb by by eapply br_elem.
  destruct (br_entry s L Hs b Hb) as (e & He & Hel). rewrite <- (br_id s L Hs b e He).
  unfold L2P_allocate_buf. rewrite (lists_empty _ _ free_buf_list_head HL I), Hf. simpl.
  rewrite (lists_last _ _ lru_buf_list_head HL I l b Hlru). simpl. rewrite He. simpl.
  destruct (delete_hash_spec s L Hs b Hb') as (h1 & l1 & l2 & Hh & E1 & HL1).
  assert (NoDup (L (hash_head (lpn_of s b)))) as Hnd
    by (eapply lists_length; [done|apply hash_head_valid]).
  rewrite Hh in Hnd. pose proof (not_elem_of_NoDup_app_cons _ _ _ Hnd) as [Hb1 Hb2].
  rewrite <- Hel, E1. simpl. unfold entry_set. simpl. rewrite He. simpl.
  set (L1 := <[hash_head (lpn_of s b) := l1 ++ l2]> L) in *.
  assert (∀ c i, c ∈ L1 (hash_table i) ↔ c ≠ b ∧ c ∈ L (hash_table i)) as HL1h.
  { intros c i. subst L1. destruct (decide (hash_table i = hash_head (lpn_of s b))) as [E|E].
    - rewrite E, fn_lookup_insert, Hh, !elem_of_app, elem_of_cons.
      destruct (decide (c = b)) as [->|]; tauto.
    - rewrite fn_lookup_insert_ne by done. split; [|tauto]. intros Hc. split; [|done].
      intros ->. apply E. apply (br_hash s L Hs) in Hc as [_ ?]. done. }
  destruct (lists_add_tail _ _ (hash_head lpn) HL1 (hash_head_valid lpn) b) as (h2 & E2 & HL2).
  { apply fresh_hash; [done|]. intros i. rewrite HL1h. tauto. }
  unfold insert_hash_table_entry, on_nodes, node_of. simpl in E2. simpl. rewrite E2. simpl.
  destruct (lists_delete_tail _ _ lru_buf_list_head HL2 I l b) as (h3 & E3 & HL3).
  { subst L1. unfold hash_head. by lk. }
  rewrite E3. simpl.
  destruct (lists_add_head _ _ lru_buf_list_head HL3 I b) as (h4 & E4 & HL4).
  { apply fresh_lru; [done|]. lk. pose proof (br_part_NoDup s L Hs) as Hn.
    rewrite Hf, Hlru in Hn. simpl in Hn. by apply not_elem_of_NoDup_app_cons in Hn as [? _]. }
  simpl in E4. rewrite E4. simpl.
  assert (b < length (entries s))%nat by (rewrite (br_len s L Hs); exact Hb).
  rewrite list_lookup_insert_eq by done. simpl.
  rewrite list_insert_insert_eq, list_lookup_insert_eq by done. simpl.
  eexists _, _. split; [done|].
  match type of HL4 with lists_rep _ ?L4 => pose proof (alloc_rep b e h4 L4 He HL4) as HR end.
  destruct HR as [HR1 HR2].
  - unfold L1, hash_head. lk. rewrite <- (br_part s L Hs), Hf, Hlru. solve_Permutation.
  - intros c. lk. rewrite Hlru, elem_of_app, elem_of_cons, list_elem_of_singleton. tauto.
  - intros c i. rewrite !(fn_lookup_insert_ne _ lru_buf_list_head) by done.
    by rewrite hash_add_elem, HL1h.
  - intros i. unfold L1, hash_head. by lk.
  - split; [exact HR1|]. unfold L1, hash_head. lk. split_and!; [done|done| |exact HR2].
    intros i. by lk.
Qed.
End allocate.

(** ** Buffers of a host command *)
Section hcmd_table.
Context (s : buffers) (L : list_id → list nat) (Hs : buf_rep s L).
Context (i : nat) (Hi : (i < 256)%nat).
Abbreviation bufs := (L (table_entry i)).

Lemma hcmd_valid : valid_id (table_entry i).
Proof. exact Hi. Qed.

(** Only the chain of one command and its counter change. *)
Lemma hcmd_update h l :
  lists_rep h (<[table_entry i := l]> L) →
  buf_rep (Buffers (entries s) h (<[i := Z.of_nat (length l)]> (hb_cnt s)) (cur_buf_id s))
    (<[table_entry i := l]> L).
Proof.
  intros Hh. pose proof (br_cnt_len s L Hs) as Hlen.
  split; cbn [entries nodes hb_cnt]; [done|apply Hs|apply Hs|..].
  - lk. apply (br_part s L Hs).
  - intros b j. lk. apply (br_hash s L Hs).
  - intros b c. lk. apply (br_inj s L Hs).
  - by rewrite length_insert.
  - intros j Hj. destruct (decide (j = i)) as [->|].
    + rewrite list_lookup_insert_eq by lia. by lk.
    + rewrite list_lookup_insert_ne, fn_lookup_insert_ne by congruence.
      by apply (br_cnt s L Hs).
Qed.

Lemma hcmd_add_spec b :
  buffer_no b → (∀ j, b ∉ L (table_entry j)) →
  ∃ s', L2P_hcmd_add_buffer (Z.of_nat i) (Z.of_nat b) (lpn_of s b) s = Some s' ∧
    buf_rep s' (<[table_entry i := bufs ++ [b]]> L) ∧ entries s' = entries s.
Proof.
  intros Hb Hf. unfold L2P_hcmd_add_buffer. rewrite !Nat2Z.id.
  destruct (br_entry s L Hs b Hb) as (e & He & Hl). unfold entry_set. rewrite He. simpl.
  assert (<[b := e <| b_lpn := lpn_of s b |>]> (entries s) = entries s) as Hent.
  { rewrite Hl. apply list_insert_id. rewrite He. by destruct e. }
  destruct (lists_add_tail (nodes s) L (table_entry i) (br_lists s L Hs) Hi b)
    as (h' & E & Hh').
  { split; [done|]. by intros [| |j|j] [=]. }
  unfold on_nodes, node_of. simpl in *. rewrite E. simpl.
  rewrite zget_nat, (br_cnt s L Hs i Hi). simpl.
  pose proof (br_cnt_len s L Hs). rewrite zset_nat by lia. simpl.
  eexists. split; [done|]. rewrite Hent. split; [|done].
  destruct (lists_length (nodes s) L (table_entry i) (br_lists s L Hs) Hi) as [_ Hlen].
  change BUF_FUEL with 1501%nat in Hlen. rewrite u32_small by lia.
  replace (Z.of_nat (length bufs) + 1) with (Z.of_nat (length (bufs ++ [b])))
    by (rewrite length_app; simpl; lia).
  by apply hcmd_update.
Qed.

Lemma hcmd_step_eq ret off c b e :
  entries s !! b = Some e →
  hcmd_step ret off s c (BufNode hcmd_buf_list_node b) =
    if decide (off ≤ c) then Some (inr (ret e)) else Some (inl (u32 (c + 1))).
Proof. intros He. unfold hcmd_step. simpl. by rewrite He. Qed.

(** The buffer at position [off]; past the end the function returns nothing. *)
Lemma hcmd_walk_spec ret off :
  hcmd_walk ret (Z.of_nat i) (Z.of_nat off) s =
    b ← bufs !! off; ret <$> entries s !! b.
Proof.
  unfold hcmd_walk. rewrite Nat2Z.id.
  rewrite (lists_walk (nodes s) L (table_entry i) (br_lists s L Hs) Hi). simpl.
  destruct (lists_length (nodes s) L (table_entry i) (br_lists s L Hs) Hi) as [_ Hlen].
  change BUF_FUEL with 1501%nat in Hlen.
  assert (∀ b, b ∈ bufs → ∃ e, entries s !! b = Some e) as Hent.
  { intros b Hb. destruct (br_entry s L Hs b (br_elem s L Hs _ b Hb)) as (e & He & _). eauto. }
  assert (∀ c l, (c ≤ off)%nat → (c + length l ≤ 1500)%nat → l ⊆ bufs →
    fold_until (hcmd_step ret (Z.of_nat off) s) (BufNode hcmd_buf_list_node <$> l)
      (Z.of_nat c) =
    match l !! (off - c)%nat with
    | Some b => e ← entries s !! b; Some (inr (ret e))
    | None => Some (inl (Z.of_nat (c + length l)))
    end) as Hwalk.
  { intros c l. revert c. induction l as [|b l IH]; intros c Hc Hl Hsub.
    - simpl. by rewrite Nat.add_0_r.
    - destruct (Hent b) as [e He]; [apply Hsub; left|]. rewrite fmap_cons. cbn [fold_until].
      rewrite (hcmd_step_eq _ _ _ _ e He). simpl in Hl. destruct (decide (off = c)) as [->|Hne].
      + rewrite decide_True by lia. rewrite Nat.sub_diag. simpl. by rewrite He.
      + rewrite decide_False by lia. rewrite u32_small by lia. cbn [mbind option_bind].
        replace (Z.of_nat c + 1) with (Z.of_nat (S c)) by lia.
        rewrite (IH (S c)) by (lia || set_solver).
        replace (off - c)%nat with (S (off - S c)) by lia. simpl.
        by replace (S (c + length l)) with (c + S (length l))%nat by lia. }
  rewrite (Hwalk O) by (lia || done). rewrite Nat.sub_0_r.
  destruct (bufs !! off) as [b|] eqn:E; simpl; [|done].
  destruct (Hent b) as [e He]; [by eapply list_elem_of_lookup_2|]. by rewrite He.
Qed.
End hcmd_table.

(** The loop of L2P_hcmd_free_buf empties the list it is given. *)
Lemma delete_all_spec h L i :
  lists_rep h L → valid_id i → ∀ n, (length (L i) < n)%nat →
  ∃ h', delete_all n (BufHead i) h = Some h' ∧ lists_rep h' (<[i := []]> L).
Proof.
  intros HL Hi n. remember (L i) as l eqn:El. revert n h L HL El.
  induction l as [|b l IH] using rev_ind; intros [|n] h L HL El Hn; try lia; simpl.
  - rewrite (lists_empty h L i HL Hi), <- El. simpl. exists h. split; [done|].
    eapply lists_rep_ext; [|exact HL]. intros j. destruct (decide (j = i)) as [->|]; by lk.
  - rewrite (lists_empty h L i HL Hi), <- El. rewrite bool_decide_false by (by destruct l).
    simpl. destruct (lists_delete_tail h L i HL Hi l b) as (h1 & -> & HL1); [done|]. simpl.
    rewrite length_app in Hn. simpl in Hn.
    destruct (IH n h1 _ HL1) as (h2 & -> & HL2); [by lk|lia|].
    exists h2. split; [done|]. eapply lists_rep_ext; [|exact HL2].
    intros j. destruct (decide (j = i)) as [->|]; by lk.
Qed.

Lemma hcmd_free_spec s L i :
  buf_rep s L → (i < 256)%nat →
  ∃ s', L2P_hcmd_free_buf (Z.of_nat i) s = Some s' ∧
    buf_rep s' (<[table_entry i := []]> L) ∧ entries s' = entries s.
Proof.
  intros Hs Hi. unfold L2P_hcmd_free_buf, on_nodes. rewrite Nat2Z.id.
  destruct (lists_length (nodes s) L (table_entry i) (br_lists s L Hs) Hi) as [_ Hlen].
  destruct (delete_all_spec (nodes s) L (table_entry i) (br_lists s L Hs) Hi BUF_FUEL Hlen)
    as (h' & -> & Hh'). cbn [mbind option_bind].
  pose proof (br_cnt_len s L Hs). simpl. rewrite zset_nat by lia. simpl.
  eexists. split; [done|]. split; [|done]. by apply (hcmd_update s L Hs i Hi h' []).
Qed.

(** ** Initialisation *)
Definition self_linked (h : buf_heap) (i : list_id) : Prop :=
  h !! BufHead i = Some (Node (Some (BufHead i)) (Some (BufHead i))).

(** The heads in [D] are linked to themselves; every head and node exists. *)
Definition heads_ok (D : list_id → Prop) (h : buf_heap) : Prop :=
  (∀ i, D i → self_linked h i) ∧ (∀ i, valid_id i → allocated h (BufHead i)) ∧
  ∀ k b, buffer_no b → allocated h (BufNode k b).

Lemma init_head D h i :
  heads_ok D h → valid_id i →
  ∃ h1 h2, store_next (Some (BufHead i)) (Some (BufHead i)) h = Some h1 ∧
    store_prev (Some (BufHead i)) (Some (BufHead i)) h1 = Some h2 ∧
    heads_ok (λ j, D j ∨ j = i) h2.
Proof.
  intros (HD & HV & HN) Hi. destruct (HV i Hi) as [n Hn].
  unfold store_next, store_prev. simpl. rewrite Hn. simpl.
  eexists _, _. split; [done|]. rewrite lookup_insert_eq. simpl. split; [done|].
  rewrite insert_insert_eq. split_and!.
  - intros j Hj. unfold self_linked. destruct (decide (j = i)) as [->|].
    + by rewrite lookup_insert_eq.
    + rewrite lookup_insert_ne by congruence. apply HD. tauto.
  - intros j ?. unfold allocated. destruct (decide (j = i)) as [->|].
    + rewrite lookup_insert_eq. by eexists.
    + rewrite lookup_insert_ne by congruence. by apply HV.
  - intros k b ?. unfold allocated. rewrite lookup_insert_ne by done. by apply HN.
Qed.

Lemma heads_ok_mono D D' h : (∀ i, D' i → D i) → heads_ok D h → heads_ok D' h.
Proof. intros Hsub (HD & HV & HN). split_and!; auto. Qed.

Lemma clear_node D h k b v :
  heads_ok D h → buffer_no b →
  ∃ h1 h2, store_next (node_of k b) v h = Some h1 ∧
    store_prev (node_of k b) v h1 = Some h2 ∧ heads_ok D h2.
Proof.
  intros (HD & HV & HN) Hb. unfold node_of.
  destruct (store_next_spec h (BufNode k b) v (HN k b Hb)) as (h1 & -> & _ & _ & O1 & D1).
  destruct (store_prev_spec h1 (BufNode k b) v) as (h2 & E2 & _ & _ & O2 & D2);
    [apply D1; by apply HN|].
  exists h1, h2. split; [done|]. split; [done|]. split_and!.
  - intros i Hi. unfold self_linked. rewrite O2, O1 by set_solver. by apply HD.
  - intros i Hi. apply D2, D1. by apply HV.
  - intros k' b' Hb'. apply D2, D1. by apply HN.
Qed.

Lemma heads_ok_lists h : heads_ok valid_id h → lists_rep h (λ _, []).
Proof.
  intros (HD & _ & HN).
  split; [|by intros ? ? []%elem_of_nil|by intros ? ? ? []%elem_of_nil|done].
  intros i Hi. split; [apply NoDup_singleton|]. simpl.
  unfold edge, nxt, prv. by rewrite (HD i Hi).
Qed.

Lemma lookup_const_map (v : list_node buf_ptr) l p :
  p ∈ l → (list_to_map ((λ p, (p, v)) <$> l) : buf_heap) !! p = Some v.
Proof.
  induction l as [|q l IH]; intros Hp; [by apply elem_of_nil in Hp|]. simpl.
  destruct (decide (q = p)) as [->|]; [by rewrite lookup_insert_eq|].
  rewrite lookup_insert_ne by done. apply IH. by apply elem_of_cons in Hp as [->|].
Qed.

Lemma all_nodes_spec p :
  match p with BufHead i => valid_id i | BufNode _ b => buffer_no b end → p ∈ all_nodes.
Proof.
  unfold all_nodes, buffer_no. change (Z.to_nat HASH_TABLE_SIZE) with 1000%nat.
  change (Z.to_nat BUFFER_NUMBER) with 1500%nat. rewrite !elem_of_app.
  destruct p as [[| |i|i]|k b]; cbn [valid_id]; intros Hp.
  - left. left.
  - left. right. left.
  - right; left. apply list_elem_of_fmap. exists i. split; [done|]. apply elem_of_seq. lia.
  - do 2 right; left. apply list_elem_of_fmap. exists i. split; [done|]. apply elem_of_seq. lia.
  - do 3 right. apply list_elem_of_bind. exists b. split; [|apply elem_of_seq; lia].
    destruct k; set_solver.
Qed.

Lemma buffers_zero_heads :
  heads_ok (λ i, i = free_buf_list_head ∨ i = lru_buf_list_head) (nodes buffers_zero).
Proof.
  assert (∀ p, match p with BufHead i => valid_id i | BufNode _ b => buffer_no b end →
    allocated (nodes buffers_zero) p) as Hal.
  { intros p Hp. unfold allocated, buffers_zero, self_loop. cbn [nodes].
    destruct (decide (p = BufHead free_buf_list_head)) as [->|].
    { rewrite lookup_insert_eq. by eexists. }
    rewrite lookup_insert_ne by done.
    destruct (decide (p = BufHead lru_buf_list_head)) as [->|].
    { rewrite lookup_insert_eq. by eexists. }
    rewrite lookup_insert_ne by done.
    rewrite (lookup_const_map (Node None None)) by by apply all_nodes_spec. by eexists. }
  split_and!.
  - intros i [->| ->]; unfold self_linked, buffers_zero, self_loop; cbn [nodes].
    + by rewrite lookup_insert_eq.
    + rewrite lookup_insert_ne by done. by rewrite lookup_insert_eq.
  - intros i. apply (Hal (BufHead i)).
  - intros k b. apply (Hal (BufNode k b)).
Qed.

(** What the initialisation has established after each phase. *)
Definition init_ok (D : list_id → Prop) (nc nb : nat) (s : buffers) : Prop :=
  heads_ok D (nodes s) ∧ length (entries s) = 1500%nat ∧ length (hb_cnt s) = 256%nat ∧
  length (cur_buf_id s) = 256%nat ∧
  (∀ i, (i < nc)%nat → hb_cnt s !! i = Some 0) ∧
  (∀ b e, (b < nb)%nat → entries s !! b = Some e → buf_id e = Z.of_nat b).

Definition heads_upto (h t : nat) (i : list_id) : Prop :=
  match i with
  | hash_table j => (j < h)%nat
  | table_entry j => (j < t)%nat
  | _ => True
  end.

Lemma init_hash_table_spec s :
  init_ok (heads_upto 0 0) 0 0 s →
  ∃ s', init_hash_table s = Some s' ∧ init_ok (heads_upto 1000 0) 0 0 s'.
Proof.
  intros H0. unfold init_hash_table. change (Z.to_nat HASH_TABLE_SIZE) with 1000%nat.
  apply (for_opt_inv (λ n s, init_ok (heads_upto n 0) 0 0 s)); [done|].
  intros i s0 Hi (Hh & Hrest).
  destruct (init_head _ _ (hash_table i) Hh Hi) as (h1 & h2 & E1 & E2 & Hh2).
  unfold on_nodes. rewrite E1. simpl. rewrite E2. simpl. eexists. split; [done|].
  split; [|exact Hrest]. eapply heads_ok_mono; [|exact Hh2].
  intros [| |j|j]; simpl; try tauto. intros Hj. destruct (decide (j = i)) as [->|]; [tauto|].
  left. lia.
Qed.

Lemma init_hcmd_buf_table_spec s :
  init_ok (heads_upto 1000 0) 0 0 s →
  ∃ s', init_hcmd_buf_table s = Some s' ∧ init_ok (heads_upto 1000 256) 256 0 s'.
Proof.
  intros H0. unfold init_hcmd_buf_table.
  apply (for_opt_inv (λ n s, init_ok (heads_upto 1000 n) n 0 s)); [done|].
  intros i s0 Hi (Hh & Hl & Hc & Hb & Hz & Hid).
  destruct (init_head _ _ (table_entry i) Hh Hi) as (h1 & h2 & E1 & E2 & Hh2).
  unfold on_nodes. rewrite E1. simpl. rewrite E2. simpl.
  rewrite !zset_nat by lia. simpl. eexists. split; [done|]. split_and!; simpl; try done.
  - eapply heads_ok_mono; [|exact Hh2].
    intros [| |j|j]; simpl; try tauto. intros Hj. destruct (decide (j = i)) as [->|]; [tauto|].
    left. lia.
  - by rewrite length_insert.
  - by rewrite length_insert.
  - intros j Hj. destruct (decide (j = i)) as [->|].
    + by rewrite list_lookup_insert_eq by lia.
    + rewrite list_lookup_insert_ne by done. apply Hz. lia.
Qed.

Lemma init_entries_spec s (D : list_id → Prop) :
  init_ok D 256 0 s →
  ∃ s', for_opt 1500 (λ i s,
        s ← entry_set i (λ e, e <| b_lpn := 0xffffffff |> <| buf_id := Z.of_nat i |>) s;
        s ← on_nodes (store_next (node_of free_list_node i) None) s;
        s ← on_nodes (store_prev (node_of free_list_node i) None) s;
        s ← on_nodes (store_next (node_of lru_list_node i) None) s;
        s ← on_nodes (store_prev (node_of lru_list_node i) None) s;
        s ← on_nodes (store_next (node_of hash_table_node i) None) s;
        on_nodes (store_prev (node_of hash_table_node i) None) s) s = Some s' ∧
    init_ok D 256 1500 s'.
Proof.
  intros H0. apply (for_opt_inv (λ n s, init_ok D 256 n s)); [done|].
  intros i s0 Hi (Hh & Hl & Hc & Hb & Hz & Hid).
  destruct (lookup_lt_is_Some_2 (entries s0) i) as [e He]; [lia|].
  unfold entry_set. rewrite He. cbn [mbind option_bind].
  destruct (clear_node _ _ free_list_node i None Hh Hi) as (h1 & h2 & E1 & E2 & Hh2).
  destruct (clear_node _ _ lru_list_node i None Hh2 Hi) as (h3 & h4 & E3 & E4 & Hh4).
  destruct (clear_node _ _ hash_table_node i None Hh4 Hi) as (h5 & h6 & E5 & E6 & Hh6).
  unfold on_nodes. simpl. rewrite E1. simpl. rewrite E2. simpl. rewrite E3. simpl.
  rewrite E4. simpl. rewrite E5. simpl. rewrite E6. simpl. eexists. split; [done|].
  split_and!; simpl; try done.
  - by rewrite length_insert.
  - intros b e' Hbi Hb'. destruct (decide (b = i)) as [->|].
    + rewrite list_lookup_insert_eq in Hb' by lia. by injection Hb' as <-.
    + rewrite list_lookup_insert_ne in Hb' by done. apply Hid; [lia|done].
Qed.

(** The initial family: every buffer is free. *)
Definition free_upto (n : nat) : list_id → list nat :=
  <[free_buf_list_head := seq 0 n]> (λ _, []).

Lemma free_upto_ne n i : i ≠ free_buf_list_head → free_upto n i = [].
Proof. intros. unfold free_upto. by lk. Qed.

Lemma init_free_spec s :
  init_ok valid_id 256 1500 s →
  ∃ s', for_opt 1500 (λ i s,
      on_nodes (list_add_tail (node_of free_list_node i) (Some (BufHead free_buf_list_head))) s) s
      = Some s' ∧ lists_rep (nodes s') (free_upto 1500) ∧
    entries s' = entries s ∧ hb_cnt s' = hb_cnt s ∧ cur_buf_id s' = cur_buf_id s.
Proof.
  intros (Hh & _).
  apply (for_opt_inv (λ n s', lists_rep (nodes s') (free_upto n) ∧ entries s' = entries s ∧
    hb_cnt s' = hb_cnt s ∧ cur_buf_id s' = cur_buf_id s)).
  - split; [|done]. eapply lists_rep_ext; [|by apply heads_ok_lists].
    intros j. unfold free_upto. destruct (decide (j = free_buf_list_head)) as [->|]; by lk.
  - intros i s0 Hi (HL & Hrest).
    destruct (lists_add_tail _ _ free_buf_list_head HL I i) as (h' & E & HL').
    { split; [exact Hi|]. intros j Hj. unfold free_upto.
      destruct j; try done. lk. rewrite elem_of_seq. lia. }
    unfold on_nodes, node_of. simpl in E. rewrite E. simpl. eexists. split; [done|].
    split; [|exact Hrest]. eapply lists_rep_ext; [|exact HL']. intros j. unfold free_upto.
    destruct (decide (j = free_buf_list_head)) as [->|]; lk; [|done]. by rewrite seq_S.
Qed.

Lemma init_buffer_rep :
  ∃ s, L2P_init_buffer buffers_zero = Some s ∧ buf_rep s (free_upto 1500).
Proof.
  unfold L2P_init_buffer. change (Z.to_nat BUFFER_NUMBER) with 1500%nat.
  destruct (init_hash_table_spec buffers_zero) as (s1 & E1 & H1).
  { split_and!; [| |by vm_compute..|lia|lia].
    - eapply heads_ok_mono; [|apply buffers_zero_heads]. intros [| |j|j]; simpl; try tauto; lia.
    - unfold buffers_zero. cbn [entries]. by rewrite repeat_length. }
  rewrite E1. cbn [mbind option_bind].
  destruct (init_hcmd_buf_table_spec s1 H1) as (s2 & E2 & H2). rewrite E2. cbn [mbind option_bind].
  destruct (init_entries_spec s2 _ H2) as (s3 & E3 & H3). rewrite E3. cbn [mbind option_bind].
  assert (init_ok valid_id 256 1500 s3) as H3'.
  { destruct H3 as (Hh & Hrest). split; [|exact Hrest]. eapply heads_ok_mono; [|exact Hh].
    by intros [| |j|j]. }
  destruct (init_free_spec s3 H3') as (s4 & E4 & HL & He & Hb & Hc).
  exists s4. split; [exact E4|]. destruct H3' as (_ & Hl & Hcl & _ & Hz & Hid).
  split.
  - exact HL.
  - by rewrite He.
  - intros b e. rewrite He. intros Hbe. apply Hid; [|done]. apply lookup_lt_Some in Hbe. lia.
  - unfold free_upto. lk. by rewrite app_nil_r.
  - intros b i. rewrite !free_upto_ne by done. rewrite elem_of_nil. tauto.
  - intros b c Hx. rewrite free_upto_ne in Hx by done. destruct (not_elem_of_nil _ Hx).
  - by rewrite Hb.
  - intros i Hi. by rewrite Hb, Hz, free_upto_ne by done.
Qed.

(** ** The cache as a first-in first-out list of logical pages *)

(** Look a page up and allocate a buffer for it on a miss.  This composition is not code:
    FTL_handle_checkcache looks up, and has the call of L2P_allocate_buf at the miss
    commented out (src/ftl/ftl_core0.c:57); nothing else calls the two together.  Returns
    whether it hit, and the buffer. *)
Definition cache_request (lpn : Z) (s : buffers) : option ((bool * Z) * buffers) :=
  b ← L2P_check_buf_hit lpn s;
  if decide (b = INVALID_ID) then '(b, s) ← L2P_allocate_buf lpn s; Some ((false, b), s)
  else Some ((true, b), s).

(** The specification: the pages, most recently allocated first; a hit changes
    nothing. *)
Definition fifo_access (cap : nat) (lpn : Z) (c : list Z) : list Z :=
  if decide (lpn ∈ c) then c else take cap (lpn :: c).

Definition cached (s : buffers) (L : list_id → list nat) : list Z := lpn_of s <$> lru_of L.

Lemma cached_elem s L lpn : lpn ∈ cached s L ↔ ∃ b, b ∈ lru_of L ∧ lpn_of s b = lpn.
Proof. unfold cached. rewrite list_elem_of_fmap. naive_solver. Qed.

Lemma lpn_fmap_ne s s' b lpn (l : list nat) :
  (∀ c, lpn_of s' c = if decide (c = b) then lpn else lpn_of s c) → b ∉ l →
  lpn_of s' <$> l = lpn_of s <$> l.
Proof.
  intros Hl Hb. apply list_fmap_ext. intros i c Hc. rewrite Hl, decide_False; [done|].
  intros ->. apply Hb. by eapply list_elem_of_lookup_2.
Qed.

(** One request refines one step of the specification. *)
Lemma cache_request_fifo s L lpn :
  buf_rep s L → ∃ b s' L', cache_request lpn s =
      Some ((bool_decide (lpn ∈ cached s L), Z.of_nat b), s') ∧
    buf_rep s' L' ∧ cached s' L' = fifo_access 1500 lpn (cached s L) ∧
    b ∈ lru_of L' ∧ lpn_of s' b = lpn.
Proof.
  intros Hs. unfold cache_request, fifo_access.
  destruct (decide (lpn ∈ cached s L)) as [Hin|Hout].
  - rewrite bool_decide_true by done. apply cached_elem in Hin as (b & Hb & Hl).
    rewrite (check_hit_hit s L Hs lpn b Hb Hl). cbn [mbind option_bind].
    rewrite decide_False; [by exists b, s, L|].
    pose proof (br_elem s L Hs _ b Hb) as Hr. unfold buffer_no, INVALID_ID in *. lia.
  - rewrite bool_decide_false by done.
    assert (∀ b, b ∈ lru_of L → lpn_of s b ≠ lpn) as Hm.
    { intros b Hb Hl. apply Hout, cached_elem. eauto. }
    rewrite (check_hit_miss s L Hs lpn Hm). cbn [mbind option_bind]. rewrite decide_True by done.
    pose proof (Permutation_length (br_part s L Hs)) as Hlen.
    rewrite length_app, length_seq in Hlen. pose proof (br_part_NoDup s L Hs) as Hnd.
    destruct (free_of L) as [|b l] eqn:Hf.
    + destruct (list_snoc_inv (lru_of L)) as [E|(l & b & E)]; [rewrite E in Hlen; simpl in Hlen; lia|].
      destruct (allocate_evict s L Hs lpn Hm b l Hf E)
        as (s' & L' & -> & Hs' & _ & Hlru & _ & Hl). cbn [mbind option_bind].
      exists b, s', L'. split_and!; [done|done| |rewrite Hlru; left|by rewrite Hl, decide_True].
      rewrite E in Hlen, Hnd. simpl in Hnd, Hlen. rewrite length_app in Hlen. simpl in Hlen.
      apply not_elem_of_NoDup_app_cons in Hnd as [Hbl _].
      unfold cached. rewrite Hlru, E, fmap_app. rewrite fmap_cons, Hl, decide_True by done.
      rewrite (lpn_fmap_ne s s' b lpn) by done. rewrite firstn_cons. f_equal.
      rewrite take_app_length'; [done|]. rewrite length_fmap. lia.
    + destruct (allocate_free s L Hs lpn Hm b l Hf)
        as (s' & L' & -> & Hs' & _ & Hlru & _ & Hl). cbn [mbind option_bind].
      exists b, s', L'. split_and!; [done|done| |rewrite Hlru; left|by rewrite Hl, decide_True].
      simpl in Hnd, Hlen. apply NoDup_cons in Hnd as [Hb _]. rewrite elem_of_app in Hb.
      unfold cached. rewrite Hlru, fmap_cons, Hl, decide_True by done.
      rewrite (lpn_fmap_ne s s' b lpn) by tauto.
      rewrite take_ge; [done|]. simpl. rewrite length_fmap. lia.
Qed.

(** A run of requests, with the hit flag of each. *)
Fixpoint cache_run (lpns : list Z) (s : buffers) : option (list bool * buffers) :=
  match lpns with
  | [] => Some ([], s)
  | p :: ps => '(r, s) ← cache_request p s; '(rs, s) ← cache_run ps s; Some (r.1 :: rs, s)
  end.
Fixpoint fifo_run (cap : nat) (lpns : list Z) (c : list Z) : list bool * list Z :=
  match lpns with
  | [] => ([], c)
  | p :: ps => let '(rs, c') := fifo_run cap ps (fifo_access cap p c) in
               (bool_decide (p ∈ c) :: rs, c')
  end.

Lemma cache_run_fifo lpns s L :
  buf_rep s L → ∃ s' L', cache_run lpns s = Some ((fifo_run 1500 lpns (cached s L)).1, s') ∧
    buf_rep s' L' ∧ cached s' L' = (fifo_run 1500 lpns (cached s L)).2.
Proof.
  revert s L. induction lpns as [|p ps IH]; intros s L Hs; cbn [cache_run fifo_run]; [by eauto|].
  destruct (cache_request_fifo s L p Hs) as (b & s1 & L1 & -> & Hs1 & Hc & _).
  cbn [mbind option_bind]. destruct (IH s1 L1 Hs1) as (s2 & L2 & -> & Hs2 & Hc2).
  cbn [mbind option_bind]. rewrite Hc in *. exists s2, L2.
  destruct (fifo_run 1500 ps _) as [rs c]. done.
Qed.

(** C13. From initialisation on, the cache answers every sequence of requests as a
    first-in first-out cache of 1500 pages does: a hit does not protect its
    page from eviction. *)
Theorem cache_refines_fifo lpns :
  ∃ s0 s, L2P_init_buffer buffers_zero = Some s0 ∧
    cache_run lpns s0 = Some ((fifo_run 1500 lpns []).1, s).
Proof.
  destruct init_buffer_rep as (s0 & E & H0). exists s0.
  destruct (cache_run_fifo lpns s0 _ H0) as (s & L & E' & _). exists s. split; [done|].
  rewrite E'. unfold cached. by rewrite free_upto_ne.
Qed.

(** ** A buffer shared by two commands

    A cache hit hands a command the buffer another command may still hold;
    L2P_hcmd_add_buffer then links the one [hcmd_buf_list_node] into a second
    list. *)
Definition chain_broken (h : buf_heap) (i : list_id) (b : nat) : Prop :=
  nxt h (BufHead i) = Some (BufNode hcmd_buf_list_node b) ∧
  prv h (BufHead i) = Some (BufNode hcmd_buf_list_node b) ∧
  unlinked h (BufNode hcmd_buf_list_node b).

(** Once the shared node has been unlinked through the other list, the loop of
    L2P_hcmd_free_buf finds its own list non-empty for ever. *)
Lemma delete_all_stuck h i b : chain_broken h i b → ∀ n, delete_all n (BufHead i) h = None.
Proof.
  intros (Hn & Hp & Hu) n. induction n as [|n IH]; [done|]. cbn [delete_all].
  unfold list_empty. rewrite (load_next_nxt _ _ _ Hn). cbn [mbind option_bind].
  rewrite decide_False by done. cbn [mbind option_bind]. rewrite decide_True by done.
  unfold list_delete_tail. rewrite (load_prev_prv _ _ _ Hp). cbn [mbind option_bind].
  by rewrite list_delete_unlinked.
Qed.

(** A buffer held by command [i] and handed to command [j] as well: from the
    second turn of its loop on, L2P_hcmd_free_buf for [i] finds the list
    non-empty, deletes nothing and tries again; it never returns. *)
Theorem shared_buffer_free_loops s L i j b :
  buf_rep s L → (i < 256)%nat → (j < 256)%nat → i ≠ j →
  L (table_entry i) = [b] → L (table_entry j) = [] →
  ∃ s' h1, L2P_hcmd_add_buffer (Z.of_nat j) (Z.of_nat b) (lpn_of s b) s = Some s' ∧
    list_delete_tail (Some (BufHead (table_entry i))) (nodes s') = Some h1 ∧
    list_empty (Some (BufHead (table_entry i))) h1 = Some FALSE ∧
    list_delete_tail (Some (BufHead (table_entry i))) h1 = Some h1 ∧
    ∀ n, delete_all n (BufHead (table_entry i)) (nodes s') = None.
Proof.
  intros Hs Hi Hj Hij Ei Ej. pose proof (br_lists s L Hs) as HL.
  assert (buffer_no b) as Hb by (eapply (br_elem s L Hs (table_entry i)); rewrite Ei; left).
  destruct (br_entry s L Hs b Hb) as (e & He & _).
  pose proof (lr_list _ _ HL (table_entry i) Hi) as Li.
  pose proof (lr_list _ _ HL (table_entry j) Hj) as Lj. rewrite Ei in Li. rewrite Ej in Lj.
  pose proof (is_list_first _ _ _ Li) as Ni. pose proof (is_list_last _ _ _ Li) as Pi. simpl in *.
  destruct (list_add_tail_spec _ _ _ (BufNode hcmd_buf_list_node b) Lj)
    as (h0 & E0 & L0 & O0 & _); [by apply HL|set_solver|].
  destruct (list_delete_spec h0 _ [] _ [] L0) as (h1 & E1 & L1 & U1 & O1 & _).
  assert (∀ q, q = BufHead (table_entry i) → h0 !! q = nodes s !! q) as F0.
  { intros q ->. apply O0. set_solver. }
  assert (∀ q, q = BufHead (table_entry i) → h1 !! q = h0 !! q) as F1.
  { intros q ->. apply O1. set_solver. }
  assert (chain_broken h1 (table_entry i) b) as Hc.
  { split_and!; [unfold nxt in *|unfold prv in *|done]; by rewrite F1, F0. }
  assert (prv h0 (BufHead (table_entry i)) = Some (BufNode hcmd_buf_list_node b)) as P0
    by (unfold prv in *; by rewrite F0).
  assert (nxt h0 (BufHead (table_entry i)) = Some (BufNode hcmd_buf_list_node b)) as N0
    by (unfold nxt in *; by rewrite F0).
  unfold L2P_hcmd_add_buffer, entry_set, on_nodes, node_of. rewrite !Nat2Z.id, He. simpl.
  rewrite E0. simpl. rewrite zget_nat, (br_cnt s L Hs j Hj). simpl.
  pose proof (br_cnt_len s L Hs). rewrite zset_nat by lia. simpl.
  eexists _, h1. split; [done|]. cbn [nodes].
  assert (list_delete_tail (Some (BufHead (table_entry i))) h0 = Some h1) as Ed.
  { unfold list_delete_tail. rewrite (load_prev_prv _ _ _ P0). exact E1. }
  destruct Hc as (Nc & Pc & Uc). split_and!.
  - done.
  - unfold list_empty. by rewrite (load_next_nxt _ _ _ Nc).
  - unfold list_delete_tail. rewrite (load_prev_prv _ _ _ Pc). cbn [mbind option_bind].
    by rewrite list_delete_unlinked.
  - intros [|n]; [done|]. cbn [delete_all]. unfold list_empty.
    rewrite (load_next_nxt _ _ _ N0). cbn [mbind option_bind]. rewrite decide_False by done.
    cbn [mbind option_bind]. rewrite decide_True by done. rewrite Ed. cbn [mbind option_bind].
    by eapply delete_all_stuck.
Qed.

(** Buffer 5, held by command 3, is handed to command 4 as well. *)
Lemma shared_buffer_free_loops_witness :
  ∃ s s' h1, L2P_hcmd_add_buffer 4 5 (lpn_of s 5) s = Some s' ∧
    list_delete_tail (Some (BufHead (table_entry 3))) (nodes s') = Some h1 ∧
    list_empty (Some (BufHead (table_entry 3))) h1 = Some FALSE ∧
    list_delete_tail (Some (BufHead (table_entry 3))) h1 = Some h1 ∧
    ∀ n, delete_all n (BufHead (table_entry 3)) (nodes s') = None.
Proof.
  destruct init_buffer_rep as (s0 & _ & H0).
  destruct (hcmd_add_spec s0 (free_upto 1500) H0 3 ltac:(lia) 5)
    as (s & _ & Hs & _); [vm_compute; lia|intros j; rewrite free_upto_ne by done; by apply not_elem_of_nil|].
  exists s. apply (shared_buffer_free_loops s _ 3 4 5 Hs); [lia|lia|lia| |].
  - by rewrite fn_lookup_insert, free_upto_ne by done.
  - rewrite fn_lookup_insert_ne by congruence. by apply free_upto_ne.
Defined.
