(* ===== verification/Hcl.v ===== *)
(** * Host command table (src/hcl/hcl.c, src/hcl/hcl.h)

    256 host command entries and the bitmap that allocates them.  A pointer to
    [hcmd_queue[k]] is the index [k]; its address is computed where the code
    computes with it.  The table is a [SlotAllocator] of capacity 256. *)
From S2P Require Import Prelude CInt Bitmap Config.

Definition HCMD_NUM : Z := 256.

(** [hcmd_opcode] and [host_cmd_entry_status] *)
Definition HCE_READ : Z := 1.
Definition HCE_WRITE : Z := 2.
Definition HCE_ERASE : Z := 3.

Definition HCE_CHECK_CACHE : Z := 0.
Definition HCE_TO_SQ : Z := 1.
Definition HCE_DATAMOVED : Z := 2.
Definition HCE_FROM_CQ : Z := 3.
Definition HCE_FINISH : Z := 4.
Definition HCE_WAIT_CQ : Z := 5.
Definition HCE_INIT : Z := 6.

(** The entry in NORMAL_MODE; [mod_start_LA] to [end_unalign_sqindex] are
    16-bit fields, the others 32-bit. *)
Record host_cmd_entry := HostCmd {
  nvme_start_lba : Z; nvme_req_num : Z; start_lpa : Z; cur_lpn : Z;
  mod_start_LA : Z; mod_req_num : Z; start_unalign_sqindex : Z; end_unalign_sqindex : Z;
  req_num : Z; cur_cnt : Z; cpl_cnt : Z; send_sq_cnt : Z; buf_cnt : Z;
  nvme_dma_cpl : Z; nvme_cmd_slot : Z; op_code : Z; status : Z; emu_id : Z;
}.

#[export] Instance host_cmd_entry_eta : Settable host_cmd_entry := λ r,
  HostCmd (nvme_start_lba r) (nvme_req_num r) (start_lpa r) (cur_lpn r)
    (mod_start_LA r) (mod_req_num r) (start_unalign_sqindex r) (end_unalign_sqindex r)
    (req_num r) (cur_cnt r) (cpl_cnt r) (send_sq_cnt r) (buf_cnt r)
    (nvme_dma_cpl r) (nvme_cmd_slot r) (op_code r) (status r) (emu_id r).

(** [memset(entry, 0, sizeof(host_cmd_entry))] *)
Definition hcmd_zero : host_cmd_entry := HostCmd 0 0 0 0 0 0 0 0 0 0 0 0 0 0 0 0 0 0.

(** [sizeof(host_cmd_entry)] on the 32-bit target. *)
Definition HCMD_SIZE : Z := 4 * 4 + 4 * 2 + 7 * 4 + 2 * 4 + 4.

Record hcl := Hcl { hcmd_queue : list host_cmd_entry; hcmd_map : list Z }.
#[export] Instance hcl_eta : Settable hcl := λ r, Hcl (hcmd_queue r) (hcmd_map r).

(** ** Operations *)
Section hcl_c.
(** The DRAM base address, set once by main. *)
Context (mem_base : Z).

(** The queue and the 256 bytes cleared behind it (64 words, of which the
    bitmap proper is the first 8). *)
Definition HCL_init_host_cmd_entry_queue : Z * hcl :=
  (SUCCESS, Hcl (repeat hcmd_zero (Z.to_nat HCMD_NUM)) (repeat 0 (Z.to_nat (HCMD_NUM / 4)))).

(** TRUE when every entry is taken. *)
Definition HCL_hcmd_queue_empty (s : hcl) : Z :=
  match find_word 0 (take (Z.to_nat (HCMD_NUM / 32)) (hcmd_map s)) with
  | Some _ => FALSE
  | None => TRUE
  end.

Definition HCL_get_host_cmd_entry (s : hcl) : option (option nat * hcl) :=
  '(index, s) ←
    match find_word 0 (take (Z.to_nat (HCMD_NUM / 32)) (hcmd_map s)) with
    | Some (i, j) => m ← bm_upd bit_set (hcmd_map s) i j;
                     Some (u32 (i * 32 + j), s <| hcmd_map := m |>)
    | None => Some (u32 (-1), s)
    end;
  if decide (index ≠ u32 (-1) ∨ index < HCMD_NUM)
  then Some (Some (Z.to_nat index), s)
  else Some (None, s).

Definition HCL_set_host_cmd_entry : Z := SUCCESS.

(** The address of [hcmd_queue[k]]. *)
Definition hcmd_addr (k : nat) : Z := HCMD_BASE_ADDR mem_base + Z.of_nat k * HCMD_SIZE.

Definition HCL_get_hcmd_entry_index (addr : Z) : Z :=
  u32 (addr - HCMD_BASE_ADDR mem_base) / HCMD_SIZE.

Definition HCL_get_hcmd_entry_addr (hcmd_id : Z) : nat := Z.to_nat hcmd_id.

Definition HCL_reclaim_hcmd_entry (k : nat) (s : hcl) : option (Z * hcl) :=
  let index := u32 (hcmd_addr k - HCMD_BASE_ADDR mem_base) / HCMD_SIZE in
  let i := index / 32 in
  let j := index mod 32 in
  m ← bm_upd bit_unset (hcmd_map s) i j;
  q ← zset (hcmd_queue s) (Z.of_nat k) hcmd_zero;
  Some (SUCCESS, Hcl q m).
End hcl_c.

(** Access through a pointer: [hcmd_entry->f] and [hcmd_entry->f = v]. *)
Definition hcmd_load (k : nat) (s : hcl) : option host_cmd_entry := hcmd_queue s !! k.
Definition hcmd_upd (k : nat) (f : host_cmd_entry → host_cmd_entry) (s : hcl) : option hcl :=
  e ← hcmd_queue s !! k; Some (s <| hcmd_queue := <[k := f e]> (hcmd_queue s) |>).

(** ** Specification *)
Definition hcl_used (s : hcl) (k : nat) : bool := bm_bit (hcmd_map s) k.

Record hcl_wf (s : hcl) : Prop := {
  hcl_wf_queue : length (hcmd_queue s) = Z.to_nat HCMD_NUM;
  hcl_wf_map : length (hcmd_map s) = Z.to_nat (HCMD_NUM / 4);
  hcl_wf_words : Forall (is_u 32) (hcmd_map s);
}.

Lemma bm_bit_take n ws k : (k < 32 * n)%nat → bm_bit (take n ws) k = bm_bit ws k.
Proof. intros. unfold bm_bit. rewrite lookup_take_lt; [done|dlia]. Qed.

(** [HCL_get_hcmd_entry_index] inverts the address of an entry. *)
Lemma hcmd_index_addr mem_base k :
  (k < Z.to_nat HCMD_NUM)%nat →
  HCL_get_hcmd_entry_index mem_base (hcmd_addr mem_base k) = Z.of_nat k.
Proof.
  intros Hk. unfold HCL_get_hcmd_entry_index, hcmd_addr, HCMD_NUM in *.
  change HCMD_SIZE with 64. generalize (HCMD_BASE_ADDR mem_base). intros b.
  replace (b + Z.of_nat k * 64 - b) with (Z.of_nat k * 64) by lia.
  rewrite u32_small by lia. by rewrite Z.div_mul.
Qed.

Lemma HCL_get_spec s :
  hcl_wf s → ∃ r s', HCL_get_host_cmd_entry s = Some (r, s') ∧ hcl_wf s' ∧
    hcmd_queue s' = hcmd_queue s ∧
    match r with
    | Some k => (k < 256)%nat ∧ hcl_used s k = false ∧
                (∀ j, (j < k)%nat → hcl_used s j = true) ∧
                (∀ j, (j < 256)%nat → hcl_used s' j = bool_decide (j = k) || hcl_used s j)
    | None => s' = s ∧ ∀ j, (j < 256)%nat → hcl_used s j = true
    end.
Proof.
  intros [Hq Hm Hw]. unfold HCL_get_host_cmd_entry, hcl_used.
  pose proof (find_word_spec 0 (take (Z.to_nat (HCMD_NUM / 32)) (hcmd_map s)) ltac:(lia)) as Hf.
  change (Z.to_nat (HCMD_NUM / 32)) with 8%nat in *. change (Z.to_nat (HCMD_NUM / 4)) with 64%nat in *.
  rewrite length_take, Hm in Hf. change (8 `min` 64)%nat with 8%nat in Hf.
  destruct (find_word 0 _) as [[i j]|].
  - destruct Hf as (? & ? & Hc & Hlow). rewrite Z.sub_0_r in *.
    destruct (bm_upd_is_Some bit_set (hcmd_map s) i j) as [m Em]; [lia|]. rewrite Em. simpl.
    assert (i * 32 + j < 256) by lia. rewrite u32_small by lia.
    rewrite decide_True by (right; unfold HCMD_NUM; lia). eexists _, _. split; [done|].
    rewrite bm_bit_take in Hc by lia. replace (i * 32 + j) with (32 * i + j) by lia. split_and!.
    + split; simpl; [done|by rewrite (bm_upd_length _ _ _ _ _ Em)|].
      eapply bm_upd_Forall; [|exact Hw|exact Em]. intros w ?. by apply bit_set_is_u.
    + done.
    + lia.
    + done.
    + intros k ?. rewrite <- (bm_bit_take 8) by lia. apply Hlow. lia.
    + intros k ?. simpl. rewrite (bm_upd_bit bit_set true (hcmd_map s) i j m) by
        (done || (intros w t ?; rewrite bit_set_spec by lia; case_decide; case_bool_decide; done)).
      case_decide; case_bool_decide; try done; lia.
  - cbn [mbind option_bind].
    rewrite decide_False by (intros [?|Hlt]; [done|by vm_compute in Hlt]).
    eexists _, _. split_and!; [done|by split|done|]. split; [done|]. intros k ?.
    rewrite <- (bm_bit_take 8) by lia. apply Hf. lia.
Qed.

Lemma HCL_reclaim_spec mem_base s k :
  hcl_wf s → (k < 256)%nat → ∃ s', HCL_reclaim_hcmd_entry mem_base k s = Some (SUCCESS, s') ∧
    hcl_wf s' ∧ hcmd_queue s' = <[k := hcmd_zero]> (hcmd_queue s) ∧
    ∀ j, (j < 256)%nat → hcl_used s' j = negb (bool_decide (j = k)) && hcl_used s j.
Proof.
  intros [Hq Hm Hw] Hk. unfold HCL_reclaim_hcmd_entry, hcl_used.
  pose proof (hcmd_index_addr mem_base k Hk) as Hi. unfold HCL_get_hcmd_entry_index in Hi.
  rewrite Hi. change (Z.to_nat (HCMD_NUM / 4)) with 64%nat in *.
  destruct (bm_upd_is_Some bit_unset (hcmd_map s) (Z.of_nat k / 32) (Z.of_nat k mod 32))
    as [m Em]; [dlia|]. rewrite Em. simpl. rewrite zset_nat by (rewrite Hq; exact Hk). simpl.
  eexists. split; [done|]. split_and!; [|done|].
  - split; simpl; [by rewrite length_insert|by rewrite (bm_upd_length _ _ _ _ _ Em)|].
    eapply bm_upd_Forall; [|exact Hw|exact Em]. intros w ?. by apply bit_unset_is_u.
  - intros j ?. simpl. rewrite (bm_upd_bit bit_unset false (hcmd_map s)
      (Z.of_nat k / 32) (Z.of_nat k mod 32) m).
    + case_decide; case_bool_decide; try done; dlia.
    + intros w t ?. rewrite bit_unset_spec by dlia. case_decide; case_bool_decide; done.
    + dlia.
    + done.
Qed.

(** The host command table implements the allocator interface. *)
#[export] Instance hcl_allocator mem_base :
  SlotAllocator 256 hcl_wf hcl_used HCL_get_host_cmd_entry
    (λ k s, snd <$> HCL_reclaim_hcmd_entry mem_base k s).
Proof.
  split.
  - intros s Hs. destruct (HCL_get_spec s Hs) as (r & s' & ? & ? & _ & ?). eauto.
  - intros s k Hs Hk. destruct (HCL_reclaim_spec mem_base s k Hs Hk) as (s' & -> & ? & _ & ?).
    exists s'. done.
Qed.

Theorem HCL_init_spec :
  let s := snd HCL_init_host_cmd_entry_queue in
  hcl_wf s ∧ (∀ k, hcl_used s k = false) ∧
  (∀ k, (k < 256)%nat → hcmd_load k s = Some hcmd_zero).
Proof.
  split_and!.
  - split; [by vm_compute|by vm_compute|]. by apply Forall_repeat_intro.
  - intros k. unfold hcl_used, bm_bit. simpl. destruct (_ !! _) eqn:E; [|done].
    assert (Forall (λ w, w = 0) (repeat 0 64)) as Hz by by apply Forall_repeat_intro.
    rewrite (proj1 (Forall_lookup _ _) Hz _ _ E). apply Z.testbit_0_l.
  - intros k ?. unfold hcmd_load. by apply (lookup_repeat_lt _ (Z.to_nat HCMD_NUM)).
Qed.
