(* ===== verification/TaskQueue.v ===== *)
(** * Task queues (src/ftl/ftl_taskqueue.c, src/ftl/ftl_taskqueue.h)

    One ring buffer of 256 host-command pointers per command status, with the
    handler of that status.  [QueueBank] is the interface the handlers use: a
    family of bounded FIFO queues; the ring buffers discharge it.  The polling
    loop, which calls the handlers, is in [Ftl]. *)
From stdpp Require Import functions.
From S2P Require Import Prelude CInt Hcl.

Definition TASK_QUEUE_MAX : Z := 256.

(** ** The interface: a family of bounded first-in first-out queues *)
Class QueueBank {Q A : Type} (keys cap : nat) (rep : Q → (nat → list A) → Prop)
    (enq : A → nat → Q → option (Z * Q)) (deq : nat → Q → option (option A * Q))
    (size : nat → Q → option Z) : Prop := {
  qb_cap q F k : rep q F → (k < keys)%nat → (length (F k) ≤ cap)%nat;
  qb_enq q F k x : rep q F → (k < keys)%nat → (length (F k) < cap)%nat →
    ∃ q', enq x k q = Some (SUCCESS, q') ∧ rep q' (<[k := F k ++ [x]]> F);
  qb_full q F k x : rep q F → (k < keys)%nat → length (F k) = cap → enq x k q = Some (FAIL, q);
  qb_deq q F k x l : rep q F → (k < keys)%nat → F k = x :: l →
    ∃ q', deq k q = Some (Some x, q') ∧ rep q' (<[k := l]> F);
  qb_deq_nil q F k : rep q F → (k < keys)%nat → F k = [] → deq k q = Some (None, q);
  qb_size q F k : rep q F → (k < keys)%nat → size k q = Some (Z.of_nat (length (F k)));
}.

(** ** Data *)

(** The handlers a queue entry's [func] points to. *)
Inductive task_func :=
  | FTL_handle_checkcache | FTL_handle_tosq | FTL_handle_datamove
  | FTL_handle_fromcq | FTL_handle_finish.

(** A [host_cmd_entry *]: NULL or an entry of the command table. *)
Abbreviation hcmd_ptr := (option nat).

Record ftl_task_queue_entry := TaskQueueEntry {
  tq_head : Z; tq_tail : Z; tq_cnt : Z;
  tq_queue : list hcmd_ptr; tq_status : Z; tq_func : option task_func;
}.
#[export] Instance ftl_task_queue_entry_eta : Settable ftl_task_queue_entry := λ r,
  TaskQueueEntry (tq_head r) (tq_tail r) (tq_cnt r) (tq_queue r) (tq_status r) (tq_func r).

Abbreviation task_queues := (list ftl_task_queue_entry).

(** ** Operations *)

(** The assignments of the [func] fields after the loop. *)
Definition init_func (status : Z) : option task_func :=
  if decide (status = HCE_CHECK_CACHE) then Some FTL_handle_checkcache
  else if decide (status = HCE_DATAMOVED) then Some FTL_handle_datamove
  else if decide (status = HCE_FINISH) then Some FTL_handle_finish
  else if decide (status = HCE_FROM_CQ) then Some FTL_handle_fromcq
  else if decide (status = HCE_TO_SQ) then Some FTL_handle_tosq
  else None.

Definition FTL_int_task_queue : task_queues :=
  (λ i, TaskQueueEntry 0 0 0 (repeat None (Z.to_nat TASK_QUEUE_MAX)) (Z.of_nat i)
          (init_func (Z.of_nat i))) <$> seq 0 (Z.to_nat HCE_INIT).

Definition FTL_task_queue_is_empty (e : ftl_task_queue_entry) : bool := tq_cnt e =? 0.
Definition FTL_task_queue_is_full (e : ftl_task_queue_entry) : bool :=
  tq_cnt e =? TASK_QUEUE_MAX.

Definition FTL_task_queue_remove_head (status : Z) (q : task_queues)
    : option (hcmd_ptr * task_queues) :=
  e ← zget q status;
  if FTL_task_queue_is_empty e then Some (None, q)
  else
    let old_head := tq_head e in
    let new_head := u8 (Z.rem (old_head + 1) TASK_QUEUE_MAX) in
    q ← zset q status (e <| tq_cnt := u16 (tq_cnt e - 1) |> <| tq_head := new_head |>);
    h ← zget (tq_queue e) old_head;
    Some (h, q).

Definition FTL_task_queue_add_tail (hcmd_entry : hcmd_ptr) (status : Z) (q : task_queues)
    : option (Z * task_queues) :=
  e ← zget q status;
  if FTL_task_queue_is_full e then Some (FAIL, q)
  else
    let old_tail := tq_tail e in
    let new_tail := u8 (Z.rem (old_tail + 1) TASK_QUEUE_MAX) in
    slots ← zset (tq_queue e) old_tail hcmd_entry;
    q ← zset q status (e <| tq_cnt := u16 (tq_cnt e + 1) |> <| tq_tail := new_tail |>
                         <| tq_queue := slots |>);
    Some (SUCCESS, q).

Definition FTL_get_taskqueue_cnt (status : Z) (q : task_queues) : option Z :=
  e ← zget q status; Some (tq_cnt e).

(** [hcmd->status] is read first, so the pointer must be valid; with
    [HCE_INIT] control reaches the end of the function without a value. *)
Definition FTL_sendhcmd (hcmd : hcmd_ptr) (status : Z) (h : hcl) (q : task_queues)
    : option (Z * task_queues) :=
  k ← hcmd; _ ← hcmd_load k h;
  if decide (status > HCE_INIT ∨ status < HCE_CHECK_CACHE) then Some (FAIL, q)
  else if decide (HCE_CHECK_CACHE ≤ status ∧ status < HCE_INIT)
  then FTL_task_queue_add_tail hcmd status q
  else None.

(** ** Representation *)

(** The ring buffer holds [l] from its head to its tail. *)
Record tq_rep (e : ftl_task_queue_entry) (k : nat) (l : list nat) : Prop := {
  tqr_len : length (tq_queue e) = 256%nat;
  tqr_cap : (length l ≤ 256)%nat;
  tqr_cnt : tq_cnt e = Z.of_nat (length l);
  tqr_head : 0 ≤ tq_head e < 256;
  tqr_tail : tq_tail e = (tq_head e + Z.of_nat (length l)) mod 256;
  tqr_slots i x : l !! i = Some x →
    zget (tq_queue e) ((tq_head e + Z.of_nat i) mod 256) = Some (Some x);
  tqr_status : tq_status e = Z.of_nat k;
  tqr_func : tq_func e = init_func (Z.of_nat k);
}.

Definition tqs_rep (q : task_queues) (F : nat → list nat) : Prop :=
  length q = 6%nat ∧ ∀ k, (k < 6)%nat → ∃ e, q !! k = Some e ∧ tq_rep e k (F k).

Lemma tqs_rep_get q F k :
  tqs_rep q F → (k < 6)%nat →
  ∃ e, zget q (Z.of_nat k) = Some e ∧ q !! k = Some e ∧ tq_rep e k (F k).
Proof. intros [? H] Hk. destruct (H k Hk) as (e & ? & ?). exists e. by rewrite zget_nat. Qed.

Lemma tqs_rep_set q F k e l :
  tqs_rep q F → (k < 6)%nat → tq_rep e k l →
  ∃ q', zset q (Z.of_nat k) e = Some q' ∧ tqs_rep q' (<[k := l]> F).
Proof.
  intros [Hl H] Hk He. exists (<[k := e]> q).
  split; [apply zset_nat; lia|]. split; [by rewrite length_insert|].
  intros k' Hk'. destruct (decide (k' = k)) as [->|].
  - exists e. rewrite list_lookup_insert_eq by lia. by rewrite fn_lookup_insert.
  - rewrite list_lookup_insert_ne by done. rewrite fn_lookup_insert_ne by done. by apply H.
Qed.

(** Perform the pending update of queue [k], leaving [tq_rep] for the new entry. *)
Ltac set_queue Hq Hk l :=
  match type of Hq with
  | tqs_rep ?q ?F =>
      match goal with
      | |- context [zset q (Z.of_nat ?k) ?e] =>
          let q' := fresh "q'" in
          assert (∃ q', zset q (Z.of_nat k) e = Some q' ∧ tqs_rep q' (<[k := l]> F))
            as (q' & -> & ?); [apply tqs_rep_set; [exact Hq|exact Hk|]|]
      end
  end.

Lemma tqs_rep_ext q F F' : tqs_rep q F → (∀ n, (n < 6)%nat → F n = F' n) → tqs_rep q F'.
Proof.
  intros [Hl Hr] He. split; [done|]. intros n Hn. rewrite <- He by done. by apply Hr.
Qed.

Lemma FTL_int_task_queue_rep : tqs_rep FTL_int_task_queue (λ _, []).
Proof.
  split; [done|]. intros k Hk. eexists. split.
  - unfold FTL_int_task_queue. rewrite list_lookup_fmap, lookup_seq_lt by exact Hk. done.
  - split; simpl; try done; try lia; by vm_compute.
Qed.

Lemma rem_succ_mod x : 0 ≤ x < 256 → u8 (Z.rem (x + 1) TASK_QUEUE_MAX) = (x + 1) mod 256.
Proof.
  intros. unfold TASK_QUEUE_MAX. rewrite Z.rem_mod_nonneg by lia. apply u8_small. dlia.
Qed.

(** Enqueuing into a queue with room appends; a full queue is unchanged. *)
Lemma add_tail_spec q F k x :
  tqs_rep q F → (k < 6)%nat → (length (F k) < 256)%nat →
  ∃ q', FTL_task_queue_add_tail (Some x) (Z.of_nat k) q = Some (SUCCESS, q') ∧
        tqs_rep q' (<[k := F k ++ [x]]> F).
Proof.
  intros Hq Hk Hlen. destruct (tqs_rep_get q F k Hq Hk) as (e & He & _ & R).
  destruct R as [Rl Rcap Rc Rh Rt Rs Rst Rf].
  unfold FTL_task_queue_add_tail, FTL_task_queue_is_full. rewrite He. simpl.
  rewrite (proj2 (Z.eqb_neq _ _)) by (rewrite Rc; unfold TASK_QUEUE_MAX; lia).
  assert (0 ≤ tq_tail e < 256) as Ht by (rewrite Rt; dlia).
  rewrite rem_succ_mod by done. rewrite zset_is_Some by lia. simpl.
  set_queue Hq Hk (F k ++ [x]); [|simpl; eauto].
  split; simpl; try done.
  - by rewrite length_insert.
  - rewrite length_app. simpl. lia.
  - rewrite Rc, u16_small, length_app by lia. simpl. lia.
  - rewrite Rt, length_app, Zplus_mod_idemp_l. f_equal. simpl. lia.
  - intros i y Hi. apply lookup_app_Some in Hi as [Hi|[Hi Hy]].
    + rewrite <- (Rs i y Hi). apply (zget_zset_ne _ _ (tq_tail e) _ (Some x)).
      * rewrite Rt. apply lookup_lt_Some in Hi. intros E. clear - E Hi Hlen Rh. dlia.
      * apply zset_is_Some. lia.
    + apply list_lookup_singleton_Some in Hy as [? ->].
      replace i with (length (F k)) by lia. rewrite <- Rt.
      apply (zget_zset_eq (tq_queue e)), zset_is_Some. lia.
Qed.

Lemma add_tail_full q F k x :
  tqs_rep q F → (k < 6)%nat → length (F k) = 256%nat →
  FTL_task_queue_add_tail x (Z.of_nat k) q = Some (FAIL, q).
Proof.
  intros Hq Hk Hlen. destruct (tqs_rep_get q F k Hq Hk) as (e & He & _ & R).
  unfold FTL_task_queue_add_tail, FTL_task_queue_is_full. rewrite He. simpl.
  by rewrite (tqr_cnt _ _ _ R), Hlen.
Qed.

Lemma remove_head_spec q F k x l :
  tqs_rep q F → (k < 6)%nat → F k = x :: l →
  ∃ q', FTL_task_queue_remove_head (Z.of_nat k) q = Some (Some x, q') ∧
        tqs_rep q' (<[k := l]> F).
Proof.
  intros Hq Hk Hl. destruct (tqs_rep_get q F k Hq Hk) as (e & He & _ & R). rewrite Hl in R.
  destruct R as [Rl Rcap Rc Rh Rt Rs Rst Rf]. simpl in *.
  unfold FTL_task_queue_remove_head, FTL_task_queue_is_empty. rewrite He. simpl.
  rewrite (proj2 (Z.eqb_neq _ _)) by lia. rewrite rem_succ_mod by done.
  set_queue Hq Hk l.
  - split; simpl; [done|..|exact Rst|exact Rf].
    + lia.
    + rewrite Rc, u16_small by lia. lia.
    + dlia.
    + rewrite Rt, Zplus_mod_idemp_l. f_equal. lia.
    + intros i y Hi. rewrite <- (Rs (S i) y Hi), Zplus_mod_idemp_l. f_equal. f_equal. lia.
  - simpl. specialize (Rs 0%nat x eq_refl). rewrite Z.add_0_r, Z.mod_small in Rs by lia.
    rewrite Rs. simpl. eauto.
Qed.

Lemma remove_head_empty q F k :
  tqs_rep q F → (k < 6)%nat → F k = [] →
  FTL_task_queue_remove_head (Z.of_nat k) q = Some (None, q).
Proof.
  intros Hq Hk Hl. destruct (tqs_rep_get q F k Hq Hk) as (e & He & _ & R). rewrite Hl in R.
  unfold FTL_task_queue_remove_head, FTL_task_queue_is_empty. rewrite He. simpl.
  by rewrite (tqr_cnt _ _ _ R).
Qed.

Lemma get_cnt_spec q F k :
  tqs_rep q F → (k < 6)%nat →
  FTL_get_taskqueue_cnt (Z.of_nat k) q = Some (Z.of_nat (length (F k))).
Proof.
  intros Hq Hk. destruct (tqs_rep_get q F k Hq Hk) as (e & He & _ & R).
  unfold FTL_get_taskqueue_cnt. rewrite He. simpl. by rewrite (tqr_cnt _ _ _ R).
Qed.

(** The six ring buffers are a bank of FIFO queues of capacity 256. *)
#[export] Instance tqs_bank :
  QueueBank 6 256 tqs_rep (λ x k q, FTL_task_queue_add_tail (Some x) (Z.of_nat k) q)
    (λ k q, FTL_task_queue_remove_head (Z.of_nat k) q)
    (λ k q, FTL_get_taskqueue_cnt (Z.of_nat k) q).
Proof.
  split.
  - intros q F k Hq Hk. destruct (tqs_rep_get q F k Hq Hk) as (e & _ & _ & R). apply R.
  - intros. by apply add_tail_spec.
  - intros. by eapply add_tail_full.
  - apply remove_head_spec.
  - apply remove_head_empty.
  - apply get_cnt_spec.
Qed.

(** [FTL_sendhcmd] on a valid command and a queue status below [HCE_INIT] is
    an enqueue. *)
Lemma FTL_sendhcmd_eq h q x k e :
  (k < 6)%nat → hcmd_load x h = Some e →
  FTL_sendhcmd (Some x) (Z.of_nat k) h q = FTL_task_queue_add_tail (Some x) (Z.of_nat k) q.
Proof.
  intros Hk He. unfold FTL_sendhcmd. simpl. rewrite He. simpl.
  rewrite decide_False by (unfold HCE_INIT, HCE_CHECK_CACHE; lia).
  by rewrite decide_True by (unfold HCE_INIT, HCE_CHECK_CACHE; lia).
Qed.

Lemma FTL_sendhcmd_spec h q F x k e :
  tqs_rep q F → (k < 6)%nat → hcmd_load x h = Some e → (length (F k) < 256)%nat →
  ∃ q', FTL_sendhcmd (Some x) (Z.of_nat k) h q = Some (SUCCESS, q') ∧
        tqs_rep q' (<[k := F k ++ [x]]> F).
Proof. intros. erewrite FTL_sendhcmd_eq by done. by apply add_tail_spec. Qed.
