(* ===== verification/Fcl.v ===== *)
(** * Flash control layer (src/fcl/fcl.c, src/fcl/fcl.h)

    The submission-queue entry and the NAND address as bit-field unions, and
    the per-channel queues with their allocation bitmaps, each channel a
    [SlotAllocator].  In the emulator FCL_send_SQ_entry hands the entry to the
    back end ([Ftl]); the board's registers are in [FclReg]. *)
From S2P Require Import Prelude CInt Bitmap Config Hcl Buffer.

(** ** The submission-queue entry [hw_queue_entry] *)
Abbreviation hw_queue_entry := (list Z).

Definition cur_ptr := BF 0 0 8.
Definition t0_add_da := BF 0 8 1.
Definition t1_add_df := BF 0 9 1.
Definition t2_use_1a := BF 0 10 1.
Definition err_sum := BF 0 16 9.
Definition ph := BF 0 26 2.
Definition op := BF 0 28 2.
Definition cmd_space := BF 0 30 1.
Definition nulptr := BF 0 31 1.
Definition ce := BF 1 0 8.
Definition buf_adr := BF 1 14 18.
Definition a0 := BF 2 0 8.
Definition a1 := BF 2 8 8.
Definition a2 := BF 2 16 8.
Definition a3 := BF 2 24 8.
Definition a4 := BF 3 0 8.
Definition a5 := BF 3 8 8.
Definition hcmd_index := BF 3 16 8.
Definition next_ptr := BF 3 24 8.

Definition entry_fields : list bitfield :=
  [cur_ptr; t0_add_da; t1_add_df; t2_use_1a; err_sum; ph; op; cmd_space; nulptr;
   ce; buf_adr; a0; a1; a2; a3; a4; a5; hcmd_index; next_ptr].

Definition HCMD_SPACE : Z := 0.
Definition GCMD_SPACE : Z := 1.

(** ** The NAND address [nand_flash_addr_cmd] *)
Definition slc_page_offset := BF 0 0 15.
Definition slc_page := BF 0 16 9.
Definition slc_plane := BF 0 27 1.
Definition slc_block := BF 1 0 10.
Definition slc_lun := BF 1 11 3.
Definition tlc_page_offset := BF 0 0 15.
Definition tlc_page := BF 0 16 11.
Definition tlc_plane := BF 0 27 1.
Definition tlc_block := BF 1 0 10.
Definition tlc_lun := BF 1 11 3.

Definition slc_fields : list bitfield :=
  [slc_page_offset; slc_page; slc_plane; slc_block; slc_lun].

(** [array[i]]: byte [i] of the union, little-endian. *)
Definition addr_byte (i : nat) : bitfield := BF (i / 4) (8 * Z.of_nat (i mod 4)) 8.

Record phy_page_addr := PhyPageAddr { ppa_ch : Z; ppa_ce : Z; nand_flash_addr : list Z }.
#[export] Instance phy_page_addr_eta : Settable phy_page_addr :=
  λ r, PhyPageAddr (ppa_ch r) (ppa_ce r) (nand_flash_addr r).

(** [ppa->nand_flash_addr.<mode>.<field> = v] *)
Definition addr_set (f : bitfield) (v : Z) (p : phy_page_addr) : phy_page_addr :=
  p <| nand_flash_addr := bf_set f v (nand_flash_addr p) |>.

(** ** Queues and bitmaps *)
Record hw_queues := HwQueues {
  hw_SQ : list (list hw_queue_entry);
  hw_CQ : list (list hw_queue_entry);
  hw_sq_bitmap : list (list Z);
}.
#[export] Instance hw_queues_eta : Settable hw_queues :=
  λ r, HwQueues (hw_SQ r) (hw_CQ r) (hw_sq_bitmap r).

(** [hw_SQ[ch]->hw_queue[i]] *)
Definition SQ_entry (ch i : Z) (s : hw_queues) : option hw_queue_entry :=
  q ← zget (hw_SQ s) ch; zget q i.
Definition SQ_upd (ch i : Z) (f : hw_queue_entry → hw_queue_entry) (s : hw_queues)
    : option hw_queues :=
  q ← zget (hw_SQ s) ch; e ← zget q i; q' ← zset q i (f e); l ← zset (hw_SQ s) ch q';
  Some (s <| hw_SQ := l |>).

(** The channel's entry [j] after the loop of FCL_init_hw_queue. *)
Definition init_SQ_entry (j : nat) : hw_queue_entry :=
  bf_set cur_ptr (Z.of_nat j) (bf_set next_ptr (Z.of_nat j + 1) [0; 0; 0; 0]).

Definition init_SQ : list hw_queue_entry :=
  let D := Z.to_nat HW_QUEUE_DEPTH in
  alter (bf_set next_ptr (HW_QUEUE_DEPTH - 1)) (D - 1)%nat (init_SQ_entry <$> seq 0 D).

(** The memory FCL_init_hw_queue leaves; the registers it writes are below. *)
Definition init_hw_queues : hw_queues :=
  let D := Z.to_nat HW_QUEUE_DEPTH in
  let C := Z.to_nat TOTAL_CHANNEL in
  HwQueues (repeat init_SQ C) (repeat (repeat (repeat 0xffffffff 4) D) C)
    (repeat (repeat 0 (D / 32)) C).

Definition FCL_get_free_SQ_entry (ch : Z) (s : hw_queues) : option (Z * hw_queues) :=
  bm ← zget (hw_sq_bitmap s) ch;
  match find_word 0 bm with
  | Some (i, j) =>
      bm ← bm_upd bit_set bm i j; l ← zset (hw_sq_bitmap s) ch bm;
      Some (u32 (32 * i + j), s <| hw_sq_bitmap := l |>)
  | None => Some (INVALID_INDEX, s)
  end.

(** TRUE when every entry is taken. *)
Definition FCL_SQ_empty (ch : Z) (s : hw_queues) : option Z :=
  bm ← zget (hw_sq_bitmap s) ch;
  match find_word 0 bm with Some _ => Some FALSE | None => Some TRUE end.

Definition FCL_free_SQ_entry (ch index : Z) (s : hw_queues) : option hw_queues :=
  bm ← zget (hw_sq_bitmap s) ch;
  bm ← bm_upd bit_unset bm (index / 32) (index mod 32);
  l ← zset (hw_sq_bitmap s) ch bm;
  Some (s <| hw_sq_bitmap := l |>).

(** The assignments to one entry, in order. *)
Definition set_SQ_fields (mem_base hcmd_entry_index buffer_index opcode cmd_sp : Z)
    (addr : list Z) (e : hw_queue_entry) : hw_queue_entry :=
  let arr i := bf_get (addr_byte i) addr in
  let e := bf_set op opcode e in
  let e := bf_set t0_add_da 1 e in
  let e := bf_set cmd_space cmd_sp e in
  let e :=
    if decide (opcode ≠ HCE_ERASE) then
      let buffer_addr := L2P_get_buffer_addr mem_base buffer_index in
      let e := bf_set buf_adr (Z.shiftr buffer_addr 14) e in
      let e := bf_set a0 (arr 0%nat) e in
      let e := bf_set a1 (arr 1%nat) e in
      let e := bf_set a2 (arr 2%nat) e in
      let e := bf_set a3 (arr 3%nat) e in
      let e := bf_set a4 (arr 4%nat) e in
      bf_set a5 (arr 5%nat) e
    else
      let e := bf_set a0 (arr 2%nat) e in
      let e := bf_set a1 (arr 3%nat) e in
      let e := bf_set a2 (arr 4%nat) e in
      bf_set a3 (arr 5%nat) e in
  bf_set hcmd_index hcmd_entry_index e.

Definition FCL_set_SQ_entry (mem_base hcmd_entry_index SQ_entry_index buffer_index opcode : Z)
    (ppa : phy_page_addr) (cmd_sp : Z) (s : hw_queues) : option hw_queues :=
  SQ_upd (ppa_ch ppa) SQ_entry_index
    (set_SQ_fields mem_base hcmd_entry_index buffer_index opcode cmd_sp (nand_flash_addr ppa)) s.

(** ** Read-back of the entry fields *)
Lemma bf_ok_compute n f : bool_decide (bf_ok n f) = true → bf_ok n f.
Proof. apply bool_decide_eq_true_1. Qed.
Lemma bf_disjoint_compute f g : bool_decide (bf_disjoint f g) = true → bf_disjoint f g.
Proof. apply bool_decide_eq_true_1. Qed.

(** Normalise reads of written fields; [Hl] says how long the union is. *)
Ltac bf_side Hl :=
  rewrite ?bf_set_length, ?Hl;
  first [apply bf_ok_compute; vm_compute; reflexivity
        |apply bf_disjoint_compute; vm_compute; reflexivity].
Ltac bf_read Hl :=
  repeat first [rewrite bf_get_set_other by bf_side Hl|rewrite bf_get_set_same by bf_side Hl].

(** All fields of the entry are within its words and pairwise disjoint. *)
Definition fields_disjoint (fs : list bitfield) : Prop :=
  ∀ i j f g, fs !! i = Some f → fs !! j = Some g → i ≠ j → bf_disjoint f g.

Fixpoint fields_disjointb (fs : list bitfield) : bool :=
  match fs with
  | [] => true
  | f :: fs' => forallb (λ g, bool_decide (bf_disjoint f g)) fs' && fields_disjointb fs'
  end.

Lemma bf_disjoint_sym f g : bf_disjoint f g → bf_disjoint g f.
Proof. unfold bf_disjoint. intros [?|?]; [left; congruence|right; lia]. Qed.

Lemma fields_disjointb_sound fs : fields_disjointb fs = true → fields_disjoint fs.
Proof.
  induction fs as [|f fs IH]; intros H; [by intros ? ? ? ? ?|].
  simpl in H. apply andb_true_iff in H as [Hf Hfs]. rewrite forallb_forall in Hf.
  assert (∀ g i, fs !! i = Some g → bf_disjoint f g) as Hfg.
  { intros g i Hg. eapply bool_decide_eq_true_1, Hf, list_elem_of_In, list_elem_of_lookup_2, Hg. }
  intros [|i] [|j] g h Hg Hh Hne; simplify_eq/=; [eauto|by eapply bf_disjoint_sym, Hfg|].
  eapply (IH Hfs i j); eauto.
Qed.

Section set_SQ.
Context (mem_base hid bid opc sp : Z) (addr : list Z) (e : hw_queue_entry).
Context (He : length e = 4%nat).
Abbreviation e' := (set_SQ_fields mem_base hid bid opc sp addr e).

Lemma set_SQ_length : length e' = 4%nat.
Proof. unfold set_SQ_fields. case_decide; by rewrite !bf_set_length. Qed.

(** What every opcode writes, and what no opcode touches. *)
Lemma set_SQ_common :
  bf_get op e' = wrap 2 opc ∧ bf_get cmd_space e' = wrap 1 sp ∧
  bf_get hcmd_index e' = wrap 8 hid ∧
  bf_get cur_ptr e' = bf_get cur_ptr e ∧ bf_get next_ptr e' = bf_get next_ptr e ∧
  bf_get ph e' = bf_get ph e.
Proof.
  unfold set_SQ_fields. case_decide; split_and!; bf_read He; reflexivity.
Qed.

Lemma set_SQ_rw :
  opc ≠ HCE_ERASE →
  bf_get buf_adr e' = wrap 18 (Z.shiftr (L2P_get_buffer_addr mem_base bid) 14) ∧
  bf_get a0 e' = bf_get (addr_byte 0) addr ∧ bf_get a1 e' = bf_get (addr_byte 1) addr ∧
  bf_get a2 e' = bf_get (addr_byte 2) addr ∧ bf_get a3 e' = bf_get (addr_byte 3) addr ∧
  bf_get a4 e' = bf_get (addr_byte 4) addr ∧ bf_get a5 e' = bf_get (addr_byte 5) addr.
Proof.
  intros Hop. unfold set_SQ_fields. rewrite decide_True by done.
  split_and!; bf_read He; try reflexivity;
    apply wrap_small; unfold bf_get; apply get_bits_range; simpl; lia.
Qed.

Lemma set_SQ_erase :
  opc = HCE_ERASE →
  bf_get a0 e' = bf_get (addr_byte 2) addr ∧ bf_get a1 e' = bf_get (addr_byte 3) addr ∧
  bf_get a2 e' = bf_get (addr_byte 4) addr ∧ bf_get a3 e' = bf_get (addr_byte 5) addr ∧
  bf_get buf_adr e' = bf_get buf_adr e.
Proof.
  intros Hop. unfold set_SQ_fields. rewrite decide_False by (intros Hn; by apply Hn).
  split_and!; bf_read He; try reflexivity;
    apply wrap_small; unfold bf_get; apply get_bits_range; simpl; lia.
Qed.
End set_SQ.

(** ** The entry bitmaps *)
Record hwq_wf (s : hw_queues) : Prop := {
  hw_wf_SQ : length (hw_SQ s) = 4%nat;
  hw_wf_SQ_len ch q : hw_SQ s !! ch = Some q → length q = 256%nat;
  hw_wf_entry ch q i e : hw_SQ s !! ch = Some q → q !! i = Some e → length e = 4%nat;
  hw_wf_bm : length (hw_sq_bitmap s) = 4%nat;
  hw_wf_bm_len ch bm : hw_sq_bitmap s !! ch = Some bm → length bm = 8%nat ∧ Forall (is_u 32) bm;
}.

Definition sq_used (ch : nat) (s : hw_queues) (k : nat) : bool :=
  bm_bit (default [] (hw_sq_bitmap s !! ch)) k.

(** Replacing the bitmap of channel [ch]. *)
Lemma hwq_set_bitmap s ch bm :
  hwq_wf s → (ch < 4)%nat → length bm = 8%nat → Forall (is_u 32) bm →
  let s' := s <| hw_sq_bitmap := <[ch := bm]> (hw_sq_bitmap s) |> in
  hwq_wf s' ∧ (∀ k, sq_used ch s' k = bm_bit bm k) ∧
  ∀ ch' k, ch' ≠ ch → sq_used ch' s' k = sq_used ch' s k.
Proof.
  intros [H1 H2 H3 H4 H5] Hch Hl Hw s'. subst s'. split_and!.
  - split; simpl; [done|done|done|by rewrite length_insert|].
    intros ch' bm' Hb. destruct (decide (ch' = ch)) as [->|].
    + rewrite list_lookup_insert_eq in Hb by lia. by injection Hb as <-.
    + rewrite list_lookup_insert_ne in Hb by done. eauto.
  - intros k. unfold sq_used. simpl. by rewrite list_lookup_insert_eq by lia.
  - intros ch' k ?. unfold sq_used. simpl. by rewrite list_lookup_insert_ne.
Qed.

Lemma hwq_bitmap s ch : hwq_wf s → (ch < 4)%nat →
  ∃ bm, hw_sq_bitmap s !! ch = Some bm ∧ length bm = 8%nat ∧ Forall (is_u 32) bm ∧
    ∀ k, sq_used ch s k = bm_bit bm k.
Proof.
  intros Hs Hch. destruct (lookup_lt_is_Some_2 (hw_sq_bitmap s) ch) as [bm Hbm];
    [by rewrite (hw_wf_bm s Hs)|].
  exists bm. destruct (hw_wf_bm_len s Hs ch bm Hbm). split_and!; [done..|].
  intros k. unfold sq_used. by rewrite Hbm.
Qed.

(** The lowest free entry of the channel, or INVALID_INDEX when there is none. *)
Lemma FCL_get_free_spec s ch :
  hwq_wf s → (ch < 4)%nat →
  ∃ r s', FCL_get_free_SQ_entry (Z.of_nat ch) s = Some (r, s') ∧ hwq_wf s' ∧
    hw_SQ s' = hw_SQ s ∧ (∀ ch' k, ch' ≠ ch → sq_used ch' s' k = sq_used ch' s k) ∧
    ((∃ k, r = Z.of_nat k ∧ (k < 256)%nat ∧ sq_used ch s k = false ∧
        (∀ j, (j < k)%nat → sq_used ch s j = true) ∧
        ∀ j, (j < 256)%nat → sq_used ch s' j = bool_decide (j = k) || sq_used ch s j) ∨
     (r = INVALID_INDEX ∧ s' = s ∧ ∀ k, (k < 256)%nat → sq_used ch s k = true)).
Proof.
  intros Hs Hch. destruct (hwq_bitmap s ch Hs Hch) as (bm & Hbm & Hl & Hw & Hu).
  unfold FCL_get_free_SQ_entry. rewrite zget_nat, Hbm. cbn [mbind option_bind].
  pose proof (find_word_spec 0 bm ltac:(lia)) as Hf. rewrite Hl in Hf.
  destruct (find_word 0 bm) as [[i j]|].
  - destruct Hf as (? & ? & Hc & Hlow). rewrite Z.sub_0_r in *.
    destruct (bm_upd_is_Some bit_set bm i j) as [m Em]; [lia|]. rewrite Em. cbn [mbind option_bind].
    rewrite zset_nat by (by rewrite (hw_wf_bm s Hs)). cbn [mbind option_bind].
    destruct (hwq_set_bitmap s ch m Hs Hch) as (Hwf & Hsame & Hoth).
    { by rewrite (bm_upd_length _ _ _ _ _ Em). }
    { eapply bm_upd_Forall; [|exact Hw|exact Em]. intros w ?. by apply bit_set_is_u. }
    eexists _, _. split; [done|]. split_and!; [exact Hwf|done|exact Hoth|]. left.
    exists (Z.to_nat (32 * i + j)). rewrite Z2Nat.id by lia. rewrite u32_small by lia.
    split_and!; [done|lia|by rewrite Hu| |].
    + intros k ?. rewrite Hu. apply Hlow. lia.
    + intros k ?. rewrite Hsame, Hu. rewrite (bm_upd_bit bit_set true bm i j m) by
        (done || (intros w t ?; rewrite bit_set_spec by lia; case_decide; case_bool_decide; done)).
      case_decide; case_bool_decide; try done; lia.
  - eexists _, _. split; [done|]. split_and!; [done..|]. right. split_and!; [done..|].
    intros k ?. rewrite Hu. apply Hf. lia.
Qed.

Lemma FCL_free_spec s ch k :
  hwq_wf s → (ch < 4)%nat → (k < 256)%nat →
  ∃ s', FCL_free_SQ_entry (Z.of_nat ch) (Z.of_nat k) s = Some s' ∧ hwq_wf s' ∧
    hw_SQ s' = hw_SQ s ∧ (∀ ch' j, ch' ≠ ch → sq_used ch' s' j = sq_used ch' s j) ∧
    ∀ j, (j < 256)%nat → sq_used ch s' j = negb (bool_decide (j = k)) && sq_used ch s j.
Proof.
  intros Hs Hch Hk. destruct (hwq_bitmap s ch Hs Hch) as (bm & Hbm & Hl & Hw & Hu).
  unfold FCL_free_SQ_entry. rewrite zget_nat, Hbm. cbn [mbind option_bind].
  destruct (bm_upd_is_Some bit_unset bm (Z.of_nat k / 32) (Z.of_nat k mod 32)) as [m Em]; [dlia|].
  rewrite Em. cbn [mbind option_bind].
  rewrite zset_nat by (by rewrite (hw_wf_bm s Hs)). cbn [mbind option_bind].
  destruct (hwq_set_bitmap s ch m Hs Hch) as (Hwf & Hsame & Hoth).
  { by rewrite (bm_upd_length _ _ _ _ _ Em). }
  { eapply bm_upd_Forall; [|exact Hw|exact Em]. intros w ?. by apply bit_unset_is_u. }
  eexists. split; [done|]. split_and!; [exact Hwf|done|exact Hoth|].
  intros j ?. rewrite Hsame, Hu.
  rewrite (bm_upd_bit bit_unset false bm (Z.of_nat k / 32) (Z.of_nat k mod 32) m).
  - case_decide; case_bool_decide; try done; dlia.
  - intros w t ?. rewrite bit_unset_spec by dlia. case_decide; case_bool_decide; done.
  - dlia.
  - done.
Qed.

(** Each channel's entries are a slot allocator. *)
Definition sq_alloc (ch : nat) (s : hw_queues) : option (option nat * hw_queues) :=
  '(r, s') ← FCL_get_free_SQ_entry (Z.of_nat ch) s;
  Some (if decide (r = INVALID_INDEX) then None else Some (Z.to_nat r), s').

#[export] Instance fcl_allocator ch :
  SlotAllocator 256 (λ s, hwq_wf s ∧ (ch < 4)%nat) (sq_used ch) (sq_alloc ch)
    (λ k s, FCL_free_SQ_entry (Z.of_nat ch) (Z.of_nat k) s).
Proof.
  split.
  - intros s [Hs Hch]. unfold sq_alloc.
    destruct (FCL_get_free_spec s ch Hs Hch) as (r & s' & -> & Hs' & _ & _ & Hr).
    cbn [mbind option_bind]. eexists _, s'. split; [done|]. split; [done|].
    destruct Hr as [(k & -> & Hk & Hrest)|(-> & -> & Hfull)].
    + rewrite decide_False by (unfold INVALID_INDEX; lia). by rewrite Nat2Z.id.
    + by rewrite decide_True.
  - intros s k [Hs Hch] Hk. destruct (FCL_free_spec s ch k Hs Hch Hk) as (s' & ? & ? & _ & _ & ?).
    by exists s'.
Qed.

Lemma SQ_entry_eq s ch q i :
  hw_SQ s !! ch = Some q → SQ_entry (Z.of_nat ch) (Z.of_nat i) s = q !! i.
Proof. intros Hq. unfold SQ_entry. rewrite zget_nat, Hq. apply zget_nat. Qed.

Lemma SQ_upd_spec s ch i f :
  hwq_wf s → (ch < 4)%nat → (i < 256)%nat → (∀ e, length e = 4%nat → length (f e) = 4%nat) →
  ∃ e s', SQ_entry (Z.of_nat ch) (Z.of_nat i) s = Some e ∧ length e = 4%nat ∧
    SQ_upd (Z.of_nat ch) (Z.of_nat i) f s = Some s' ∧ hwq_wf s' ∧
    hw_sq_bitmap s' = hw_sq_bitmap s ∧
    SQ_entry (Z.of_nat ch) (Z.of_nat i) s' = Some (f e) ∧
    ∀ ch' i', (ch', i') ≠ (ch, i) →
      SQ_entry (Z.of_nat ch') (Z.of_nat i') s' = SQ_entry (Z.of_nat ch') (Z.of_nat i') s.
Proof.
  intros [H1 H2 H3 H4 H5] Hch Hi Hf.
  destruct (lookup_lt_is_Some_2 (hw_SQ s) ch) as [q Hq]; [lia|].
  pose proof (H2 ch q Hq) as Hql.
  destruct (lookup_lt_is_Some_2 q i) as [e He]; [lia|].
  assert (length (f e) = 4%nat) by eauto.
  exists e, (s <| hw_SQ := <[ch := <[i := f e]> q]> (hw_SQ s) |>).
  rewrite (SQ_entry_eq s ch q i Hq). split; [done|]. split; [by eapply H3|]. split.
  { unfold SQ_upd. rewrite zget_nat, Hq. cbn [mbind option_bind].
    rewrite zget_nat, He. cbn [mbind option_bind].
    rewrite zset_nat by lia. cbn [mbind option_bind]. by rewrite zset_nat by lia. }
  split_and!; [|done| |].
  - split; simpl; [by rewrite length_insert|..|done|done].
    + intros ch' q' Hq'. destruct (decide (ch' = ch)) as [->|].
      * rewrite list_lookup_insert_eq in Hq' by lia. injection Hq' as <-. by rewrite length_insert.
      * rewrite list_lookup_insert_ne in Hq' by done. eauto.
    + intros ch' q' i' e' Hq' He'. destruct (decide (ch' = ch)) as [->|].
      * rewrite list_lookup_insert_eq in Hq' by lia. injection Hq' as <-.
        apply list_lookup_insert_Some in He' as [(_ & <- & _)|[_ He']]; eauto.
      * rewrite list_lookup_insert_ne in Hq' by done. eauto.
  - rewrite (SQ_entry_eq _ ch (<[i := f e]> q)).
    + by rewrite list_lookup_insert_eq by lia.
    + simpl. by rewrite list_lookup_insert_eq by lia.
  - intros ch' i' Hne. destruct (decide (ch' = ch)) as [->|].
    + rewrite (SQ_entry_eq s ch q i' Hq), (SQ_entry_eq _ ch (<[i := f e]> q)).
      * by rewrite list_lookup_insert_ne by congruence.
      * simpl. by rewrite list_lookup_insert_eq by lia.
    + unfold SQ_entry. rewrite !zget_nat. simpl. by rewrite list_lookup_insert_ne.
Qed.

Lemma repeat_lookup {A} (x y : A) n i : repeat x n !! i = Some y → y = x.
Proof. intros H%list_elem_of_lookup_2%list_elem_of_In%repeat_spec. done. Qed.

Lemma init_hw_queues_wf : hwq_wf init_hw_queues.
Proof.
  assert (Forall (λ e, length e = 4%nat) init_SQ) as Hall by (by vm_compute; repeat constructor).
  split.
  - reflexivity.
  - intros ch q ->%repeat_lookup. reflexivity.
  - intros ch q i e ->%repeat_lookup He. by apply (proj1 (Forall_lookup _ _) Hall i e).
  - reflexivity.
  - intros ch bm ->%repeat_lookup. split; [reflexivity|]. by apply Forall_repeat_intro.
Qed.

Lemma init_hw_queues_free ch k : sq_used ch init_hw_queues k = false.
Proof.
  unfold sq_used, init_hw_queues. cbn [hw_sq_bitmap].
  destruct (_ !! ch) as [bm|] eqn:E; [|done]. apply repeat_lookup in E as ->.
  cbn [from_option id]. unfold bm_bit. destruct (_ !! _) as [w|] eqn:E; [|done].
  apply repeat_lookup in E as ->. apply Z.testbit_0_l.
Qed.

(** A free entry is seen by FCL_SQ_empty. *)
Lemma FCL_SQ_empty_free s ch k :
  hwq_wf s → (ch < 4)%nat → (k < 256)%nat → sq_used ch s k = false →
  FCL_SQ_empty (Z.of_nat ch) s = Some FALSE.
Proof.
  intros Hs Hch Hk Hf. destruct (hwq_bitmap s ch Hs Hch) as (bm & Hbm & Hl & _ & Hu).
  unfold FCL_SQ_empty. rewrite zget_nat, Hbm. cbn [mbind option_bind].
  pose proof (find_word_spec 0 bm ltac:(lia)) as Hw. rewrite Hl in Hw.
  destruct (find_word 0 bm); [done|]. rewrite Hu, Hw in Hf by lia. done.
Qed.
