(* ===== verification/FclReg.v ===== *)
(** * Flash-controller registers (src/fcl/fcl.c, src/config/reg.h)

    The initialisation and command routines of the flash controller, over any
    [Bus].  The two waiting loops take fuel; [SwqDevice] states the
    controller's documented handshake, under which they terminate, and the
    emulator's plain memory is shown not to satisfy it. *)
From S2P Require Import Prelude CInt Bitmap Config Bus Fcl.

Section routines.
Context {St : Type} `{!Bus St} (fcl_base : Z).
Implicit Types (ch ce : Z).

Definition ch_reg (ch off : Z) : Z := FCTL_CH_REG_BASE_ADDR fcl_base + ch * FCTL_SZ_PER_CH + off.

Definition FCL_set_hw_base_addr (ch sq_addr cq_addr : Z) : M St unit :=
  _ ← out32 (ch_reg ch 0x18) sq_addr;
  out32 (ch_reg ch 0x1C) cq_addr.

(** The register half of FCL_init_hw_queue; [init_hw_queues] is the memory half. *)
Definition FCL_init_hw_queue (mem_base : Z) : M St hw_queues :=
  _ ← for_M (Z.to_nat TOTAL_CHANNEL) O (λ i,
        FCL_set_hw_base_addr (Z.of_nat i)
          (HW_CH_SQ_ENTRY_ADDR mem_base + Z.of_nat i * SQ_ENTRY_SZ_PER_CHANNEL)
          (HW_CH_CQ_ENTRY_ADDR mem_base + Z.of_nat i * CQ_ENTRY_SZ_PER_CHANNEL));
  mret init_hw_queues.

Definition FCL_get_fifo_status ch : M St Z :=
  v ← in32 (ch_reg ch 0x24); mret (Z.land v 0x000000ff).

Definition FCL_set_fifo (index ch ce : Z) : M St unit :=
  out32 (FCTL_CH_QUEUE_BASE_ADDR fcl_base + ch * FCTL_SZ_PER_CH + 0x04 * ce) index.

(** FCL_send_SQ_entry on the board: refused while the target's FIFO is busy. *)
Definition FCL_send_SQ_entry_hw (index ch ce : Z) : M St Z :=
  reg_data ← FCL_get_fifo_status ch;
  let reg_data := Z.land reg_data 0x000000ff in
  let bit := u32 (Z.shiftl 1 ce) in
  if decide (Z.land reg_data bit = 0)
  then _ ← FCL_set_fifo index ch ce; mret SUCCESS
  else mret FAIL.

Definition FCL_set_timing : M St unit :=
  let is_bypass_ecc := 0 in
  let is_bypass_scrm := 0 in
  let data := u32 (u32 (Z.shiftl is_bypass_ecc 24) + u32 (Z.shiftl is_bypass_scrm 28) + 0x03050F) in
  for_M (Z.to_nat TOTAL_CHANNEL) O (λ ch : nat,
    out_words (ch_reg (Z.of_nat ch) 0)
      [data; 0x04080804; 0x04060404; 0x0404; 0x0000; 0x04040404]).

(** The requested word, then reads until bit 0 is clear. *)
Fixpoint exec_wait (fuel : nat) (addr read_data : Z) : M St unit :=
  match fuel with
  | O => λ _, None
  | S fuel' =>
      if decide (Z.land read_data 0x01 ≠ 0)
      then read_data ← in32 addr; exec_wait fuel' addr read_data
      else mret tt
  end.
Definition EXEC_REQ : Z := FCTL_BASE_SYS_REG fcl_base + 0x0004.
Definition FCL_swq_exec_req (fuel : nat) ch ce : M St unit :=
  let data := u32 (u32 (Z.shiftl ch 16) + u32 (Z.shiftl ce 8) + 0x1) in
  _ ← out32 EXEC_REQ data;
  read_data ← in32 EXEC_REQ;
  exec_wait fuel EXEC_REQ read_data.

Definition FCL_nand_reset (fuel : nat) ch ce : M St unit :=
  _ ← out_words (FCTL_BASE_SWQ_CMD_SRAM fcl_base) [0x180000FF; 0x880000FF];
  FCL_swq_exec_req fuel ch ce.

Definition FCL_get_rbn (fuel : nat) ch ce (is_ddr : bool) : M St Z :=
  _ ← out_words (FCTL_BASE_SWQ_CMD_SRAM fcl_base)
        [0x18000070; 0x0800000F; (if is_ddr then 0x68000000 else 0x48000000); 0x88000000];
  _ ← FCL_swq_exec_req fuel ch ce;
  data ← in32 (if is_ddr then FCTL_BASE_SWQ_DDR_SRAM fcl_base else FCTL_BASE_SWQ_SDR_SRAM fcl_base);
  mret (Z.land data 0x00FF).

(** [turns] bounds the status polls, [fuel] each execution wait. *)
Fixpoint wait_rbn_loop (turns fuel : nat) ch ce (is_ddr : bool) (data : Z) : M St unit :=
  match turns with
  | O => λ _, None
  | S turns' =>
      if decide (data ≠ 0xe0)
      then data ← FCL_get_rbn fuel ch ce is_ddr; wait_rbn_loop turns' fuel ch ce is_ddr data
      else mret tt
  end.
Definition FCL_wait_rbn (turns fuel : nat) ch ce (is_ddr : bool) : M St unit :=
  data ← FCL_get_rbn fuel ch ce is_ddr; wait_rbn_loop turns fuel ch ce is_ddr data.

Definition FCL_set_mode (mode : Z) : M St unit := out32 (FCTL_BASE_SYS_REG fcl_base) mode.
Definition FCL_reset_ch : M St unit := out32 (FCTL_BASE_SYS_REG fcl_base + 8) 0x01010101.
Definition FCL_release_ch : M St unit := out32 (FCTL_BASE_SYS_REG fcl_base + 8) 0x0.

Definition FCL_set_feature_ddr (fuel : nat) ch ce : M St unit :=
  _ ← out_words (FCTL_BASE_SWQ_CMD_SRAM fcl_base)
        [0x100000EF; 0x38000002; 0x080000FF; 0x50000006; 0x50000000; 0x50000000;
         0x58000000; 0x880000FF];
  _ ← FCL_swq_exec_req fuel ch ce;
  _ ← out_words (FCTL_BASE_SWQ_CMD_SRAM fcl_base)
        [0x100000EF; 0x38000001; 0x080000FF; 0x50000024; 0x50000000; 0x50000000;
         0x58000000; 0x880000FF];
  FCL_swq_exec_req fuel ch ce.

(** [for (ch ...) for (ce ...) f(ch, ce)] *)
Definition for_ch_ce (f : Z → Z → M St unit) : M St unit :=
  for_M (Z.to_nat TOTAL_CHANNEL) O (λ ch : nat,
    for_M (Z.to_nat (TOTAL_CE / TOTAL_CHANNEL)) O (λ ce : nat, f (Z.of_nat ch) (Z.of_nat ce))).

(** FCL_init_flash_controller on the board; the 50 ms pause is no operation. *)
Definition FCL_init_flash_controller (fuel : nat) : M St unit :=
  _ ← FCL_set_timing;
  _ ← FCL_set_mode 1;
  _ ← for_ch_ce (FCL_nand_reset fuel);
  _ ← FCL_reset_ch;
  _ ← FCL_release_ch;
  _ ← for_ch_ce (FCL_set_feature_ddr fuel);
  FCL_set_mode 0.
End routines.

(** ** Termination against a device that completes its requests *)

(** The controller's handshake: every access is answered; a request written to
    EXEC_REQ keeps bit 0 set for at most [bound] reads, then reads as done. *)
Class SwqDevice (St : Type) `{Bus St} (fcl_base : Z) (bound : nat) := {
  busy : St → nat;
  dev_out a v s : ∃ s', Xil_Out32 a v s = Some (tt, s');
  dev_in a s : ∃ v s', Xil_In32 a s = Some (v, s');
  dev_exec v s s' : Xil_Out32 (u32 (EXEC_REQ fcl_base)) v s = Some (tt, s') → (busy s' ≤ bound)%nat;
  dev_poll v s s' : Xil_In32 (u32 (EXEC_REQ fcl_base)) s = Some (v, s') →
    (busy s = O → Z.land v 1 = 0) ∧ busy s' = pred (busy s);
}.

(** A computation that always returns. *)
Definition total {St A} (m : M St A) : Prop := ∀ s, ∃ r, m s = Some r.

Lemma total_ret {St A} (x : A) : total (mret x : M St A).
Proof. intros s. eexists. done. Qed.
Lemma total_bind {St A B} (m : M St A) (k : A → M St B) :
  total m → (∀ x, total (k x)) → total (x ← m; k x).
Proof.
  intros Hm Hk s. destruct (Hm s) as [[x s'] E]. destruct (Hk x s') as [r E'].
  exists r. unfold mbind, M_bind. by rewrite E.
Qed.
Lemma total_for {St} n i (m : nat → M St unit) : (∀ j, total (m j)) → total (for_M n i m).
Proof.
  intros Hm. revert i. induction n as [|n IH]; intros i; simpl; [apply total_ret|].
  apply total_bind; [done|]. intros _. apply IH.
Qed.

Create HintDb total.
#[export] Hint Resolve total_ret total_bind total_for : total.

Section device.
Context {St : Type} `{!Bus St} (fcl_base : Z) (bound : nat) `{!SwqDevice St fcl_base bound}.

Lemma total_out a v : total (out32 a v : M St unit).
Proof. intros s. destruct (dev_out (u32 a) (u32 v) s) as [s' ?]. eauto. Qed.
Lemma total_in a : total (in32 a : M St Z).
Proof. intros s. destruct (dev_in (u32 a) s) as (v & s' & ?). eauto. Qed.
#[local] Hint Resolve total_out total_in : total.

Lemma total_out_words a vs : total (out_words a vs : M St unit).
Proof. revert a. induction vs; intros a0; simpl; auto with total. Qed.
#[local] Hint Resolve total_out_words : total.

Lemma exec_wait_total fuel v s :
  (busy s + 2 ≤ fuel)%nat ∨ Z.land v 1 = 0 ∧ (1 ≤ fuel)%nat →
  ∃ r, exec_wait fuel (EXEC_REQ fcl_base) v s = Some r.
Proof.
  revert v s. induction fuel as [|fuel IH]; intros v s Hf; [lia|]. simpl.
  case_decide as Hv; [|by apply total_ret].
  destruct (total_in (EXEC_REQ fcl_base) s) as [[v' s'] E].
  destruct (dev_poll v' s s' E) as [Hd Hb].
  unfold mbind, M_bind. rewrite E. simpl. apply IH.
  destruct (busy s) as [|n] eqn:En; simpl in Hb; [right|left]; lia.
Qed.

Lemma exec_req_total fuel ch ce :
  (bound + 3 ≤ fuel)%nat → total (FCL_swq_exec_req fcl_base fuel ch ce : M St unit).
Proof.
  intros Hf s. unfold FCL_swq_exec_req, mbind, M_bind.
  destruct (total_out (EXEC_REQ fcl_base)
    (u32 (u32 (Z.shiftl ch 16) + u32 (Z.shiftl ce 8) + 0x1)) s) as [[[] s1] E1].
  rewrite E1. simpl. pose proof (dev_exec _ _ _ E1) as Hb.
  destruct (total_in (EXEC_REQ fcl_base) s1) as [[v s2] E2]. rewrite E2. simpl.
  apply exec_wait_total. destruct (dev_poll v s1 s2 E2) as [_ Hb2]. lia.
Qed.
#[local] Hint Resolve exec_req_total : total.

(** FCL_init_flash_controller returns on a controller that completes each request
    within [bound] polls: [bound + 3] turns are enough for every wait. *)
Theorem init_flash_controller_total fuel :
  (bound + 3 ≤ fuel)%nat → total (FCL_init_flash_controller fcl_base fuel : M St unit).
Proof.
  intros Hf. unfold FCL_init_flash_controller, FCL_set_timing, FCL_set_mode, FCL_reset_ch,
    FCL_release_ch, for_ch_ce, FCL_nand_reset, FCL_set_feature_ddr.
  repeat first [apply total_ret|apply total_out|apply total_out_words|by apply exec_req_total
    |apply total_bind; [|intros ?]|apply total_for; intros ?].
Qed.
End device.

(** A controller that finishes every request after two polls. *)
Record demo_device := DemoDevice { demo_busy : nat; demo_log : list (Z * Z) }.
Definition demo_bus (fcl_base : Z) : Bus demo_device := {|
  Xil_Out32 a v d := Some (tt, DemoDevice
    (if decide (a = u32 (EXEC_REQ fcl_base)) then 2%nat else demo_busy d)
    (demo_log d ++ [(a, v)]));
  Xil_In32 a d :=
    if decide (a = u32 (EXEC_REQ fcl_base))
    then Some (c_bool (bool_decide (demo_busy d ≠ O)), DemoDevice (pred (demo_busy d)) (demo_log d))
    else Some (0, d);
|}.
Definition demo_swq (fcl_base : Z) : @SwqDevice demo_device (demo_bus fcl_base) fcl_base 2.
Proof.
  refine (@Build_SwqDevice demo_device (demo_bus fcl_base) fcl_base 2 demo_busy _ _ _ _); simpl.
  - intros. eexists. done.
  - intros a s. case_decide; eauto.
  - intros v s s' [= <-]. simpl. rewrite decide_True by done. lia.
  - intros v s s'. rewrite decide_True by done. intros [= <- <-]. split; [|done].
    intros ->. done.
Defined.

(** ** Against plain memory: the emulator's bus *)
Section memory.
Context (fcl_base : Z) (r : ram) (Hr : fcl_window fcl_base r).

(** Memory keeps the request bit: the wait never ends. *)
Lemma exec_wait_stuck fuel v r' :
  ram_ok r' (u32 (EXEC_REQ fcl_base)) → ram_get r' (u32 (EXEC_REQ fcl_base)) = v →
  Z.land v 1 ≠ 0 → exec_wait fuel (EXEC_REQ fcl_base) v r' = None.
Proof.
  intros Hok Hg Hv. induction fuel as [|fuel IH]; simpl; [done|]. rewrite decide_True by done.
  unfold mbind, M_bind. rewrite ram_in by done. rewrite Hg. exact IH.
Qed.

Lemma swq_exec_req_ram fuel ch ce :
  0 ≤ ch < 4 → 0 ≤ ce < 8 → FCL_swq_exec_req fcl_base fuel ch ce r = None.
Proof.
  intros Hch Hce. unfold FCL_swq_exec_req.
  assert (ram_ok r (u32 (EXEC_REQ fcl_base))) as Hok.
  { destruct Hr as (Hlo & Hlen & Hal & Hb & Hb').
    destruct (fcl_window_ok fcl_base r 4 Hr) as [Hok _]; [by vm_compute..|].
    replace (EXEC_REQ fcl_base) with (fcl_base + 4)
      by (unfold EXEC_REQ, FCTL_BASE_SYS_REG, FCTL_BASE_ADDR; lia). done. }
  erewrite bind_run by by apply ram_out. set (r1 := Ram _ _ _).
  assert (ram_ok r1 (u32 (EXEC_REQ fcl_base))) as Hok1 by exact Hok.
  erewrite bind_run by by apply ram_in. apply exec_wait_stuck; [done|done|].
  unfold ram_get. subst r1. simpl. rewrite lookup_insert_eq. simpl.
  rewrite !Z.shiftl_mul_pow2 by lia. change (2 ^ 16) with 65536. change (2 ^ 8) with 256.
  rewrite (u32_small (ch * 65536)), (u32_small (ce * 256)) by lia.
  rewrite (u32_small (u32 _)) by (rewrite u32_small; lia). rewrite u32_small by lia.
  change 1 with (Z.ones 1) at 2. rewrite Z.land_ones by lia. change (2 ^ 1) with 2. dlia.
Qed.

(** Offsets of the registers from [fcl_base]. *)
Definition fifo_off (ch ce : Z) : Z := 0x00900000 + ch * (2 * MB) + 4 * ce.
Definition reg_off (ch off : Z) : Z := 0x00800000 + ch * (2 * MB) + off.

Lemma fifo_addr ch ce :
  FCTL_CH_QUEUE_BASE_ADDR fcl_base + ch * FCTL_SZ_PER_CH + 0x04 * ce = fcl_base + fifo_off ch ce.
Proof.
  unfold FCTL_CH_QUEUE_BASE_ADDR, FCTL_BASE_ADDR, fifo_off.
  change FCTL_SZ_PER_CH with (2 * MB). lia.
Qed.
Lemma reg_addr ch off : ch_reg fcl_base ch off = fcl_base + reg_off ch off.
Proof.
  unfold ch_reg, FCTL_CH_REG_BASE_ADDR, FCTL_BASE_ADDR, reg_off.
  change FCTL_SZ_PER_CH with (2 * MB). lia.
Qed.

Lemma fifo_ok ch ce :
  0 ≤ ch < 4 → 0 ≤ ce < 8 →
  ram_ok r (u32 (fcl_base + fifo_off ch ce)) ∧
  u32 (fcl_base + fifo_off ch ce) = fcl_base + fifo_off ch ce.
Proof.
  intros. apply fcl_window_ok; [done|..]; unfold fifo_off; change MB with 1048576; dlia.
Qed.
Lemma reg_ok ch off :
  0 ≤ ch < 4 → 0 ≤ off < 0x100000 → off mod 4 = 0 →
  ram_ok r (u32 (fcl_base + reg_off ch off)) ∧
  u32 (fcl_base + reg_off ch off) = fcl_base + reg_off ch off.
Proof.
  intros. apply fcl_window_ok; [done|..]; unfold reg_off; change MB with 1048576; dlia.
Qed.

(** The FIFO registers of different targets are different words. *)
Lemma fifo_off_inj ch ce ch' ce' :
  0 ≤ ce < 8 → 0 ≤ ce' < 8 → fifo_off ch ce = fifo_off ch' ce' → ch = ch' ∧ ce = ce'.
Proof. unfold fifo_off. change MB with 1048576. lia. Qed.

(** FCL_send_SQ_entry on the board: with the target's busy bit set it writes
    nothing and fails; otherwise the index reaches the target's FIFO register
    and no other word changes. *)
Theorem FCL_send_SQ_entry_hw_spec index ch ce :
  0 ≤ ch < 4 → 0 ≤ ce < 8 → 0 ≤ index < 256 →
  let status := ram_get r (fcl_base + reg_off ch 0x24) in
  if Z.testbit status ce
  then FCL_send_SQ_entry_hw fcl_base index ch ce r = Some (FAIL, r)
  else ∃ r', FCL_send_SQ_entry_hw fcl_base index ch ce r = Some (SUCCESS, r') ∧
    ram_get r' (fcl_base + fifo_off ch ce) = index ∧
    ∀ a, a ≠ fcl_base + fifo_off ch ce → ram_get r' a = ram_get r a.
Proof.
  intros Hch Hce Hi status. unfold FCL_send_SQ_entry_hw, FCL_get_fifo_status.
  destruct (reg_ok ch 0x24 Hch) as [Hok Ha]; [lia|done|].
  destruct (fifo_ok ch ce Hch Hce) as [Hokf Haf].
  rewrite reg_addr. erewrite bind_run by (by erewrite bind_run by by apply ram_in).
  rewrite Ha. fold status. change 255 with (Z.ones 8).
  assert (Z.land (Z.land status (Z.ones 8)) (Z.ones 8) = Z.land status (Z.ones 8)) as ->
    by by rewrite <- Z.land_assoc, Z.land_diag.
  rewrite u32_shiftl_1 by lia.
  assert (Z.land (Z.land status (Z.ones 8)) (2 ^ ce) = 0 ↔ Z.testbit status ce = false) as Hbit.
  { split.
    - intros E. apply (f_equal (λ x, Z.testbit x ce)) in E.
      rewrite !Z.land_spec, testbit_ones, bool_decide_true, Z.pow2_bits_true, Z.testbit_0_l,
        !andb_true_r in E by lia. done.
    - intros E. apply Z.bits_inj'. intros i ?. rewrite !Z.land_spec, Z.testbit_0_l.
      destruct (decide (i = ce)) as [->|]; [by rewrite E|].
      rewrite Z.pow2_bits_false by lia. by rewrite andb_false_r. }
  destruct (Z.testbit status ce).
  - rewrite decide_False; [done|]. rewrite Hbit. done.
  - rewrite decide_True by by apply Hbit. unfold FCL_set_fifo. rewrite fifo_addr.
    erewrite bind_run by by apply ram_out. eexists. split; [done|]. rewrite Haf. unfold ram_get. simpl.
    rewrite (u32_small index) by lia. split; [by rewrite lookup_insert_eq|].
    intros a ?. by rewrite lookup_insert_ne.
Qed.
End memory.

(** Channel 2, target 3, entry 77 on an idle controller. *)
Lemma FCL_send_SQ_entry_hw_spec_witness :
  let r := Ram 0x10000000 (16 * MB) ∅ in
  ∃ r', FCL_send_SQ_entry_hw 0x10000000 77 2 3 r = Some (SUCCESS, r') ∧
    ram_get r' (0x10000000 + fifo_off 2 3) = 77 ∧
    ∀ a, a ≠ 0x10000000 + fifo_off 2 3 → ram_get r' a = ram_get r a.
Proof.
  intros r. refine (FCL_send_SQ_entry_hw_spec 0x10000000 r _ 77 2 3 _ _ _); [|lia|lia|lia].
  unfold fcl_window. split; [reflexivity|]. split; [reflexivity|]. split; [reflexivity|].
  split; vm_compute; congruence.
Defined.

(** A controller that needs two polls per request finishes within five reads each. *)
Lemma init_flash_controller_total_witness :
  @total demo_device unit (@FCL_init_flash_controller demo_device (demo_bus 0x10000000) 0x10000000 5).
Proof.
  apply (@init_flash_controller_total demo_device (demo_bus 0x10000000) 0x10000000 2 (demo_swq 0x10000000)). lia.
Defined.
