(* ===== verification/L2P.v ===== *)
(** * Logical-to-physical mapping (src/l2p/l2p.c, src/l2p/l2p.h)

    The static mapping of a logical page to channel, chip, plane, block and
    page, by the code's counting loops, and its closed form; the object
    variant; and the erase loop.  A nest of [for] loops is the list of the
    index tuples it visits, in order. *)
From S2P Require Import Prelude CInt Config Hcl Fcl.

(** ** The loops *)
Fixpoint count_from (i : Z) (n : nat) : list Z :=
  match n with O => [] | S n' => i :: count_from (i + 1) n' end.
Definition upto (n : Z) : list Z := count_from 0 (Z.to_nat n).

(** [normal_ch[ch] == 1] *)
Definition ch_normal (ch : Z) : bool := bool_decide (zget NORMAL_CHANNEL ch = Some 1).

(** [for (plane...) for (ce...) for (ch...)] *)
Definition targets : list (Z * Z * Z) :=
  plane ← upto PLANE_PER_CE; ce ← upto CE_PER_CH; ch ← upto TOTAL_CHANNEL; [(plane, ce, ch)].

(** The body both functions share: count the normal channels' targets until
    [circle_num] reaches the wanted number. *)
Fixpoint scan {A} (normal : A → bool) (l : list A) (circle_num want : Z) : option A :=
  match l with
  | [] => None
  | x :: l' =>
      if normal x then
        if decide (circle_num = want) then Some x
        else scan normal l' (u32 (circle_num + 1)) want
      else scan normal l' circle_num want
  end.

Definition L2P_init {S} (s : S) : S := s.

Definition set_slc (ch ce block plane page : Z) (ppa : phy_page_addr) : phy_page_addr :=
  let ppa := ppa <| ppa_ch := u16 ch |> in
  let ppa := ppa <| ppa_ce := u16 ce |> in
  let ppa := addr_set slc_block block ppa in
  let ppa := addr_set slc_lun 0 ppa in
  let ppa := addr_set slc_plane plane ppa in
  addr_set slc_page page ppa.

Definition L2P_calc_ppa (lpn : Z) (ppa : phy_page_addr) : phy_page_addr :=
  let valid_ch_num := Z.of_nat (length (filter (λ n, n = 1) NORMAL_CHANNEL)) in
  let per_row := valid_ch_num * CE_PER_CH * PLANE_PER_LUN * PAGE_PER_BLOCK_SLC_MODE in
  let per_page := valid_ch_num * CE_PER_CH * PLANE_PER_LUN in
  let row := lpn / per_row in
  let row_offset := lpn mod per_row in
  let page := row_offset / per_page in
  let page_offset := row_offset mod per_page in
  match scan (λ t, ch_normal t.2) targets 0 page_offset with
  | Some (plane, ce, ch) => set_slc ch ce row plane page ppa
  | None => ppa
  end.

Definition obj_targets : list (Z * (Z * Z * Z)) :=
  page ← upto PAGE_PER_BLOCK_SLC_MODE; t ← targets; [(page, t)].

Definition L2P_calc_obj_ppa (obj_id obj_offset : Z) (ppa : phy_page_addr) : phy_page_addr :=
  match scan (λ t, ch_normal t.2.2) obj_targets 0 obj_offset with
  | Some (page, (plane, ce, ch)) => set_slc ch ce obj_id plane page ppa
  | None => ppa
  end.

(** What L2P_print_ppa prints, in order. *)
Definition L2P_print_ppa (ppa : phy_page_addr) : list Z :=
  [ppa_ch ppa; ppa_ce ppa; bf_get slc_lun (nand_flash_addr ppa);
   bf_get slc_plane (nand_flash_addr ppa); bf_get slc_block (nand_flash_addr ppa);
   bf_get slc_page (nand_flash_addr ppa)].

(** ** The erase loop

    [get_free] is FCL_get_free_SQ_entry and [send] FCL_send_SQ_entry of the
    configuration; [sq_id] and [ret] live across the whole nest, and each
    waiting loop takes fuel. *)
Section erase.
Context {St : Type} (get_free : Z → M St Z) (send : Z → Z → Z → M St Z).

Fixpoint wait_sq (fuel : nat) (sq_id : Z) : M St Z :=
  match fuel with
  | O => λ _, None
  | S fuel' =>
      if decide (sq_id = INVALID_INDEX) then sq_id ← get_free 0; wait_sq fuel' sq_id
      else mret sq_id
  end.
Fixpoint wait_send (fuel : nat) (sq_id ch ce ret : Z) : M St Z :=
  match fuel with
  | O => λ _, None
  | S fuel' =>
      if decide (ret = FAIL) then ret ← send sq_id ch ce; wait_send fuel' sq_id ch ce ret
      else mret ret
  end.

(** One turn: the lun, plane and block only reach a local address. *)
Definition erase_turn (fuel : nat) (t : Z * Z) (locals : Z * Z) : M St (Z * Z) :=
  let '(ce, ch) := t in
  let '(sq_id, ret) := locals in
  sq_id ← wait_sq fuel sq_id;
  ret ← wait_send fuel sq_id ch ce ret;
  mret (sq_id, ret).

Fixpoint erase_loop (fuel : nat) (ts : list (Z * Z)) (locals : Z * Z) : M St (Z * Z) :=
  match ts with
  | [] => mret locals
  | t :: ts' => locals ← erase_turn fuel t locals; erase_loop fuel ts' locals
  end.

Definition erase_targets : list (Z * Z) :=
  _ ← upto BLOCK_PER_PLANE; _ ← upto LUN_PER_CE; _ ← upto PLANE_PER_LUN;
  ce ← upto CE_PER_CH; ch ← upto CH_PER_BOARD; [(ce, ch)].

Definition FTL_erase_init (fuel : nat) : M St unit :=
  _ ← erase_loop fuel erase_targets (INVALID_INDEX, FAIL); mret tt.
End erase.

(** ** Closed form of the mapping *)
Lemma scan_lookup {A} (normal : A → bool) (l : list A) c want :
  (∀ x, x ∈ l → normal x = true) → 0 ≤ c ≤ want → want < c + Z.of_nat (length l) →
  want < 2 ^ 32 → scan normal l c want = l !! Z.to_nat (want - c).
Proof.
  change (2 ^ 32) with 4294967296. revert c.
  induction l as [|x l IH]; intros c Hn Hc Hw H32; simpl in *; [lia|].
  rewrite Hn by (by left). case_decide as E.
  - subst. by rewrite Z.sub_diag.
  - rewrite u32_small by lia. rewrite IH; [|by intros; apply Hn; right|lia..].
    replace (Z.to_nat (want - c)) with (S (Z.to_nat (want - (c + 1)))) by lia. done.
Qed.

Lemma scan_none {A} (normal : A → bool) (l : list A) c want :
  (∀ x, x ∈ l → normal x = true) → 0 ≤ c → c + Z.of_nat (length l) ≤ want →
  c + Z.of_nat (length l) < 2 ^ 32 → scan normal l c want = None.
Proof.
  change (2 ^ 32) with 4294967296. revert c.
  induction l as [|x l IH]; intros c Hn Hc Hw H32; simpl in *; [done|].
  rewrite Hn by (by left). rewrite decide_False by lia. rewrite u32_small by lia.
  apply IH; [by intros; apply Hn; right|lia..].
Qed.

Definition target_of (n : Z) : Z * Z * Z := (n / 32, (n / 4) mod 8, n mod 4).

Lemma count_from_lookup a n i : (i < n)%nat → count_from a n !! i = Some (a + Z.of_nat i).
Proof.
  revert a i. induction n as [|n IH]; intros a [|i] Hi; simpl; try lia; [f_equal; lia|].
  rewrite IH by lia. f_equal. lia.
Qed.
Lemma count_from_length a n : length (count_from a n) = n.
Proof. revert a. induction n; intros a; simpl; auto. Qed.

Lemma upto_lookup (n : Z) (i : nat) : Z.of_nat i < n → upto n !! i = Some (Z.of_nat i).
Proof. intros. unfold upto. by rewrite count_from_lookup by lia. Qed.
Lemma upto_length n : 0 ≤ n → Z.of_nat (length (upto n)) = n.
Proof. intros. unfold upto. rewrite count_from_length. lia. Qed.

Lemma targets_eq : targets = target_of <$> upto 64.
Proof. by vm_compute. Qed.

Lemma targets_lookup n : (n < 64)%nat → targets !! n = Some (target_of (Z.of_nat n)).
Proof. intros Hn. by rewrite targets_eq, list_lookup_fmap, upto_lookup by lia. Qed.

Lemma targets_normal t : t ∈ targets → ch_normal t.2 = true.
Proof.
  assert (forallb (λ t, ch_normal t.2) targets = true) as Hall by by vm_compute.
  rewrite forallb_forall in Hall. intros Ht. by apply Hall, list_elem_of_In.
Qed.

(** The address of a page: channel, chip, plane, page and block from the
    lowest digit of the page number up. *)
Lemma L2P_calc_ppa_closed lpn ppa :
  0 ≤ lpn →
  L2P_calc_ppa lpn ppa =
    set_slc (lpn mod 4) (lpn / 4 mod 8) (lpn / 24576) (lpn / 32 mod 2) (lpn / 64 mod 384) ppa.
Proof.
  intros Hl. unfold L2P_calc_ppa.
  change (Z.of_nat (length (filter (λ n, n = 1) NORMAL_CHANNEL))) with 4.
  change (4 * CE_PER_CH * PLANE_PER_LUN * PAGE_PER_BLOCK_SLC_MODE) with 24576.
  change (4 * CE_PER_CH * PLANE_PER_LUN) with 64.
  assert (0 ≤ (lpn mod 24576) mod 64 < 64) by dlia.
  rewrite scan_lookup; [|intros; by apply targets_normal|lia| |lia].
  - rewrite Z.sub_0_r, targets_lookup by lia. unfold target_of. rewrite Z2Nat.id by lia.
    assert ((lpn mod 24576) mod 64 mod 4 = lpn mod 4) as -> by dlia.
    assert ((lpn mod 24576) mod 64 / 4 mod 8 = lpn / 4 mod 8) as -> by dlia.
    assert ((lpn mod 24576) mod 64 / 32 = lpn / 32 mod 2) as -> by dlia.
    by assert (lpn mod 24576 / 64 = lpn / 64 mod 384) as -> by dlia.
  - change (length targets) with 64%nat. lia.
Qed.

(** The fields of an address written by [set_slc]. *)
Section slc.
Context (ch ce block plane page : Z) (ppa : phy_page_addr).
Context (Hlen : length (nand_flash_addr ppa) = 2%nat).
Abbreviation p := (set_slc ch ce block plane page ppa).

Lemma set_slc_fields :
  ppa_ch p = u16 ch ∧ ppa_ce p = u16 ce ∧
  bf_get slc_block (nand_flash_addr p) = wrap 10 block ∧
  bf_get slc_plane (nand_flash_addr p) = wrap 1 plane ∧
  bf_get slc_page (nand_flash_addr p) = wrap 9 page ∧
  bf_get slc_lun (nand_flash_addr p) = 0 ∧ length (nand_flash_addr p) = 2%nat.
Proof.
  unfold set_slc, addr_set. simpl. split_and!; try done; bf_read Hlen; try reflexivity.
  by rewrite !bf_set_length.
Qed.
End slc.

(** The physical page an address denotes. *)
Definition phys (p : phy_page_addr) : Z * Z * Z * Z * Z * Z :=
  let a := nand_flash_addr p in
  (ppa_ch p, ppa_ce p, bf_get slc_lun a, bf_get slc_plane a, bf_get slc_block a, bf_get slc_page a).

Lemma L2P_calc_ppa_phys lpn ppa :
  0 ≤ lpn < TOTAL_PAGE → length (nand_flash_addr ppa) = 2%nat →
  phys (L2P_calc_ppa lpn ppa) =
    (lpn mod 4, lpn / 4 mod 8, 0, lpn / 32 mod 2, lpn / 24576, lpn / 64 mod 384).
Proof.
  change TOTAL_PAGE with 24723456. intros Hl Hlen. rewrite L2P_calc_ppa_closed by lia.
  destruct (set_slc_fields (lpn mod 4) (lpn / 4 mod 8) (lpn / 24576) (lpn / 32 mod 2)
    (lpn / 64 mod 384) ppa Hlen) as (E1 & E2 & E3 & E4 & E5 & E6 & _).
  unfold phys. rewrite E1, E2, E3, E4, E5, E6.
  rewrite !u16_small by dlia. rewrite !wrap_small; [done|unfold is_u; dlia..].
Qed.

Lemma ppa_digits lpn : 0 ≤ lpn →
  lpn = lpn mod 4 + 4 * (lpn / 4 mod 8) + 32 * (lpn / 32 mod 2) + 64 * (lpn / 64 mod 384)
        + 24576 * (lpn / 24576).
Proof. intros. dlia. Qed.

(** Distinct logical pages of the device have distinct physical pages, each
    inside the flash geometry, whatever the address record held before. *)
Theorem L2P_calc_ppa_injective lpn lpn' ppa ppa' :
  0 ≤ lpn < TOTAL_PAGE → 0 ≤ lpn' < TOTAL_PAGE →
  length (nand_flash_addr ppa) = 2%nat → length (nand_flash_addr ppa') = 2%nat →
  (phys (L2P_calc_ppa lpn ppa) = phys (L2P_calc_ppa lpn' ppa') → lpn = lpn') ∧
  let '(ch, ce, lun, plane, block, page) := phys (L2P_calc_ppa lpn ppa) in
  0 ≤ ch < CH_PER_BOARD ∧ 0 ≤ ce < CE_PER_CH ∧ 0 ≤ lun < LUN_PER_CE ∧
  0 ≤ plane < PLANE_PER_LUN ∧ 0 ≤ block < BLOCK_PER_PLANE ∧ 0 ≤ page < PAGE_PER_BLOCK_SLC_MODE.
Proof.
  intros Hl Hl' Hp Hp'. rewrite !L2P_calc_ppa_phys by done. change TOTAL_PAGE with 24723456 in *.
  split.
  - intros [= E1 E2 E3 E4 E5]. rewrite (ppa_digits lpn), (ppa_digits lpn') by lia. congruence.
  - unfold CH_PER_BOARD, CE_PER_CH, LUN_PER_CE, PLANE_PER_LUN, BLOCK_PER_PLANE,
      PAGE_PER_BLOCK_SLC_MODE. split_and!; dlia.
Qed.

(** ** The object variant *)
Lemma obj_targets_eq :
  obj_targets = (λ n, (n / 64, target_of (n mod 64))) <$> upto 24576.
Proof.
  assert (bool_decide (obj_targets = (λ n, (n / 64, target_of (n mod 64))) <$> upto 24576) = true)
    as H by (vm_compute; reflexivity).
  by apply bool_decide_eq_true_1 in H.
Qed.

Lemma obj_targets_normal t : t ∈ obj_targets → ch_normal t.2.2 = true.
Proof.
  unfold obj_targets. intros (page & Ht & _)%list_elem_of_bind.
  apply list_elem_of_bind in Ht as (t' & Ht & Hin). apply list_elem_of_singleton in Ht as ->.
  by apply targets_normal.
Qed.

Lemma row_digits r off : 0 ≤ off < 24576 →
  let n := r * 24576 + off in
  n mod 4 = off mod 64 mod 4 ∧ n / 4 mod 8 = (off mod 64) / 4 mod 8 ∧ n / 24576 = r ∧
  n / 32 mod 2 = (off mod 64) / 32 ∧ n / 64 mod 384 = off / 64.
Proof.
  intros Ho n.
  assert (n = off + r * 6144 * 4 ∧ n = off + r * 768 * 32 ∧ n = off + r * 384 * 64 ∧
    n = off + r * 24576) as (E4 & E32 & E64 & E) by lia. split_and!.
  - rewrite E4, Z_mod_plus_full. clear. dlia.
  - rewrite E4, Z_div_plus_full by lia. replace (r * 6144) with (r * 768 * 8) by lia.
    rewrite Z_mod_plus_full. clear. dlia.
  - rewrite E, Z_div_plus_full by lia. clear - Ho. dlia.
  - rewrite E32, Z_div_plus_full by lia. replace (r * 768) with (r * 384 * 2) by lia.
    rewrite Z_mod_plus_full. clear. dlia.
  - rewrite E64, Z_div_plus_full, Z_mod_plus_full by lia. clear - Ho. dlia.
Qed.

(** The mapping of an object's page is the mapping of the flat page number
    with one object per row of blocks; offsets past the object change nothing. *)
Theorem L2P_calc_obj_ppa_flat obj_id off ppa :
  0 ≤ obj_id → 0 ≤ off < 2 ^ 32 →
  L2P_calc_obj_ppa obj_id off ppa =
    if decide (off < PAGE_PER_ROW) then L2P_calc_ppa (obj_id * PAGE_PER_ROW + off) ppa else ppa.
Proof.
  change PAGE_PER_ROW with 24576. intros Hid Hoff. unfold L2P_calc_obj_ppa.
  assert (Z.of_nat (length obj_targets) = 24576) as Hlen.
  { rewrite obj_targets_eq, length_fmap. by apply upto_length. }
  change (2 ^ 32) with 4294967296 in *. case_decide.
  - rewrite scan_lookup; [|intros; by apply obj_targets_normal|lia|rewrite Hlen; lia|lia].
    rewrite obj_targets_eq, list_lookup_fmap, upto_lookup by lia. simpl.
    unfold target_of. rewrite Z2Nat.id, Z.sub_0_r by lia.
    rewrite L2P_calc_ppa_closed by lia.
    destruct (row_digits obj_id off) as (-> & -> & -> & -> & ->); [lia|done].
  - rewrite scan_none; [done|intros; by apply obj_targets_normal|lia|rewrite Hlen; lia..].
Qed.

(** ** What the erase loop sends *)
Section erase_spec.
Context {St : Type} (get_free : Z → M St Z) (send : Z → Z → Z → M St Z).

(** Once an entry was found and sent, no turn does anything. *)
Lemma erase_loop_idle fuel ts sq ret s :
  sq ≠ INVALID_INDEX → ret ≠ FAIL → (0 < fuel)%nat →
  erase_loop get_free send fuel ts (sq, ret) s = Some ((sq, ret), s).
Proof.
  intros Hsq Hret Hf. destruct fuel as [|fuel]; [lia|].
  induction ts as [|[ce ch] ts IH]; [done|]. cbn [erase_loop].
  rewrite (bind_run _ _ s (sq, ret) s); [exact IH|]. unfold erase_turn.
  rewrite (bind_run _ _ s sq s).
  - rewrite (bind_run _ _ s ret s); [done|]. cbn [wait_send]. by rewrite decide_False.
  - cbn [wait_sq]. by rewrite decide_False.
Qed.

(** The nest visits 1006 blocks of 64 planes, but only the first turn sends:
    neither [sq_id] nor [ret] is reset afterwards. *)
Theorem FTL_erase_init_sends_once fuel s s1 s2 sq :
  (2 ≤ fuel)%nat → get_free 0 s = Some (sq, s1) → sq ≠ INVALID_INDEX →
  send sq 0 0 s1 = Some (SUCCESS, s2) →
  Z.of_nat (length erase_targets) = BLOCK_PER_PLANE * 64 ∧
  FTL_erase_init get_free send fuel s = Some (tt, s2).
Proof.
  intros Hf Hg Hsq Hs. destruct fuel as [|[|fuel]]; [lia..|].
  split; [by vm_compute|]. unfold FTL_erase_init.
  rewrite (bind_run _ _ s (sq, SUCCESS) s2); [done|].
  remember (tail erase_targets) as ts eqn:E.
  assert (erase_targets = (0, 0) :: ts) as -> by (rewrite E; reflexivity).
  cbn [erase_loop]. rewrite (bind_run _ _ s (sq, SUCCESS) s2);
    [by apply erase_loop_idle; [done|done|lia]|].
  unfold erase_turn. rewrite (bind_run _ _ s sq s1).
  - rewrite (bind_run _ _ s1 SUCCESS s2); [done|]. cbn [wait_send].
    rewrite decide_True by done. rewrite (bind_run _ _ _ _ _ Hs). by rewrite decide_False.
  - cbn [wait_sq]. rewrite decide_True by done. rewrite (bind_run _ _ _ _ _ Hg).
    by rewrite decide_False.
Qed.
End erase_spec.

(** The first page, and the last page of the device through a used record. *)
Lemma L2P_calc_ppa_injective_witness :
  let p := PhyPageAddr 0 0 [0; 0] in
  let p' := PhyPageAddr 3 7 [0xffffffff; 0xffffffff] in
  (phys (L2P_calc_ppa 0 p) = phys (L2P_calc_ppa (TOTAL_PAGE - 1) p') → 0 = TOTAL_PAGE - 1) ∧
  let '(ch, ce, lun, plane, block, page) := phys (L2P_calc_ppa 0 p) in
  0 ≤ ch < CH_PER_BOARD ∧ 0 ≤ ce < CE_PER_CH ∧ 0 ≤ lun < LUN_PER_CE ∧
  0 ≤ plane < PLANE_PER_LUN ∧ 0 ≤ block < BLOCK_PER_PLANE ∧ 0 ≤ page < PAGE_PER_BLOCK_SLC_MODE.
Proof.
  intros p p'. apply (L2P_calc_ppa_injective 0 (TOTAL_PAGE - 1) p p');
    first [reflexivity|split; vm_compute; congruence].
Defined.

Lemma L2P_calc_obj_ppa_flat_witness :
  L2P_calc_obj_ppa 3 100 (PhyPageAddr 0 0 [0; 0]) =
    if decide (100 < PAGE_PER_ROW) then L2P_calc_ppa (3 * PAGE_PER_ROW + 100) (PhyPageAddr 0 0 [0; 0])
    else PhyPageAddr 0 0 [0; 0].
Proof. apply (L2P_calc_obj_ppa_flat 3 100); lia. Defined.
