(* ===== verification/Backend.v ===== *)
(** * Back end (src/emu/be/be.c, src/emu/be/be.h)

    The two lists the FTL thread and the back-end thread share under one mutex,
    with the malloc'ed [EMU_sq] nodes they carry, and the work done for an
    entry: decoding the address the FTL encoded and reading or writing the
    flash log.  Each critical section is one operation; [be_rep] relates the
    lists to sequences of nodes, each node registered, held by the back end or
    complete. *)
From S2P Require Import Prelude CInt Config ListHeap FlashLog Buffer Hcl Fcl L2P.

Record EMU_sq := EmuSq { es_ch : Z; es_ce : Z; es_index : Z; es_entry : hw_queue_entry }.

(** The list heads and the [node] field of the [k]-th allocation. *)
Inductive be_ptr := register_list | complete_list | sq_node (k : nat).
#[export] Instance be_ptr_eq_dec : EqDecision be_ptr.
Proof. solve_decision. Defined.
#[export] Instance be_ptr_countable : Countable be_ptr.
Proof.
  refine (inj_countable' (λ p, match p with register_list => 0 | complete_list => 1
      | sq_node k => S (S k) end)%nat
    (λ n, match n with O => register_list | S O => complete_list | S (S k) => sq_node k end) _).
  by intros [].
Defined.

Record backend := Backend {
  be_nodes : gmap be_ptr (list_node be_ptr);
  be_sqs : gmap nat EMU_sq;
  be_fresh : nat;
}.
#[export] Instance backend_eta : Settable backend :=
  λ r, Backend (be_nodes r) (be_sqs r) (be_fresh r).

(** The static initialisers of the two heads. *)
Definition be_init : backend :=
  Backend (<[register_list := Node (Some register_list) (Some register_list)]>
           (<[complete_list := Node (Some complete_list) (Some complete_list)]> ∅)) ∅ 0.

(** ** The critical sections *)

(** BE_send_sq: copy the entry into a new node and append it to
    [register_list]. *)
Definition BE_send_sq (sq_index : Z) (sq_set : hw_queue_entry) (ch ce : Z) (b : backend)
    : option backend :=
  let k := be_fresh b in
  let b := b <| be_fresh := S k |> <| be_sqs := <[k := EmuSq ch ce sq_index sq_set]> (be_sqs b) |>
             <| be_nodes := <[sq_node k := Node None None]> (be_nodes b) |> in
  n ← list_add_tail (Some (sq_node k)) (Some register_list) (be_nodes b);
  Some (b <| be_nodes := n |>).

(** The back-end thread waits until [register_list] is not empty and takes its
    first node: no step while it is empty. *)
Definition be_take (b : backend) : option (nat * backend) :=
  e ← list_empty (Some register_list) (be_nodes b);
  if decide (e = 1) then None
  else
    p ← load_next (be_nodes b) (Some register_list);
    match p with
    | Some (sq_node k) =>
        n ← list_delete_head (Some register_list) (be_nodes b);
        Some (k, b <| be_nodes := n |>)
    | _ => None
    end.

(** Tell the FTL that the node is done. *)
Definition be_complete (k : nat) (b : backend) : option backend :=
  n ← list_add_tail (Some (sq_node k)) (Some complete_list) (be_nodes b);
  Some (b <| be_nodes := n |>).

(** [free(sq)] *)
Definition be_free (k : nat) (b : backend) : backend :=
  Backend (delete (sq_node k) (be_nodes b)) (delete k (be_sqs b)) (be_fresh b).

(** ** The work between them *)

(** The address decoded from the entry; the bytes not assigned stay
    uninitialised ([junk]). *)
Definition be_ppa (sq : EMU_sq) (junk : list Z) : phy_page_addr :=
  let e := es_entry sq in
  let a := bf_set (addr_byte 0) (bf_get a0 e) junk in
  let a := bf_set (addr_byte 1) (bf_get a1 e) a in
  let a := bf_set (addr_byte 2) (bf_get a2 e) a in
  let a := bf_set (addr_byte 3) (bf_get a3 e) a in
  let a := bf_set (addr_byte 4) (bf_get a4 e) a in
  let a := bf_set (addr_byte 5) (bf_get a5 e) a in
  PhyPageAddr (u16 (es_ch sq)) (u16 (es_ce sq)) a.

(** The arguments of BE_read_log and BE_write_log, in the order of the log. *)
Definition be_addr (p : phy_page_addr) : list Z :=
  let a := nand_flash_addr p in
  [ppa_ch p; ppa_ce p; bf_get slc_lun a; bf_get slc_plane a; bf_get slc_block a; bf_get slc_page a].

Definition be_buf_addr (e : hw_queue_entry) : Z := u32 (Z.shiftl (bf_get buf_adr e) 14).

(** [flash] is the log file, [m] the DRAM; [fuel] bounds the search of
    BE_read_log. *)
Definition be_work (fuel : nat) (sq : EMU_sq) (junk : list Z) (flash : list Z) (m : memory)
    : option (list Z * memory) :=
  let p := be_ppa sq junk in
  let e := es_entry sq in
  if decide (bf_get op e = HCE_READ) then
    m ← BE_read_log fuel (be_addr p) (be_buf_addr e) flash m; Some (flash, m)
  else if decide (bf_get op e = HCE_WRITE) then
    Some (BE_write_log (be_addr p) (be_buf_addr e) m flash, m)
  else Some (flash, m).

(** ** The lists as sequences *)
(** [held] are entries in neither list.  Which entry that is the state of the back end's
    thread says: the invariant of [System] ties [held] to it ([fp_held]). *)
Record be_rep (b : backend) (reg held comp : list nat) : Prop := {
  ber_reg : is_list (be_nodes b) register_list (sq_node <$> reg);
  ber_comp : is_list (be_nodes b) complete_list (sq_node <$> comp);
  ber_nodup : NoDup (reg ++ held ++ comp);
  ber_alloc k : k ∈ reg ++ held ++ comp →
    allocated (be_nodes b) (sq_node k) ∧ is_Some (be_sqs b !! k) ∧ (k < be_fresh b)%nat;
}.

#[export] Instance sq_node_inj : Inj (=) (=) sq_node.
Proof. by intros ?? [= ->]. Qed.

Lemma elem_of_sq_nodes (l : list nat) k : sq_node k ∈ (sq_node <$> l) ↔ k ∈ l.
Proof. rewrite list_elem_of_fmap. split; [by intros (? & [= ->] & ?)|eauto]. Qed.

Lemma head_not_sq (hd : be_ptr) (l : list nat) :
  (∀ k, hd ≠ sq_node k) → (hd ∉ (sq_node <$> l)).
Proof. intros Hh (k & -> & _)%list_elem_of_fmap. by apply (Hh k). Qed.

Lemma be_init_rep : be_rep be_init [] [] [].
Proof.
  split; simpl.
  - split; [apply NoDup_singleton|]. split; reflexivity.
  - split; [apply NoDup_singleton|]. split; reflexivity.
  - constructor.
  - by intros k []%elem_of_nil.
Qed.

(** A list of nodes is untouched by an operation on the other list and on
    nodes that are not in it. *)
Lemma other_list N N' hd hd' (l l' : list nat) :
  is_list N hd (sq_node <$> l) → same_outside (hd' :: (sq_node <$> l')) N N' → hd ≠ hd' →
  (∀ k, hd ≠ sq_node k) → (∀ k, hd' ≠ sq_node k) → (∀ k, k ∈ l → k ∉ l') →
  is_list N' hd (sq_node <$> l).
Proof.
  intros Hl Ho Hne Hh Hh' Hd. eapply is_list_same_outside; [exact Hl|exact Ho|].
  intros q [->|Hq]%elem_of_cons.
  - intros [?|Hi]%elem_of_cons; [done|]. by apply (head_not_sq hd l' Hh).
  - apply list_elem_of_fmap in Hq as (k & -> & Hk).
    intros [?|Hi%elem_of_sq_nodes]%elem_of_cons; [by eapply Hh'|by eapply Hd].
Qed.

Lemma BE_send_sq_spec b reg held comp i e ch ce :
  be_rep b reg held comp → ∃ b', BE_send_sq i e ch ce b = Some b' ∧
    be_rep b' (reg ++ [be_fresh b]) held comp ∧
    be_sqs b' = <[be_fresh b := EmuSq ch ce i e]> (be_sqs b) ∧ be_fresh b' = S (be_fresh b).
Proof.
  intros [Hr Hc Hn Ha]. unfold BE_send_sq. simpl. set (k := be_fresh b).
  set (N := <[sq_node k := Node None None]> (be_nodes b)).
  assert (k ∉ reg ++ held ++ comp) as Hk by (intros (_ & _ & ?)%Ha; subst k; lia).
  rewrite !elem_of_app in Hk.
  assert (same_outside [sq_node k] (be_nodes b) N) as HN.
  { intros p Hp. subst N. rewrite lookup_insert_ne; [done|]. set_solver. }
  assert (is_list N register_list (sq_node <$> reg)) as Hr'.
  { eapply is_list_same_outside; [done|exact HN|]. intros q [->|(j & -> & ?)%list_elem_of_fmap]%elem_of_cons;
      rewrite list_elem_of_singleton; [done|]. intros [= ->]. tauto. }
  assert (is_list N complete_list (sq_node <$> comp)) as Hc'.
  { eapply is_list_same_outside; [done|exact HN|]. intros q [->|(j & -> & ?)%list_elem_of_fmap]%elem_of_cons;
      rewrite list_elem_of_singleton; [done|]. intros [= ->]. tauto. }
  destruct (list_add_tail_spec N _ _ (sq_node k) Hr') as (N' & E & Hl & Ho & Hd).
  { subst N. unfold allocated. rewrite lookup_insert_eq. by eexists. }
  { rewrite elem_of_cons, elem_of_sq_nodes. intros [?|?]; [done|]. tauto. }
  rewrite E. simpl. eexists. split; [done|]. split; [|done]. split; simpl.
  - by rewrite fmap_app.
  - eapply (other_list N N' _ register_list comp (k :: reg)); try done.
    + eapply same_outside_mono; [|exact Ho]. set_solver.
    + intros j Hj. rewrite elem_of_cons. intros [->|Hj']; [tauto|].
      apply NoDup_app in Hn as (_ & Hx & _). apply (Hx j Hj'). set_solver.
  - rewrite <- app_assoc. simpl. apply NoDup_app in Hn as (Hn1 & Hx & Hn2).
    apply NoDup_app. split_and!; [done| |].
    + intros j Hj [->|Hj']%elem_of_cons; [tauto|]. by apply (Hx j).
    + apply NoDup_cons. split; [|done]. rewrite elem_of_app. tauto.
  - intros j Hj. destruct (decide (j = k)) as [->|Hjk].
    + rewrite lookup_insert_eq. split_and!; [|by eexists|lia].
      apply Hd. subst N. unfold allocated. rewrite lookup_insert_eq. by eexists.
    + rewrite lookup_insert_ne by done. destruct (Ha j) as (Hja & Hjs & Hjf).
      { rewrite !elem_of_app in *. rewrite list_elem_of_singleton in Hj. tauto. }
      split_and!; [|done|lia]. apply Hd. subst N. unfold allocated.
      by rewrite lookup_insert_ne by congruence.
Qed.

Lemma be_take_empty b held comp : be_rep b [] held comp → be_take b = None.
Proof.
  intros [Hr _ _ _]. unfold be_take. rewrite (list_empty_spec _ _ _ Hr). done.
Qed.

Lemma be_take_spec b k reg comp held :
  be_rep b (k :: reg) held comp → ∃ b', be_take b = Some (k, b') ∧
    be_rep b' reg (held ++ [k]) comp ∧ be_sqs b' = be_sqs b ∧ be_fresh b' = be_fresh b.
Proof.
  intros [Hr Hc Hn Ha]. unfold be_take. rewrite (list_empty_spec _ _ _ Hr).
  rewrite bool_decide_false by done. cbn [mbind option_bind c_bool]. rewrite decide_False by done.
  rewrite (load_next_nxt _ _ _ (is_list_first _ _ _ Hr)). cbn [mbind option_bind list.head fmap list_fmap from_option id].
  rewrite fmap_cons in Hr.
  destruct (list_delete_head_spec _ _ _ _ Hr) as (N' & E & Hl & _ & Ho & Hd).
  simpl. rewrite E. simpl. eexists. split; [done|]. split; [|done]. split; simpl.
  - done.
  - eapply (other_list _ N' _ register_list comp (k :: reg)); try done.
    intros j Hj Hj'. apply (NoDup_app (k :: reg)) in Hn as (_ & Hx & _).
    apply (Hx j Hj'). set_solver.
  - replace (reg ++ (held ++ [k]) ++ comp) with (reg ++ held ++ k :: comp)
      by (by rewrite <- !app_assoc).
    rewrite app_assoc, <- Permutation_middle, <- app_assoc. done.
  - intros j Hj. destruct (Ha j) as (? & ? & ?).
    { revert Hj. rewrite !elem_of_app, !elem_of_cons, !elem_of_nil. tauto. }
    split_and!; [by apply Hd|done..].
Qed.

Lemma be_complete_spec b k reg comp :
  be_rep b reg [k] comp → ∃ b', be_complete k b = Some b' ∧
    be_rep b' reg [] (comp ++ [k]) ∧ be_sqs b' = be_sqs b ∧ be_fresh b' = be_fresh b.
Proof.
  intros [Hr Hc Hn Ha]. unfold be_complete.
  pose proof Hn as (Hn1 & Hx & [Hk Hn2]%NoDup_cons)%NoDup_app.
  destruct (list_add_tail_spec _ _ _ (sq_node k) Hc) as (N' & E & Hl & Ho & Hd).
  { apply Ha. set_solver. }
  { rewrite elem_of_cons, elem_of_sq_nodes. by intros [?|?]. }
  rewrite E. simpl. eexists. split; [done|]. split; [|done]. split; simpl.
  - eapply (other_list _ N' _ complete_list reg (k :: comp)); try done.
    eapply same_outside_mono; [|exact Ho]. set_solver.
  - by rewrite fmap_app.
  - rewrite app_assoc, <- Permutation_cons_append, Permutation_middle. done.
  - intros j Hj. destruct (Ha j) as (? & ? & ?).
    { revert Hj. rewrite !elem_of_app, !elem_of_cons, !elem_of_nil. tauto. }
    split_and!; [by apply Hd|done..].
Qed.

(** The FTL's turn on the first completed node: unlink it and free it. *)
Lemma be_pop_spec b k reg held comp :
  be_rep b reg held (k :: comp) → ∃ N', list_delete_head (Some complete_list) (be_nodes b) = Some N' ∧
    be_rep (be_free k (b <| be_nodes := N' |>)) reg held comp.
Proof.
  intros [Hr Hc Hn Ha]. pose proof Hc as Hc0. rewrite fmap_cons in Hc0.
  destruct (list_delete_head_spec _ _ _ _ Hc0) as (N' & E & Hl & _ & Ho & Hd).
  exists N'. split; [done|].
  assert (reg ++ held ++ k :: comp ≡ₚ k :: reg ++ held ++ comp) as Hp.
  { rewrite !app_assoc. by rewrite <- Permutation_middle. }
  pose proof Hn as Hn'. rewrite Hp in Hn'. apply NoDup_cons in Hn' as [Hk Hn'].
  rewrite !elem_of_app in Hk.
  assert (∀ hd (l : list nat), is_list N' hd (sq_node <$> l) → (∀ j, hd ≠ sq_node j) → k ∉ l →
    is_list (delete (sq_node k) N') hd (sq_node <$> l)) as Hdel.
  { intros hd l Hil Hh Hkl. eapply is_list_frame; [exact Hil|]. right.
    intros q Hq. rewrite lookup_delete_ne; [done|]. intros <-.
    apply elem_of_cons in Hq as [?|?%elem_of_sq_nodes]; [by eapply Hh|done]. }
  split; simpl.
  - apply Hdel; [|done|tauto].
    eapply (other_list _ N' _ complete_list reg (k :: comp)); try done.
    intros j Hj Hj'. apply NoDup_app in Hn as (_ & Hx & _). apply (Hx j Hj). set_solver.
  - apply Hdel; [done|done|tauto].
  - done.
  - intros j Hj. destruct (Ha j) as (Hja & Hjs & ?).
    { rewrite Hp. by right. }
    assert (j ≠ k) by (intros ->; rewrite !elem_of_app in Hj; tauto).
    unfold allocated. rewrite !lookup_delete_ne by congruence. split_and!; [by apply Hd|done..].
Qed.

(** ** The address survives the entry *)

(** Bit [i] of word [w] of a union. *)
Definition word_bit (a : list Z) (w : nat) (i : Z) : bool := Z.testbit (default 0 (a !! w)) i.

Lemma bf_set_bit f v a w i :
  bf_ok (length a) f → 0 ≤ i →
  word_bit (bf_set f v a) w i =
    if decide (w = bf_word f ∧ bf_lo f ≤ i < bf_lo f + bf_width f)
    then Z.testbit v (i - bf_lo f) else word_bit a w i.
Proof.
  intros (Hw & H1 & H2 & H3) Hi. unfold word_bit, bf_set.
  destruct (decide (w = bf_word f)) as [->|Hne].
  - rewrite list_lookup_insert_eq by done. simpl. rewrite set_bits_spec by done.
    repeat case_decide; try done; lia.
  - rewrite list_lookup_insert_ne by done. by rewrite decide_False by tauto.
Qed.

Lemma bf_get_bit f a i : 0 ≤ bf_lo f → 0 ≤ bf_width f → 0 ≤ i →
  Z.testbit (bf_get f a) i = word_bit a (bf_word f) (i + bf_lo f) && bool_decide (i < bf_width f).
Proof. intros. unfold bf_get, word_bit. by rewrite get_bits_spec. Qed.

(** The six bytes rebuild every bit below 48. *)
Definition rebuild (b : nat → Z) (junk : list Z) : list Z :=
  bf_set (addr_byte 5) (b 5%nat) (bf_set (addr_byte 4) (b 4%nat) (bf_set (addr_byte 3) (b 3%nat)
    (bf_set (addr_byte 2) (b 2%nat) (bf_set (addr_byte 1) (b 1%nat)
      (bf_set (addr_byte 0) (b 0%nat) junk))))).

Lemma byte_of_word a j i w :
  addr_byte j = BF w (8 * Z.of_nat (j mod 4)) 8 → 0 ≤ i →
  8 * Z.of_nat (j mod 4) ≤ i < 8 * Z.of_nat (j mod 4) + 8 →
  Z.testbit (bf_get (addr_byte j) a) (i - 8 * Z.of_nat (j mod 4)) = word_bit a w i.
Proof.
  intros E Hi Hr. rewrite bf_get_bit by (rewrite ?E; cbn [bf_lo bf_width]; lia). rewrite E. cbn [bf_word bf_lo bf_width].
  rewrite bool_decide_true by lia. rewrite andb_true_r. f_equal. lia.
Qed.

Lemma rebuild_bits a junk w i :
  length junk = 2%nat → 0 ≤ i → (w = 0%nat ∧ i < 32 ∨ w = 1%nat ∧ i < 16) →
  word_bit (rebuild (λ j, bf_get (addr_byte j) a) junk) w i = word_bit a w i.
Proof.
  intros Hl Hi Hw. unfold rebuild.
  rewrite !bf_set_bit by (done || (rewrite ?bf_set_length, ?Hl; apply bf_ok_compute; reflexivity)).
  cbn [bf_word bf_lo bf_width addr_byte].
  repeat case_decide;
    match goal with
    | H : _ = _ ∧ _ |- _ = _ =>
        destruct H as [-> ?]; first [apply (byte_of_word a 5)|apply (byte_of_word a 4)
          |apply (byte_of_word a 3)|apply (byte_of_word a 2)|apply (byte_of_word a 1)
          |apply (byte_of_word a 0)]; [reflexivity|exact Hi|simpl in *; lia]
    | _ => exfalso; simpl in *; lia
    end.
Qed.

Definition in_48_bits (f : bitfield) : Prop :=
  0 ≤ bf_lo f ∧ 0 ≤ bf_width f ∧
  (bf_word f = 0%nat ∧ bf_lo f + bf_width f ≤ 32 ∨ bf_word f = 1%nat ∧ bf_lo f + bf_width f ≤ 16).

Lemma rebuild_field f a junk :
  length junk = 2%nat → in_48_bits f →
  bf_get f (rebuild (λ j, bf_get (addr_byte j) a) junk) = bf_get f a.
Proof.
  intros Hl (H1 & H2 & H3). apply Z.bits_inj'. intros i Hi. rewrite !bf_get_bit by done.
  case_bool_decide; [|by rewrite !andb_false_r]. rewrite !andb_true_r.
  apply rebuild_bits; [done|lia|]. lia.
Qed.

(** Every field of the page address: the geometry fits the 48 bits an entry
    carries. *)
Lemma slc_fields_48 f : f ∈ slc_fields → in_48_bits f.
Proof.
  intros Hf. unfold slc_fields in Hf. rewrite !elem_of_cons, elem_of_nil in Hf.
  unfold in_48_bits. destruct_or?; try done; subst; simpl; lia.
Qed.

Section transport.
Context (mem_base hid bid opc sp : Z) (ppa : phy_page_addr) (e junk : list Z) (i : Z).
Context (He : length e = 4%nat) (Hj : length junk = 2%nat) (Hop : opc ≠ HCE_ERASE).
Abbreviation sent :=
  (EmuSq (ppa_ch ppa) (ppa_ce ppa) i
     (set_SQ_fields mem_base hid bid opc sp (nand_flash_addr ppa) e)).

Lemma be_ppa_rebuild :
  nand_flash_addr (be_ppa sent junk) =
    rebuild (λ j, bf_get (addr_byte j) (nand_flash_addr ppa)) junk.
Proof.
  destruct (set_SQ_rw mem_base hid bid opc sp (nand_flash_addr ppa) e He Hop)
    as (_ & E0 & E1 & E2 & E3 & E4 & E5).
  unfold be_ppa, rebuild. cbn [nand_flash_addr es_entry]. by rewrite E0, E1, E2, E3, E4, E5.
Qed.

(** The back end decodes the address the FTL put into the entry, whatever the
    uninitialised bytes hold. *)
Lemma be_addr_sent :
  0 ≤ ppa_ch ppa < 65536 → 0 ≤ ppa_ce ppa < 65536 →
  be_addr (be_ppa sent junk) = be_addr ppa.
Proof.
  intros Hch Hce. unfold be_addr. rewrite be_ppa_rebuild.
  rewrite !rebuild_field by (done || (apply slc_fields_48; unfold slc_fields; set_solver)).
  unfold be_ppa. cbn [ppa_ch ppa_ce es_ch es_ce]. by rewrite !u16_small.
Qed.

(** The 18-bit page frame stands for the whole buffer address. *)
Lemma be_buf_addr_sent :
  mem_base mod (16 * KB) = 0 → 0 ≤ mem_base → mem_base + 1 * GB ≤ 2 ^ 32 →
  0 ≤ bid < BUFFER_NUMBER →
  be_buf_addr (es_entry sent) = BUFFER_BASE_ADDR mem_base + bid * PAGE_SIZE.
Proof.
  change (16 * KB) with 16384. change (1 * GB) with 1073741824.
  change (2 ^ 32) with 4294967296. change BUFFER_NUMBER with 1500.
  intros Hal H0 Hm Hb. unfold be_buf_addr. cbn [es_entry].
  destruct (set_SQ_rw mem_base hid bid opc sp (nand_flash_addr ppa) e He Hop) as (-> & _).
  unfold L2P_get_buffer_addr, BUFFER_BASE_ADDR. change (600 * MB) with 629145600.
  change PAGE_SIZE with 16384. rewrite (u32_small (bid * 16 * 1024 + _)) by lia.
  rewrite Z.shiftr_div_pow2, Z.shiftl_mul_pow2 by lia. change (2 ^ 14) with 16384.
  rewrite wrap_small by (unfold is_u; change (2 ^ 18) with 262144; dlia).
  rewrite u32_small by dlia. dlia.
Qed.
End transport.

Lemma be_addr_page lpn ppa :
  0 ≤ lpn < TOTAL_PAGE → length (nand_flash_addr ppa) = 2%nat →
  is_page_addr (be_addr (L2P_calc_ppa lpn ppa)) ∧
  be_addr (L2P_calc_ppa lpn ppa) =
    [lpn mod 4; lpn / 4 mod 8; 0; lpn / 32 mod 2; lpn / 24576; lpn / 64 mod 384].
Proof.
  intros Hl Hp. pose proof (L2P_calc_ppa_phys lpn ppa Hl Hp) as E. unfold phys in E.
  injection E as E1 E2 E3 E4 E5 E6. unfold be_addr. rewrite E1, E2, E3, E4, E5, E6.
  split; [|done]. change TOTAL_PAGE with 24723456 in Hl. split; [done|].
  repeat constructor; dlia.
Qed.

(** C12. Writing logical page [lpn] from buffer [b] and reading it into buffer [b']
    through entries, back end and flash log returns the page's bytes, if the
    page does not begin with a blank byte. *)
Theorem page_write_read fuel mem_base lpn p0 p1 b b' h h' e e' junk junk' i i' flash m :
  mem_base mod (16 * KB) = 0 → 0 ≤ mem_base → mem_base + 1 * GB ≤ 2 ^ 32 →
  0 ≤ lpn < TOTAL_PAGE → 0 ≤ b < BUFFER_NUMBER → 0 ≤ b' < BUFFER_NUMBER →
  length (nand_flash_addr p0) = 2%nat → length (nand_flash_addr p1) = 2%nat →
  length e = 4%nat → length e' = 4%nat → length junk = 2%nat → length junk' = 2%nat →
  (0 < fuel)%nat →
  let pw := L2P_calc_ppa lpn p0 in
  let pr := L2P_calc_ppa lpn p1 in
  let sqw := EmuSq (ppa_ch pw) (ppa_ce pw) i
    (set_SQ_fields mem_base h b HCE_WRITE HCMD_SPACE (nand_flash_addr pw) e) in
  let sqr := EmuSq (ppa_ch pr) (ppa_ce pr) i'
    (set_SQ_fields mem_base h' b' HCE_READ HCMD_SPACE (nand_flash_addr pr) e') in
  let addr b := BUFFER_BASE_ADDR mem_base + b * PAGE_SIZE in
  ∃ flash' m', be_work fuel sqw junk flash m = Some (flash', m) ∧
    be_work fuel sqr junk' flash' m = Some (flash', m') ∧
    (is_space (m (addr b)) = false →
     load_bytes m' (addr b') page_bytes = load_bytes m (addr b) page_bytes).
Proof.
  intros Hal H0 Hm Hl Hb Hb' Hp0 Hp1 He He' Hj Hj' Hf pw pr sqw sqr addr.
  destruct (be_addr_page lpn p0 Hl Hp0) as [Hpa Epw].
  destruct (be_addr_page lpn p1 Hl Hp1) as [_ Epr].
  pose proof (L2P_calc_ppa_phys lpn p0 Hl Hp0) as Pw. unfold phys in Pw. injection Pw as Cw Dw _ _ _ _.
  pose proof (L2P_calc_ppa_phys lpn p1 Hl Hp1) as Pr. unfold phys in Pr. injection Pr as Cr Dr _ _ _ _.
  assert (bf_get op (es_entry sqw) = HCE_WRITE) as Ow
    by (subst sqw; cbn [es_entry]; destruct (set_SQ_common mem_base h b HCE_WRITE HCMD_SPACE
          (nand_flash_addr pw) e He) as (-> & _); done).
  assert (bf_get op (es_entry sqr) = HCE_READ) as Or
    by (subst sqr; cbn [es_entry]; destruct (set_SQ_common mem_base h' b' HCE_READ HCMD_SPACE
          (nand_flash_addr pr) e' He') as (-> & _); done).
  assert (be_addr (be_ppa sqw junk) = be_addr pw) as Aw.
  { apply be_addr_sent; [done|done|done|subst pw; rewrite Cw; dlia|subst pw; rewrite Dw; dlia]. }
  assert (be_addr (be_ppa sqr junk') = be_addr pw) as Ar.
  { subst pw. rewrite Epw, <- Epr.
    apply be_addr_sent; [done|done|done|subst pr; rewrite Cr; dlia|subst pr; rewrite Dr; dlia]. }
  assert (be_buf_addr (es_entry sqw) = addr b) as Bw by by apply be_buf_addr_sent with (junk := junk).
  assert (be_buf_addr (es_entry sqr) = addr b') as Br by by apply be_buf_addr_sent with (junk := junk).
  unfold be_work. rewrite Ow, Or, Aw, Ar, Bw, Br. destruct fuel as [|fuel]; [lia|].
  eexists _, _. rewrite decide_False by done. rewrite decide_True by done. split; [done|].
  rewrite decide_True by done. rewrite read_latest by done. split; [done|].
  intros Hs. rewrite (skip_ws_data m (addr b) Hs). apply load_store. by rewrite load_bytes_length.
Qed.

(** The first node of [complete_list]. *)
Lemma be_first_completed b reg held comp :
  be_rep b reg held comp →
  load_next (be_nodes b) (Some complete_list) =
    Some (Some (default complete_list (sq_node <$> list.head comp))).
Proof.
  intros [_ Hc _ _]. rewrite (load_next_nxt _ _ _ (is_list_first _ _ _ Hc)). by destruct comp.
Qed.

(** Logical page 1000 of letters, written from buffer 0 and read into buffer 1. *)
Lemma page_write_read_witness :
  let mem_base := 0x40000000 in
  let p := PhyPageAddr 0 0 [0; 0] in
  let pw := L2P_calc_ppa 1000 p in
  let entry h b op := set_SQ_fields mem_base h b op HCMD_SPACE (nand_flash_addr pw) [0; 0; 0; 0] in
  ∃ flash' m',
    be_work 1 (EmuSq (ppa_ch pw) (ppa_ce pw) 0 (entry 0 0 HCE_WRITE)) [7; 7] [] (λ _, 65) = Some (flash', λ _, 65) ∧
    be_work 1 (EmuSq (ppa_ch pw) (ppa_ce pw) 1 (entry 1 1 HCE_READ)) [0; 0] flash' (λ _, 65) = Some (flash', m') ∧
    (is_space 65 = false →
     load_bytes m' (BUFFER_BASE_ADDR mem_base + 1 * PAGE_SIZE) page_bytes =
     load_bytes (λ _, 65) (BUFFER_BASE_ADDR mem_base + 0 * PAGE_SIZE) page_bytes).
Proof.
  intros mem_base p pw entry.
  apply (page_write_read 1 mem_base 1000 p p 0 1 0 1 [0; 0; 0; 0] [0; 0; 0; 0] [7; 7] [0; 0] 0 1 [] (λ _, 65));
    first [reflexivity|lia|split; vm_compute; congruence|vm_compute; congruence].
Defined.
