(* ===== verification/Ftl.v ===== *)
(** * The FTL (src/ftl/ftl.c, ftl_core0.c, ftl_core1.c, ftl_nvme.c, and the
    polling loop of ftl_taskqueue.c), in the emulator's configuration

    [emu] is the memory the firmware and its back end share; each function of
    the FTL is a computation over it.  A [host_cmd_entry *] is an index of the
    command table, NULL is [None], and an access the code makes outside an
    array or through NULL is undefined.  The loops are bounded by counters of
    the code itself; the fuel they get is the number of turns those allow. *)
From S2P Require Import Prelude CInt Bitmap Config ListHeap Shm Buffer Hcl TaskQueue FlashLog Fcl.
From S2P Require Import L2P Backend.
#[local] Open Scope Z_scope.

Record emu := Emu {
  e_shm : shm;                (** the segment shared with the host *)
  e_hcl : hcl;                (** host command table *)
  e_tq : task_queues;         (** ftl_task_queue *)
  e_hw : hw_queues;           (** hw_SQ, hw_CQ and their bitmaps *)
  e_buf : buffers;            (** the buffer cache *)
  e_be : backend;             (** register_list and complete_list *)
  e_tmp_sq_index : Z;
  e_emu_id : Z;               (** static c of FTL_nvme_req_polling *)
  e_cpl : Z;                  (** static cpl of FTL_core0task_polling *)
  e_cc : Z;                   (** static cc of FTL_handle_finish *)
}.
#[export] Instance emu_eta : Settable emu := λ r,
  Emu (e_shm r) (e_hcl r) (e_tq r) (e_hw r) (e_buf r) (e_be r) (e_tmp_sq_index r)
    (e_emu_id r) (e_cpl r) (e_cc r).

(** Run a component's operation on its part of the state. *)
Definition on_shm {A} (f : shm → option (A * shm)) : M emu A :=
  zoom e_shm (λ x s, s <| e_shm := x |>) f.
Definition on_hcl {A} (f : hcl → option (A * hcl)) : M emu A :=
  zoom e_hcl (λ x s, s <| e_hcl := x |>) f.
Definition on_tq {A} (f : task_queues → option (A * task_queues)) : M emu A :=
  zoom e_tq (λ x s, s <| e_tq := x |>) f.
Definition on_hw {A} (f : hw_queues → option (A * hw_queues)) : M emu A :=
  zoom e_hw (λ x s, s <| e_hw := x |>) f.
Definition on_be {A} (f : backend → option (A * backend)) : M emu A :=
  zoom e_be (λ x s, s <| e_be := x |>) f.

(** An operation without result. *)
Definition no_result {S} (f : S → option S) : S → option (unit * S) :=
  λ s, s' ← f s; Some (tt, s').

(** [hcmd_entry->f], [hcmd_entry->f = v] *)
Definition load_hcmd (k : nat) : M emu host_cmd_entry := try_get (λ s, hcmd_load k (e_hcl s)).
Definition store_hcmd (k : nat) (f : host_cmd_entry → host_cmd_entry) : M emu unit :=
  on_hcl (no_result (hcmd_upd k f)).

Definition FTL_sendhcmd (hcmd : nat) (status : Z) : M emu Z :=
  λ s, '(r, q) ← TaskQueue.FTL_sendhcmd (Some hcmd) status (e_hcl s) (e_tq s);
       Some (r, s <| e_tq := q |>).

(** FCL_send_SQ_entry in the emulator: hand the entry to the back end. *)
Definition FCL_send_SQ_entry (index ch ce : Z) : M emu Z :=
  entry ← try_get (λ s, SQ_entry ch index (e_hw s));
  _ ← on_be (no_result (BE_send_sq index entry ch ce));
  mret SUCCESS.

Section ftl_c.
(** [mem_base], and the uninitialised local [ppa] of FTL_handle_tosq. *)
Context (mem_base : Z) (uninit_ppa : phy_page_addr).

(** ** Handlers (ftl_core0.c) *)

(** [while (cur_cnt < req_num)]: a hit and a miss leave the cache alone.
    Returns the final [cur_cnt]. *)
Fixpoint checkcache_loop (fuel : nat) (k : nat) (cur_cnt req_num cur_lpn : Z) : M emu Z :=
  match fuel with
  | O => undef
  | S fuel' =>
      if decide (cur_cnt < req_num) then
        buf_id ← try_get (λ s, L2P_check_buf_hit cur_lpn (e_buf s));
        _ ← store_hcmd k (λ e, e <| Hcl.cur_lpn := u32 (Hcl.cur_lpn e + 1) |>);
        checkcache_loop fuel' k (u32 (cur_cnt + 1)) req_num (u32 (cur_lpn + 1))
      else mret cur_cnt
  end.

Definition FTL_handle_checkcache (hcmd_entry : hcmd_ptr) : M emu Z :=
  match hcmd_entry with
  | None => mret FAIL
  | Some k =>
      e ← load_hcmd k;
      let op_code := Hcl.op_code e in
      let req_num := Hcl.req_num e in
      cur_cnt ← checkcache_loop (S (Z.to_nat (req_num - Hcl.cur_cnt e))) k
                  (Hcl.cur_cnt e) req_num (Hcl.cur_lpn e);
      _ ← store_hcmd k (λ e, e <| Hcl.cur_cnt := cur_cnt |>);
      _ ← (if decide (op_code = HCE_WRITE) then FTL_sendhcmd k HCE_DATAMOVED
           else if decide (op_code = HCE_READ) then FTL_sendhcmd k HCE_TO_SQ
           else mret SUCCESS);
      mret SUCCESS
  end.

(** [do ret = FCL_send_SQ_entry(...); while (ret == FAIL);] *)
Fixpoint send_until (fuel : nat) (index ch ce : Z) : M emu unit :=
  match fuel with
  | O => undef
  | S fuel' =>
      ret ← FCL_send_SQ_entry index ch ce;
      if decide (ret = FAIL) then send_until fuel' index ch ce else mret tt
  end.

(** The address every command uses: channel 1, chip 0, page [cur_lpn]. *)
Definition tosq_ppa (cur_lpn : Z) : phy_page_addr :=
  let ppa := uninit_ppa <| ppa_ch := 1 |> in
  let ppa := ppa <| ppa_ce := 0 |> in
  let ppa := addr_set slc_lun 0 ppa in
  let ppa := addr_set slc_plane 0 ppa in
  let ppa := addr_set slc_block 0 ppa in
  addr_set slc_page cur_lpn ppa.

(** [while (send_sq_cnt < buf_cnt)]: [None] when the entry ran out and the
    command was queued again. *)
Fixpoint tosq_loop (fuel : nat) (k : nat) (hcmd_id op_code send_sq_cnt buf_cnt : Z)
    : M emu (option Z) :=
  match fuel with
  | O => undef
  | S fuel' =>
      if decide (send_sq_cnt < buf_cnt) then
        let cur_lpn := 20 in
        let ppa := tosq_ppa cur_lpn in
        sq ← on_hw (FCL_get_free_SQ_entry (ppa_ch ppa));
        _ ← modify (λ s, s <| e_tmp_sq_index := sq |>);
        if decide (sq = INVALID_ID) then
          _ ← FTL_sendhcmd k HCE_TO_SQ; mret None
        else
          let buf_index := 0 in
          _ ← on_hw (no_result (FCL_set_SQ_entry mem_base hcmd_id sq buf_index op_code ppa
                                  HCMD_SPACE));
          _ ← send_until 1 sq (ppa_ch ppa) (ppa_ce ppa);
          tosq_loop fuel' k hcmd_id op_code (u32 (send_sq_cnt + 1)) buf_cnt
      else mret (Some send_sq_cnt)
  end.

Definition FTL_handle_tosq (hcmd_entry : hcmd_ptr) : M emu Z :=
  match hcmd_entry with
  | None => mret FAIL
  | Some k =>
      e ← load_hcmd k;
      let op_code := Hcl.op_code e in
      let hcmd_id := HCL_get_hcmd_entry_index mem_base (hcmd_addr mem_base k) in
      _ ← store_hcmd k (λ e, e <| Hcl.buf_cnt := 1 |>);
      e ← load_hcmd k;
      r ← tosq_loop 2 k hcmd_id op_code 0 (Hcl.buf_cnt e);
      match r with
      | None => mret FAIL
      | Some send_sq_cnt =>
          _ ← store_hcmd k (λ e, e <| Hcl.send_sq_cnt := send_sq_cnt |>);
          mret SUCCESS
      end
  end.

(** [while (hcmd_entry->nvme_dma_cpl < buf_cnt) hcmd_entry->nvme_dma_cpl++;] *)
Fixpoint dma_loop (fuel : nat) (k : nat) (buf_cnt : Z) : M emu unit :=
  match fuel with
  | O => undef
  | S fuel' =>
      e ← load_hcmd k;
      if decide (Hcl.nvme_dma_cpl e < buf_cnt) then
        _ ← store_hcmd k (λ e, e <| Hcl.nvme_dma_cpl := u32 (Hcl.nvme_dma_cpl e + 1) |>);
        dma_loop fuel' k buf_cnt
      else mret tt
  end.

Definition FTL_handle_datamove (hcmd_entry : hcmd_ptr) : M emu Z :=
  match hcmd_entry with
  | None => mret FAIL
  | Some k =>
      e ← load_hcmd k;
      let op_code := Hcl.op_code e in
      _ ← store_hcmd k (λ e, e <| Hcl.buf_cnt := 1 |>);
      e ← load_hcmd k;
      let buf_cnt := Hcl.buf_cnt e in
      if decide (op_code = HCE_READ) then
        _ ← dma_loop 2 k buf_cnt;
        _ ← FTL_sendhcmd k HCE_FINISH; mret SUCCESS
      else
        _ ← dma_loop 2 k buf_cnt;
        _ ← FTL_sendhcmd k HCE_TO_SQ; mret SUCCESS
  end.

Definition FTL_handle_fromcq (hcmd_entry : hcmd_ptr) : M emu Z :=
  match hcmd_entry with
  | None => mret FAIL
  | Some k =>
      e ← load_hcmd k;
      if decide (Hcl.op_code e = HCE_WRITE) then
        _ ← store_hcmd k (λ e, e <| Hcl.status := HCE_FINISH |>);
        _ ← FTL_sendhcmd k HCE_FINISH; mret SUCCESS
      else
        _ ← store_hcmd k (λ e, e <| Hcl.status := HCE_DATAMOVED |>);
        _ ← FTL_sendhcmd k HCE_DATAMOVED; mret SUCCESS
  end.

(** The entry is read for the log before it is tested for NULL. *)
Definition FTL_handle_finish (hcmd_entry : hcmd_ptr) : M emu Z :=
  k ← try_get (λ _, hcmd_entry);
  _ ← load_hcmd k;
  _ ← modify (λ s, s <| e_cc := e_cc s + 1 |>);
  _ ← on_hcl (HCL_reclaim_hcmd_entry mem_base k);
  mret SUCCESS.

(** ** The polling loop (ftl_taskqueue.c) *)
Definition run_func (f : option task_func) (hcmd_entry : hcmd_ptr) : M emu Z :=
  f ← try_get (λ _, f);
  match f with
  | TaskQueue.FTL_handle_checkcache => FTL_handle_checkcache hcmd_entry
  | TaskQueue.FTL_handle_tosq => FTL_handle_tosq hcmd_entry
  | TaskQueue.FTL_handle_datamove => FTL_handle_datamove hcmd_entry
  | TaskQueue.FTL_handle_fromcq => FTL_handle_fromcq hcmd_entry
  | TaskQueue.FTL_handle_finish => FTL_handle_finish hcmd_entry
  end.

(** One command of queue [i]. *)
Definition run_task (i : Z) : M emu unit :=
  _ ← (if decide (i = HCE_FINISH) then modify (λ s, s <| e_cpl := u32 (e_cpl s + 1) |>)
       else skip);
  hcmd_entry ← on_tq (FTL_task_queue_remove_head i);
  match hcmd_entry with
  | Some _ =>
      q ← try_get (λ s, zget (e_tq s) i);
      _ ← run_func (tq_func q) hcmd_entry; skip
  | None => skip
  end.

(** The commands that were queued when the turn began. *)
Definition run_queue (i : Z) : M emu unit :=
  cnt ← try_get (λ s, FTL_get_taskqueue_cnt i (e_tq s));
  for_M (Z.to_nat cnt) O (λ _, run_task i).

Definition FTL_core0task_polling : M emu unit :=
  for_M (S (Z.to_nat HCE_FINISH)) O (λ i, run_queue (Z.of_nat i)).
Definition FTL_core1task_polling : M emu unit := skip.

(** ** Completion (ftl_core1.c) *)

(** The body of the loop over [complete_list], for its first node [n]. *)
Definition cq_body (n : nat) : M emu unit :=
  sq ← try_get (λ s, be_sqs (e_be s) !! n);
  _ ← on_hw (no_result (FCL_free_SQ_entry (es_ch sq) (es_index sq)));
  let k := HCL_get_hcmd_entry_addr (bf_get hcmd_index (es_entry sq)) in
  _ ← store_hcmd k (λ e, e <| Hcl.cpl_cnt := u32 (Hcl.cpl_cnt e + 1) |>);
  e ← load_hcmd k;
  _ ← (if decide (Hcl.cpl_cnt e = Hcl.req_num e) then FTL_sendhcmd k HCE_FROM_CQ
       else mret SUCCESS);
  on_be (λ b, h ← list_delete_head (Some complete_list) (be_nodes b);
              Some (tt, be_free n (b <| be_nodes := h |>))).

Fixpoint cq_loop (fuel : nat) : M emu unit :=
  match fuel with
  | O => undef
  | S fuel' =>
      p ← try_get (λ s, load_next (be_nodes (e_be s)) (Some complete_list));
      match p with
      | Some complete_list => skip
      | Some (sq_node n) => _ ← cq_body n; cq_loop fuel'
      | _ => undef
      end
  end.

(** At most as many turns as nodes were ever allocated. *)
Definition FTL_CQ_polling : M emu unit :=
  n ← gets (λ s, be_fresh (e_be s)); cq_loop (S n).

(** ** New commands (ftl_nvme.c) *)

(** The assignments to a new entry: an operation that is neither read nor
    write leaves [op_code] as it was. *)
Definition fill_hcmd (scmd : shm_cmd) (index c : Z) (e : host_cmd_entry) : host_cmd_entry :=
  let op_code :=
    if decide (Shm.ops scmd = SHM_WRITE_OPS) then HCE_WRITE
    else if decide (Shm.ops scmd = SHM_READ_OPS) then HCE_READ
    else Hcl.op_code e in
  let nvme_start_lba := Shm.lpn scmd in
  let nvme_req_num := Shm.size scmd / HOST_BLOCK_SIZE in
  let start_lpa := nvme_start_lba / 4 in
  HostCmd nvme_start_lba nvme_req_num start_lpa start_lpa 0 0 0 0
    (nvme_req_num / 4) 0 0 0 0 0 index op_code (Hcl.status e) c.

(** A command taken from RDY: an entry is allocated, filled and queued, and
    the slot is free again; without an entry the command goes back to RDY. *)
Definition nvme_accept (index : Z) (scmd : shm_cmd) : M emu unit :=
  hcmd ← on_hcl HCL_get_host_cmd_entry;
  match hcmd with
  | Some k =>
      _ ← modify (λ s, s <| e_emu_id := e_emu_id s + 1 |>);
      c ← gets e_emu_id;
      _ ← store_hcmd k (fill_hcmd scmd index c);
      _ ← FTL_sendhcmd k HCE_CHECK_CACHE;
      on_shm (no_result (SHM_add_free_list index))
  | None => on_shm (no_result (SHM_add_rdy_list index scmd))
  end.

Definition nvme_turn : M emu unit :=
  r ← on_shm SHM_get_rdy_list;
  let '(index, scmd) := r in
  if decide (index = CMD_SLOT_NUM) then skip
  else scmd ← try_get (λ _, scmd); nvme_accept index scmd.

Definition FTL_nvme_init : M emu unit := skip.
Definition FTL_nvme_req_polling : M emu unit := for_M MAX_POLLING_NUM O (λ _, nvme_turn).

(** ** The main loop (ftl.c): one turn of [while (1)] *)
Definition FTL_core0_turn : M emu unit :=
  _ ← FTL_nvme_req_polling;
  _ ← FTL_core0task_polling;
  FTL_CQ_polling.

(** [n] turns. *)
Definition FTL_core0_task_run (n : nat) : M emu unit := for_M n O (λ _, FTL_core0_turn).
End ftl_c.

(** ** Start-up (src/emu/emu_main.c) *)

(** The components after EMU_init_ftl_moudles, FE_init and BE_init. *)
Definition EMU_init : option emu :=
  b ← L2P_init_buffer buffers_zero;
  sh ← SHM_init;
  Some (Emu sh (snd HCL_init_host_cmd_entry_queue) FTL_int_task_queue init_hw_queues b be_init
          0 0 0 0).
