(* ===== verification/FtlSpec.v ===== *)
(** * What each FTL function does

    For every handler, the command it is given and the queues decide the
    result: these lemmas run the functions of [Ftl] symbolically, against the
    interfaces of the queues ([QueueBank]), the command table and the entry
    bitmaps ([SlotAllocator]), and say which parts of the state change. *)
From stdpp Require Import functions.
From S2P Require Import Prelude CInt Bitmap Config ListHeap Shm Buffer Hcl TaskQueue FlashLog Fcl.
From S2P Require Import L2P Backend Ftl.
#[local] Open Scope Z_scope.

(** ** The command table *)
Definition hcl_put (k : nat) (e : host_cmd_entry) (h : hcl) : hcl :=
  Hcl (<[k := e]> (hcmd_queue h)) (hcmd_map h).

Lemma hcl_load_lt h k e : hcl_wf h → hcmd_load k h = Some e → (k < 256)%nat.
Proof. intros Hw He%lookup_lt_Some. by rewrite (hcl_wf_queue h Hw) in He. Qed.

Lemma hcl_load_some h k : hcl_wf h → (k < 256)%nat → ∃ e, hcmd_load k h = Some e.
Proof. intros Hw Hk. apply lookup_lt_is_Some_2. by rewrite (hcl_wf_queue h Hw). Qed.

Lemma hcl_put_wf h k e : hcl_wf h → hcl_wf (hcl_put k e h).
Proof. intros [H1 H2 H3]. split; simpl; [by rewrite length_insert|done|done]. Qed.

Lemma hcl_put_used h k e j : hcl_used (hcl_put k e h) j = hcl_used h j.
Proof. done. Qed.

Lemma hcl_put_load h k e j :
  hcl_wf h → (k < 256)%nat →
  hcmd_load j (hcl_put k e h) = if decide (j = k) then Some e else hcmd_load j h.
Proof.
  intros Hw Hk. unfold hcmd_load. simpl. case_decide as E; subst.
  - rewrite list_lookup_insert_eq; [done|]. by rewrite (hcl_wf_queue h Hw).
  - by rewrite list_lookup_insert_ne.
Qed.

Lemma hcl_put_put h k e e' : hcl_put k e' (hcl_put k e h) = hcl_put k e' h.
Proof. unfold hcl_put. simpl. by rewrite list_insert_insert_eq. Qed.

(** ** Primitive computations *)
Lemma emu_hcl_same s : s <| e_hcl := e_hcl s |> = s.
Proof. by destruct s. Qed.

Lemma load_hcmd_run k s e : hcmd_load k (e_hcl s) = Some e → load_hcmd k s = Some (e, s).
Proof. intros He. unfold load_hcmd, try_get. by rewrite He. Qed.

Lemma store_hcmd_run k f s e :
  hcmd_load k (e_hcl s) = Some e →
  store_hcmd k f s = Some (tt, s <| e_hcl := hcl_put k (f e) (e_hcl s) |>).
Proof.
  intros He. unfold store_hcmd, on_hcl, zoom, no_result, hcmd_upd.
  unfold hcmd_load in He. rewrite He. done.
Qed.

Lemma send_run k i s e F :
  tqs_rep (e_tq s) F → (i < 6)%nat → hcmd_load k (e_hcl s) = Some e → (length (F i) < 256)%nat →
  ∃ q', FTL_sendhcmd k (Z.of_nat i) s = Some (SUCCESS, s <| e_tq := q' |>) ∧
    tqs_rep q' (<[i := F i ++ [k]]> F).
Proof.
  intros Hq Hi He Hl. destruct (FTL_sendhcmd_spec (e_hcl s) (e_tq s) F k i e Hq Hi He Hl)
    as (q' & E & Hq'). exists q'. split; [|done]. unfold FTL_sendhcmd. by rewrite E.
Qed.

(** Symbolic execution of the next operation with a run lemma. *)
Tactic Notation "step_by" uconstr(lem) := erewrite bind_run by (eapply lem; eassumption || done).

(** ** FTL_handle_checkcache *)
Section checkcache.
Context (mem_base : Z) (s : emu) (k : nat) (L : list_id → list nat).
Context (Hb : buf_rep (e_buf s) L) (Hw : hcl_wf (e_hcl s)).

Lemma check_hit_defined lpn : ∃ r, L2P_check_buf_hit lpn (e_buf s) = Some r.
Proof.
  destruct (decide (lpn ∈ cached (e_buf s) L)) as [(b & Hin & Hl)%cached_elem|Hn].
  - exists (Z.of_nat b). by apply (check_hit_hit _ L Hb).
  - exists INVALID_ID. apply (check_hit_miss _ L Hb). intros b Hin Hl.
    apply Hn, cached_elem. eauto.
Qed.

(** The loop advances the two counters to the end. *)
Lemma checkcache_loop_run fuel e cur req lp :
  hcmd_load k (e_hcl s) = Some e → 0 ≤ cur ≤ req → req < 2 ^ 32 →
  fuel = S (Z.to_nat (req - cur)) →
  ∃ l, checkcache_loop fuel k cur req lp s =
    Some (req, s <| e_hcl := hcl_put k (e <| Hcl.cur_lpn := l |>) (e_hcl s) |>).
Proof.
  change (2 ^ 32) with 4294967296. intros He Hc Hr ->.
  assert (k < 256)%nat as Hk by by eapply hcl_load_lt.
  assert (∀ n cur lp h l0, (n = Z.to_nat (req - cur))%nat → 0 ≤ cur ≤ req →
    h = hcl_put k (e <| Hcl.cur_lpn := l0 |>) (e_hcl s) →
    ∃ l, checkcache_loop (S n) k cur req lp (s <| e_hcl := h |>) =
      Some (req, s <| e_hcl := hcl_put k (e <| Hcl.cur_lpn := l |>) (e_hcl s) |>)) as Hloop.
  { clear cur lp Hc. induction n as [|n IH]; intros cur lp h l0 Hn Hc ->.
    - cbn [checkcache_loop]. rewrite decide_False by lia. replace cur with req by lia. by exists l0.
    - cbn [checkcache_loop]. rewrite decide_True by lia.
      destruct (check_hit_defined lp) as [r Hr'].
      erewrite bind_run by (apply try_get_run; exact Hr').
      erewrite bind_run.
      2: { apply (store_hcmd_run k _ _ (e <| Hcl.cur_lpn := l0 |>)). simpl.
           rewrite hcl_put_load by done. by rewrite decide_True. }
      rewrite u32_small by lia. simpl. rewrite hcl_put_put.
      apply (IH (cur + 1) _ _ (u32 (l0 + 1))); [lia|lia|done]. }
  destruct (Hloop (Z.to_nat (req - cur)) cur lp (e_hcl s) (Hcl.cur_lpn e) eq_refl Hc) as [l El].
  - destruct e; unfold hcl_put. simpl. destruct (e_hcl s) as [q m]. simpl in *.
    f_equal. symmetry. by apply list_insert_id.
  - exists l. rewrite <- El. by destruct s.
Qed.
End checkcache.

(** What the handlers leave alone in the command they work on. *)
Definition same_cmd (e e' : host_cmd_entry) : Prop :=
  Hcl.op_code e' = Hcl.op_code e ∧ Hcl.req_num e' = Hcl.req_num e ∧
  Hcl.cpl_cnt e' = Hcl.cpl_cnt e ∧ Hcl.nvme_cmd_slot e' = Hcl.nvme_cmd_slot e ∧
  Hcl.emu_id e' = Hcl.emu_id e ∧
  (Hcl.cur_cnt e' = Hcl.cur_cnt e ∨ Hcl.cur_cnt e' = Hcl.req_num e).

(** Close the description of a final state. *)
Ltac spec_done := try unfold same_cmd; split_and?; first [done|by left|by right].

Lemma load_put s k e :
  hcl_wf (e_hcl s) → (k < 256)%nat → hcmd_load k (hcl_put k e (e_hcl s)) = Some e.
Proof. intros. rewrite hcl_put_load by done. by rewrite decide_True. Qed.

Lemma hcl_put_id h k e : hcmd_load k h = Some e → hcl_put k e h = h.
Proof. intros He. unfold hcl_put. destruct h. simpl. f_equal. by apply list_insert_id. Qed.

(** One data transfer per command. *)
Lemma dma_loop_run k s e :
  hcmd_load k (e_hcl s) = Some e → 0 ≤ Hcl.nvme_dma_cpl e ≤ 1 → hcl_wf (e_hcl s) →
  dma_loop 2 k 1 s =
    Some (tt, s <| e_hcl := hcl_put k (e <| Hcl.nvme_dma_cpl := 1 |>) (e_hcl s) |>).
Proof.
  intros He Hd Hw. assert (k < 256)%nat as Hk by by eapply hcl_load_lt.
  cbn [dma_loop]. erewrite bind_run by by apply (load_hcmd_run k s e).
  destruct (decide (Hcl.nvme_dma_cpl e = 1)) as [E|E].
  - rewrite decide_False by lia. rewrite hcl_put_id; [by destruct s|].
    rewrite He. f_equal. destruct e. simpl in *. by subst.
  - assert (Hcl.nvme_dma_cpl e = 0) as Hd0 by lia.
    rewrite decide_True by lia. erewrite bind_run by by apply (store_hcmd_run k _ s e He).
    cbv beta. rewrite Hd0. erewrite bind_run by by apply load_hcmd_run, (load_put s k _ Hw Hk).
    by rewrite decide_False.
Qed.

Section handlers.
Context (mem_base : Z) (s : emu) (k : nat) (e : host_cmd_entry).
Context (F : nat → list nat).
Context (Hw : hcl_wf (e_hcl s)) (He : hcmd_load k (e_hcl s) = Some e).
Context (Hq : tqs_rep (e_tq s) F) (Hroom : ∀ i, (i < 6)%nat → (length (F i) < 256)%nat).

Lemma hk : (k < 256)%nat.
Proof using Hw He. by eapply hcl_load_lt. Qed.

(** A write moves on to its data, a read to the queues; another opcode is
    queued nowhere. *)
Lemma checkcache_spec L :
  buf_rep (e_buf s) L → 0 ≤ Hcl.cur_cnt e ≤ Hcl.req_num e → Hcl.req_num e < 2 ^ 32 →
  ∃ e' q', FTL_handle_checkcache (Some k) s =
      Some (SUCCESS, s <| e_hcl := hcl_put k e' (e_hcl s) |> <| e_tq := q' |>) ∧
    same_cmd e e' ∧ Hcl.nvme_dma_cpl e' = Hcl.nvme_dma_cpl e ∧
    tqs_rep q' (if decide (Hcl.op_code e = HCE_WRITE) then <[2%nat := F 2%nat ++ [k]]> F
                else if decide (Hcl.op_code e = HCE_READ) then <[1%nat := F 1%nat ++ [k]]> F
                else F).
Proof using Hw He Hq Hroom.
  intros Hb Hc Hr. unfold FTL_handle_checkcache.
  erewrite bind_run by by apply load_hcmd_run.
  destruct (checkcache_loop_run s k L Hb Hw _ e (Hcl.cur_cnt e) (Hcl.req_num e) (Hcl.cur_lpn e)
    He Hc Hr eq_refl) as [l El]. rewrite (bind_run _ _ _ _ _ El).
  erewrite bind_run by by eapply (store_hcmd_run k), (load_put s k _ Hw hk).
  simpl. rewrite hcl_put_put. set (e' := HostCmd _ _ _ _ _ _ _ _ _ _ _ _ _ _ _ _ _ _).
  set (s1 := Emu _ _ _ _ _ _ _ _ _ _).
  assert (hcmd_load k (e_hcl s1) = Some e') as He' by apply (load_put s k _ Hw hk).
  exists e'. case_decide; [|case_decide].
  - destruct (send_run k 2 s1 e' F Hq) as (q' & E & Hq'); [lia|done|apply Hroom; lia|].
    exists q'. change HCE_DATAMOVED with (Z.of_nat 2). rewrite (bind_run _ _ _ _ _ E). spec_done.
  - destruct (send_run k 1 s1 e' F Hq) as (q' & E & Hq'); [lia|done|apply Hroom; lia|].
    exists q'. change HCE_TO_SQ with (Z.of_nat 1). rewrite (bind_run _ _ _ _ _ E). spec_done.
  - exists (e_tq s). erewrite bind_run by done. spec_done.
Qed.

(** A read is finished, a write goes to the queues. *)
Lemma datamove_spec :
  0 ≤ Hcl.nvme_dma_cpl e ≤ 1 →
  ∃ e' q', FTL_handle_datamove (Some k) s =
      Some (SUCCESS, s <| e_hcl := hcl_put k e' (e_hcl s) |> <| e_tq := q' |>) ∧
    same_cmd e e' ∧ Hcl.nvme_dma_cpl e' = 1 ∧
    tqs_rep q' (if decide (Hcl.op_code e = HCE_READ) then <[4%nat := F 4%nat ++ [k]]> F
                else <[1%nat := F 1%nat ++ [k]]> F).
Proof using Hw He Hq Hroom.
  intros Hd. unfold FTL_handle_datamove.
  erewrite bind_run by by apply load_hcmd_run.
  erewrite bind_run by by apply (store_hcmd_run k _ s e He).
  set (s0 := s <| e_hcl := _ |>).
  set (e0 := e <| Hcl.buf_cnt := 1 |>).
  assert (hcmd_load k (e_hcl s0) = Some e0) as He0 by apply (load_put s k _ Hw hk).
  erewrite bind_run by by apply (load_hcmd_run k s0 e0).
  set (e' := e0 <| Hcl.nvme_dma_cpl := 1 |>).
  set (s1 := s <| e_hcl := hcl_put k e' (e_hcl s) |>).
  assert (hcmd_load k (e_hcl s1) = Some e') as He' by apply (load_put s k _ Hw hk).
  assert (dma_loop 2 k (Hcl.buf_cnt e0) s0 = Some (tt, s1)) as Eloop.
  { change (Hcl.buf_cnt e0) with 1.
    rewrite (dma_loop_run k s0 e0 He0 Hd) by by apply hcl_put_wf.
    subst s1 e' s0. simpl. by rewrite hcl_put_put. }
  exists e'. case_decide.
  - rewrite (bind_run _ _ _ _ _ Eloop).
    destruct (send_run k 4 s1 e' F Hq) as (q' & E & Hq'); [lia|done|apply Hroom; lia|].
    exists q'. change HCE_FINISH with (Z.of_nat 4). rewrite (bind_run _ _ _ _ _ E). spec_done.
  - rewrite (bind_run _ _ _ _ _ Eloop).
    destruct (send_run k 1 s1 e' F Hq) as (q' & E & Hq'); [lia|done|apply Hroom; lia|].
    exists q'. change HCE_TO_SQ with (Z.of_nat 1). rewrite (bind_run _ _ _ _ _ E). spec_done.
Qed.

(** A completed write is finished, a completed read moves its data. *)
Lemma fromcq_spec :
  ∃ e' q', FTL_handle_fromcq (Some k) s =
      Some (SUCCESS, s <| e_hcl := hcl_put k e' (e_hcl s) |> <| e_tq := q' |>) ∧
    same_cmd e e' ∧ Hcl.nvme_dma_cpl e' = Hcl.nvme_dma_cpl e ∧
    tqs_rep q' (if decide (Hcl.op_code e = HCE_WRITE) then <[4%nat := F 4%nat ++ [k]]> F
                else <[2%nat := F 2%nat ++ [k]]> F).
Proof using Hw He Hq Hroom.
  unfold FTL_handle_fromcq. erewrite bind_run by by apply load_hcmd_run. case_decide.
  - erewrite bind_run by by apply (store_hcmd_run k _ s e He). set (s1 := s <| e_hcl := _ |>).
    destruct (send_run k 4 s1 (e <| Hcl.status := HCE_FINISH |>) F Hq) as (q' & E & Hq');
      [lia|apply (load_put s k _ Hw hk)|apply Hroom; lia|].
    change (Z.of_nat 4) with HCE_FINISH in E.
    exists (e <| Hcl.status := HCE_FINISH |>), q'. rewrite (bind_run _ _ _ _ _ E). spec_done.
  - erewrite bind_run by by apply (store_hcmd_run k _ s e He). set (s1 := s <| e_hcl := _ |>).
    destruct (send_run k 2 s1 (e <| Hcl.status := HCE_DATAMOVED |>) F Hq) as (q' & E & Hq');
      [lia|apply (load_put s k _ Hw hk)|apply Hroom; lia|].
    change (Z.of_nat 2) with HCE_DATAMOVED in E.
    exists (e <| Hcl.status := HCE_DATAMOVED |>), q'.
    rewrite (bind_run _ _ _ _ _ E). spec_done.
Qed.

(** A finished command's entry is cleared and free again. *)
Lemma finish_spec :
  ∃ h', FTL_handle_finish mem_base (Some k) s =
      Some (SUCCESS, s <| e_hcl := h' |> <| e_cc := e_cc s + 1 |>) ∧
    hcl_wf h' ∧ (∀ j, (j < 256)%nat →
      hcl_used h' j = negb (bool_decide (j = k)) && hcl_used (e_hcl s) j) ∧
    hcmd_load k h' = Some hcmd_zero ∧ ∀ j, j ≠ k → hcmd_load j h' = hcmd_load j (e_hcl s).
Proof using Hw He.
  destruct (HCL_reclaim_spec mem_base (e_hcl s) k Hw hk) as (h' & E & Hw' & Hq' & Hu).
  exists h'. split_and!; [|done|done| |].
  - unfold FTL_handle_finish. erewrite bind_run by by apply try_get_run.
    erewrite bind_run by by apply load_hcmd_run. erewrite bind_run by done.
    erewrite bind_run; [done|]. unfold on_hcl, zoom. simpl. by rewrite E.
  - unfold hcmd_load. rewrite Hq', list_lookup_insert_eq; [done|].
    rewrite (hcl_wf_queue _ Hw). apply hk.
  - intros j Hj. unfold hcmd_load. by rewrite Hq', list_lookup_insert_ne.
Qed.
End handlers.

(** ** FTL_handle_tosq *)
Lemma on_hw_run {A} (f : hw_queues → option (A * hw_queues)) s a h :
  f (e_hw s) = Some (a, h) → on_hw f s = Some (a, s <| e_hw := h |>).
Proof. intros E. unfold on_hw, zoom. by rewrite E. Qed.
Lemma on_be_run {A} (f : backend → option (A * backend)) s a b :
  f (e_be s) = Some (a, b) → on_be f s = Some (a, s <| e_be := b |>).
Proof. intros E. unfold on_be, zoom. by rewrite E. Qed.
Lemma on_shm_run {A} (f : shm → option (A * shm)) s a b :
  f (e_shm s) = Some (a, b) → on_shm f s = Some (a, s <| e_shm := b |>).
Proof. intros E. unfold on_shm, zoom. by rewrite E. Qed.
Lemma on_tq_run {A} (f : task_queues → option (A * task_queues)) s a b :
  f (e_tq s) = Some (a, b) → on_tq f s = Some (a, s <| e_tq := b |>).
Proof. intros E. unfold on_tq, zoom. by rewrite E. Qed.
Lemma on_hcl_run {A} (f : hcl → option (A * hcl)) s a b :
  f (e_hcl s) = Some (a, b) → on_hcl f s = Some (a, s <| e_hcl := b |>).
Proof. intros E. unfold on_hcl, zoom. by rewrite E. Qed.
Lemma no_result_run {S} (f : S → option S) s s' :
  f s = Some s' → no_result f s = Some (tt, s').
Proof. intros E. unfold no_result. by rewrite E. Qed.

Lemma SQ_upd_bitmap ch s s' k :
  hw_sq_bitmap s' = hw_sq_bitmap s → sq_used ch s' k = sq_used ch s k.
Proof. intros E. unfold sq_used. by rewrite E. Qed.

Section tosq.
Context (mem_base : Z) (uninit_ppa : phy_page_addr) (s : emu) (k : nat) (e : host_cmd_entry).
Context (F : nat → list nat) (reg held comp : list nat).
Context (Hw : hcl_wf (e_hcl s)) (He : hcmd_load k (e_hcl s) = Some e).
Context (Hq : tqs_rep (e_tq s) F) (Hroom : (length (F 1%nat) < 256)%nat).
Context (Hh : hwq_wf (e_hw s)) (Hbe : be_rep (e_be s) reg held comp).

(** Sending one entry to the back end. *)
Lemma send_until_run i entry s0 :
  SQ_entry 1 i (e_hw s0) = Some entry → be_rep (e_be s0) reg held comp →
  ∃ b', send_until 1 i 1 0 s0 = Some (tt, s0 <| e_be := b' |>) ∧
    be_rep b' (reg ++ [be_fresh (e_be s0)]) held comp ∧
    be_sqs b' = <[be_fresh (e_be s0) := EmuSq 1 0 i entry]> (be_sqs (e_be s0)) ∧
    be_fresh b' = S (be_fresh (e_be s0)).
Proof using Type.
  intros Hi Hb. destruct (BE_send_sq_spec _ reg held comp i entry 1 0 Hb)
    as (b' & E & Hb' & Hs' & Hf'). exists b'. split; [|done].
  assert (FCL_send_SQ_entry i 1 0 s0 = Some (SUCCESS, s0 <| e_be := b' |>)) as Ef.
  { unfold FCL_send_SQ_entry. erewrite bind_run by (apply try_get_run; exact Hi).
    by erewrite bind_run by (apply on_be_run, no_result_run; exact E). }
  cbn [send_until]. rewrite (bind_run _ _ _ _ _ Ef). by rewrite decide_False.
Qed.

(** With a free entry of channel 1, the command goes to the back end in it. *)
Lemma tosq_spec :
  (∃ j, (j < 256)%nat ∧ sq_used 1 (e_hw s) j = false) →
  ∃ e' j hw' be' entry, FTL_handle_tosq mem_base uninit_ppa (Some k) s =
      Some (SUCCESS, s <| e_hcl := hcl_put k e' (e_hcl s) |> <| e_hw := hw' |>
                       <| e_tmp_sq_index := Z.of_nat j |> <| e_be := be' |>) ∧
    same_cmd e e' ∧ Hcl.nvme_dma_cpl e' = Hcl.nvme_dma_cpl e ∧
    (j < 256)%nat ∧ sq_used 1 (e_hw s) j = false ∧ hwq_wf hw' ∧
    (∀ i, (i < 256)%nat → sq_used 1 hw' i = bool_decide (i = j) || sq_used 1 (e_hw s) i) ∧
    be_rep be' (reg ++ [be_fresh (e_be s)]) held comp ∧
    be_sqs be' = <[be_fresh (e_be s) := EmuSq 1 0 (Z.of_nat j) entry]> (be_sqs (e_be s)) ∧
    be_fresh be' = S (be_fresh (e_be s)) ∧ length entry = 4%nat ∧
    bf_get hcmd_index entry = Z.of_nat k ∧ bf_get op entry = wrap 2 (Hcl.op_code e).
Proof using All.
  intros (j0 & Hj0 & Hj0').
  assert (k < 256)%nat as Hk by by eapply hcl_load_lt.
  unfold FTL_handle_tosq. erewrite bind_run by by apply load_hcmd_run.
  erewrite bind_run by by apply (store_hcmd_run k _ s e He). cbv beta.
  set (e0 := e <| Hcl.buf_cnt := 1 |>). set (s0 := s <| e_hcl := _ |>).
  assert (hcmd_load k (e_hcl s0) = Some e0) as He0 by apply (load_put s k _ Hw Hk).
  erewrite bind_run by by apply (load_hcmd_run k s0 e0). cbv beta.
  change (Hcl.buf_cnt e0) with 1. rewrite hcmd_index_addr by done.
  destruct (FCL_get_free_spec (e_hw s) 1 Hh ltac:(lia))
    as (r & hw1 & Eg & Hw1 & Hsq1 & _ & [(j & -> & Hj & Hju & _ & Hu1)|(_ & _ & Hfull)]); last first.
  { by rewrite Hfull in Hj0'. }
  set (entryf := set_SQ_fields mem_base (Z.of_nat k) 0 (Hcl.op_code e) HCMD_SPACE
                   (nand_flash_addr (tosq_ppa uninit_ppa 20))).
  destruct (SQ_upd_spec hw1 1 j entryf Hw1 ltac:(lia) Hj) as
    (en & hw2 & _ & Hen & Eu & Hw2 & Hbm & Hent & _).
  { intros. by apply set_SQ_length. }
  set (s2 := s0 <| e_hw := hw2 |> <| e_tmp_sq_index := Z.of_nat j |>).
  destruct (send_until_run (Z.of_nat j) (entryf en) s2 Hent Hbe) as (b' & Es & Hb' & Hsq & Hf).
  assert (tosq_loop mem_base uninit_ppa 2 k (Z.of_nat k) (Hcl.op_code e) 0 1 s0 =
    Some (Some 1, s2 <| e_be := b' |>)) as Eloop.
  { cbn [tosq_loop]. rewrite decide_True by lia. change (ppa_ch (tosq_ppa uninit_ppa 20)) with 1.
    change (ppa_ce (tosq_ppa uninit_ppa 20)) with 0.
    rewrite (bind_run _ _ _ _ _ (on_hw_run _ s0 _ _ Eg)). erewrite bind_run by done.
    rewrite decide_False by (unfold INVALID_ID; lia).
    erewrite bind_run by (apply on_hw_run, no_result_run; exact Eu).
    rewrite (bind_run (send_until 1 (Z.of_nat j) 1 0) _ _ _ _ Es). done. }
  rewrite (bind_run _ _ _ _ _ Eloop).
  erewrite bind_run by (apply (store_hcmd_run k _ _ e0); exact He0). cbv beta.
  exists (e0 <| Hcl.send_sq_cnt := 1 |>), j, hw2, b', (entryf en). split_and!; try spec_done.
  - simpl. by rewrite hcl_put_put.
  - intros i Hi. rewrite <- Hu1 by done. by apply SQ_upd_bitmap.
  - by apply set_SQ_length.
  - subst entryf. destruct (set_SQ_common mem_base (Z.of_nat k) 0 (Hcl.op_code e) HCMD_SPACE
      (nand_flash_addr (tosq_ppa uninit_ppa 20)) en Hen) as (_ & _ & -> & _).
    apply wrap_small. split; [lia|]. change (2 ^ bf_width hcmd_index) with 256. lia.
  - apply (set_SQ_common mem_base (Z.of_nat k) 0 (Hcl.op_code e) HCMD_SPACE
      (nand_flash_addr (tosq_ppa uninit_ppa 20)) en Hen).
Qed.

(** With every entry in flight the command is queued again. *)
Lemma tosq_full_spec :
  (∀ j, (j < 256)%nat → sq_used 1 (e_hw s) j = true) →
  ∃ e' q', FTL_handle_tosq mem_base uninit_ppa (Some k) s =
      Some (FAIL, s <| e_hcl := hcl_put k e' (e_hcl s) |> <| e_tmp_sq_index := INVALID_ID |>
                    <| e_tq := q' |>) ∧
    same_cmd e e' ∧ Hcl.nvme_dma_cpl e' = Hcl.nvme_dma_cpl e ∧
    tqs_rep q' (<[1%nat := F 1%nat ++ [k]]> F).
Proof using All.
  intros Hall. assert (k < 256)%nat as Hk by by eapply hcl_load_lt.
  unfold FTL_handle_tosq. erewrite bind_run by by apply load_hcmd_run.
  erewrite bind_run by by apply (store_hcmd_run k _ s e He). cbv beta.
  set (e0 := e <| Hcl.buf_cnt := 1 |>). set (s0 := s <| e_hcl := _ |>).
  assert (hcmd_load k (e_hcl s0) = Some e0) as He0 by apply (load_put s k _ Hw Hk).
  erewrite bind_run by by apply (load_hcmd_run k s0 e0). cbv beta.
  change (Hcl.buf_cnt e0) with 1. rewrite hcmd_index_addr by done.
  destruct (FCL_get_free_spec (e_hw s) 1 Hh ltac:(lia))
    as (r & hw1 & Eg & Hw1 & Hsq1 & _ & [(j & -> & Hj & Hju & _ & Hu1)|(-> & -> & _)]).
  { by rewrite Hall in Hju. }
  set (s2 := s0 <| e_tmp_sq_index := INVALID_ID |>).
  destruct (send_run k 1 s2 e0 F Hq ltac:(lia) He0 Hroom) as (q' & E & Hq').
  change (Z.of_nat 1) with HCE_TO_SQ in E.
  exists e0, q'. split; [|spec_done].
  assert (tosq_loop mem_base uninit_ppa 2 k (Z.of_nat k) (Hcl.op_code e) 0 1 s0 =
    Some (None, s2 <| e_tq := q' |>)) as Eloop.
  { cbn [tosq_loop]. rewrite decide_True by lia.
    change (ppa_ch (tosq_ppa uninit_ppa 20)) with 1.
    rewrite (bind_run _ _ _ _ _ (on_hw_run _ s0 _ _ Eg)). erewrite bind_run by done.
    rewrite decide_True by done. by erewrite (bind_run (FTL_sendhcmd k HCE_TO_SQ)) by exact E. }
  by rewrite (bind_run _ _ _ _ _ Eloop).
Qed.
End tosq.

(** ** FTL_CQ_polling *)
Section cq.
Context (s : emu) (k n j : nat) (e : host_cmd_entry) (sq : EMU_sq).
Context (F : nat → list nat) (reg held comp : list nat).
Context (Hw : hcl_wf (e_hcl s)) (He : hcmd_load k (e_hcl s) = Some e).
Context (Hq : tqs_rep (e_tq s) F) (Hroom : (length (F 3%nat) < 256)%nat).
Context (Hh : hwq_wf (e_hw s)) (Hbe : be_rep (e_be s) reg held (n :: comp)).
Context (Hsq : be_sqs (e_be s) !! n = Some sq) (Hch : es_ch sq = 1) (Hj : (j < 256)%nat)
  (Hidx : es_index sq = Z.of_nat j) (Hcmd : bf_get hcmd_index (es_entry sq) = Z.of_nat k).

(** The first completed node is freed with its queue entry; the command goes
    on when all its pages are done. *)
Lemma cq_body_spec :
  let e' := e <| Hcl.cpl_cnt := u32 (Hcl.cpl_cnt e + 1) |> in
  ∃ hw' q' be', cq_body n s =
      Some (tt, s <| e_hcl := hcl_put k e' (e_hcl s) |> <| e_hw := hw' |> <| e_tq := q' |>
                  <| e_be := be' |>) ∧
    hwq_wf hw' ∧
    (∀ i, (i < 256)%nat → sq_used 1 hw' i = negb (bool_decide (i = j)) && sq_used 1 (e_hw s) i) ∧
    tqs_rep q' (if decide (Hcl.cpl_cnt e' = Hcl.req_num e)
                then <[3%nat := F 3%nat ++ [k]]> F else F) ∧
    be_rep be' reg held comp ∧ be_sqs be' = delete n (be_sqs (e_be s)) ∧
    be_fresh be' = be_fresh (e_be s).
Proof using All.
  intros e'. assert (k < 256)%nat as Hk by by eapply hcl_load_lt.
  destruct (FCL_free_spec (e_hw s) 1 j Hh ltac:(lia) Hj) as (hw' & Ef & Hw' & _ & _ & Hu).
  destruct (be_pop_spec _ _ _ _ _ Hbe) as (N' & Ed & Hbe').
  unfold cq_body. erewrite bind_run by (apply try_get_run; exact Hsq). rewrite Hch, Hidx, Hcmd.
  erewrite bind_run by (apply on_hw_run, no_result_run; exact Ef).
  unfold HCL_get_hcmd_entry_addr. rewrite Nat2Z.id.
  set (s1 := s <| e_hw := hw' |>).
  erewrite bind_run by by apply (store_hcmd_run k _ s1 e He). cbv beta.
  set (s2 := s1 <| e_hcl := _ |>).
  assert (hcmd_load k (e_hcl s2) = Some e') as He2 by apply (load_put s k _ Hw Hk).
  erewrite bind_run by by apply (load_hcmd_run k s2 e'). cbv beta.
  change (Hcl.req_num e') with (Hcl.req_num e).
  assert (∀ s3 : emu, e_be s3 = e_be s →
    on_be (λ b, h ← list_delete_head (Some complete_list) (be_nodes b);
                Some (tt, be_free n (b <| be_nodes := h |>))) s3 =
    Some (tt, s3 <| e_be := be_free n ((e_be s) <| be_nodes := N' |>) |>)) as Epop.
  { intros s3 E3. apply on_be_run. by rewrite E3, Ed. }
  case_decide as Ec.
  - destruct (send_run k 3 s2 e' F Hq ltac:(lia) He2 Hroom) as (q' & E & Hq').
    change (Z.of_nat 3) with HCE_FROM_CQ in E.
    exists hw', q', (be_free n ((e_be s) <| be_nodes := N' |>)).
    rewrite (bind_run _ _ _ _ _ E), Epop by done. done.
  - exists hw', (e_tq s), (be_free n ((e_be s) <| be_nodes := N' |>)).
    erewrite bind_run by done. by rewrite Epop.
Qed.
End cq.

(** ** FTL_nvme_req_polling *)
Section nvme.
Context (s : emu) (F : nat → list nat) (f r p : list Z) (i : Z) (scmd : shm_cmd).
Context (Hw : hcl_wf (e_hcl s)) (Hq : tqs_rep (e_tq s) F) (Hroom : (length (F 0%nat) < 256)%nat).
Context (Hsh : shm_lists (e_shm s) (abs f r p)) (Hctrl : ctrl (e_shm s) = 0).
Context (Hi : 0 ≤ i < CMD_SLOT_NUM) (Hif : i ∉ f) (Hir : i ∉ r) (Hip : i ∉ p).

(** The lowest free entry takes the command, and the slot is free again. *)
Lemma nvme_accept_spec :
  (∃ j, (j < 256)%nat ∧ hcl_used (e_hcl s) j = false) →
  ∃ k e h' q' sh', nvme_accept i scmd s =
      Some (tt, s <| e_emu_id := e_emu_id s + 1 |> <| e_hcl := h' |> <| e_tq := q' |>
                  <| e_shm := sh' |>) ∧
    (k < 256)%nat ∧ hcl_used (e_hcl s) k = false ∧ hcmd_load k (e_hcl s) = Some e ∧ hcl_wf h' ∧
    (∀ j, (j < 256)%nat → hcl_used h' j = bool_decide (j = k) || hcl_used (e_hcl s) j) ∧
    (∀ j, hcmd_load j h' = if decide (j = k) then Some (fill_hcmd scmd i (e_emu_id s + 1) e)
                           else hcmd_load j (e_hcl s)) ∧
    tqs_rep q' (<[0%nat := F 0%nat ++ [k]]> F) ∧
    ctrl sh' = 0 ∧ shm_lists sh' (abs (f ++ [i]) r p) ∧
    ∀ x, slot_payload sh' x = slot_payload (e_shm s) x.
Proof using All.
  intros (j0 & Hj0 & Hf0).
  destruct (HCL_get_spec (e_hcl s) Hw) as (o & h1 & Eg & Hw1 & Hq1 & Ho).
  destruct o as [k|]; [|by destruct Ho as [_ Ho]; rewrite Ho in Hf0].
  destruct Ho as (Hk & Hfree & _ & Hu).
  destruct (hcl_load_some h1 k Hw1 Hk) as [e He].
  set (e' := fill_hcmd scmd i (e_emu_id s + 1) e).
  set (s1 := s <| e_hcl := h1 |> <| e_emu_id := e_emu_id s + 1 |>).
  set (s2 := s1 <| e_hcl := hcl_put k e' h1 |>).
  assert (hcmd_load k (e_hcl s2) = Some e') as He2 by apply (load_put s1 k _ Hw1 Hk).
  destruct (send_run k 0 s2 e' F Hq ltac:(lia) He2 Hroom) as (q' & Es & Hq').
  change (Z.of_nat 0) with HCE_CHECK_CACHE in Es.
  destruct (SHM_add_free_list_spec (e_shm s) f r p i Hsh Hctrl Hi Hif Hir Hip)
    as (sh' & Ea & Hc' & Hsh' & Hpl).
  exists k, e, (hcl_put k e' h1), q', sh'. split_and!; [|done|done| | | | |done..].
  - unfold nvme_accept. rewrite (bind_run _ _ _ _ _ (on_hcl_run _ s _ _ Eg)).
    erewrite bind_run by done. erewrite bind_run by done.
    erewrite bind_run by by apply (store_hcmd_run k _ s1 e He).
    change (s1 <| e_hcl := _ |>) with s2.
    rewrite (bind_run (FTL_sendhcmd k HCE_CHECK_CACHE) _ _ _ _ Es).
    apply on_shm_run, no_result_run. exact Ea.
  - unfold hcmd_load in *. by rewrite <- Hq1.
  - by apply hcl_put_wf.
  - exact Hu.
  - intros j. rewrite hcl_put_load by done. unfold hcmd_load. by rewrite Hq1.
Qed.

(** With every entry taken the command goes back to the end of RDY. *)
Lemma nvme_retry_spec :
  (∀ j, (j < 256)%nat → hcl_used (e_hcl s) j = true) →
  ∃ sh', nvme_accept i scmd s = Some (tt, s <| e_shm := sh' |>) ∧
    ctrl sh' = 0 ∧ shm_lists sh' (abs f (r ++ [i]) p) ∧
    slot_payload sh' i = Some (payload scmd) ∧
    ∀ x, x ≠ i → slot_payload sh' x = slot_payload (e_shm s) x.
Proof using Hw Hsh Hctrl Hi Hif Hir Hip.
  intros Hall. destruct (HCL_get_spec (e_hcl s) Hw) as (o & h1 & Eg & Hw1 & Hq1 & Ho).
  destruct o as [k|]; [destruct Ho as (Hk & Hfree & _); by rewrite Hall in Hfree|].
  destruct Ho as [-> _].
  destruct (SHM_add_rdy_list_spec (e_shm s) f r p i scmd Hsh Hctrl Hi Hif Hir Hip)
    as (sh' & Ea & Hc' & Hsh' & Hpl). exists sh'. split; [|done].
  unfold nvme_accept. rewrite (bind_run _ _ _ _ _ (on_hcl_run _ s _ _ Eg)).
  rewrite emu_hcl_same.
  apply on_shm_run, no_result_run. exact Ea.
Qed.
End nvme.
