(* ===== verification/Pipeline.v ===== *)
(** * The command pipeline: abstract specification

    What host, FTL and back end promise together, without the data structures:
    a command waits in a slot of the shared segment, is accepted into one of
    256 table entries, and moves from place to place until its entry is free
    again.  [System] shows that the program's steps are steps of this machine;
    here are its invariant, the variant that makes it drain, and the fate of
    each command. *)
From stdpp Require Import functions.
From S2P Require Import Prelude CInt Shm Hcl.
#[local] Open Scope Z_scope.

(** ** States *)

(** Where a command can be: one of the task queues, or with the back end (on
    [register_list], being worked on, on [complete_list]). *)
Inductive place := CheckCache | ToSq | DataMoved | FromCq | Finish | Registered | Held | Completed.
#[export] Instance place_eq_dec : EqDecision place.
Proof. solve_decision. Defined.

Definition places : list place :=
  [CheckCache; ToSq; DataMoved; FromCq; Finish; Registered; Held; Completed].

Record acmd := ACmd { a_op : Z; a_req : Z; a_cpl : Z }.

(** Operation, logical page and size, as the host wrote them. *)
Abbreviation request := (Z * Z * Z)%type.

Record pipe := Pipe {
  p_free : list Z;                       (** slots the host may use *)
  p_rdy : list (Z * request);            (** slots with a command *)
  p_pend : option (Z * request);         (** taken from its slot, not yet accepted *)
  p_cmd : gmap nat acmd;                 (** the entries in use *)
  p_at : place → list nat;
}.
#[export] Instance pipe_eta : Settable pipe :=
  λ r, Pipe (p_free r) (p_rdy r) (p_pend r) (p_cmd r) (p_at r).

(** ** Steps *)

(** The entry FTL_nvme_req_polling fills in. *)
Definition accepted (r : request) : acmd :=
  let '(op, _, size) := r in
  ACmd (if decide (op = SHM_WRITE_OPS) then HCE_WRITE
        else if decide (op = SHM_READ_OPS) then HCE_READ else 0)
       (size / 4096 / 4) 0.

#[global] Arguments accepted : simpl never.

(** What happens to a command at the head of a place: its new entry ([None]
    when it is freed) and the place it goes to ([None] when it goes nowhere). *)
Definition advance (a : place) (c : acmd) : option acmd * option place :=
  match a with
  | CheckCache => (Some c, if decide (a_op c = HCE_WRITE) then Some DataMoved
                           else if decide (a_op c = HCE_READ) then Some ToSq else None)
  | ToSq => (Some c, Some Registered)
  | DataMoved => (Some c, if decide (a_op c = HCE_READ) then Some Finish else Some ToSq)
  | FromCq => (Some c, if decide (a_op c = HCE_WRITE) then Some Finish else Some DataMoved)
  | Finish => (None, None)
  | Registered => (Some c, Some Held)
  | Held => (Some c, Some Completed)
  | Completed =>
      let c' := ACmd (a_op c) (a_req c) (u32 (a_cpl c + 1)) in
      (Some c', if decide (a_cpl c' = a_req c) then Some FromCq else None)
  end.

Definition put_at (a : option place) (k : nat) (F : place → list nat) : place → list nat :=
  match a with Some b => <[b := F b ++ [k]]> F | None => F end.

Definition move (a : place) (k : nat) (l : list nat) (c : acmd) (p : pipe) : pipe :=
  p <| p_cmd := partial_alter (λ _, (advance a c).1) k (p_cmd p) |>
    <| p_at := put_at (advance a c).2 k (<[a := l]> (p_at p)) |>.

(** A step of the firmware or the back end on an accepted command; the back
    end holds one command at a time. *)
Inductive pmove : pipe → pipe → Prop :=
  | P_move a k l c p :
      p_at p a = k :: l → p_cmd p !! k = Some c → (a = Registered → p_at p Held = []) →
      pmove p (move a k l c p).

Inductive pstep : pipe → pipe → Prop :=
  | P_submit i f r p :
      p_free p = i :: f → 0 ≤ r.2 < 2 ^ 32 →
      pstep p (p <| p_free := f |> <| p_rdy := p_rdy p ++ [(i, r)] |>)
  | P_get i q r p :
      p_pend p = None → p_rdy p = (i, q) :: r →
      pstep p (p <| p_pend := Some (i, q) |> <| p_rdy := r |>)
  | P_accept i q k p :
      p_pend p = Some (i, q) → p_cmd p !! k = None → (k < 256)%nat →
      pstep p (p <| p_pend := None |> <| p_free := p_free p ++ [i] |>
                 <| p_cmd := <[k := accepted q]> (p_cmd p) |>
                 <| p_at := <[CheckCache := p_at p CheckCache ++ [k]]> (p_at p) |>)
  | P_retry i q p :
      p_pend p = Some (i, q) → (∀ k, (k < 256)%nat → is_Some (p_cmd p !! k)) →
      pstep p (p <| p_pend := None |> <| p_rdy := p_rdy p ++ [(i, q)] |>)
  | P_work p p' : pmove p p' → pstep p p'.

(** Of these steps, those that only wait (a command is taken from its slot, or given
    back because no entry is free), and the one that accepts a command. *)
Inductive pwait : pipe → pipe → Prop :=
  | Wait_nothing p : pwait p p
  | Wait_get i q r p :
      p_pend p = None → p_rdy p = (i, q) :: r →
      pwait p (p <| p_pend := Some (i, q) |> <| p_rdy := r |>)
  | Wait_retry i q p :
      p_pend p = Some (i, q) → (∀ k, (k < 256)%nat → is_Some (p_cmd p !! k)) →
      pwait p (p <| p_pend := None |> <| p_rdy := p_rdy p ++ [(i, q)] |>).
Inductive paccept : pipe → pipe → Prop :=
  | Accept i q k p :
      p_pend p = Some (i, q) → p_cmd p !! k = None → (k < 256)%nat →
      paccept p (p <| p_pend := None |> <| p_free := p_free p ++ [i] |>
                   <| p_cmd := <[k := accepted q]> (p_cmd p) |>
                   <| p_at := <[CheckCache := p_at p CheckCache ++ [k]]> (p_at p) |>).

Lemma pwait_steps p p' : pwait p p' → rtc pstep p p'.
Proof.
  intros [p0|i q r p0 Hn Hr|i q p0 Hn Hf]; [done|by eapply rtc_once, P_get|by eapply rtc_once, P_retry].
Qed.
Lemma paccept_step p p' : paccept p p' → pstep p p'.
Proof. intros [i q k p0 Hn Hk Hlt]. by eapply P_accept. Qed.

Definition pipe_init : pipe := Pipe (seqZ 0 CMD_SLOT_NUM) [] None ∅ (λ _, []).

(** ** The commands on their way *)
Definition pairs (F : place → list nat) : list (place * nat) :=
  places ≫= λ a, (a,.) <$> F a.
Definition live (F : place → list nat) : list nat := places ≫= F.

Lemma elem_of_places a : a ∈ places.
Proof. unfold places. destruct a; set_solver. Qed.

Lemma elem_of_pairs F a k : (a, k) ∈ pairs F ↔ k ∈ F a.
Proof.
  unfold pairs. rewrite list_elem_of_bind. setoid_rewrite list_elem_of_fmap. split.
  - intros (b & (j & [= -> ->] & Hj) & _). done.
  - intros Hk. exists a. split; [by exists k|apply elem_of_places].
Qed.

Lemma live_pairs F : live F = (pairs F).*2.
Proof.
  unfold live, pairs, places. simpl. rewrite !fmap_app. simpl.
  by rewrite <- !list_fmap_compose, !list_fmap_id.
Qed.

Lemma elem_of_live F k : k ∈ live F ↔ ∃ a, k ∈ F a.
Proof.
  unfold live. rewrite list_elem_of_bind. split; [naive_solver|].
  intros [a Ha]. exists a. split; [done|apply elem_of_places].
Qed.

Lemma fn_insert_id (F : place → list nat) a b : (<[a := F a]> F) b = F b.
Proof.
  destruct (decide (b = a)) as [->|]; [by rewrite fn_lookup_insert|by rewrite fn_lookup_insert_ne].
Qed.

(** Look up updated functions. *)
Ltac fn_simpl := repeat first [rewrite fn_lookup_insert|rewrite fn_lookup_insert_ne by done].

(** Replacing one place's sequence. *)
Lemma pairs_insert F a l1 l2 (k : nat) :
  l1 ≡ₚ k :: l2 → pairs (<[a := l1]> F) ≡ₚ (a, k) :: pairs (<[a := l2]> F).
Proof.
  intros Hl. unfold pairs.
  assert (∀ ps, a ∉ ps → (ps ≫= λ b, (b,.) <$> (<[a := l1]> F) b) =
                        (ps ≫= λ b, (b,.) <$> (<[a := l2]> F) b)) as Hout.
  { intros ps. induction ps as [|b ps IH]; [done|]. intros [? ?]%not_elem_of_cons.
    rewrite !bind_cons, !fn_lookup_insert_ne by done. by rewrite IH. }
  assert (NoDup places) as Hnd by (apply (bool_decide_unpack _); by vm_compute).
  pose proof (elem_of_places a) as Ha. induction places as [|b ps IH]; [by apply elem_of_nil in Ha|].
  apply NoDup_cons in Hnd as [Hb Hnd]. rewrite !bind_cons. destruct (decide (b = a)) as [->|Hne].
  - rewrite !fn_lookup_insert, Hout by done. by rewrite Hl.
  - rewrite !fn_lookup_insert_ne by done. rewrite IH; [|done|].
    + by rewrite Permutation_middle.
    + by apply elem_of_cons in Ha as [->|?].
Qed.

Lemma pairs_take F a k l : F a = k :: l → pairs F ≡ₚ (a, k) :: pairs (<[a := l]> F).
Proof.
  intros Hf. rewrite <- (pairs_insert F a (F a) l k) by by rewrite Hf.
  unfold pairs, places. simpl. by rewrite !fn_insert_id.
Qed.

Lemma pairs_put F a k : pairs (<[a := F a ++ [k]]> F) ≡ₚ (a, k) :: pairs F.
Proof.
  rewrite (pairs_insert F a _ (F a) k) by by rewrite <- Permutation_cons_append.
  unfold pairs, places. simpl. by rewrite !fn_insert_id.
Qed.

Lemma pairs_move F a k l b :
  F a = k :: l →
  pairs F ≡ₚ (a, k) :: pairs (<[a := l]> F) ∧
  pairs (put_at b k (<[a := l]> F)) ≡ₚ
    match b with Some b => (b, k) :: pairs (<[a := l]> F) | None => pairs (<[a := l]> F) end.
Proof.
  intros Hf. split; [by apply pairs_take|]. destruct b; [|done]. apply pairs_put.
Qed.

(** ** Invariant *)

(** A command the pipeline can finish: a read or a write of one 16K page. *)
Definition well_formed (c : acmd) : Prop :=
  (a_op c = HCE_READ ∨ a_op c = HCE_WRITE) ∧ a_req c = 1.
#[export] Instance well_formed_dec c : Decision (well_formed c).
Proof. unfold well_formed. apply _. Defined.

(** What is known of a command at each place. *)
Definition stage_ok (a : place) (c : acmd) : Prop :=
  match a with
  | CheckCache => a_cpl c = 0
  | ToSq | Registered | Held | Completed =>
      a_cpl c = 0 ∧ (a_op c = HCE_READ ∨ a_op c = HCE_WRITE)
  | DataMoved => a_op c = HCE_WRITE ∧ a_cpl c = 0 ∨ a_op c = HCE_READ ∧ a_req c = 1
  | FromCq | Finish => well_formed c
  end.

Definition pending (p : pipe) : list Z := match p_pend p with Some (i, _) => [i] | None => [] end.

Record pipe_inv (p : pipe) : Prop := {
  pi_nodup : NoDup (live (p_at p));                      (** a command is in one place *)
  pi_live a k : k ∈ p_at p a → ∃ c, p_cmd p !! k = Some c ∧ stage_ok a c;
  pi_lost k c : p_cmd p !! k = Some c → k ∉ live (p_at p) → ¬ well_formed c;
  pi_range k c : p_cmd p !! k = Some c → (k < 256)%nat ∧ 0 ≤ a_req c < 2 ^ 32;
  pi_held : (length (p_at p Held) ≤ 1)%nat;
  pi_slots : p_free p ++ (p_rdy p).*1 ++ pending p ≡ₚ seqZ 0 CMD_SLOT_NUM;
  pi_sizes i r : (i, r) ∈ p_rdy p ∨ p_pend p = Some (i, r) → 0 ≤ r.2 < 2 ^ 32;
}.

Lemma pi_pair p a k : pipe_inv p → (a, k) ∈ pairs (p_at p) → ∃ c, p_cmd p !! k = Some c ∧ stage_ok a c.
Proof. intros Hp Hk%elem_of_pairs. by eapply pi_live. Qed.

(** The invariant stated on pairs, which is what moves permute. *)
Definition cmds_ok (m : gmap nat acmd) (ps : list (place * nat)) : Prop :=
  NoDup ps.*2 ∧
  (∀ a k, (a, k) ∈ ps → ∃ c, m !! k = Some c ∧ stage_ok a c) ∧
  (∀ k c, m !! k = Some c → k ∉ ps.*2 → ¬ well_formed c) ∧
  (∀ k c, m !! k = Some c → (k < 256)%nat ∧ 0 ≤ a_req c < 2 ^ 32).

#[export] Instance cmds_ok_proper m : Proper ((≡ₚ) ==> iff) (cmds_ok m).
Proof.
  intros ps ps' Hp. unfold cmds_ok. setoid_rewrite Hp. done.
Qed.

Lemma cmds_ok_inv p :
  pipe_inv p → cmds_ok (p_cmd p) (pairs (p_at p)).
Proof.
  intros [H1 H2 H3 H4 _ _ _]. rewrite live_pairs in H1. setoid_rewrite live_pairs in H3.
  split_and!; [done| |done|done]. intros a k Hk%elem_of_pairs. by apply H2.
Qed.

Lemma inv_cmds_ok p :
  cmds_ok (p_cmd p) (pairs (p_at p)) → (length (p_at p Held) ≤ 1)%nat →
  p_free p ++ (p_rdy p).*1 ++ pending p ≡ₚ seqZ 0 CMD_SLOT_NUM →
  (∀ i r, (i, r) ∈ p_rdy p ∨ p_pend p = Some (i, r) → 0 ≤ r.2 < 2 ^ 32) → pipe_inv p.
Proof.
  intros (H1 & H2 & H3 & H4) ? ? ?. split; [by rewrite live_pairs| | |done..].
  - intros a k Hk. apply H2. by apply elem_of_pairs.
  - intros k c. rewrite live_pairs. apply H3.
Qed.

(** A command arriving at a place, one leaving its place for good, and one
    changing both entry and place. *)
Lemma cmds_ok_move m ps a b k c c' :
  cmds_ok m ((a, k) :: ps) → m !! k = Some c → a_req c' = a_req c → stage_ok b c' →
  cmds_ok (<[k := c']> m) ((b, k) :: ps).
Proof.
  intros (H1 & H2 & H3 & H4) Hk Hr Hb. rewrite fmap_cons in *. apply NoDup_cons in H1 as [Hk1 H1].
  split_and!.
  - by constructor.
  - intros a' j [[= -> ->]|Hj]%elem_of_cons.
    + exists c'. by rewrite lookup_insert_eq.
    + rewrite lookup_insert_ne; [apply H2; by right|].
      intros <-. apply Hk1. by apply (list_elem_of_fmap_2 snd) in Hj.
  - intros j d. destruct (decide (j = k)) as [->|].
    + intros _ []. left.
    + rewrite lookup_insert_ne by done. apply H3.
  - intros j d. rewrite lookup_insert_Some. intros [[<- <-]|[_ Hj]]; [|by apply H4].
    rewrite Hr. by eapply H4.
Qed.

Lemma cmds_ok_lose m ps a k c c' :
  cmds_ok m ((a, k) :: ps) → m !! k = Some c → a_req c' = a_req c → ¬ well_formed c' →
  cmds_ok (<[k := c']> m) ps.
Proof.
  intros (H1 & H2 & H3 & H4) Hk Hr Hb. rewrite fmap_cons in *. apply NoDup_cons in H1 as [Hk1 H1].
  split_and!; [done| | |].
  - intros a' j Hj. rewrite lookup_insert_ne; [apply H2; by right|].
    intros <-. apply Hk1. by apply (list_elem_of_fmap_2 snd) in Hj.
  - intros j d. rewrite lookup_insert_Some. intros [[<- <-]|[Hne Hj]]; [done|].
    intros Hn. apply (H3 j d Hj). rewrite elem_of_cons. by intros [->|?].
  - intros j d. rewrite lookup_insert_Some. intros [[<- <-]|[_ Hj]]; [|by apply H4].
    rewrite Hr. by eapply H4.
Qed.

Lemma cmds_ok_delete m ps a k :
  cmds_ok m ((a, k) :: ps) → cmds_ok (delete k m) ps.
Proof.
  intros (H1 & H2 & H3 & H4). rewrite fmap_cons in *. apply NoDup_cons in H1 as [Hk1 H1].
  split_and!; [done| | |].
  - intros a' j Hj. rewrite lookup_delete_ne; [apply H2; by right|].
    intros <-. apply Hk1. by apply (list_elem_of_fmap_2 snd) in Hj.
  - intros j d [Hne Hj]%lookup_delete_Some Hn. apply (H3 j d Hj). rewrite elem_of_cons. by intros [->|?].
  - intros j d [_ Hj]%lookup_delete_Some. by apply H4.
Qed.

(** The stage a command reaches, or the reason it stops. *)
Lemma advance_ok a c :
  stage_ok a c → 0 ≤ a_req c < 2 ^ 32 →
  match advance a c with
  | (Some c', Some b) => a_req c' = a_req c ∧ stage_ok b c'
  | (Some c', None) => a_req c' = a_req c ∧ ¬ well_formed c'
  | (None, b) => a = Finish ∧ b = None
  end.
Proof.
  intros Hs _. destruct c as [o r l].
  destruct a; unfold stage_ok, well_formed, advance in *; cbn [a_op a_req a_cpl] in *;
    try match type of Hs with _ = 0 ∧ _ => destruct Hs as [-> Hs]; change (u32 (0 + 1)) with 1 end;
    repeat case_decide; cbn [fst snd]; split; try reflexivity; unfold HCE_READ, HCE_WRITE in *;
    cbn [a_op a_req a_cpl]; try tauto; intuition (try lia).
Qed.

Lemma accepted_ok q : 0 ≤ q.2 < 2 ^ 32 →
  stage_ok CheckCache (accepted q) ∧ 0 ≤ a_req (accepted q) < 2 ^ 32.
Proof. unfold accepted. destruct q as [[op lp] sz]. simpl. change (2 ^ 32) with 4294967296. intros. split; [done|dlia]. Qed.

(** ** The steps keep the invariant *)
Lemma pipe_init_inv : pipe_inv pipe_init.
Proof.
  apply inv_cmds_ok.
  - split_and!; [constructor|by intros ? ? ?%elem_of_nil|by intros ? ?|by intros ? ?].
  - simpl. lia.
  - change (seqZ 0 CMD_SLOT_NUM ++ [] ++ [] ≡ₚ seqZ 0 CMD_SLOT_NUM). by rewrite app_nil_r.
  - intros i r [?%elem_of_nil|?]; done.
Qed.

Lemma held_put b k F : b ≠ Some Held → put_at b k F Held = F Held.
Proof. destruct b; [|done]. intros. simpl. by rewrite fn_lookup_insert_ne by congruence. Qed.

Lemma advance_held a c : (advance a c).2 = Some Held → a = Registered.
Proof. destruct a; simpl; repeat case_decide; congruence. Qed.

Lemma pmove_inv p p' : pmove p p' → pipe_inv p → pipe_inv p'.
Proof.
  intros [a k l c p0 Ha Hc Hh] Hp.
  destruct (pi_live p0 Hp a k) as (c0 & Hc0 & Hst); [rewrite Ha; left|].
  assert (c0 = c) as -> by congruence.
  pose proof (advance_ok a c Hst (proj2 (pi_range p0 Hp k c Hc))) as Hok.
  pose proof (cmds_ok_inv p0 Hp) as Hcm.
  destruct (pairs_move (p_at p0) a k l (advance a c).2 Ha) as [E1 E2]. rewrite E1 in Hcm.
  apply inv_cmds_ok; simpl; [rewrite E2| |apply Hp|apply Hp].
  - destruct (advance a c) as [[c'|] [b|]]; simpl.
    + destruct Hok. by eapply cmds_ok_move.
    + destruct Hok. by eapply cmds_ok_lose.
    + by destruct Hok.
    + by eapply cmds_ok_delete.
  - destruct (decide (a = Held)) as [->|Hah].
    + rewrite held_put by (intros E; by apply advance_held in E). rewrite fn_lookup_insert.
      pose proof (pi_held p0 Hp) as Hl. rewrite Ha in Hl. simpl in Hl. lia.
    + destruct (decide ((advance a c).2 = Some Held)) as [E|E].
      * rewrite E. simpl. rewrite fn_lookup_insert, fn_lookup_insert_ne by done.
        by rewrite Hh by by apply advance_held in E.
      * rewrite held_put, fn_lookup_insert_ne by done. apply Hp.
Qed.

Lemma pstep_inv p p' : pstep p p' → pipe_inv p → pipe_inv p'.
Proof.
  intros Hs Hp. destruct Hs as [i f r p Hf Hr|i q r p Hn Hr|i q k p Hn Hk Hk'|i q p Hn Hfull|p p' Hm];
    [| | | |by eapply pmove_inv];
    (pose proof (pi_slots p Hp) as Hsl; pose proof (pi_sizes p Hp) as Hsz;
     pose proof (cmds_ok_inv p Hp) as Hcm; pose proof (pi_held p Hp) as Hh;
     unfold pending in Hsl; rewrite ?Hn in Hsl; rewrite ?Hn in Hsz).
  - apply inv_cmds_ok; simpl; [done|done| |].
    + unfold pending. simpl. rewrite <- Hsl, Hf, fmap_app. simpl.
      rewrite <- app_assoc. simpl. by rewrite <- !Permutation_middle.
    + intros j q. rewrite elem_of_app, list_elem_of_singleton.
      intros [[?|[= <- <-]]|?]; [eapply Hsz; eauto|done|eapply Hsz; eauto].
  - apply inv_cmds_ok; simpl; [done|done| |].
    + unfold pending. simpl. rewrite <- Hsl, Hr. simpl. rewrite app_nil_r.
      by rewrite <- Permutation_cons_append.
    + intros j q'. rewrite Hr in Hsz. intros [?|[= <- <-]].
      * apply (Hsz j). left. by right.
      * apply (Hsz i). left. left.
  - destruct (accepted_ok q) as [Hst Hq]; [by eapply Hsz; right|].
    apply inv_cmds_ok; simpl; [rewrite pairs_put| | |].
    + destruct Hcm as (H1 & H2 & H3 & H4). split_and!.
      * simpl. apply NoDup_cons. split; [|done]. intros ((a & j) & -> & Hj)%list_elem_of_fmap.
        destruct (H2 a j Hj) as (c & Hc & _). simpl in *. congruence.
      * intros a j [[= -> ->]|Hj]%elem_of_cons; [exists (accepted q); by rewrite lookup_insert_eq|].
        destruct (H2 a j Hj) as (c & Hc & ?). exists c. rewrite lookup_insert_ne; [done|congruence].
      * intros j d [[<- <-]|[? Hj]]%lookup_insert_Some Hn'; [destruct Hn'; left|].
        apply (H3 j d Hj). intros ?. apply Hn'. by right.
      * intros j d [[<- <-]|[? Hj]]%lookup_insert_Some; [done|]. by apply H4.
    + by rewrite fn_lookup_insert_ne.
    + unfold pending. simpl. rewrite <- Hsl, app_nil_r, <- app_assoc.
      apply Permutation_app_head, Permutation_app_comm.
    + intros j q' [?|?]; [eapply Hsz; eauto|done].
  - apply inv_cmds_ok; simpl; [done|done| |].
    + unfold pending. simpl. by rewrite <- Hsl, fmap_app, app_nil_r.
    + intros j q'. rewrite elem_of_app, list_elem_of_singleton.
      intros [[?|[= -> ->]]|?]; [eapply Hsz; eauto|eapply Hsz; eauto|done].
Qed.

Lemma psteps_inv p p' : rtc pstep p p' → pipe_inv p → pipe_inv p'.
Proof. induction 1; eauto using pstep_inv. Qed.

(** ** Draining

    Moves left for a command at a place: a write passes its data first, a read
    last. *)
Definition rank (a : place) (c : acmd) : nat :=
  match a with
  | CheckCache => 9
  | DataMoved => if decide (a_op c = HCE_READ) then 2 else 8
  | ToSq => 7 | Registered => 6 | Held => 5 | Completed => 4 | FromCq => 3 | Finish => 1
  end.

Definition pair_rank (m : gmap nat acmd) (x : place * nat) : nat :=
  match m !! x.2 with Some c => rank x.1 c | None => 0%nat end.
Definition measure (m : gmap nat acmd) (ps : list (place * nat)) : nat :=
  sum_list (pair_rank m <$> ps).
Definition pipe_measure (p : pipe) : nat := measure (p_cmd p) (pairs (p_at p)).

#[export] Instance measure_proper m : Proper ((≡ₚ) ==> (=)) (measure m).
Proof.
  intros ps ps' Hp. unfold measure. by rewrite Hp.
Qed.

Lemma measure_cons m x ps : measure m (x :: ps) = (pair_rank m x + measure m ps)%nat.
Proof. done. Qed.

Lemma pair_rank_some m a k c : m !! k = Some c → pair_rank m (a, k) = rank a c.
Proof. intros E. unfold pair_rank. simpl. by rewrite E. Qed.

Lemma measure_frame m m' ps :
  (∀ a k, (a, k) ∈ ps → m' !! k = m !! k) → measure m' ps = measure m ps.
Proof.
  intros Hf. unfold measure. induction ps as [|[a k] ps IH]; [done|].
  rewrite !fmap_cons. simpl. rewrite IH by (intros; eapply Hf; by right).
  unfold pair_rank. simpl. by rewrite (Hf a k) by left.
Qed.

Lemma advance_rank a c c' b :
  stage_ok a c → advance a c = (Some c', Some b) → (rank b c' < rank a c)%nat.
Proof.
  intros Hs. destruct c as [o r l]. destruct a; unfold stage_ok, well_formed, advance, rank in *; cbn [a_op a_req a_cpl] in *;
    repeat case_decide; intros [= <- <-]; cbn [a_op]; repeat case_decide; try lia; try congruence;
    unfold HCE_READ, HCE_WRITE in *; intuition lia.
Qed.

Lemma pmove_measure p p' : pmove p p' → pipe_inv p → (pipe_measure p' < pipe_measure p)%nat.
Proof.
  intros [a k l c p0 Ha Hc _] Hp. unfold pipe_measure. simpl.
  destruct (pairs_move (p_at p0) a k l (advance a c).2 Ha) as [E1 E2].
  pose proof (cmds_ok_inv p0 Hp) as Hcm. rewrite E1 in Hcm. destruct Hcm as (Hnd & Hlv & _).
  destruct (Hlv a k) as (c0 & Hc0 & Hst); [left|]. assert (c0 = c) as -> by congruence.
  apply NoDup_cons in Hnd as [Hk _]. rewrite E1, E2.
  assert (measure (partial_alter (λ _, (advance a c).1) k (p_cmd p0)) (pairs (<[a := l]> (p_at p0)))
    = measure (p_cmd p0) (pairs (<[a := l]> (p_at p0)))) as Ef.
  { apply measure_frame. intros b j Hj. apply lookup_partial_alter_ne.
    intros <-. apply Hk. by apply (list_elem_of_fmap_2 snd) in Hj. }
  rewrite measure_cons, (pair_rank_some _ a k c Hc).
  assert (0 < rank a c)%nat as Hr by (unfold rank; destruct a; try case_decide; lia).
  destruct (advance a c) as [c' [b|]] eqn:E; cbn [fst snd] in *; [|lia].
  rewrite measure_cons, Ef. destruct c' as [c'|].
  - rewrite (pair_rank_some _ b k c') by apply lookup_partial_alter_eq.
    pose proof (advance_rank a c c' b Hst E). lia.
  - pose proof (advance_ok a c Hst (proj2 (pi_range p0 Hp k c Hc))) as Ho. rewrite E in Ho.
    by destruct Ho.
Qed.

(** A command on its way can move, or the back end is at work on another. *)
Lemma pmove_progress p : pipe_inv p → live (p_at p) ≠ [] → ∃ p', pmove p p'.
Proof.
  intros Hp Hl.
  assert (∃ a k, k ∈ p_at p a) as (a & k & Hk).
  { destruct (live (p_at p)) as [|k l] eqn:E; [done|].
    assert (k ∈ live (p_at p)) as (a & Ha)%elem_of_live by (rewrite E; left). eauto. }
  assert (∀ b, p_at p b ≠ [] → (b = Registered → p_at p Held = []) → ∃ p', pmove p p') as Hmv.
  { intros b Hb Hh. destruct (p_at p b) as [|j l] eqn:E; [done|].
    destruct (pi_live p Hp b j) as (c & Hc & _); [rewrite E; left|]. eexists. by econstructor. }
  destruct (decide (p_at p Held = [])) as [E|E].
  - apply (Hmv a); [|done]. intros Hn. rewrite Hn in Hk. by apply elem_of_nil in Hk.
  - by apply (Hmv Held).
Qed.

(** ** The fate of a command *)

Lemma advance_same a c c' : (advance a c).1 = Some c' → a_op c' = a_op c ∧ a_req c' = a_req c.
Proof. destruct a; simpl; congruence || by intros [= <-]. Qed.

Lemma well_formed_same c c' :
  a_op c' = a_op c → a_req c' = a_req c → well_formed c' ↔ well_formed c.
Proof. intros E1 E2. unfold well_formed. by rewrite E1, E2. Qed.

(** Moves neither create entries nor free malformed ones. *)
Definition same_fate (p p' : pipe) : Prop :=
  (∀ k c', p_cmd p' !! k = Some c' → ∃ c, p_cmd p !! k = Some c ∧ (well_formed c' ↔ well_formed c)) ∧
  (∀ k c, p_cmd p !! k = Some c → ¬ well_formed c → is_Some (p_cmd p' !! k)).

Lemma pmove_fate p p' : pmove p p' → pipe_inv p → same_fate p p'.
Proof.
  intros [a k l c p0 Ha Hc _] Hp. unfold same_fate. simpl.
  destruct (pi_live p0 Hp a k) as (c0 & Hc0 & Hst); [rewrite Ha; left|].
  assert (c0 = c) as -> by congruence. split; intros j d.
  - destruct (decide (j = k)) as [->|].
    + rewrite lookup_partial_alter_eq. intros E. exists c. split; [done|].
      apply advance_same in E as [??]. by apply well_formed_same.
    + rewrite lookup_partial_alter_ne by done. eauto.
  - destruct (decide (j = k)) as [->|].
    + rewrite lookup_partial_alter_eq, Hc. intros [= <-] Hn.
      destruct a; try done; by destruct Hn.
    + rewrite lookup_partial_alter_ne by done. eauto.
Qed.

Lemma pmoves_inv p p' : rtc pmove p p' → pipe_inv p → pipe_inv p' ∧ same_fate p p'.
Proof.
  induction 1 as [p|p p1 p2 Hs _ IH]; intros Hp.
  - split; [done|]. split; eauto.
  - destruct IH as [Hp2 [F1 F2]]; [by eapply pmove_inv|]. split; [done|].
    destruct (pmove_fate p p1 Hs Hp) as [G1 G2]. split.
    + intros k c (c1 & Hc1 & E1)%F1. apply G1 in Hc1 as (c0 & ? & E0). exists c0. tauto.
    + intros k c Hc Hn. destruct (G2 k c Hc Hn) as [c1 Hc1]. apply (F2 k c1 Hc1).
      destruct (G1 k c1 Hc1) as (c0 & Hc0 & E). assert (c0 = c) as -> by congruence. tauto.
Qed.

(** Left alone, the pipeline stops; then the well-formed commands are finished
    and exactly the malformed ones still hold their entries. *)
Lemma pipe_drains p :
  pipe_inv p → ∃ p', rtc pmove p p' ∧ live (p_at p') = [].
Proof.
  remember (pipe_measure p) as n eqn:En. revert p En.
  induction n as [n IH] using lt_wf_ind. intros p -> Hp.
  destruct (decide (live (p_at p) = [])) as [E|E]; [by exists p|].
  destruct (pmove_progress p Hp E) as [p1 H1].
  destruct (IH (pipe_measure p1)) with (p := p1) as (p2 & H2 & H2');
    [by apply pmove_measure|done|by eapply pmove_inv|].
  exists p2. split; [by econstructor|done].
Qed.

Lemma pipe_drained p p' k :
  pipe_inv p → rtc pmove p p' → live (p_at p') = [] →
  is_Some (p_cmd p' !! k) ↔ ∃ c, p_cmd p !! k = Some c ∧ ¬ well_formed c.
Proof.
  intros Hp Hr He. destruct (pmoves_inv p p' Hr Hp) as [Hp' [F1 F2]]. split.
  - intros [c' Hc']. destruct (F1 k c' Hc') as (c & Hc & E). exists c. split; [done|].
    rewrite <- E. apply (pi_lost p' Hp' k c' Hc'). rewrite He. apply not_elem_of_nil.
  - intros (c & Hc & Hn). by eapply F2.
Qed.

Lemma pmoves_bound n p p' : nsteps pmove n p p' → pipe_inv p → (n + pipe_measure p' ≤ pipe_measure p)%nat.
Proof.
  induction 1 as [p|n p p1 p2 Hs _ IH]; intros Hp; [lia|].
  pose proof (pmove_measure p p1 Hs Hp). pose proof (IH (pmove_inv p p1 Hs Hp)). lia.
Qed.

(** With the commands that wait to be accepted: each costs one step more than the
    nine it will then take. *)
Definition waiting (p : pipe) : nat :=
  (length (p_rdy p) + match p_pend p with Some _ => 1 | None => 0 end)%nat.
Definition potential (p : pipe) : nat := (pipe_measure p + 10 * waiting p)%nat.

Lemma pwait_potential p p' : pwait p p' → potential p' = potential p.
Proof.
  intros [p0|i q r p0 Hn Hr|i q p0 Hn _]; [done|..]; unfold potential, waiting, pipe_measure; simpl;
    rewrite Hn, ?Hr, ?length_app; simpl; lia.
Qed.
Lemma paccept_potential p p' : paccept p p' → pipe_inv p → (potential p' < potential p)%nat.
Proof.
  intros [i q k p0 Hn Hk _] Hp. unfold potential, waiting, pipe_measure. simpl. rewrite Hn, pairs_put, measure_cons.
  assert (pair_rank (<[k := accepted q]> (p_cmd p0)) (CheckCache, k) = 9%nat) as ->
    by (by rewrite (pair_rank_some _ _ _ (accepted q)) by apply lookup_insert_eq).
  rewrite (measure_frame (p_cmd p0)); [lia|]. intros a j Hj. apply lookup_insert_ne. intros <-.
  destruct (pi_pair p0 a k Hp Hj) as (c & Hc & _). congruence.
Qed.
Lemma pmove_potential p p' : pmove p p' → pipe_inv p → (potential p' < potential p)%nat.
Proof.
  intros Hm Hp. pose proof (pmove_measure p p' Hm Hp) as Hlt. destruct Hm as [a k l c p0 _ _ _].
  unfold potential. change (waiting (move a k l c p0)) with (waiting p0). lia.
Qed.

Lemma measure_bound m ps : (measure m ps ≤ 9 * length ps)%nat.
Proof.
  induction ps as [|[a k] ps IH]; [simpl; unfold measure; simpl; lia|]. rewrite measure_cons. simpl length.
  assert (pair_rank m (a, k) ≤ 9)%nat; [|lia]. unfold pair_rank. simpl.
  destruct (m !! k) as [c|]; [|lia]. unfold rank. destruct a; try case_decide; lia.
Qed.

Lemma live_bound p : pipe_inv p → (length (live (p_at p)) ≤ 256)%nat.
Proof.
  intros Hp. apply NoDup_bounded_length; [apply Hp|]. intros k (a & Ha)%elem_of_live.
  destruct (pi_live p Hp a k Ha) as (c & Hc & _). by eapply pi_range.
Qed.
Lemma rep_measure_bound p : pipe_inv p → (pipe_measure p ≤ 9 * 256)%nat.
Proof.
  intros Hp. pose proof (measure_bound (p_cmd p) (pairs (p_at p))) as Hm.
  pose proof (live_bound p Hp) as Hl. rewrite live_pairs, length_fmap in Hl.
  unfold pipe_measure. lia.
Qed.
Lemma potential_bound p : pipe_inv p → (potential p ≤ 9 * 256 + 10 * 256)%nat.
Proof.
  intros Hp. pose proof (rep_measure_bound p Hp) as Hm.
  pose proof (Permutation_length (pi_slots p Hp)) as Hs. rewrite !length_app, length_fmap, length_seqZ in Hs.
  change (Z.to_nat CMD_SLOT_NUM) with 256%nat in Hs. unfold potential, waiting, pending in *.
  destruct (p_pend p) as [[]|]; cbn [length] in *; lia.
Qed.

(** Once every entry is held by a command that goes nowhere, none is accepted
    again. *)
Definition starved (p : pipe) : Prop :=
  ∀ k, (k < 256)%nat → is_Some (p_cmd p !! k) ∧ k ∉ live (p_at p).

Lemma starved_forever p p' : pipe_inv p → starved p → rtc pstep p p' → p_cmd p' = p_cmd p.
Proof.
  intros Hp Hs Hr. revert Hp Hs. induction Hr as [|p p1 p2 Hst _ IH]; [done|]. intros Hp Hs.
  assert (p_cmd p1 = p_cmd p ∧ p_at p1 = p_at p) as [Ec Ea].
  { destruct Hst as [| |i q k p Hn Hk Hk'| |p p' [a k l c p0 Ha Hc _]]; try done.
    - destruct (Hs k Hk') as [[? ?] _]. congruence.
    - exfalso. destruct (Hs k) as [_ Hl]; [by eapply (pi_range p0 Hp)|].
      apply Hl, elem_of_live. exists a. rewrite Ha. left. }
  rewrite <- Ec. apply IH; [by eapply pstep_inv|].
  intros k Hk. rewrite Ec, Ea. by apply Hs.
Qed.

(** ** Room

    A command being moved is nowhere else, so every place it may go to, and
    the three places of the back end together, have room for it. *)
Lemma room p a k l :
  pipe_inv p → p_at p a = k :: l →
  let F := <[a := l]> (p_at p) in
  (∀ b, (length (F b) < 256)%nat) ∧
  (length (F Registered ++ F Held ++ F Completed) < 256)%nat.
Proof.
  intros Hp Ha F.
  pose proof (cmds_ok_inv p Hp) as Hcm. rewrite (pairs_take _ _ _ _ Ha) in Hcm. fold F in Hcm.
  destruct Hcm as (Hnd & Hlv & _ & Hr). rewrite fmap_cons, <- live_pairs in Hnd. simpl in Hnd.
  assert (∀ j, j ∈ k :: live F → (j < 256)%nat) as Hlt.
  { intros j Hj. assert (∃ b, (b, j) ∈ (a, k) :: pairs F) as [b Hb].
    { apply elem_of_cons in Hj as [->|(b & Hb)%elem_of_live]; [exists a; left|].
      exists b. right. by apply elem_of_pairs. }
    destruct (Hlv b j Hb) as (c & Hc & _). by eapply Hr. }
  pose proof (NoDup_bounded_length (k :: live F) 256 Hnd Hlt) as Hl.
  unfold live, places in Hl. simpl in Hl. rewrite !length_app in Hl. rewrite !length_app.
  split; [intros b; destruct b|]; lia.
Qed.
