(* ===== verification/System.v ===== *)
(** * The whole emulator: host, FTL and back end

    [sys] adds to the shared memory of [Ftl] what each thread holds between
    its critical sections: the command the FTL has taken from RDY, the node
    the back end is working on, the flash log and the DRAM.  [sys_step] is one
    critical section of one thread; the threads interleave freely, so every
    order the FTL's main loop produces is included.  [sys_rep] relates a state
    to the abstract [pipe]; every step refines it. *)
From stdpp Require Import functions.
From S2P Require Import Prelude CInt Bitmap Config ListHeap Shm Buffer Hcl TaskQueue FlashLog Fcl.
From S2P Require Import L2P Backend Ftl FtlSpec Pipeline.
#[local] Open Scope Z_scope.

Record sys := Sys {
  s_emu : emu;
  s_pend : option (Z * shm_cmd);    (** index and scmd of FTL_nvme_req_polling *)
  s_held : option nat;              (** sq of the back-end thread *)
  s_flash : list Z;
  s_mem : memory;
}.
#[export] Instance sys_eta : Settable sys :=
  λ r, Sys (s_emu r) (s_pend r) (s_held r) (s_flash r) (s_mem r).

Section step.
Context (mem_base : Z) (uninit_ppa : phy_page_addr).

Inductive sys_step : sys → sys → Prop :=
(** The host submits a command (a size is a 32-bit number). *)
| Step_submit op lp sz i sh s :
    0 ≤ sz < 2 ^ 32 → host_submit op lp sz (e_shm (s_emu s)) = Some (i, sh) →
    sys_step s (s <| s_emu := (s_emu s) <| e_shm := sh |> |>)
(** The FTL takes a command from RDY, or finds none; then it accepts it. *)
| Step_get i c e s :
    s_pend s = None → on_shm SHM_get_rdy_list (s_emu s) = Some ((i, c), e) →
    sys_step s (s <| s_emu := e |> <| s_pend := (i,.) <$> c |>)
| Step_accept i c e s :
    s_pend s = Some (i, c) → nvme_accept i c (s_emu s) = Some (tt, e) →
    sys_step s (s <| s_emu := e |> <| s_pend := None |>)
(** The FTL handles one command of a task queue. *)
| Step_task n e s :
    (n < 5)%nat → run_task mem_base uninit_ppa (Z.of_nat n) (s_emu s) = Some (tt, e) →
    sys_step s (s <| s_emu := e |>)
(** The FTL handles the first completed entry. *)
| Step_cq n e s :
    load_next (be_nodes (e_be (s_emu s))) (Some complete_list) = Some (Some (sq_node n)) →
    cq_body n (s_emu s) = Some (tt, e) →
    sys_step s (s <| s_emu := e |>)
(** The back end takes an entry, works on it and reports it. *)
| Step_take n b s :
    s_held s = None → be_take (e_be (s_emu s)) = Some (n, b) →
    sys_step s (s <| s_emu := (s_emu s) <| e_be := b |> |> <| s_held := Some n |>)
| Step_done n sq fuel junk fl m b s :
    s_held s = Some n → be_sqs (e_be (s_emu s)) !! n = Some sq → length junk = 2%nat →
    be_work fuel sq junk (s_flash s) (s_mem s) = Some (fl, m) →
    be_complete n (e_be (s_emu s)) = Some b →
    sys_step s (Sys ((s_emu s) <| e_be := b |>) (s_pend s) None fl m).

(** From the state EMU_init leaves, any log and any DRAM. *)
Definition sys_initial (s : sys) : Prop :=
  EMU_init = Some (s_emu s) ∧ s_pend s = None ∧ s_held s = None.

Definition sys_run (s0 s : sys) : Prop := sys_initial s0 ∧ rtc sys_step s0 s.
Definition sys_reachable (s : sys) : Prop := ∃ s0, sys_run s0 s.
End step.

(** ** Representation *)

Record cmd_rep (e : host_cmd_entry) (c : acmd) : Prop := {
  cr_op : Hcl.op_code e = a_op c;
  cr_req : Hcl.req_num e = a_req c;
  cr_cpl : Hcl.cpl_cnt e = a_cpl c;
  cr_cur : 0 ≤ Hcl.cur_cnt e ≤ Hcl.req_num e;
  cr_dma : 0 ≤ Hcl.nvme_dma_cpl e ≤ 1;
}.

(** The command table: exactly the entries in use are taken, and a free entry
    is all zero. *)
Record cmd_part (h : hcl) (m : gmap nat acmd) : Prop := {
  cp_wf : hcl_wf h;
  cp_used k : (k < 256)%nat → hcl_used h k = bool_decide (is_Some (m !! k));
  cp_cmd k c : m !! k = Some c → ∃ e, hcmd_load k h = Some e ∧ cmd_rep e c;
  cp_zero k : (k < 256)%nat → m !! k = None → hcmd_load k h = Some hcmd_zero;
}.

(** The slots, with the commands of the ready ones. *)
Record shm_part (sh : shm) (pend : option (Z * shm_cmd)) (p : pipe) : Prop := {
  sp_lists : shm_lists sh (abs (p_free p) (p_rdy p).*1 []);
  sp_ctrl : ctrl sh = 0;
  sp_rdy i r : (i, r) ∈ p_rdy p → slot_payload sh i = Some r;
  sp_pend : p_pend p = (λ x, (x.1, payload x.2)) <$> pend;
}.

(** An entry in flight: its node, its entry of channel 1, its command. *)
Record flight := Flight { f_node : nat; f_idx : nat; f_cmd : nat }.

Record fly_part (hw : hw_queues) (be : backend) (held : option nat)
    (F : place → list nat) (fr fh fc : list flight) : Prop := {
  fp_hw : hwq_wf hw;
  fp_be : be_rep be (f_node <$> fr) (f_node <$> fh) (f_node <$> fc);
  fp_at : F Registered = f_cmd <$> fr ∧ F Held = f_cmd <$> fh ∧ F Completed = f_cmd <$> fc;
  fp_held : held = head (f_node <$> fh);
  fp_idx : NoDup (f_idx <$> (fr ++ fh ++ fc));
  fp_used j : (j < 256)%nat → sq_used 1 hw j = bool_decide (j ∈ f_idx <$> (fr ++ fh ++ fc));
  fp_sq f : f ∈ fr ++ fh ++ fc → (f_idx f < 256)%nat ∧ ∃ entry,
    be_sqs be !! f_node f = Some (EmuSq 1 0 (Z.of_nat (f_idx f)) entry) ∧
    bf_get hcmd_index entry = Z.of_nat (f_cmd f);
}.

Definition queue_of (F : place → list nat) (n : nat) : list nat :=
  match n with
  | 0 => F CheckCache | 1 => F ToSq | 2 => F DataMoved | 3 => F FromCq | 4 => F Finish | _ => []
  end%nat.

Record sys_rep (s : sys) (p : pipe) : Prop := {
  sr_shm : shm_part (e_shm (s_emu s)) (s_pend s) p;
  sr_cmd : cmd_part (e_hcl (s_emu s)) (p_cmd p);
  sr_tq : tqs_rep (e_tq (s_emu s)) (queue_of (p_at p));
  sr_fly : ∃ fr fh fc, fly_part (e_hw (s_emu s)) (e_be (s_emu s)) (s_held s) (p_at p) fr fh fc;
  sr_buf : ∃ L, buf_rep (e_buf (s_emu s)) L;
}.

(** ** Updating the parts *)

(** The queue of a place. *)
Definition queue_no (a : place) : option nat :=
  match a with
  | CheckCache => Some 0 | ToSq => Some 1 | DataMoved => Some 2 | FromCq => Some 3
  | Finish => Some 4 | _ => None
  end%nat.

Lemma queue_of_no F a n : queue_no a = Some n → queue_of F n = F a ∧ (n < 5)%nat.
Proof. destruct a; intros [= <-]; split; (done || lia). Qed.

Lemma queue_of_insert F a l n :
  queue_of (<[a := l]> F) n = match queue_no a with
                              | Some m => (<[m := l]> (queue_of F)) n
                              | None => queue_of F n
                              end.
Proof.
  destruct a; simpl; unfold insert, fn_insert; do 5 (destruct n as [|n]; [done|]); try done;
    destruct (decide _); done.
Qed.

Lemma tqs_rep_queue q F a l n :
  queue_no a = Some n → tqs_rep q (<[n := l]> (queue_of F)) → tqs_rep q (queue_of (<[a := l]> F)).
Proof.
  intros Ha Hq. eapply tqs_rep_ext; [exact Hq|]. intros m _. by rewrite queue_of_insert, Ha.
Qed.

Lemma tqs_rep_other q F a l :
  queue_no a = None → tqs_rep q (queue_of F) → tqs_rep q (queue_of (<[a := l]> F)).
Proof.
  intros Ha Hq. eapply tqs_rep_ext; [exact Hq|]. intros m _. by rewrite queue_of_insert, Ha.
Qed.

Lemma cmd_part_put h m k e c :
  cmd_part h m → is_Some (m !! k) → cmd_rep e c → cmd_part (hcl_put k e h) (<[k := c]> m).
Proof.
  intros [Hw Hu Hc Hz] [c0 Hk] He.
  destruct (Hc k c0 Hk) as (e0 & Hl & _). pose proof (hcl_load_lt h k e0 Hw Hl) as Hlt.
  split; [by apply hcl_put_wf| | |].
  - intros j Hj. rewrite hcl_put_used, Hu by done. apply bool_decide_ext.
    destruct (decide (j = k)) as [->|]; [rewrite lookup_insert_eq, Hk|by rewrite lookup_insert_ne].
    split; intros; by eexists.
  - intros j d. rewrite hcl_put_load by done. case_decide as E; subst.
    + rewrite lookup_insert_eq. intros [= <-]. eauto.
    + rewrite lookup_insert_ne by done. apply Hc.
  - intros j Hj Hn. rewrite hcl_put_load by done. case_decide as E; subst.
    + by rewrite lookup_insert_eq in Hn.
    + rewrite lookup_insert_ne in Hn by done. by apply Hz.
Qed.

Lemma cmd_rep_same e e' c :
  cmd_rep e c → same_cmd e e' → 0 ≤ Hcl.nvme_dma_cpl e' ≤ 1 → cmd_rep e' c.
Proof.
  intros [H1 H2 H3 H4 H5] (E1 & E2 & E3 & _ & _ & E4) Hd.
  split; [congruence|congruence|congruence| |done]. rewrite E2. destruct E4 as [->| ->]; lia.
Qed.

Lemma fly_part_ext hw be held F F' fr fh fc :
  fly_part hw be held F fr fh fc →
  F' Registered = F Registered → F' Held = F Held → F' Completed = F Completed →
  fly_part hw be held F' fr fh fc.
Proof.
  intros [? ? (? & ? & ?) ? ? ? ?] E1 E2 E3. split; try done. rewrite E1, E2, E3. done.
Qed.

Lemma put_at_other ob k F a :
  (∀ b, ob = Some b → b ≠ a) → put_at ob k F a = F a.
Proof. destruct ob as [b|]; [|done]. intros H. simpl. by rewrite fn_lookup_insert_ne by auto. Qed.

Definition queued (ob : option place) : Prop := ∀ b, ob = Some b → is_Some (queue_no b).

Lemma queued_not ob a : queued ob → queue_no a = None → ∀ b, ob = Some b → b ≠ a.
Proof. intros Hq Ha b Hb ->. destruct (Hq _ Hb) as [? ?]. congruence. Qed.

(** A move between task queues: the entry, the queues, nothing else. *)
Lemma rep_queue_move s p a k l c c' en e :
  sys_rep s p → p_cmd p !! k = Some c → is_Some (queue_no a) → queued (advance a c).2 →
  (advance a c).1 = Some c' → cmd_rep en c' →
  e_shm e = e_shm (s_emu s) → e_hcl e = hcl_put k en (e_hcl (s_emu s)) →
  e_hw e = e_hw (s_emu s) → e_be e = e_be (s_emu s) → e_buf e = e_buf (s_emu s) →
  tqs_rep (e_tq e) (queue_of (put_at (advance a c).2 k (<[a := l]> (p_at p)))) →
  sys_rep (s <| s_emu := e |>) (move a k l c p).
Proof.
  intros [Hsh Hcm Htq (fr & fh & fc & Hfl) Hbf] Hc [m Ha] Hb Hadv Hen E1 E2 E3 E4 E5 Hq.
  split; simpl.
  - rewrite E1. by destruct Hsh.
  - rewrite E2, Hadv. apply (cmd_part_put _ _ k en c' Hcm); [by eexists|done].
  - exact Hq.
  - rewrite E3, E4. exists fr, fh, fc.
    eapply fly_part_ext; [exact Hfl|..]; rewrite put_at_other by (by apply queued_not);
      by rewrite fn_lookup_insert_ne by (intros ->; simpl in Ha; congruence).
  - by rewrite E5.
Qed.

(** ** One task *)
Section tasks.
Context (mem_base : Z) (uninit_ppa : phy_page_addr).

Definition handler (a : place) : hcmd_ptr → M emu Z :=
  match a with
  | CheckCache => FTL_handle_checkcache
  | ToSq => FTL_handle_tosq mem_base uninit_ppa
  | DataMoved => FTL_handle_datamove
  | FromCq => FTL_handle_fromcq
  | Finish => FTL_handle_finish mem_base
  | _ => λ _, undef
  end.

Lemma on_queue (n : nat) : (n < 5)%nat → ∃ a, queue_no a = Some n.
Proof.
  intros Hn. destruct n as [|[|[|[|[|]]]]];
    [by exists CheckCache|by exists ToSq|by exists DataMoved|by exists FromCq|by exists Finish|lia].
Qed.

(** Queue [n] gives its oldest command to its handler; an empty queue nothing. *)
Lemma run_task_eq a n s F :
  queue_no a = Some n → tqs_rep (e_tq s) F →
  match F n with
  | [] => ∃ x, run_task mem_base uninit_ppa (Z.of_nat n) s = Some (tt, s <| e_cpl := x |>)
  | k :: l => ∃ x q, tqs_rep q (<[n := l]> F) ∧
      run_task mem_base uninit_ppa (Z.of_nat n) s =
        (handler a (Some k) ≫= λ _, skip) (s <| e_cpl := x |> <| e_tq := q |>)
  end.
Proof.
  intros Ha Hq. destruct (queue_of_no (λ _, []) a n Ha) as [_ Hn].
  assert (∃ x, (if decide (Z.of_nat n = HCE_FINISH)
                then modify (λ s : emu, s <| e_cpl := u32 (e_cpl s + 1) |>) else skip) s =
               Some (tt, s <| e_cpl := x |>)) as [x Ex].
  { case_decide; [by eexists|]. exists (e_cpl s). by destruct s. }
  destruct (F n) as [|k l] eqn:E.
  - exists x. unfold run_task. rewrite (bind_run _ _ _ _ _ Ex).
    erewrite bind_run by (apply on_tq_run, (remove_head_empty (e_tq s) F n Hq); [lia|done]).
    by destruct s.
  - destruct (remove_head_spec (e_tq s) F n k l Hq) as (q & Er & Hq'); [lia|done|].
    exists x, q. split; [done|]. unfold run_task. rewrite (bind_run _ _ _ _ _ Ex).
    erewrite bind_run by (apply on_tq_run; exact Er). cbv beta iota.
    destruct (tqs_rep_get q _ n Hq') as (t & Et & _ & Ht); [lia|].
    erewrite bind_run by (apply try_get_run; exact Et).
    rewrite (tqr_func _ _ _ Ht). unfold run_func.
    destruct a; try done; injection Ha as <-; reflexivity.
Qed.

Lemma tqs_put q F b m k :
  queue_no b = Some m → tqs_rep q (<[m := queue_of F m ++ [k]]> (queue_of F)) →
  tqs_rep q (queue_of (put_at (Some b) k F)).
Proof.
  intros Hb Hq. simpl. apply (tqs_rep_queue _ _ _ _ m Hb).
  by rewrite <- (proj1 (queue_of_no F b m Hb)).
Qed.

Lemma handler_end a k s r e :
  handler a (Some k) s = Some (r, e) → (handler a (Some k) ≫= λ _, skip) s = Some (tt, e).
Proof. intros E. by rewrite (bind_run _ _ _ _ _ E). Qed.

Section move.
Context (s : sys) (p : pipe) (a : place) (n k : nat) (l : list nat) (c : acmd) (x : Z)
  (q : task_queues).
Context (Hrep : sys_rep s p) (Hinv : pipe_inv p) (Ha : queue_no a = Some n)
  (Hat : p_at p a = k :: l) (Hc : p_cmd p !! k = Some c).
Context (F : place → list nat) (HF : F = <[a := l]> (p_at p)).
Abbreviation s1 := ((s_emu s) <| e_cpl := x |> <| e_tq := q |>).
Context (Hq : tqs_rep q (queue_of F)).

Lemma move_room m : (m < 6)%nat → (length (queue_of F m) < 256)%nat.
Proof using Hinv Hat HF.
  intros Hm. rewrite HF. pose proof (room p a k l Hinv Hat) as [Hr _].
  destruct m as [|[|[|[|[|]]]]]; try apply Hr; simpl; lia.
Qed.

Lemma move_entry : ∃ e, hcl_wf (e_hcl s1) ∧ hcmd_load k (e_hcl s1) = Some e ∧ cmd_rep e c.
Proof using Hrep Hc.
  destruct (cp_cmd _ _ (sr_cmd s p Hrep) k c Hc) as (e & He & Hr). exists e.
  split_and!; [apply (cp_wf _ _ (sr_cmd s p Hrep))|done|done].
Qed.

Lemma checkcache_move : a = CheckCache → ∃ e r,
  FTL_handle_checkcache (Some k) s1 = Some (r, e) ∧
  sys_rep (s <| s_emu := e |>) (move a k l c p).
Proof using All.
  pose proof move_room as Hroom. destruct move_entry as (e & Hw & He & Hr). intros ->. destruct (sr_buf s p Hrep) as [L HL].
  destruct (pi_range p Hinv k c Hc) as [_ Hrange].
  destruct (checkcache_spec s1 k e (queue_of F) Hw He Hq Hroom L HL)
    as (e' & q' & E & Hs & Hd & Hq').
  { apply Hr. } { rewrite (cr_req _ _ Hr). apply Hrange. }
  eexists _, _. split; [exact E|]. rewrite (cr_op _ _ Hr) in Hq'.
  eapply (rep_queue_move s p _ k l c c e'); try done.
  - intros b. simpl. repeat case_decide; intros [= <-]; by eexists.
  - eapply cmd_rep_same; [done|done|]. rewrite Hd. apply Hr.
  - rewrite <- HF. simpl in *. repeat case_decide; [by apply (tqs_put _ _ _ 2)|by apply (tqs_put _ _ _ 1)|done].
Qed.

Lemma datamove_move : a = DataMoved → ∃ e r,
  FTL_handle_datamove (Some k) s1 = Some (r, e) ∧
  sys_rep (s <| s_emu := e |>) (move a k l c p).
Proof using All.
  pose proof move_room as Hroom. destruct move_entry as (e & Hw & He & Hr). intros ->.
  destruct (datamove_spec s1 k e (queue_of F) Hw He Hq Hroom)
    as (e' & q' & E & Hs & Hd & Hq'); [apply Hr|].
  eexists _, _. split; [exact E|]. rewrite (cr_op _ _ Hr) in Hq'.
  eapply (rep_queue_move s p _ k l c c e'); try done.
  - intros b. simpl. repeat case_decide; intros [= <-]; by eexists.
  - eapply cmd_rep_same; [done|done|]. rewrite Hd. lia.
  - rewrite <- HF. simpl in *. repeat case_decide; [by apply (tqs_put _ _ _ 4)|by apply (tqs_put _ _ _ 1)].
Qed.

Lemma fromcq_move : a = FromCq → ∃ e r,
  FTL_handle_fromcq (Some k) s1 = Some (r, e) ∧
  sys_rep (s <| s_emu := e |>) (move a k l c p).
Proof using All.
  pose proof move_room as Hroom. destruct move_entry as (e & Hw & He & Hr). intros ->.
  destruct (fromcq_spec s1 k e (queue_of F) Hw He Hq Hroom)
    as (e' & q' & E & Hs & Hd & Hq').
  eexists _, _. split; [exact E|]. rewrite (cr_op _ _ Hr) in Hq'.
  eapply (rep_queue_move s p _ k l c c e'); try done.
  - intros b. simpl. repeat case_decide; intros [= <-]; by eexists.
  - eapply cmd_rep_same; [done|done|]. rewrite Hd. apply Hr.
  - rewrite <- HF. simpl in *. repeat case_decide; [by apply (tqs_put _ _ _ 4)|by apply (tqs_put _ _ _ 2)].
Qed.

Lemma finish_move : a = Finish → ∃ e r,
  FTL_handle_finish mem_base (Some k) s1 = Some (r, e) ∧
  sys_rep (s <| s_emu := e |>) (move a k l c p).
Proof using All.
  pose proof move_room as Hroom. destruct move_entry as (e & Hw & He & Hr). intros ->.
  destruct (finish_spec mem_base s1 k e Hw He) as (h' & E & Hw' & Hu & Hz & Hl).
  eexists _, _. split; [exact E|].
  destruct Hrep as [Hsh [Hw0 Hu0 Hc0 Hz0] Htq (fr & fh & fc & Hfl) Hbf]. split; simpl.
  - by destruct Hsh.
  - change (cmd_part h' (delete k (p_cmd p))). split; [done| | |].
    + intros j Hj. rewrite Hu, Hu0 by done. case_bool_decide as E1; subst; simpl.
      * by rewrite lookup_delete_eq, bool_decide_false by by intros [].
      * by rewrite lookup_delete_ne by done.
    + intros j d [Hne Hd]%lookup_delete_Some. rewrite Hl by done. by apply Hc0.
    + intros j Hj [->|Hd]%lookup_delete_None; [done|].
      destruct (decide (j = k)) as [->|]; [done|]. rewrite Hl by done. by apply Hz0.
  - by rewrite <- HF.
  - exists fr, fh, fc. eapply fly_part_ext; [exact Hfl|..]; by rewrite fn_lookup_insert_ne.
  - done.
Qed.

Lemma tosq_move : a = ToSq → ∃ e r,
  FTL_handle_tosq mem_base uninit_ppa (Some k) s1 = Some (r, e) ∧
  sys_rep (s <| s_emu := e |>) (move a k l c p).
Proof using All.
  pose proof (move_room 1%nat ltac:(lia)) as Hroom. destruct move_entry as (e & Hw & He & Hr).
  destruct (room p a k l Hinv Hat) as [_ Hfew]. rewrite <- HF in Hfew.
  destruct Hrep as [Hsh Hcm Htq (fr & fh & fc & Hfl) Hbf]. intros ->.
  assert (F Registered = p_at p Registered ∧ F Held = p_at p Held ∧
          F Completed = p_at p Completed) as (F1 & F2 & F3)
    by (rewrite HF; by rewrite !fn_lookup_insert_ne).
  rewrite F1, F2, F3 in Hfew.
  pose proof Hfl as [Hhw Hbe (A1 & A2 & A3) Hh Hi Hu Hsq].
  rewrite A1, A2, A3, <- !fmap_app, length_fmap in Hfew.
  destruct (free_index (f_idx <$> (fr ++ fh ++ fc)) 256) as (j0 & Hj0 & Hn0); [by rewrite length_fmap|].
  destruct (tosq_spec mem_base uninit_ppa s1 k e _ _ _ _ Hw He Hq Hroom Hhw Hbe)
    as (e' & j & hw' & be' & entry & E & Hs & Hd & Hj & Hfree & Hw' & Hu' & Hbe' & Hsqs & Hf' &
        _ & Hidx & _).
  { exists j0. split; [done|]. change (sq_used 1 (e_hw (s_emu s)) j0 = false).
    rewrite Hu by done. by apply bool_decide_eq_false. }
  simpl in *. rewrite Hu in Hfree by done. apply bool_decide_eq_false in Hfree.
  eexists _, _. split; [exact E|]. split; simpl.
  - by destruct Hsh.
  - eapply cmd_part_put; [done|by eexists|]. eapply cmd_rep_same; [apply Hr|done|].
    rewrite Hd. apply Hr.
  - rewrite <- HF. by apply tqs_rep_other.
  - set (f := Flight (be_fresh (e_be (s_emu s))) j k).
    assert ((fr ++ [f]) ++ fh ++ fc ≡ₚ f :: fr ++ fh ++ fc) as Hperm
      by (rewrite <- app_assoc; simpl; by rewrite <- Permutation_middle).
    exists (fr ++ [f]), fh, fc. split.
    + done.
    + by rewrite fmap_app.
    + rewrite <- HF. rewrite fn_lookup_insert, !fn_lookup_insert_ne by done.
      by rewrite F1, F2, F3, A1, fmap_app.
    + done.
    + rewrite Hperm. simpl. by constructor.
    + intros i Hi'. rewrite Hu', Hu by done. simpl. rewrite <- bool_decide_or.
      apply bool_decide_ext. rewrite Hperm. simpl. by rewrite elem_of_cons.
    + intros g. rewrite Hperm. intros [->|Hg]%elem_of_cons.
      * split; [done|]. exists entry. rewrite Hsqs, lookup_insert_eq. done.
      * destruct (Hsq g Hg) as (Hg1 & en & Hg2 & Hg3). split; [done|]. exists en.
        split; [|done]. rewrite Hsqs, lookup_insert_ne; [done|].
        assert (f_node g < be_fresh (e_be (s_emu s)))%nat; [|lia].
        eapply (ber_alloc _ _ _ _ Hbe). rewrite <- !fmap_app. by apply list_elem_of_fmap_2.
  - done.
Qed.
End move.

(** The oldest command of a task queue moves on. *)
Lemma task_move a n s p k l :
  queue_no a = Some n → sys_rep s p → pipe_inv p → p_at p a = k :: l →
  ∃ c e, p_cmd p !! k = Some c ∧
    run_task mem_base uninit_ppa (Z.of_nat n) (s_emu s) = Some (tt, e) ∧
    sys_rep (s <| s_emu := e |>) (move a k l c p).
Proof using All.
  intros Ha Hrep Hinv Hat. destruct (pi_live p Hinv a k) as (c & Hc & _); [rewrite Hat; left|].
  pose proof (run_task_eq a n (s_emu s) _ Ha (sr_tq s p Hrep)) as Hrun.
  rewrite (proj1 (queue_of_no (p_at p) a n Ha)), Hat in Hrun.
  destruct Hrun as (x & q & Hq & Erun). apply (tqs_rep_queue _ _ a _ n Ha) in Hq.
  exists c.
  assert (∃ e r, handler a (Some k) ((s_emu s) <| e_cpl := x |> <| e_tq := q |>) = Some (r, e) ∧
    sys_rep (s <| s_emu := e |>) (move a k l c p)) as (e & r & E & Hs).
  { destruct a; try done.
    - by eapply checkcache_move.
    - by eapply tosq_move.
    - by eapply datamove_move.
    - by eapply fromcq_move.
    - by eapply finish_move. }
  exists e. split_and!; [done| |done]. rewrite Erun. by eapply handler_end.
Qed.

(** An empty queue leaves everything as it was, the log counter apart. *)
Lemma task_idle a n s p :
  queue_no a = Some n → sys_rep s p → p_at p a = [] →
  ∃ e, run_task mem_base uninit_ppa (Z.of_nat n) (s_emu s) = Some (tt, e) ∧
    sys_rep (s <| s_emu := e |>) p.
Proof.
  intros Ha Hrep Hat.
  pose proof (run_task_eq a n (s_emu s) _ Ha (sr_tq s p Hrep)) as Hrun.
  rewrite (proj1 (queue_of_no (p_at p) a n Ha)), Hat in Hrun. destruct Hrun as [x E].
  eexists. split; [exact E|]. by destruct Hrep.
Qed.
End tasks.

(** ** The other steps *)
Lemma host_submit_none s r p op lp sz :
  shm_lists s (abs [] r p) → host_submit op lp sz s = None.
Proof.
  intros Hs. unfold host_submit. destruct (shm_get s) as [s'|] eqn:E; [|done].
  assert (shm_lists s' (abs [] r p)) as Hs'.
  { unfold shm_get in E. case_decide; [|done]. injection E as <-. done. }
  simpl. by rewrite (shm_list_empty_spec s' FREE_LIST [] (proj1 (proj2 Hs') FREE_LIST)).
Qed.

Lemma submit_step s p op lp sz i sh :
  sys_rep s p → 0 ≤ sz < 2 ^ 32 → host_submit op lp sz (e_shm (s_emu s)) = Some (i, sh) →
  ∃ p', pstep p p' ∧ sys_rep (s <| s_emu := (s_emu s) <| e_shm := sh |> |>) p'.
Proof.
  intros [[Hl Hc Hr Hpd] Hcm Htq Hfl Hbf] Hsz E.
  destruct (p_free p) as [|j f] eqn:Ef.
  { by rewrite (host_submit_none _ _ _ _ _ _ Hl) in E. }
  destruct (host_submit_spec _ j f _ _ op lp sz Hl Hc) as (sh' & E' & Hc' & Hl' & Hp' & Ho').
  rewrite E in E'. injection E' as -> ->.
  eexists. split; [by apply (P_submit j f (op, lp, sz))|]. split; [|done..]. split; simpl.
  - by rewrite fmap_app.
  - done.
  - intros x r [Hx|[= -> ->]%list_elem_of_singleton]%elem_of_app; [|done].
    rewrite Ho'; [by apply Hr|]. intros ->. destruct Hl as (_ & _ & Hd).
    apply (Hd FREE_LIST RDY_LIST j); [done|left|]. by apply (list_elem_of_fmap_2 fst) in Hx.
  - done.
Qed.

Lemma get_step s p :
  sys_rep s p → s_pend s = None → ∃ i c e p',
    on_shm SHM_get_rdy_list (s_emu s) = Some ((i, c), e) ∧
    (c = None → i = CMD_SLOT_NUM ∧ e = s_emu s) ∧ (is_Some c → i ≠ CMD_SLOT_NUM) ∧
    pwait p p' ∧ sys_rep (s <| s_emu := e |> <| s_pend := (i,.) <$> c |>) p'.
Proof.
  intros [[Hl Hc Hr Hpd] Hcm Htq Hfl Hbf] Hn. rewrite Hn in Hpd.
  pose proof (SHM_get_rdy_list_spec _ _ _ _ Hl Hc) as Hg.
  destruct (p_rdy p) as [|[i q] r] eqn:Er; simpl in Hg.
  - assert (on_shm SHM_get_rdy_list (s_emu s) = Some (CMD_SLOT_NUM, None, s_emu s)) as E.
    { rewrite (on_shm_run _ _ _ _ Hg). destruct s as [[[sl hd ct] ? ? ? ? ? ? ? ? ?] ? ? ? ?]. simpl in *. by rewrite Hc. }
    eexists _, _, _, p. split; [exact E|]. split_and!; [done|by intros []|apply Wait_nothing|]. split; simpl; [|done..].
    split; try done; by rewrite Er.
  - destruct Hg as (c & sh & Hg & Hpl & Hc' & Hl' & Ho).
    eexists i, (Some c), _, _. split; [by apply on_shm_run|]. split_and!; [done| | |].
    + intros _ ->. destruct Hl as (_ & Hl & _). destruct (Hl RDY_LIST) as (_ & Hb & _).
      specialize (Hb CMD_SLOT_NUM ltac:(left)). unfold CMD_SLOT_NUM in Hb. lia.
    + eapply Wait_get; [exact Hpd|exact Er].
    + split; simpl; [|done..]. split; simpl; [done|done| |].
      * intros j q' Hj. rewrite Ho. apply Hr. by right.
      * assert (Some (payload c) = Some q) as [= ->]; [|done].
        rewrite Hpl. apply Hr. left.
Qed.

Lemma fill_accepted c i id :
  0 ≤ Shm.size c < 2 ^ 32 → cmd_rep (fill_hcmd c i id hcmd_zero) (accepted (payload c)).
Proof.
  change (2 ^ 32) with 4294967296. intros Hs. unfold payload, accepted, fill_hcmd. split; simpl.
  - done.
  - done.
  - done.
  - change HOST_BLOCK_SIZE with 4096. dlia.
  - lia.
Qed.

(** The slot of a pending command is on no list. *)
Lemma pending_slot p i q :
  pipe_inv p → p_pend p = Some (i, q) →
  0 ≤ i < CMD_SLOT_NUM ∧ (i ∉ p_free p) ∧ (i ∉ (p_rdy p).*1).
Proof.
  intros Hp Hi. pose proof (pi_slots p Hp) as Hs. unfold pending in Hs. rewrite Hi in Hs.
  assert (NoDup (p_free p ++ (p_rdy p).*1 ++ [i])) as Hnd by (rewrite Hs; apply NoDup_seqZ).
  assert (i ∈ seqZ 0 CMD_SLOT_NUM) as Hin by (rewrite <- Hs, !elem_of_app; do 2 right; left).
  apply elem_of_seqZ in Hin.
  rewrite app_assoc in Hnd. apply not_elem_of_NoDup_app_cons in Hnd as [Hn _].
  rewrite elem_of_app in Hn. split; [lia|tauto].
Qed.

Lemma queue_room p n : pipe_inv p → (length (live (p_at p)) < 256)%nat →
  (length (queue_of (p_at p) n) < 256)%nat.
Proof.
  intros _ Hl. unfold live, places in Hl. simpl in Hl. rewrite !length_app in Hl.
  destruct n as [|[|[|[|[|]]]]]; simpl; lia.
Qed.

(** A free entry means room in every queue. *)
Lemma live_room p k :
  pipe_inv p → (k < 256)%nat → p_cmd p !! k = None → (length (live (p_at p)) < 256)%nat.
Proof.
  intros Hp Hk Hn.
  assert (NoDup (k :: live (p_at p))) as Hnd.
  { apply NoDup_cons. split; [|apply Hp]. intros (a & Ha)%elem_of_live.
    destruct (pi_live p Hp a k Ha) as (c & Hc & _). congruence. }
  apply (NoDup_bounded_length _ 256) in Hnd; [simpl in Hnd; lia|].
  intros j [->|(a & Ha)%elem_of_live]%elem_of_cons; [done|].
  destruct (pi_live p Hp a j Ha) as (c & Hc & _). by eapply pi_range.
Qed.

Lemma accept_step s p i c :
  sys_rep s p → pipe_inv p → s_pend s = Some (i, c) →
  ∃ e p', nvme_accept i c (s_emu s) = Some (tt, e) ∧
    (paccept p p' ∨ pwait p p' ∧ ∀ k, (k < 256)%nat → hcl_used (e_hcl (s_emu s)) k = true) ∧
    sys_rep (s <| s_emu := e |> <| s_pend := None |>) p'.
Proof.
  intros [[Hl Hc Hr Hpd] Hcm Htq (fr & fh & fc & Hfl) Hbf] Hp Hi. rewrite Hi in Hpd. simpl in Hpd.
  destruct (pending_slot p i _ Hp Hpd) as (Hib & Hif & Hir).
  destruct (decide (Forall (λ k, is_Some (p_cmd p !! k)) (seq 0 256))) as [Hfull|Hfree].
  - assert (∀ k, (k < 256)%nat → is_Some (p_cmd p !! k)) as Hall.
    { intros k Hk. apply (proj1 (Forall_forall _ _) Hfull), elem_of_seq. lia. }
    destruct (nvme_retry_spec (s_emu s) _ _ _ i c (cp_wf _ _ Hcm) Hl Hc Hib Hif Hir)
      as (sh & E & Hc' & Hl' & Hpi & Ho); [by apply not_elem_of_nil| |].
    { intros j Hj. rewrite (cp_used _ _ Hcm) by done. apply bool_decide_eq_true. by apply Hall. }
    eexists _, _. split; [exact E|]. split.
    { right. split; [by eapply Wait_retry|]. intros k Hk. rewrite (cp_used _ _ Hcm) by done. by apply bool_decide_eq_true, Hall. } split; simpl; [|done|done|by exists fr, fh, fc|done].
    split; simpl; [by rewrite fmap_app|done| |done].
    intros j q [Hj|[= -> ->]%list_elem_of_singleton]%elem_of_app; [|done].
    rewrite Ho; [by apply Hr|]. intros ->. apply Hir. by apply (list_elem_of_fmap_2 fst) in Hj.
  - apply not_Forall_Exists in Hfree; [|apply _].
    apply Exists_exists in Hfree as (j0 & Hj0%elem_of_seq & Hn0%eq_None_not_Some).
    pose proof (live_room p j0 Hp ltac:(lia) Hn0) as Hroom.
    destruct (nvme_accept_spec (s_emu s) (queue_of (p_at p)) _ _ _ i c (cp_wf _ _ Hcm) Htq
      (queue_room p 0 Hp Hroom) Hl Hc Hib Hif Hir)
      as (k & e & h & q & sh & E & Hk & Hu & He & Hw & Hu' & Hld & Hq & Hc' & Hl' & Ho);
      [by apply not_elem_of_nil| |].
    { exists j0. split; [lia|]. rewrite (cp_used _ _ Hcm) by lia. rewrite Hn0.
      apply bool_decide_eq_false. by intros []. }
    rewrite (cp_used _ _ Hcm) in Hu by done. apply bool_decide_eq_false in Hu.
    apply eq_None_not_Some in Hu.
    assert (e = hcmd_zero) as -> by (pose proof (cp_zero _ _ Hcm k Hk Hu); congruence).
    destruct (pi_sizes p Hp i (payload c)) as [Hs1 Hs2]; [by right|].
    eexists _, _. split; [exact E|]. split; [left; by eapply (Accept i _ k)|]. split; simpl.
    + split; simpl; [done|done| |done]. intros j r Hj. rewrite Ho. by apply Hr.
    + split; [done| | |].
      * intros j Hj. rewrite Hu', (cp_used _ _ Hcm) by done. rewrite <- bool_decide_or.
        apply bool_decide_ext. destruct (decide (j = k)) as [->|].
        -- rewrite lookup_insert_eq. split; [by eexists|by left].
        -- rewrite lookup_insert_ne by done. tauto.
      * intros j d. rewrite Hld. case_decide as Ejk; subst.
        -- rewrite lookup_insert_eq. intros [= <-]. eexists. split; [done|]. by apply fill_accepted.
        -- rewrite lookup_insert_ne by done. apply (cp_cmd _ _ Hcm).
      * intros j Hj. rewrite Hld. case_decide as Ejk; subst; [by rewrite lookup_insert_eq|].
        rewrite lookup_insert_ne by done. by apply (cp_zero _ _ Hcm).
    + by apply (tqs_rep_queue _ _ _ _ 0).
    + exists fr, fh, fc. eapply fly_part_ext; [exact Hfl|..]; by rewrite fn_lookup_insert_ne.
    + done.
Qed.

(** The first completed entry: freed, and its command goes on or is lost. *)
Lemma cq_step s p f fc :
  sys_rep s p → pipe_inv p →
  (∃ fr fh, fly_part (e_hw (s_emu s)) (e_be (s_emu s)) (s_held s) (p_at p) fr fh (f :: fc)) →
  ∃ e p', cq_body (f_node f) (s_emu s) = Some (tt, e) ∧ pmove p p' ∧
    p_at p Completed = f_cmd f :: p_at p' Completed ∧ sys_rep (s <| s_emu := e |>) p'.
Proof.
  intros [Hsh Hcm Htq _ Hbf] Hp (fr & fh & Hfl).
  pose proof Hfl as [Hhw Hbe (A1 & A2 & A3) Hh Hi Hu Hsq]. rewrite fmap_cons in A3, Hbe.
  destruct (pi_live p Hp Completed (f_cmd f)) as (c & Hc & _); [rewrite A3; left|].
  destruct (cp_cmd _ _ Hcm _ c Hc) as (e & He & Hr).
  assert (f ∈ fr ++ fh ++ f :: fc) as Hf by set_solver.
  destruct (Hsq f Hf) as (Hfi & en & Hfs & Hfc).
  destruct (room p Completed _ _ Hp A3) as [Hroom _].
  specialize (Hroom FromCq). rewrite fn_lookup_insert_ne in Hroom by done.
  destruct (cq_body_spec (s_emu s) (f_cmd f) (f_node f) (f_idx f) e _ (queue_of (p_at p)) _ _ _
    (cp_wf _ _ Hcm) He Htq Hroom Hhw Hbe Hfs eq_refl Hfi eq_refl Hfc)
    as (hw' & q & be' & E & Hhw' & Hu' & Hq & Hbe' & Hsqs & _).
  eexists _, _. split; [exact E|]. split; [by apply (P_move Completed)|].
  assert (fr ++ fh ++ f :: fc ≡ₚ f :: fr ++ fh ++ fc) as Hperm
    by (rewrite !app_assoc; by rewrite <- Permutation_middle).
  split; [|split; simpl].
  - simpl. rewrite put_at_other, fn_lookup_insert; [done|].
    intros b Hb. case_decide; by simplify_eq.
  - by destruct Hsh.
  - rewrite (cr_cpl _ _ Hr).
    refine (cmd_part_put (e_hcl (s_emu s)) (p_cmd p) (f_cmd f)
      (e <| Hcl.cpl_cnt := u32 (a_cpl c + 1) |>)
      (ACmd (a_op c) (a_req c) (u32 (a_cpl c + 1))) Hcm _ _); [by eexists|].
    destruct Hr as [R1 R2 R3 R4 R5]. by split.
  - simpl in Hq. rewrite (cr_cpl _ _ Hr), (cr_req _ _ Hr) in Hq. case_decide.
    + apply (tqs_put _ _ _ 3%nat); [done|]. by apply tqs_rep_ext with (1 := Hq).
    + by apply tqs_rep_other.
  - exists fr, fh, fc. split.
    + done.
    + done.
    + rewrite !put_at_other by (intros b Hb; case_decide; by simplify_eq).
      by fn_simpl.
    + done.
    + rewrite Hperm in Hi. by apply NoDup_cons in Hi as [_ ?].
    + intros j Hj. rewrite Hu', Hu by done.
      rewrite Hperm in Hi. apply NoDup_cons in Hi as [Hni _].
      destruct (decide (j = f_idx f)) as [->|Hne].
      * rewrite bool_decide_true by done. simpl. symmetry. by apply bool_decide_eq_false.
      * rewrite (bool_decide_false (j = f_idx f)) by done. simpl. apply bool_decide_ext.
        rewrite Hperm, fmap_cons, elem_of_cons. tauto.
    + intros g Hg. destruct (Hsq g) as (Hg1 & en' & Hg2 & Hg3); [rewrite Hperm; by right|].
      split; [done|]. exists en'. split; [|done]. rewrite Hsqs, lookup_delete_ne; [done|].
      intros E'. pose proof (ber_nodup _ _ _ _ Hbe) as Hnd.
      rewrite <- fmap_cons, <- !fmap_app, Hperm, fmap_cons in Hnd.
      apply NoDup_cons in Hnd as [Hnn _]. apply Hnn. rewrite E'. by apply list_elem_of_fmap_2.
  - done.
Qed.

(** The back end takes the first registered entry. *)
Lemma take_step s p n b :
  sys_rep s p → pipe_inv p → s_held s = None → be_take (e_be (s_emu s)) = Some (n, b) →
  ∃ p', pmove p p' ∧
    sys_rep (s <| s_emu := (s_emu s) <| e_be := b |> |> <| s_held := Some n |>) p'.
Proof.
  intros [Hsh Hcm Htq (fr & fh & fc & Hfl) Hbf] Hp Hn E.
  pose proof Hfl as [Hhw Hbe (A1 & A2 & A3) Hh Hi Hu Hsq].
  destruct fh as [|g fh]; [|by rewrite Hn in Hh].
  destruct fr as [|f fr]; [by rewrite (be_take_empty _ _ _ Hbe) in E|].
  rewrite fmap_cons in A1, Hbe.
  destruct (be_take_spec _ _ _ _ _ Hbe) as (b' & E' & Hbe' & Hsqs & _).
  rewrite E in E'. injection E' as -> ->.
  destruct (pi_live p Hp Registered (f_cmd f)) as (c & Hc & _); [rewrite A1; left|].
  eexists. split; [by apply (P_move Registered _ _ c p A1)|].
  assert (fr ++ [f] ++ fc ≡ₚ (f :: fr) ++ [] ++ fc) as Hperm
    by (simpl; by rewrite <- Permutation_middle).
  split; simpl.
  - by destruct Hsh.
  - change (partial_alter (λ _, Some c) (f_cmd f) (p_cmd p)) with (<[f_cmd f := c]> (p_cmd p)).
    by rewrite insert_id.
  - by repeat apply tqs_rep_other.
  - exists fr, [f], fc. split.
    + done.
    + done.
    + fn_simpl. by rewrite A2, A3.
    + done.
    + by rewrite Hperm.
    + intros j Hj. rewrite Hu by done. apply bool_decide_ext. by rewrite Hperm.
    + intros g. rewrite Hperm, Hsqs. apply Hsq.
  - done.
Qed.

(** The entry it has worked on is complete. *)
Lemma done_step s p n b fl m :
  sys_rep s p → pipe_inv p → s_held s = Some n → be_complete n (e_be (s_emu s)) = Some b →
  ∃ p', pmove p p' ∧ sys_rep (Sys ((s_emu s) <| e_be := b |>) (s_pend s) None fl m) p'.
Proof.
  intros [Hsh Hcm Htq (fr & fh & fc & Hfl) Hbf] Hp Hn E.
  pose proof Hfl as [Hhw Hbe (A1 & A2 & A3) Hh Hi Hu Hsq].
  pose proof (pi_held p Hp) as Hle. rewrite A2, length_fmap in Hle.
  destruct fh as [|f [|? ?]]; [by rewrite Hn in Hh| |simpl in Hle; lia].
  rewrite Hn in Hh. injection Hh as ->.
  destruct (be_complete_spec _ _ _ _ Hbe) as (b' & E' & Hbe' & Hsqs & _).
  rewrite E in E'. injection E' as ->.
  destruct (pi_live p Hp Held (f_cmd f)) as (c & Hc & _); [rewrite A2; left|].
  eexists. split; [by apply (P_move Held _ _ c p A2)|].
  assert (fr ++ [] ++ fc ++ [f] ≡ₚ fr ++ [f] ++ fc) as Hperm
    by (simpl; by rewrite <- Permutation_cons_append).
  split; simpl.
  - by destruct Hsh.
  - change (partial_alter (λ _, Some c) (f_cmd f) (p_cmd p)) with (<[f_cmd f := c]> (p_cmd p)).
    by rewrite insert_id.
  - by repeat apply tqs_rep_other.
  - exists fr, [], (fc ++ [f]). split.
    + done.
    + by rewrite fmap_app.
    + fn_simpl.
      by rewrite A1, A3, fmap_app.
    + done.
    + by rewrite Hperm.
    + intros j Hj. rewrite Hu by done. apply bool_decide_ext. by rewrite Hperm.
    + intros g. rewrite Hperm, Hsqs. apply Hsq.
  - done.
Qed.
