(* ===== verification/Emulator.v ===== *)
(** * What the emulator guarantees

    The theorems about every state the program can reach, whatever commands
    the host submits and however the host, the FTL and the back end interleave:
    it refines the [Pipeline] machine, none of the FTL's functions runs into
    undefined behaviour, the queues cannot overflow, accepted commands drain,
    and only commands of one page are ever completed. *)
From stdpp Require Import functions.
From S2P Require Import Prelude CInt Bitmap Config ListHeap Shm Buffer Hcl TaskQueue FlashLog Fcl.
From S2P Require Import L2P Backend Ftl FtlSpec Pipeline System.
#[local] Open Scope Z_scope.

(** ** Start-up *)
Lemma emu_rep sh h q hw b be fl m L :
  shm_part sh None pipe_init → cmd_part h ∅ → tqs_rep q (queue_of (λ _, [])) →
  fly_part hw be None (λ _, []) [] [] [] → buf_rep b L →
  sys_rep (Sys (Emu sh h q hw b be 0 0 0 0) None None fl m) pipe_init.
Proof. intros. split; [done|done|done|by exists [], [], []|by exists L]. Qed.

Lemma init_cmd_part : cmd_part (snd HCL_init_host_cmd_entry_queue) ∅.
Proof.
  destruct HCL_init_spec as (Hw & Hu & Hz). split; [done| |by intros k c ?|].
  - intros k Hk. rewrite Hu. symmetry. apply bool_decide_eq_false. by intros [? ?].
  - intros k Hk _. by apply Hz.
Qed.

Lemma init_fly_part : fly_part init_hw_queues be_init None (λ _, []) [] [] [].
Proof.
  split; [apply init_hw_queues_wf|apply be_init_rep|done|done|constructor| |].
  - intros j _. rewrite init_hw_queues_free. done.
  - by intros f ?%elem_of_nil.
Qed.

Lemma EMU_init_rep :
  ∃ e, EMU_init = Some e ∧ ∀ fl m, sys_rep (Sys e None None fl m) pipe_init.
Proof.
  destruct init_buffer_rep as (b & Eb & Hb).
  destruct SHM_init_spec as (sh & Es & Hc & Hl).
  eexists. split; [unfold EMU_init; rewrite Eb, Es; reflexivity|]. intros fl m. eapply emu_rep.
  - split; [exact Hl|exact Hc| |reflexivity].
    intros i r Hx. exfalso. exact (proj1 (elem_of_nil (i, r)) Hx).
  - apply init_cmd_part.
  - apply (tqs_rep_ext _ _ _ FTL_int_task_queue_rep). intros n _. by destruct n as [|[|[|[|[|]]]]].
  - apply init_fly_part.
  - exact Hb.
Qed.

Section emulator.
Context (mem_base : Z) (uninit_ppa : phy_page_addr).
Abbreviation step := (sys_step mem_base uninit_ppa).
Abbreviation reachable := (sys_reachable mem_base uninit_ppa).

(** ** Refinement *)
Lemma sys_step_refines s s' p :
  step s s' → sys_rep s p → pipe_inv p → ∃ p', rtc pstep p p' ∧ sys_rep s' p'.
Proof.
  intros Hst Hr Hp. destruct Hst as [op lp sz i sh s Hsz E|i c e s Hn E|i c e s Hi E|n e s Hn E|
    n e s El E|n b s Hn E|n sq fuel junk fl m b s Hn Hsq Hj Ew E].
  - destruct (submit_step s p op lp sz i sh Hr Hsz E) as (p' & ? & ?).
    exists p'. split; [by apply rtc_once|done].
  - destruct (get_step s p Hr Hn) as (i' & c' & e' & p' & E' & _ & _ & ? & ?).
    rewrite E in E'. injection E' as <- <- <-. exists p'. split; [by apply pwait_steps|done].
  - destruct (accept_step s p i c Hr Hp Hi) as (e' & p' & E' & ? & ?).
    rewrite E in E'. injection E' as <-. exists p'. split; [|done].
    naive_solver eauto using pwait_steps, rtc_once, paccept_step.
  - destruct (on_queue n Hn) as [a Ha]. destruct (p_at p a) as [|k l] eqn:Ea.
    + destruct (task_idle mem_base uninit_ppa a n s p Ha Hr Ea) as (e' & E' & ?).
      rewrite E in E'. injection E' as <-. by exists p.
    + destruct (task_move mem_base uninit_ppa a n s p k l Ha Hr Hp Ea) as (c & e' & Hc & E' & ?).
      rewrite E in E'. injection E' as <-. exists (move a k l c p). split; [|done].
      apply rtc_once, P_work, P_move; [done|done|]. by intros ->.
  - destruct (sr_fly s p Hr) as (fr & fh & fc & Hfl).
    rewrite (be_first_completed _ _ _ _ (fp_be _ _ _ _ _ _ _ Hfl)) in El.
    destruct fc as [|f fc]; [done|]. injection El as <-.
    destruct (cq_step s p f fc Hr Hp) as (e' & p' & E' & Hm & _ & ?); [by exists fr, fh|].
    rewrite E in E'. injection E' as <-. exists p'. split; [by apply rtc_once, P_work|done].
  - destruct (take_step s p n b Hr Hp Hn E) as (p' & ? & ?).
    exists p'. split; [by apply rtc_once, P_work|done].
  - destruct (done_step s p n b fl m Hr Hp Hn E) as (p' & ? & ?).
    exists p'. split; [by apply rtc_once, P_work|done].
Qed.

Lemma steps_refine s s' p :
  rtc step s s' → sys_rep s p → pipe_inv p → ∃ p', rtc pstep p p' ∧ sys_rep s' p'.
Proof.
  intros Hr. revert p. induction Hr as [s|s s1 s2 Hs _ IH]; intros p Hrep Hp; [by exists p|].
  destruct (sys_step_refines s s1 p Hs Hrep Hp) as (p1 & Hp1 & Hr1).
  destruct (IH p1 Hr1) as (p2 & ? & ?).
  - clear -Hp Hp1. induction Hp1; [done|]. by eauto using pstep_inv.
  - exists p2. split; [by etransitivity|done].
Qed.

Lemma pipe_reach_inv p : rtc pstep pipe_init p → pipe_inv p.
Proof.
  intros Hr. pose proof pipe_init_inv as H0. revert H0. generalize pipe_init, Hr. clear Hr.
  intros p0 Hr. induction Hr as [|p0 p1 p2 Hs _ IH]; [done|]. intros H0. by eapply IH, pstep_inv.
Qed.

(** ** Runs from one initial state *)
Section from.
Context (s0 : sys).
Abbreviation from := (sys_run mem_base uninit_ppa s0).

Lemma run_rep s :
  from s → ∃ p, rtc pstep pipe_init p ∧ sys_rep s p ∧ pipe_inv p.
Proof.
  intros [(Hi & Hp & Hh) Hr].
  assert (∃ p, rtc pstep pipe_init p ∧ sys_rep s0 p) as H0.
  { destruct EMU_init_rep as (e & He & Hrep). destruct s0 as [e0 pd hd fl m]. simpl in *.
    rewrite He in Hi. injection Hi as <-. subst.
    exists pipe_init. split; [apply rtc_refl|apply Hrep]. }
  revert H0. clear Hi Hp Hh. intros H0.
  assert (∃ p, rtc pstep pipe_init p ∧ sys_rep s p) as (p & ? & ?).
  { induction Hr as [|s0 s1 s2 Hs _ IH]; [done|]. apply IH. destruct H0 as (p & Hp & Hrep).
    destruct (sys_step_refines s0 s1 p Hs Hrep (pipe_reach_inv p Hp)) as (p1 & ? & ?).
    exists p1. split; [by etransitivity|done]. }
  exists p. split_and!; [done|done|by apply pipe_reach_inv].
Qed.

Lemma run_step s s' : from s → step s s' → from s'.
Proof. intros [Hi Hr] Hs. split; [done|]. by eapply rtc_r. Qed.

(** ** The FTL's functions from a from state *)
Lemma task_reach s n :
  from s → (n < 5)%nat →
  ∃ e, run_task mem_base uninit_ppa (Z.of_nat n) (s_emu s) = Some (tt, e) ∧
    from (s <| s_emu := e |>).
Proof.
  intros Hs Hn. destruct (run_rep s Hs) as (p & _ & Hr & Hp).
  assert (∃ e, run_task mem_base uninit_ppa (Z.of_nat n) (s_emu s) = Some (tt, e)) as [e E].
  { destruct (on_queue n Hn) as [a Ha]. destruct (p_at p a) as [|k l] eqn:Ea.
    - destruct (task_idle mem_base uninit_ppa a n s p Ha Hr Ea) as (e & E & _). eauto.
    - destruct (task_move mem_base uninit_ppa a n s p k l Ha Hr Hp Ea) as (c & e & _ & E & _). eauto. }
  exists e. split; [done|]. eapply run_step; [done|]. by eapply Step_task.
Qed.

Lemma get_reach s :
  from s → s_pend s = None → ∃ i c e,
    on_shm SHM_get_rdy_list (s_emu s) = Some ((i, c), e) ∧
    (c = None → i = CMD_SLOT_NUM ∧ e = s_emu s) ∧ (is_Some c → i ≠ CMD_SLOT_NUM) ∧
    from (s <| s_emu := e |> <| s_pend := (i,.) <$> c |>).
Proof.
  intros Hs Hn. destruct (run_rep s Hs) as (p & _ & Hr & Hp).
  destruct (get_step s p Hr Hn) as (i & c & e & p' & E & H1 & H2 & _).
  exists i, c, e. split_and!; [done..|]. eapply run_step; [done|]. by eapply Step_get.
Qed.

Lemma accept_reach s i c :
  from s → s_pend s = Some (i, c) → ∃ e, nvme_accept i c (s_emu s) = Some (tt, e) ∧
    from (s <| s_emu := e |> <| s_pend := None |>).
Proof.
  intros Hs Hi. destruct (run_rep s Hs) as (p & _ & Hr & Hp).
  destruct (accept_step s p i c Hr Hp Hi) as (e & p' & E & _).
  exists e. split; [done|]. eapply run_step; [done|]. by eapply Step_accept.
Qed.

(** The first completed entry, when there is one. *)
Lemma cq_reach s :
  from s →
  load_next (be_nodes (e_be (s_emu s))) (Some complete_list) = Some (Some complete_list) ∨
  ∃ n e, load_next (be_nodes (e_be (s_emu s))) (Some complete_list) = Some (Some (sq_node n)) ∧
    cq_body n (s_emu s) = Some (tt, e) ∧ from (s <| s_emu := e |>).
Proof.
  intros Hs. destruct (run_rep s Hs) as (p & _ & Hr & Hp).
  destruct (sr_fly s p Hr) as (fr & fh & fc & Hfl).
  pose proof (be_first_completed _ _ _ _ (fp_be _ _ _ _ _ _ _ Hfl)) as El.
  destruct fc as [|f fc]; [by left|]. right.
  destruct (cq_step s p f fc Hr Hp) as (e & p' & E & _); [by exists fr, fh|].
  exists (f_node f), e. split_and!; [done|done|].
  eapply run_step; [done|]. eapply (Step_cq _ _ (f_node f)); [exact El|exact E].
Qed.

Lemma sys_emu_same s : s <| s_emu := s_emu s |> = s.
Proof. by destruct s. Qed.

Lemma nvme_turn_run s :
  from s → s_pend s = None →
  ∃ e, nvme_turn (s_emu s) = Some (tt, e) ∧ from (s <| s_emu := e |>).
Proof.
  intros Hs Hn. destruct (get_reach s Hs Hn) as (i & c & e & E & H1 & H2 & Hs').
  unfold nvme_turn. rewrite (bind_run _ _ _ _ _ E). destruct c as [c|].
  - rewrite decide_False by by apply H2. erewrite bind_run by (apply try_get_run; reflexivity).
    destruct (accept_reach _ i c Hs' eq_refl) as (e' & E' & Hs'').
    exists e'. split; [exact E'|]. simpl in Hs''. replace (s <| s_emu := e' |>) with
      (s <| s_emu := e |> <| s_pend := Some (i, c) |> <| s_emu := e' |> <| s_pend := None |>);
      [done|]. destruct s; simpl in *. by subst.
  - destruct H1 as [-> ->]; [done|]. exists (s_emu s). rewrite decide_True by done.
    split; [done|]. by rewrite sys_emu_same.
Qed.

(** A loop over operations that lead from from states to reachable ones. *)
Lemma for_M_reach s n i m :
  (∀ j e, (i ≤ j < i + n)%nat → from (s <| s_emu := e |>) →
    ∃ e', m j e = Some (tt, e') ∧ from (s <| s_emu := e' |>)) →
  ∀ e, from (s <| s_emu := e |>) →
  ∃ e', for_M n i m e = Some (tt, e') ∧ from (s <| s_emu := e' |>).
Proof. intros Hm e He. by apply (for_M_ind (λ _ e, from (s <| s_emu := e |>))). Qed.

Lemma queue_cnt s p n :
  sys_rep s p → (n < 5)%nat →
  FTL_get_taskqueue_cnt (Z.of_nat n) (e_tq (s_emu s)) = Some (Z.of_nat (length (queue_of (p_at p) n))).
Proof. intros Hr Hn. apply (get_cnt_spec _ _ n (sr_tq s p Hr)). lia. Qed.

Lemma run_queue_reach s n :
  from s → (n < 5)%nat →
  ∃ e, run_queue mem_base uninit_ppa (Z.of_nat n) (s_emu s) = Some (tt, e) ∧
    from (s <| s_emu := e |>).
Proof.
  intros Hs Hn. destruct (run_rep s Hs) as (p & _ & Hr & Hp).
  unfold run_queue. erewrite bind_run by (apply try_get_run; by apply (queue_cnt s p)).
  apply (for_M_reach s).
  - intros j e _ He. exact (task_reach (s <| s_emu := e |>) n He Hn).
  - by rewrite sys_emu_same.
Qed.

(** Empty queues and lists: no command is on its way. *)
Lemma rep_idle s p :
  sys_rep s p →
  (∀ n, (n < 5)%nat → FTL_get_taskqueue_cnt (Z.of_nat n) (e_tq (s_emu s)) = Some 0) →
  list_empty (Some register_list) (be_nodes (e_be (s_emu s))) = Some 1 →
  list_empty (Some complete_list) (be_nodes (e_be (s_emu s))) = Some 1 →
  s_held s = None → live (p_at p) = [].
Proof.
  intros Hr Hq Hreg Hcomp Hn.
  assert (∀ n, (n < 5)%nat → queue_of (p_at p) n = []) as Hqs.
  { intros n Hl. specialize (Hq n Hl). rewrite (queue_cnt s p n Hr Hl) in Hq.
    apply nil_length_inv. injection Hq. lia. }
  destruct (sr_fly s p Hr) as (fr & fh & fc & [_ Hbe (A1 & A2 & A3) Hh _ _ _]).
  rewrite (list_empty_spec _ _ _ (ber_reg _ _ _ _ Hbe)) in Hreg.
  rewrite (list_empty_spec _ _ _ (ber_comp _ _ _ _ Hbe)) in Hcomp.
  destruct fr; [|done]. destruct fc; [|done]. destruct fh; [|by rewrite Hn in Hh].
  unfold live, places. simpl. rewrite A1, A2, A3.
  pose proof (Hqs 0%nat ltac:(lia)) as H0. pose proof (Hqs 1%nat ltac:(lia)) as H1.
  pose proof (Hqs 2%nat ltac:(lia)) as H2. pose proof (Hqs 3%nat ltac:(lia)) as H3.
  pose proof (Hqs 4%nat ltac:(lia)) as H4. simpl in *. by rewrite H0, H1, H2, H3, H4.
Qed.

Lemma completed_bound s p :
  sys_rep s p → (length (p_at p Completed) ≤ be_fresh (e_be (s_emu s)))%nat.
Proof.
  intros Hr. destruct (sr_fly s p Hr) as (fr & fh & fc & [_ Hbe (_ & _ & ->) _ _ _ _]).
  rewrite length_fmap, <- (length_fmap f_node). apply NoDup_bounded_length.
  - pose proof (ber_nodup _ _ _ _ Hbe) as Hnd. rewrite app_assoc in Hnd.
    by apply NoDup_app in Hnd as (_ & _ & ?).
  - intros k Hk. apply (ber_alloc _ _ _ _ Hbe). rewrite !elem_of_app. tauto.
Qed.

Lemma cq_loop_reach fuel s p :
  from s → sys_rep s p → pipe_inv p → (length (p_at p Completed) < fuel)%nat →
  ∃ e, cq_loop fuel (s_emu s) = Some (tt, e) ∧ from (s <| s_emu := e |>).
Proof.
  revert s p. induction fuel as [|fuel IH]; intros s p Hs Hr Hp Hl; [lia|].
  cbn [cq_loop]. destruct (sr_fly s p Hr) as (fr & fh & fc & Hfl).
  pose proof (be_first_completed _ _ _ _ (fp_be _ _ _ _ _ _ _ Hfl)) as El.
  erewrite bind_run by (apply try_get_run; exact El). destruct fc as [|f fc].
  - exists (s_emu s). split; [done|]. by rewrite sys_emu_same.
  - destruct (cq_step s p f fc Hr Hp) as (e & p' & E & Hm & Hc & Hr'); [by exists fr, fh|].
    cbn [list.head fmap list_fmap option_fmap option_map default from_option id].
    rewrite (bind_run _ _ _ _ _ E). rewrite Hc in Hl. simpl in Hl.
    destruct (IH (s <| s_emu := e |>) p') as (e' & E' & Hs');
      [eapply run_step; [done|]; eapply (Step_cq _ _ (f_node f)); [exact El|exact E]|done|by eapply pmove_inv|lia|].
    by exists e'.
Qed.

Lemma cq_polling_reach s :
  from s → ∃ e, FTL_CQ_polling (s_emu s) = Some (tt, e) ∧ from (s <| s_emu := e |>).
Proof.
  intros Hs. destruct (run_rep s Hs) as (p & _ & Hr & Hp).
  unfold FTL_CQ_polling. erewrite bind_run by done. apply (cq_loop_reach _ s p Hs Hr Hp).
  pose proof (completed_bound s p Hr). lia.
Qed.

Lemma main_turn_run s :
  from s → s_pend s = None →
  ∃ e, FTL_core0_turn mem_base uninit_ppa (s_emu s) = Some (tt, e) ∧ from (s <| s_emu := e |>).
Proof.
  intros Hs Hn. unfold FTL_core0_turn.
  destruct (for_M_reach s MAX_POLLING_NUM O (λ _, nvme_turn)) with (e := s_emu s)
    as (e1 & E1 & H1).
  { intros j e _ He. exact (nvme_turn_run (s <| s_emu := e |>) He Hn). }
  { by rewrite sys_emu_same. }
  change (for_M MAX_POLLING_NUM 0 (λ _, nvme_turn)) with FTL_nvme_req_polling in E1.
  rewrite (bind_run _ _ _ _ _ E1).
  destruct (for_M_reach s (S (Z.to_nat HCE_FINISH)) O
    (λ i, run_queue mem_base uninit_ppa (Z.of_nat i))) with (e := e1) as (e2 & E2 & H2).
  { intros j e Hj He. refine (run_queue_reach (s <| s_emu := e |>) j He _).
    change (S (Z.to_nat HCE_FINISH)) with 5%nat in Hj. lia. }
  { done. }
  change (FTL_core0task_polling mem_base uninit_ppa e1 = Some (tt, e2)) in E2.
  rewrite (bind_run _ _ _ _ _ E2). exact (cq_polling_reach (s <| s_emu := e2 |>) H2).
Qed.
End from.

(** ** Reachable states *)
Lemma reachable_rep s :
  reachable s → ∃ p, rtc pstep pipe_init p ∧ sys_rep s p ∧ pipe_inv p.
Proof. intros [s0 Hs]. exact (run_rep s0 s Hs). Qed.

Lemma turn_reach s :
  reachable s → s_pend s = None →
  ∃ e, FTL_core0_turn mem_base uninit_ppa (s_emu s) = Some (tt, e) ∧ reachable (s <| s_emu := e |>).
Proof.
  intros [s0 Hs] Hn. destruct (main_turn_run s0 s Hs Hn) as (e & E & Hs'). exists e. split; [exact E|].
  by exists s0.
Qed.
End emulator.
