(* ===== verification/Scenarios.v ===== *)
(** * Running the emulator

    A schedule is a list of actions of the three parties; [run] executes it
    with the functions of the model.  Its states are reachable, so runs are
    concrete instances for the theorems of [Guarantees]. *)
From stdpp Require Import functions.
From S2P Require Import Prelude CInt Bitmap Config ListHeap Shm Buffer Hcl TaskQueue FlashLog Fcl.
From S2P Require Import L2P Backend Ftl FtlSpec Pipeline System Emulator.
#[local] Open Scope Z_scope.

Inductive action :=
  | Submit (op lp sz : Z)     (** the host submits a command *)
  | Turn                      (** one turn of the FTL's main loop *)
  | Task (n : nat)            (** the FTL handles one command of queue [n] *)
  | Serve.                    (** the back end takes an entry and finishes it *)

Section run.
Context (mem_base : Z) (uninit_ppa : phy_page_addr).
Abbreviation reachable := (sys_reachable mem_base uninit_ppa).

Definition start : option sys := e ← EMU_init; Some (Sys e None None [] (λ _, 0)).

Lemma start_fields s0 : start = Some s0 → s_flash s0 = [] ∧ s_mem s0 = λ _, 0.
Proof. unfold start. generalize EMU_init. intros [e|] E; [by injection E as <-|discriminate]. Qed.

Definition act (a : action) (s : sys) : option sys :=
  match a with
  | Submit op lp sz =>
      if decide (0 ≤ sz < 2 ^ 32) then
        '(_, sh) ← host_submit op lp sz (e_shm (s_emu s));
        Some (s <| s_emu := (s_emu s) <| e_shm := sh |> |>)
      else None
  | Turn => '(_, e) ← FTL_core0_turn mem_base uninit_ppa (s_emu s); Some (s <| s_emu := e |>)
  | Task n =>
      if decide (n < 5)%nat then
        '(_, e) ← run_task mem_base uninit_ppa (Z.of_nat n) (s_emu s); Some (s <| s_emu := e |>)
      else None
  | Serve =>
      '(n, b) ← be_take (e_be (s_emu s));
      sq ← be_sqs b !! n;
      '(fl, m) ← be_work 4 sq [0; 0] (s_flash s) (s_mem s);
      b ← be_complete n b;
      Some (Sys ((s_emu s) <| e_be := b |>) (s_pend s) None fl m)
  end.

Fixpoint run (l : list action) (s : sys) : option sys :=
  match l with
  | [] => Some s
  | a :: l' => s ← act a s; run l' s
  end.

(** On a run from the start, and no thread between its critical sections. *)
Definition at_rest (s0 s : sys) : Prop :=
  sys_run mem_base uninit_ppa s0 s ∧ s_pend s = None ∧ s_held s = None.

Lemma start_rest s : start = Some s → at_rest s s.
Proof.
  unfold start. intros (e & He & E)%bind_Some. injection E as <-. split; [|by split].
  split; [|apply rtc_refl]. split; [exact He|by split].
Qed.

Lemma submit_rest op lp sz s0 s s' : at_rest s0 s → act (Submit op lp sz) s = Some s' → at_rest s0 s'.
Proof.
  intros (Hs & Hp & Hh) Ha. unfold act in Ha. destruct (decide (0 ≤ sz < 2 ^ 32)) as [Hsz|]; [|done].
  apply bind_Some in Ha as ([i sh] & E & Ha). injection Ha as <-.
  split; [|by split]. eapply run_step; [exact Hs|]. exact (Step_submit _ _ _ _ _ _ _ s Hsz E).
Qed.

Lemma turn_rest s0 s s' : at_rest s0 s → act Turn s = Some s' → at_rest s0 s'.
Proof.
  intros (Hs & Hp & Hh) Ha. unfold act in Ha.
  apply bind_Some in Ha as ([u e] & E & Ha). injection Ha as <-. split; [|by split].
  destruct (main_turn_run _ _ s0 s Hs Hp) as (e' & E' & Hr). rewrite E in E'. by injection E' as _ <-.
Qed.

Lemma task_rest n s0 s s' : at_rest s0 s → act (Task n) s = Some s' → at_rest s0 s'.
Proof.
  intros (Hs & Hp & Hh) Ha. unfold act in Ha. destruct (decide (n < 5)%nat) as [Hn|]; [|done].
  apply bind_Some in Ha as ([[] e] & E & Ha). injection Ha as <-. split; [|by split].
  eapply run_step; [exact Hs|]. exact (Step_task _ _ n e s Hn E).
Qed.

Lemma serve_rest s0 s s' : at_rest s0 s → act Serve s = Some s' → at_rest s0 s'.
Proof.
  intros (Hs & Hp & Hh) Ha. unfold act in Ha.
  apply bind_Some in Ha as ([n b] & E & Ha). apply bind_Some in Ha as (sq & Esq & Ha).
  apply bind_Some in Ha as ([fl m] & Ew & Ha). apply bind_Some in Ha as (b' & Ec & Ha).
  injection Ha as <-. split; [|by split].
  eapply (run_step _ _ s0 (s <| s_emu := (s_emu s) <| e_be := b |> |> <| s_held := Some n |>)).
  - eapply run_step; [exact Hs|]. exact (Step_take _ _ n b s Hh E).
  - exact (Step_done _ _ n sq 4 [0; 0] fl m b' (s <| s_emu := (s_emu s) <| e_be := b |> |>
      <| s_held := Some n |>) eq_refl Esq eq_refl Ew Ec).
Qed.

Lemma act_rest a s0 s s' : at_rest s0 s → act a s = Some s' → at_rest s0 s'.
Proof. destruct a; [apply submit_rest|apply turn_rest|apply task_rest|apply serve_rest]. Qed.

Lemma run_rest l s0 s s' : at_rest s0 s → run l s = Some s' → at_rest s0 s'.
Proof.
  revert s. induction l as [|a l IH]; intros s Hs; cbn [run].
  - intros E. by injection E as <-.
  - intros (s1 & E & Hr)%bind_Some. exact (IH s1 (act_rest a s0 s s1 Hs E) Hr).
Qed.

(** Schedules whose final states satisfy a test give reachable states that do;
    the initial state is computed once for all of them. *)
Lemma run_tests (cases : list (list action * (sys → bool))) :
  (match start with
   | Some s0 => forallb (λ '(l, P), match run l s0 with Some s => P s | None => false end) cases
   | None => false
   end) = true →
  ∀ l P, (l, P) ∈ cases → ∃ s0 s, (s_flash s0 = [] ∧ s_mem s0 = λ _, 0) ∧ at_rest s0 s ∧ P s = true.
Proof.
  destruct start as [s0|] eqn:E0; [|done]. rewrite forallb_forall. intros Hall l P Hin.
  apply list_elem_of_In, Hall in Hin. destruct (run l s0) as [s|] eqn:E; [|done].
  exists s0, s. split; [exact (start_fields s0 E0)|].
  split; [exact (run_rest l s0 s0 s (start_rest s0 E0) E)|exact Hin].
Qed.
End run.

(** ** Tests on states *)

Definition used_count (s : sys) : nat :=
  length (filter (λ k, hcl_used (e_hcl (s_emu s)) k = true) (seq 0 256)).
Definition queues_empty (s : sys) : bool :=
  forallb (λ n, bool_decide (FTL_get_taskqueue_cnt (Z.of_nat n) (e_tq (s_emu s)) = Some 0)) (seq 0 5)
  && bool_decide (list_empty (Some register_list) (be_nodes (e_be (s_emu s))) = Some 1)
  && bool_decide (list_empty (Some complete_list) (be_nodes (e_be (s_emu s))) = Some 1).

Definition demo_base : Z := 0.
Definition demo_ppa : phy_page_addr := PhyPageAddr 0 0 [0; 0].

(** Write one page, then read one page, and let everything happen. *)
Definition write_read : list action :=
  [Submit SHM_WRITE_OPS 0 16384; Submit SHM_READ_OPS 0 16384; Turn; Turn; Serve; Serve;
   Turn; Turn; Turn].
(** A write that has just been accepted, handed to the back end, completed, and
    is about to be finished. *)
Definition write_queued : list action := [Submit SHM_WRITE_OPS 0 16384; Turn].
Definition write_submitted : list action := [Submit SHM_WRITE_OPS 0 16384].
Definition write_sent : list action := write_queued ++ [Turn].
Definition write_finishing : list action := write_sent ++ [Serve; Turn; Task 3].
(** A write of two pages, and an operation that is neither read nor write. *)
Definition bad_commands : list action :=
  [Submit SHM_WRITE_OPS 0 32768; Submit 3 0 16384; Turn; Turn; Serve; Turn; Turn; Turn].
(** 256 commands that are neither read nor write. *)
Definition exhaust : list action :=
  mjoin (repeat (repeat (Submit 3 0 16384) 8 ++ [Turn]) 32).

Definition served_test (s : sys) : bool :=
  Nat.eqb (used_count s) 0 && queues_empty s && negb (Nat.eqb (length (take 1 (s_flash s))) 0).
Definition queued_test (s : sys) : bool :=
  Nat.eqb (used_count s) 1
  && bool_decide (FTL_get_taskqueue_cnt HCE_TO_SQ (e_tq (s_emu s)) = Some 1).
Definition submitted_test (s : sys) : bool :=
  match on_shm SHM_get_rdy_list (s_emu s) with
  | Some ((i, Some c), e) =>
      match HCL_get_host_cmd_entry (e_hcl e), nvme_accept i c e with
      | Some (Some _, _), Some _ => true
      | _, _ => false
      end
  | _ => false
  end.
Definition sent_test (s : sys) : bool := bool_decide (is_Some (be_take (e_be (s_emu s)))).
Definition finishing_test (s : sys) : bool :=
  bool_decide (fst <$> FTL_task_queue_remove_head HCE_FINISH (e_tq (s_emu s)) = Some (Some 0%nat)).
Definition bad_test (s : sys) : bool :=
  Nat.eqb (used_count s) 2 && queues_empty s && negb (hcl_used (e_hcl (s_emu s)) 7).
Definition exhaust_test (s : sys) : bool :=
  forallb (hcl_used (e_hcl (s_emu s))) (seq 0 256) && queues_empty s.

Definition demo_cases : list (list action * (sys → bool)) :=
  [(write_read, served_test); (write_queued, queued_test);
   (write_submitted, submitted_test); (write_sent, sent_test); (write_finishing, finishing_test); (bad_commands, bad_test);
   (exhaust, exhaust_test)].

Lemma demo_case l P :
  (l, P) ∈ demo_cases →
  ∃ s0 s, (s_flash s0 = [] ∧ s_mem s0 = λ _, 0) ∧ at_rest demo_base demo_ppa s0 s ∧ P s = true.
Proof. apply run_tests. vm_compute. reflexivity. Qed.

(** A state of the schedule [l] of [demo_cases], with what its test says. *)
Ltac demo_state l P :=
  destruct (demo_case l P) as (s0 & s & [Hf0 Hm0] & (Hr0 & Hp & Hh) & E);
    [unfold demo_cases; rewrite !elem_of_cons; tauto|];
  assert (sys_reachable demo_base demo_ppa s) as Hs by (exists s0; exact Hr0).
