(* ===== verification/Guarantees.v ===== *)
(** * Guarantees of the emulator

    The properties of every reachable state, each for all submissions of the
    host and all interleavings: they follow from the refinement of [Pipeline]
    ([Emulator]) and are stated on the program's own operations. *)
From stdpp Require Import functions.
From S2P Require Import Prelude CInt Bitmap Config ListHeap Shm Buffer Hcl TaskQueue FlashLog Fcl.
From S2P Require Import L2P Backend Ftl FtlSpec Pipeline System Emulator Scenarios.
#[local] Open Scope Z_scope.

(** A read or a write of one 16K page: what the pipeline can finish. *)
Definition one_page (e : host_cmd_entry) : Prop :=
  (Hcl.op_code e = HCE_READ ∨ Hcl.op_code e = HCE_WRITE) ∧ Hcl.req_num e = 1.

Lemma one_page_rep e c : cmd_rep e c → one_page e ↔ well_formed c.
Proof. intros [E1 E2 _ _ _]. unfold one_page, well_formed. by rewrite E1, E2. Qed.

(** The commands of the nodes in [l]. *)
Definition node_cmd (b : backend) (n : nat) : option nat :=
  sq ← be_sqs b !! n; Some (Z.to_nat (bf_get hcmd_index (es_entry sq))).

(** A step on a command that is already accepted. *)
Inductive work_step (mem_base : Z) (uninit_ppa : phy_page_addr) : sys → sys → Prop :=
| Work_task n k q e s :
    (n < 5)%nat → FTL_task_queue_remove_head (Z.of_nat n) (e_tq (s_emu s)) = Some (Some k, q) →
    run_task mem_base uninit_ppa (Z.of_nat n) (s_emu s) = Some (tt, e) →
    work_step mem_base uninit_ppa s (s <| s_emu := e |>)
| Work_cq n e s :
    load_next (be_nodes (e_be (s_emu s))) (Some complete_list) = Some (Some (sq_node n)) →
    cq_body n (s_emu s) = Some (tt, e) →
    work_step mem_base uninit_ppa s (s <| s_emu := e |>)
| Work_take n b s :
    s_held s = None → be_take (e_be (s_emu s)) = Some (n, b) →
    work_step mem_base uninit_ppa s
      (s <| s_emu := (s_emu s) <| e_be := b |> |> <| s_held := Some n |>)
| Work_done n sq fuel junk fl m b s :
    s_held s = Some n → be_sqs (e_be (s_emu s)) !! n = Some sq → length junk = 2%nat →
    be_work fuel sq junk (s_flash s) (s_mem s) = Some (fl, m) →
    be_complete n (e_be (s_emu s)) = Some b →
    work_step mem_base uninit_ppa s (Sys ((s_emu s) <| e_be := b |>) (s_pend s) None fl m).

(** A command that waited is accepted: it gets an entry of the table. *)
Inductive accepting : sys → sys → Prop :=
| Accept_entry i c k h e s :
    s_pend s = Some (i, c) → HCL_get_host_cmd_entry (e_hcl (s_emu s)) = Some (Some k, h) →
    nvme_accept i c (s_emu s) = Some (tt, e) →
    accepting s (s <| s_emu := e |> <| s_pend := None |>).

(** A step that only polls: a command is taken from RDY, or RDY is empty; it is put back,
    because no entry is free; a task queue is empty. *)
Inductive polling (mem_base : Z) (uninit_ppa : phy_page_addr) : sys → sys → Prop :=
| Poll_get i c e s :
    s_pend s = None → on_shm SHM_get_rdy_list (s_emu s) = Some ((i, c), e) →
    polling mem_base uninit_ppa s (s <| s_emu := e |> <| s_pend := (i,.) <$> c |>)
| Poll_retry i c h e s :
    s_pend s = Some (i, c) → HCL_get_host_cmd_entry (e_hcl (s_emu s)) = Some (None, h) →
    nvme_accept i c (s_emu s) = Some (tt, e) →
    polling mem_base uninit_ppa s (s <| s_emu := e |> <| s_pend := None |>)
| Poll_task n q e s :
    (n < 5)%nat → FTL_task_queue_remove_head (Z.of_nat n) (e_tq (s_emu s)) = Some (None, q) →
    run_task mem_base uninit_ppa (Z.of_nat n) (s_emu s) = Some (tt, e) →
    polling mem_base uninit_ppa s (s <| s_emu := e |>).

Definition submitting (s s' : sys) : Prop :=
  ∃ op lp sz i sh, 0 ≤ sz < 2 ^ 32 ∧ host_submit op lp sz (e_shm (s_emu s)) = Some (i, sh) ∧
    s' = s <| s_emu := (s_emu s) <| e_shm := sh |> |>.

(** A run without submissions, and how many of its steps were not mere polls. *)
Inductive quiet_run (mem_base : Z) (uninit_ppa : phy_page_addr) : nat → sys → sys → Prop :=
| Quiet_end s : quiet_run mem_base uninit_ppa 0 s s
| Quiet_work n s s1 s2 :
    accepting s s1 ∨ work_step mem_base uninit_ppa s s1 →
    quiet_run mem_base uninit_ppa n s1 s2 → quiet_run mem_base uninit_ppa (S n) s s2
| Quiet_poll n s s1 s2 :
    polling mem_base uninit_ppa s s1 →
    quiet_run mem_base uninit_ppa n s1 s2 → quiet_run mem_base uninit_ppa n s s2.

(** The back end is inside a read that never ends. *)
Definition be_stuck (s : sys) : Prop :=
  ∃ n sq, s_held s = Some n ∧ be_sqs (e_be (s_emu s)) !! n = Some sq ∧
    ∀ fuel junk, length junk = 2%nat → be_work fuel sq junk (s_flash s) (s_mem s) = None.

Section guarantees.
Context (mem_base : Z) (uninit_ppa : phy_page_addr).
Abbreviation step := (sys_step mem_base uninit_ppa).
Abbreviation work := (work_step mem_base uninit_ppa).
Abbreviation reachable := (sys_reachable mem_base uninit_ppa).

(** ** Work *)
Lemma work_is_step s s' : work s s' → step s s'.
Proof.
  intros [n k q e s0 Hn _ E|n e s0 El E|n b s0 Hn E|n sq fuel junk fl m b s0 Hn Hsq Hj Ew E];
    [by eapply Step_task|by eapply Step_cq|by eapply Step_take|by eapply Step_done].
Qed.

Lemma removed_head s p n k q :
  sys_rep s p → (n < 5)%nat →
  FTL_task_queue_remove_head (Z.of_nat n) (e_tq (s_emu s)) = Some (Some k, q) →
  ∃ a l, queue_no a = Some n ∧ p_at p a = k :: l.
Proof.
  intros Hr Hn E. destruct (on_queue n Hn) as [a Ha]. exists a.
  destruct (p_at p a) as [|j l] eqn:Ea.
  - rewrite (remove_head_empty _ _ n (sr_tq s p Hr)) in E; [done|lia|].
    by rewrite (proj1 (queue_of_no (p_at p) a n Ha)).
  - destruct (remove_head_spec _ _ n j l (sr_tq s p Hr)) as (q' & E' & _); [lia| |].
    { by rewrite (proj1 (queue_of_no (p_at p) a n Ha)). }
    rewrite E in E'. injection E' as -> ->. by exists l.
Qed.

Lemma work_refines s s' p :
  work s s' → sys_rep s p → pipe_inv p → ∃ p', pmove p p' ∧ sys_rep s' p'.
Proof.
  intros Hst Hr Hp. destruct Hst as [n k q e s Hn Eh E|n e s El E|n b s Hn E|
    n sq fuel junk fl m b s Hn Hsq Hj Ew E].
  - destruct (removed_head s p n k q Hr Hn Eh) as (a & l & Ha & Ea).
    destruct (task_move mem_base uninit_ppa a n s p k l Ha Hr Hp Ea) as (c & e' & Hc & E' & ?).
    rewrite E in E'. injection E' as <-. exists (move a k l c p). split; [|done].
    apply P_move; [done|done|]. by intros ->.
  - destruct (sr_fly s p Hr) as (fr & fh & fc & Hfl).
    rewrite (be_first_completed _ _ _ _ (fp_be _ _ _ _ _ _ _ Hfl)) in El.
    destruct fc as [|f fc]; [done|]. injection El as <-.
    destruct (cq_step s p f fc Hr Hp) as (e' & p' & E' & Hm & _ & ?); [by exists fr, fh|].
    rewrite E in E'. injection E' as <-. by exists p'.
  - by eapply take_step.
  - by eapply done_step.
Qed.

(** Every step is a submission, the acceptance of a command, work on an accepted one,
    or a poll. *)
Lemma step_kinds s s' :
  step s s' ↔ submitting s s' ∨ accepting s s' ∨ work s s' ∨ polling mem_base uninit_ppa s s'.
Proof.
  split.
  - intros [op lp sz i sh s0 Hsz E|i c e s0 Hn E|i c e s0 Hi E|n e s0 Hn E|n e s0 El E|n b s0 Hn E|
      n sq fuel junk fl m b s0 Hn Hsq Hj Ew E].
    + left. unfold submitting. naive_solver.
    + do 3 right. by eapply Poll_get.
    + assert (∃ o h, HCL_get_host_cmd_entry (e_hcl (s_emu s0)) = Some (o, h)) as (o & h & Eh).
      { destruct (HCL_get_host_cmd_entry (e_hcl (s_emu s0))) as [[o h]|] eqn:Eh; [by eauto|].
        unfold nvme_accept, on_hcl, zoom, mbind, M_bind in E. by rewrite Eh in E. }
      destruct o as [k|]; [right; left; by eapply Accept_entry|do 3 right; by eapply Poll_retry].
    + assert (∃ o q, FTL_task_queue_remove_head (Z.of_nat n) (e_tq (s_emu s0)) = Some (o, q)) as (o & q & Eh).
      { destruct (FTL_task_queue_remove_head (Z.of_nat n) (e_tq (s_emu s0))) as [[o q]|] eqn:Eh; [by eauto|].
        exfalso. revert E. unfold run_task. case_decide; unfold on_tq, zoom, modify, skip, mret, M_ret, mbind, M_bind;
          cbn -[FTL_task_queue_remove_head u32 Z.of_nat]; by rewrite Eh. }
      destruct o as [k|]; [do 2 right; left; by eapply Work_task|do 3 right; by eapply Poll_task].
    + do 2 right. left. by eapply Work_cq.
    + do 2 right. left. by eapply Work_take.
    + do 2 right. left. by eapply Work_done.
  - intros [(op & lp & sz & i & sh & Hsz & E & ->)|[[i c k h e s0 Hi _ E]|[Hw|[i c e s0 Hn E|i c h e s0 Hi _ E|n q e s0 Hn _ E]]]];
      [by eapply Step_submit|by eapply Step_accept|by apply work_is_step|by eapply Step_get|by eapply Step_accept|by eapply Step_task].
Qed.

Lemma accept_refines s s' p :
  accepting s s' → sys_rep s p → pipe_inv p → ∃ p', paccept p p' ∧ sys_rep s' p'.
Proof.
  intros [i c k h e s0 Hi Eh E] Hr Hp.
  destruct (accept_step s0 p i c Hr Hp Hi) as (e' & p' & E' & Hst & Hr').
  rewrite E in E'. injection E' as <-. exists p'. split; [|done]. destruct Hst as [?|[_ Hall]]; [done|].
  destruct (HCL_get_spec _ (cp_wf _ _ (sr_cmd s0 p Hr))) as (o & h' & Eh' & _ & _ & Ho).
  rewrite Eh in Eh'. injection Eh' as <- <-. destruct Ho as (Hk & Hf & _). by rewrite Hall in Hf.
Qed.
Lemma poll_refines s s' p :
  polling mem_base uninit_ppa s s' → sys_rep s p → pipe_inv p → ∃ p', pwait p p' ∧ sys_rep s' p'.
Proof.
  intros Hst Hr Hp. destruct Hst as [i c e s Hn E|i c h e s Hi Eh E|n q e s Hn Eh E].
  - destruct (get_step s p Hr Hn) as (i' & c' & e' & p' & E' & _ & _ & ? & ?).
    rewrite E in E'. injection E' as <- <- <-. by exists p'.
  - destruct (accept_step s p i c Hr Hp Hi) as (e' & p' & E' & Hst & Hr').
    rewrite E in E'. injection E' as <-. exists p'. split; [|done]. destruct Hst as [Ha|[? _]]; [|done].
    assert (∃ k, p_cmd p !! k = None ∧ (k < 256)%nat) as (k & Hk & Hlt) by (destruct Ha; by eauto).
    destruct (HCL_get_spec _ (cp_wf _ _ (sr_cmd s p Hr))) as (o & h' & Eh' & _ & _ & Ho).
    rewrite Eh in Eh'. injection Eh' as <- <-. destruct Ho as [_ Hall]. specialize (Hall k Hlt).
    rewrite (cp_used _ _ (sr_cmd s p Hr)) in Hall by done. apply bool_decide_eq_true in Hall as [? ?]. congruence.
  - destruct (on_queue n Hn) as [a Ha]. destruct (p_at p a) as [|k l] eqn:Ea.
    + destruct (task_idle mem_base uninit_ppa a n s p Ha Hr Ea) as (e' & E' & ?).
      rewrite E in E'. injection E' as <-. exists p. split; [apply Wait_nothing|done].
    + destruct (remove_head_spec _ _ n k l (sr_tq s p Hr)) as (q' & E' & _); [lia| |by rewrite Eh in E'].
      by rewrite (proj1 (queue_of_no (p_at p) a n Ha)).
Qed.
Lemma quiet_potential n s s' p :
  quiet_run mem_base uninit_ppa n s s' → sys_rep s p → pipe_inv p →
  ∃ p', sys_rep s' p' ∧ (n + potential p' ≤ potential p)%nat.
Proof.
  intros Hq. revert p. induction Hq as [s|n s s1 s2 Hs _ IH|n s s1 s2 Hs _ IH]; intros p Hr Hp; [by exists p| |].
  - assert (∃ p1, sys_rep s1 p1 ∧ pipe_inv p1 ∧ (potential p1 < potential p)%nat) as (p1 & Hr1 & Hp1 & Hlt).
    { destruct Hs as [Hs|Hs].
      - destruct (accept_refines s s1 p Hs Hr Hp) as (p1 & Ha & ?). exists p1.
        split; [done|]. split; [by eapply pstep_inv; [apply paccept_step|]|by apply paccept_potential].
      - destruct (work_refines s s1 p Hs Hr Hp) as (p1 & Ha & ?). exists p1.
        split; [done|]. split; [by eapply pmove_inv|by apply pmove_potential]. }
    destruct (IH p1 Hr1 Hp1) as (p2 & ? & ?). exists p2. split; [done|lia].
  - destruct (poll_refines s s1 p Hs Hr Hp) as (p1 & Hw & Hr1).
    destruct (IH p1 Hr1) as (p2 & ? & Hle); [by eapply psteps_inv, Hp; apply pwait_steps|].
    exists p2. split; [done|]. by rewrite (pwait_potential _ _ Hw) in Hle.
Qed.

(** Any command on its way can be worked on, unless the back end hangs. *)
Lemma work_progress s p :
  sys_rep s p → pipe_inv p → live (p_at p) ≠ [] → (∃ s', work s s') ∨ s_held s ≠ None.
Proof.
  intros Hr Hp Hl. destruct (sr_fly s p Hr) as (fr & fh & fc & Hfl).
  pose proof Hfl as [Hhw Hbe (A1 & A2 & A3) Hh _ _ _].
  destruct (s_held s) as [n|] eqn:Hn; [by right|left].
  destruct fh as [|g fh]; [|done].
  assert (∀ a n k l, queue_no a = Some n → p_at p a = k :: l → ∃ s', work s s') as Htask.
  { intros a n k l Ha Ea. pose proof (queue_of_no (p_at p) a n Ha) as [Eq Hn5].
    destruct (task_move mem_base uninit_ppa a n s p k l Ha Hr Hp Ea) as (c & e & _ & E & _).
    destruct (remove_head_spec _ _ n k l (sr_tq s p Hr)) as (q & E' & _); [lia|by rewrite Eq|].
    eexists. by eapply Work_task. }
  destruct (live (p_at p)) as [|k l0] eqn:El; [done|].
  assert (k ∈ live (p_at p)) as (a & Ha)%elem_of_live by (rewrite El; left).
  destruct (p_at p a) as [|k' l] eqn:Ea; [by apply elem_of_nil in Ha|].
  destruct (queue_no a) as [n|] eqn:Hq; [by eapply Htask|].
  destruct a; try done.
  - rewrite Ea in A1. destruct fr as [|f fr]; [done|].
    destruct (be_take_spec _ _ _ _ _ Hbe) as (b & E & _). eexists. by eapply Work_take.
  - by rewrite A2 in Ea.
  - rewrite Ea in A3. destruct fc as [|f fc]; [done|].
    destruct (cq_step s p f fc Hr Hp) as (e & p' & E & _); [exists fr, []; by rewrite Hn|].
    eexists. eapply (Work_cq _ _ (f_node f)); [|exact E].
    by rewrite (be_first_completed _ _ _ _ Hbe).
Qed.

(** The back end finishes its entry unless its work never ends. *)
Lemma held_progress s p n :
  sys_rep s p → pipe_inv p → s_held s = Some n →
  ∃ sq, be_sqs (e_be (s_emu s)) !! n = Some sq ∧
    ∀ fuel junk r, length junk = 2%nat →
      be_work fuel sq junk (s_flash s) (s_mem s) = Some r → ∃ s', work s s'.
Proof.
  intros Hr Hp Hn. destruct (sr_fly s p Hr) as (fr & fh & fc & Hfl).
  pose proof Hfl as [Hhw Hbe (A1 & A2 & A3) Hh _ _ Hsq]. rewrite Hn in Hh.
  pose proof (pi_held p Hp) as Hle. rewrite A2, length_fmap in Hle.
  destruct fh as [|f [|? ?]]; [done| |simpl in Hle; lia]. injection Hh as ->.
  destruct (Hsq f) as (_ & en & Hen & _); [set_solver|].
  eexists. split; [exact Hen|]. intros fuel junk [fl m] Hj Ew.
  destruct (be_complete_spec _ _ _ _ Hbe) as (b & E & _).
  eexists. by eapply (Work_done _ _ (f_node f)).
Qed.

(** Nothing on its way, nothing to do. *)
Lemma idle_no_work s s' p : sys_rep s p → pipe_inv p → live (p_at p) = [] → ¬ work s s'.
Proof.
  intros Hr Hp Hl Hw. destruct (work_refines s s' p Hw Hr Hp) as (p' & Hm & _).
  clear -Hl Hm. destruct Hm as [a k l c p Ha _ _].
  assert (k ∈ live (p_at p)) as Hk by (apply elem_of_live; exists a; rewrite Ha; left).
  rewrite Hl in Hk. by apply elem_of_nil in Hk.
Qed.

Lemma works_refine n s s' p :
  nsteps work n s s' → sys_rep s p → pipe_inv p → ∃ p', nsteps pmove n p p' ∧ sys_rep s' p'.
Proof.
  intros Hn. revert p. induction Hn as [s|n s s1 s2 Hs _ IH]; intros p Hr Hp.
  - exists p. split; [constructor|done].
  - destruct (work_refines s s1 p Hs Hr Hp) as (p1 & Hm & Hr1).
    destruct (IH p1 Hr1) as (p2 & ? & ?); [by eapply pmove_inv|].
    exists p2. split; [by econstructor|done].
Qed.

(** The entries in use and their commands, in table and machine. *)
Lemma rep_used s p k :
  sys_rep s p → (k < 256)%nat → hcl_used (e_hcl (s_emu s)) k = true ↔ is_Some (p_cmd p !! k).
Proof.
  intros Hr Hk. rewrite (cp_used _ _ (sr_cmd s p Hr)) by done. apply bool_decide_eq_true.
Qed.

Lemma rep_load s p k c :
  sys_rep s p → p_cmd p !! k = Some c →
  ∃ e, hcmd_load k (e_hcl (s_emu s)) = Some e ∧ (one_page e ↔ well_formed c) ∧ cmd_rep e c.
Proof.
  intros Hr Hc. destruct (cp_cmd _ _ (sr_cmd s p Hr) k c Hc) as (e & He & Hrep).
  exists e. split_and!; [done|by apply one_page_rep|done].
Qed.

Lemma works_nsteps s s' : rtc work s s' → ∃ n, nsteps work n s s'.
Proof. apply rtc_nsteps. Qed.

(** The places of the accepted commands, as the structures hold them: of those with the
    back end, the one it works on is that of the entry its thread holds. *)
Lemma places_rep s p :
  sys_rep s p → pipe_inv p → ∃ reg comp,
    tqs_rep (e_tq (s_emu s)) (queue_of (p_at p)) ∧
    be_rep (e_be (s_emu s)) reg (option_list (s_held s)) comp ∧
    mapM (node_cmd (e_be (s_emu s))) (reg ++ option_list (s_held s) ++ comp) =
      Some (p_at p Registered ++ p_at p Held ++ p_at p Completed).
Proof.
  intros Hr Hp. destruct (sr_fly s p Hr) as (fr & fh & fc & [_ Hbe (A1 & A2 & A3) Hh _ _ Hsq]).
  assert (option_list (s_held s) = f_node <$> fh) as Eh.
  { pose proof (pi_held p Hp) as Hle. rewrite A2, length_fmap in Hle. rewrite Hh.
    destruct fh as [|f [|]]; [done..|simpl in Hle; lia]. }
  exists (f_node <$> fr), (f_node <$> fc).
  rewrite Eh, A1, A2, A3, <- !fmap_app. split_and!; [apply Hr|done|].
  apply mapM_Some, Forall2_fmap, Forall2_same_length_lookup. split; [done|].
  intros i f g Hf Hg. rewrite Hf in Hg. injection Hg as <-.
  destruct (Hsq f) as (_ & en & E & Hc); [by eapply list_elem_of_lookup_2|].
  unfold node_cmd. rewrite E. cbn [mbind option_bind es_entry]. by rewrite Hc, Nat2Z.id.
Qed.

Lemma at_rest_idle s :
  sys_reachable mem_base uninit_ppa s → s_held s = None → queues_empty s = true →
  (∀ n, (n < 5)%nat → FTL_get_taskqueue_cnt (Z.of_nat n) (e_tq (s_emu s)) = Some 0) ∧
  list_empty (Some register_list) (be_nodes (e_be (s_emu s))) = Some 1 ∧
  list_empty (Some complete_list) (be_nodes (e_be (s_emu s))) = Some 1 ∧ ∀ s', ¬ work s s'.
Proof.
  intros Hs Hh Hq. unfold queues_empty in Hq.
  apply andb_true_iff in Hq as [[Hq H1%bool_decide_eq_true]%andb_true_iff H2%bool_decide_eq_true].
  assert (∀ n, (n < 5)%nat → FTL_get_taskqueue_cnt (Z.of_nat n) (e_tq (s_emu s)) = Some 0) as H0.
  { intros n Hn. rewrite forallb_forall in Hq. apply (bool_decide_eq_true_1 _), Hq, in_seq. lia. }
  split_and!; [exact H0|exact H1|exact H2|]. intros s'.
  destruct (reachable_rep _ _ s Hs) as (p & _ & Hr & Hp).
  exact (idle_no_work s s' p Hr Hp (rep_idle s p Hr H0 H1 H2 Hh)).
Qed.

(** ** The properties *)

(** C1. The emulator implements the pipeline machine: every state it can reach
    represents a state that machine can reach. *)
Theorem emulator_refines_pipeline s :
  sys_reachable mem_base uninit_ppa s → ∃ p, rtc pstep pipe_init p ∧ sys_rep s p.
Proof. intros Hs. destruct (reachable_rep _ _ s Hs) as (p & ? & ? & _). by exists p. Qed.

(** C4. A turn of the main loop, started in any reachable state, returns without
    undefined behaviour, in a reachable state. *)
Theorem main_loop_turn s :
  sys_reachable mem_base uninit_ppa s → s_pend s = None →
  ∃ e, FTL_core0_turn mem_base uninit_ppa (s_emu s) = Some (tt, e) ∧
    sys_reachable mem_base uninit_ppa (s <| s_emu := e |>).
Proof. apply turn_reach. Qed.

(** C3. Without new submissions the firmware and the back end come to rest: from any
    reachable state, however their steps interleave, at most 4864 of them do more than
    poll, nine for each entry of the table (the work on an accepted command) and ten for
    each slot (a command that still waits is accepted as well).  A poll takes a command
    from RDY or finds none, puts it back because no entry is free, or finds a task queue
    empty. *)
Theorem work_terminates s s' n :
  sys_reachable mem_base uninit_ppa s → quiet_run mem_base uninit_ppa n s s' →
  (n ≤ 9 * 256 + 10 * 256)%nat.
Proof.
  intros Hs Hn. destruct (reachable_rep _ _ s Hs) as (p & _ & Hr & Hp).
  destruct (quiet_potential n s s' p Hn Hr Hp) as (p' & _ & ?). pose proof (potential_bound p Hp). lia.
Qed.

(** When they have come to rest, either the back end hangs in a read, or every
    one-page command is finished and exactly the other commands still hold
    their entries. *)
Theorem work_drains s s' :
  sys_reachable mem_base uninit_ppa s → rtc (work_step mem_base uninit_ppa) s s' →
  (∀ s'', ¬ work_step mem_base uninit_ppa s' s'') →
  match s_held s' with
  | Some _ => be_stuck s'
  | None => ∀ k, (k < 256)%nat →
      hcl_used (e_hcl (s_emu s')) k = true ↔
      hcl_used (e_hcl (s_emu s)) k = true ∧
        ∃ e, hcmd_load k (e_hcl (s_emu s)) = Some e ∧ ¬ one_page e
  end.
Proof.
  intros Hs [n Hn]%works_nsteps Hrest. destruct (reachable_rep _ _ s Hs) as (p & _ & Hr & Hp).
  destruct (works_refine n s s' p Hn Hr Hp) as (p' & Hn' & Hr').
  assert (rtc pmove p p') as Hrtc by (apply rtc_nsteps; eauto).
  destruct (pmoves_inv p p' Hrtc Hp) as [Hp' _].
  destruct (s_held s') as [m|] eqn:Hh.
  - destruct (held_progress s' p' m Hr' Hp' Hh) as (sq & Hsq & Hw).
    exists m, sq. split_and!; [done|done|]. intros fuel junk Hj.
    destruct (be_work _ _ _ _ _) as [r|] eqn:E; [|done].
    destruct (Hw fuel junk r Hj E) as [s'' Hs'']. by destruct (Hrest s'').
  - intros k Hk. assert (live (p_at p') = []) as Hl.
    { destruct (decide (live (p_at p') = [])) as [?|Hne]; [done|].
      destruct (work_progress s' p' Hr' Hp' Hne) as [[s'' Hs'']|?]; [by destruct (Hrest s'')|done]. }
    rewrite (rep_used s' p' k Hr' Hk), (rep_used s p k Hr Hk), (pipe_drained p p' k Hp Hrtc Hl).
    split.
    + intros (c & Hc & Hwf). split; [by eexists|].
      destruct (rep_load s p k c Hr Hc) as (e & He & E & _). exists e. split; [done|tauto].
    + intros ([c Hc] & e & He & Hne). exists c. split; [done|].
      destruct (rep_load s p k c Hr Hc) as (e' & He' & E & _).
      assert (e' = e) as -> by congruence. tauto.
Qed.

(** C5. No command is in two places, and none is lost.  The places are the task queues and,
    with the back end, its two lists and the entry its thread holds ([s_held]); each entry
    there has a command.  No command occurs twice among them, the table entry of each is
    taken, and a one-page command whose entry is taken occurs. *)
Theorem one_place s :
  sys_reachable mem_base uninit_ppa s → ∃ F reg comp busy,
    tqs_rep (e_tq (s_emu s)) F ∧ be_rep (e_be (s_emu s)) reg (option_list (s_held s)) comp ∧
    mapM (node_cmd (e_be (s_emu s))) (reg ++ option_list (s_held s) ++ comp) = Some busy ∧
    let cmds := F 0%nat ++ F 1%nat ++ F 2%nat ++ F 3%nat ++ F 4%nat ++ busy in
    NoDup cmds ∧ (∀ k, k ∈ cmds → (k < 256)%nat ∧ hcl_used (e_hcl (s_emu s)) k = true) ∧
    ∀ k e, (k < 256)%nat → hcl_used (e_hcl (s_emu s)) k = true →
      hcmd_load k (e_hcl (s_emu s)) = Some e → one_page e → k ∈ cmds.
Proof.
  intros Hs. destruct (reachable_rep _ _ s Hs) as (p & _ & Hr & Hp).
  destruct (places_rep s p Hr Hp) as (reg & comp & Hq & Hb & E).
  exists (queue_of (p_at p)), reg, comp. eexists. split_and!; [done|done|exact E|]. intros cmds.
  assert (cmds = live (p_at p)) as ->.
  { subst cmds. unfold live, places. simpl. by rewrite app_nil_r. }
  split; [apply Hp|]. split.
  - intros k (a & Ha)%elem_of_live.
    destruct (pi_live p Hp a k Ha) as (c & Hc & _). destruct (pi_range p Hp k c Hc) as [Hk _].
    split; [done|]. apply (rep_used s p k Hr Hk). by eexists.
  - intros k e Hk Hu He H1. apply (rep_used s p k Hr Hk) in Hu as [c Hc].
    destruct (decide (k ∈ live (p_at p))) as [|Hn]; [done|exfalso].
    destruct (rep_load s p k c Hr Hc) as (e' & He' & E1 & _). assert (e' = e) as -> by congruence.
    by apply (pi_lost p Hp k c Hc Hn), E1.
Qed.

(** C7. All queues and lists together never hold more than 256 commands, so no
    task queue overflows, and HCE_WAIT_CQ, which has no handler, stays empty. *)
Theorem queues_bounded s :
  sys_reachable mem_base uninit_ppa s → ∃ F reg comp,
    tqs_rep (e_tq (s_emu s)) F ∧ be_rep (e_be (s_emu s)) reg (option_list (s_held s)) comp ∧
    (length (F 0) + length (F 1) + length (F 2) + length (F 3) + length (F 4) +
      length (reg ++ option_list (s_held s) ++ comp) ≤ 256)%nat ∧ F 5%nat = [].
Proof.
  intros Hs. destruct (reachable_rep _ _ s Hs) as (p & _ & Hr & Hp).
  destruct (places_rep s p Hr Hp) as (reg & comp & Hq & Hb & E%length_mapM).
  exists (queue_of (p_at p)), reg, comp. split_and!; [done|done| |done].
  pose proof (live_bound p Hp) as Hl. unfold live, places in Hl. simpl in *.
  rewrite E, !length_app. rewrite !length_app in Hl. simpl in Hl. lia.
Qed.

(** Whenever a command waits for a submission-queue entry, channel 1 has a free
    one: FTL_handle_tosq never has to queue the command again. *)
Theorem sq_entry_available s n :
  sys_reachable mem_base uninit_ppa s →
  FTL_get_taskqueue_cnt HCE_TO_SQ (e_tq (s_emu s)) = Some n → 0 < n →
  FCL_SQ_empty 1 (e_hw (s_emu s)) = Some FALSE.
Proof.
  intros Hs Hn Hpos. destruct (reachable_rep _ _ s Hs) as (p & _ & Hr & Hp).
  pose proof (queue_cnt s p 1 Hr ltac:(lia)) as Hc. change (Z.of_nat 1) with HCE_TO_SQ in Hc.
  rewrite Hn in Hc. injection Hc as ->. simpl in Hpos.
  destruct (p_at p ToSq) as [|k l] eqn:Ea; [simpl in Hpos; lia|].
  destruct (room p ToSq k l Hp Ea) as [_ Hfew]. rewrite !fn_lookup_insert_ne in Hfew by done.
  destruct (sr_fly s p Hr) as (fr & fh & fc & [Hhw _ (A1 & A2 & A3) _ _ Hu _]).
  rewrite A1, A2, A3, <- !fmap_app, length_fmap in Hfew.
  destruct (free_index (f_idx <$> (fr ++ fh ++ fc)) 256) as (j & Hj & Hnj); [by rewrite length_fmap|].
  apply (FCL_SQ_empty_free _ 1 j); [done|lia|done|]. rewrite Hu by done. by apply bool_decide_eq_false.
Qed.

(** C8. Only a read or a write of one page reaches FTL_handle_finish. *)
Theorem only_one_page_finishes s k q :
  sys_reachable mem_base uninit_ppa s →
  FTL_task_queue_remove_head HCE_FINISH (e_tq (s_emu s)) = Some (Some k, q) →
  ∃ e, hcmd_load k (e_hcl (s_emu s)) = Some e ∧ one_page e.
Proof.
  intros Hs E. destruct (reachable_rep _ _ s Hs) as (p & _ & Hr & Hp).
  destruct (removed_head s p 4 k q Hr ltac:(lia) E) as (a & l & Ha & Ea).
  assert (a = Finish) as -> by by destruct a.
  destruct (pi_live p Hp Finish k) as (c & Hc & Hst); [rewrite Ea; left|].
  destruct (rep_load s p k c Hr Hc) as (e & He & E1 & _). exists e. split; [done|]. by apply E1.
Qed.

(** C9. A free table entry is all zero, whatever command held it before. *)
Theorem free_entry_zero s k :
  sys_reachable mem_base uninit_ppa s → (k < 256)%nat → hcl_used (e_hcl (s_emu s)) k = false →
  hcmd_load k (e_hcl (s_emu s)) = Some hcmd_zero.
Proof.
  intros Hs Hk Hu. destruct (reachable_rep _ _ s Hs) as (p & _ & Hr & Hp).
  apply (cp_zero _ _ (sr_cmd s p Hr)); [done|]. apply eq_None_not_Some. intros Hc.
  apply (rep_used s p k Hr Hk) in Hc. congruence.
Qed.

(** C6. No command slot is lost or duplicated: each is on FREE, on RDY, or held by
    the FTL between taking it and accepting it. *)
Theorem slots_conserved s :
  sys_reachable mem_base uninit_ppa s → ∃ f r, shm_lists (e_shm (s_emu s)) (abs f r []) ∧
    f ++ r ++ (match s_pend s with Some (i, _) => [i] | None => [] end) ≡ₚ seqZ 0 CMD_SLOT_NUM.
Proof.
  intros Hs. destruct (reachable_rep _ _ s Hs) as (p & _ & Hr & Hp).
  destruct (sr_shm s p Hr) as [Hl _ _ Hpd]. exists (p_free p), (p_rdy p).*1. split; [done|].
  rewrite <- (pi_slots p Hp). unfold pending. rewrite Hpd. by destruct (s_pend s) as [[i c]|].
Qed.

(** When every entry is held by a command that is in no queue and not with the
    back end, it stays so: the table is full forever and the firmware never
    accepts another command. *)
Theorem starved_stays s s' :
  sys_reachable mem_base uninit_ppa s →
  (∀ k, (k < 256)%nat → hcl_used (e_hcl (s_emu s)) k = true) →
  (∀ n, (n < 5)%nat → FTL_get_taskqueue_cnt (Z.of_nat n) (e_tq (s_emu s)) = Some 0) →
  list_empty (Some register_list) (be_nodes (e_be (s_emu s))) = Some 1 →
  list_empty (Some complete_list) (be_nodes (e_be (s_emu s))) = Some 1 →
  s_held s = None → rtc (sys_step mem_base uninit_ppa) s s' →
  (∀ k, (k < 256)%nat → hcl_used (e_hcl (s_emu s')) k = true) ∧
  HCL_get_host_cmd_entry (e_hcl (s_emu s')) = Some (None, e_hcl (s_emu s')).
Proof.
  intros Hs Hu Hq Hb1 Hb2 Hn Hr'. destruct (reachable_rep _ _ s Hs) as (p & _ & Hr & Hp).
  assert (live (p_at p) = []) as Hl by by apply (rep_idle s).
  assert (starved p) as Hst.
  { intros k Hk. split; [by apply (rep_used s p k Hr Hk), Hu|]. rewrite Hl. apply not_elem_of_nil. }
  destruct (steps_refine _ _ s s' p Hr' Hr Hp) as (p' & Hsteps & Hrep').
  pose proof (starved_forever p p' Hp Hst Hsteps) as Ec.
  assert (∀ k, (k < 256)%nat → hcl_used (e_hcl (s_emu s')) k = true) as Hall.
  { intros k Hk. apply (rep_used s' p' k Hrep' Hk). rewrite Ec. by apply Hst. }
  split; [done|].
  destruct (HCL_get_spec _ (cp_wf _ _ (sr_cmd s' p' Hrep'))) as (o & h & E & _ & _ & Ho).
  destruct o as [k|]; [destruct Ho as (Hk & Hf & _); by rewrite Hall in Hf|].
  by destruct Ho as [-> _].
Qed.
End guarantees.

(** ** Instances *)

Lemma emulator_refines_pipeline_witness :
  ∃ s p, used_count s = 2%nat ∧ rtc pstep pipe_init p ∧ sys_rep s p.
Proof.
  demo_state bad_commands bad_test. apply andb_true_iff in E as [[E%Nat.eqb_eq _]%andb_true_iff _].
  destruct (emulator_refines_pipeline demo_base demo_ppa s Hs) as [p Hr]. by exists s, p.
Defined.

Lemma main_loop_turn_witness :
  ∃ s e, used_count s = 1%nat ∧ FTL_core0_turn demo_base demo_ppa (s_emu s) = Some (tt, e).
Proof.
  demo_state write_queued queued_test. apply andb_true_iff in E as [E%Nat.eqb_eq _].
  destruct (main_loop_turn demo_base demo_ppa s Hs Hp) as (e & He & _). by exists s, e.
Defined.

(** A submitted write is taken from RDY (a poll) and accepted. *)
Lemma work_terminates_witness :
  ∃ s s', quiet_run demo_base demo_ppa 1 s s' ∧ (1 ≤ 9 * 256 + 10 * 256)%nat.
Proof.
  demo_state write_submitted submitted_test. unfold submitted_test in E.
  destruct (on_shm SHM_get_rdy_list (s_emu s)) as [[[i [c|]] e]|] eqn:Eg; [|discriminate E..].
  destruct (HCL_get_host_cmd_entry (e_hcl e)) as [[[k|] h]|] eqn:Eh; [|discriminate E..].
  destruct (nvme_accept i c e) as [[[] e']|] eqn:Ea; [|discriminate E].
  exists s. eexists. set (s1 := s <| s_emu := e |> <| s_pend := Some (i, c) |>).
  assert (quiet_run demo_base demo_ppa 1 s (s1 <| s_emu := e' |> <| s_pend := None |>)) as Hn.
  { eapply Quiet_poll; [exact (Poll_get _ _ i (Some c) e s Hp Eg)|].
    eapply Quiet_work; [|apply Quiet_end]. left. exact (Accept_entry i c k h e' s1 eq_refl Eh Ea). }
  split; [exact Hn|]. exact (work_terminates demo_base demo_ppa s _ 1 Hs Hn).
Defined.

(** The back end has taken the entry of a write. *)
Lemma one_place_witness :
  ∃ s n F k busy, s_held s = Some n ∧ tqs_rep (e_tq (s_emu s)) F ∧ node_cmd (e_be (s_emu s)) n = Some k ∧
    k ∈ busy ∧ NoDup (F 0%nat ++ F 1%nat ++ F 2%nat ++ F 3%nat ++ F 4%nat ++ busy).
Proof.
  demo_state write_sent sent_test. apply bool_decide_eq_true in E. destruct E as [[n b] E].
  set (s1 := s <| s_emu := (s_emu s) <| e_be := b |> |> <| s_held := Some n |>).
  assert (sys_reachable demo_base demo_ppa s1) as Hs1.
  { exists s0. eapply run_step; [exact Hr0|]. exact (Step_take _ _ n b s Hh E). }
  destruct (one_place demo_base demo_ppa s1 Hs1) as (F & reg & comp & busy & Hq & _ & Em & Hnd & _).
  apply mapM_Some in Em. destruct (Forall2_lookup_l _ _ _ (length reg) n Em) as (k & Hk & Hc).
  { rewrite lookup_app_r, Nat.sub_diag by lia. done. }
  exists s1, n, F, k, busy. split; [done|]. split; [exact Hq|]. split; [exact Hc|].
  split; [by eapply list_elem_of_lookup_2|exact Hnd].
Defined.

Lemma queues_bounded_witness :
  ∃ s F, used_count s = 1%nat ∧ tqs_rep (e_tq (s_emu s)) F ∧ F 5%nat = [].
Proof.
  demo_state write_queued queued_test. apply andb_true_iff in E as [E%Nat.eqb_eq _].
  destruct (queues_bounded demo_base demo_ppa s Hs) as (F & reg & comp & Hq & _ & _ & H5).
  by exists s, F.
Defined.

Lemma sq_entry_available_witness :
  ∃ s, FTL_get_taskqueue_cnt HCE_TO_SQ (e_tq (s_emu s)) = Some 1 ∧
    FCL_SQ_empty 1 (e_hw (s_emu s)) = Some FALSE.
Proof.
  demo_state write_queued queued_test. apply andb_true_iff in E as [_ E%bool_decide_eq_true].
  exists s. split; [exact E|]. apply (sq_entry_available demo_base demo_ppa s 1 Hs E). lia.
Defined.

Lemma only_one_page_finishes_witness :
  ∃ s e, hcmd_load 0 (e_hcl (s_emu s)) = Some e ∧ one_page e.
Proof.
  demo_state write_finishing finishing_test. apply bool_decide_eq_true in E.
  apply fmap_Some in E as ([h q] & E & Eh). simpl in Eh. subst h.
  exists s. exact (only_one_page_finishes demo_base demo_ppa s 0 q Hs E).
Defined.

Lemma free_entry_zero_witness :
  ∃ s, used_count s = 2%nat ∧ hcmd_load 7 (e_hcl (s_emu s)) = Some hcmd_zero.
Proof.
  demo_state bad_commands bad_test.
  apply andb_true_iff in E as [[E1%Nat.eqb_eq _]%andb_true_iff E2%negb_true_iff].
  exists s. split; [exact E1|]. apply (free_entry_zero demo_base demo_ppa s 7 Hs); [lia|exact E2].
Defined.

Lemma slots_conserved_witness :
  ∃ s f r, used_count s = 2%nat ∧ shm_lists (e_shm (s_emu s)) (abs f r []).
Proof.
  demo_state bad_commands bad_test. apply andb_true_iff in E as [[E%Nat.eqb_eq _]%andb_true_iff _].
  destruct (slots_conserved demo_base demo_ppa s Hs) as (f & r & Hl & _). by exists s, f, r.
Defined.

Lemma starved_stays_witness :
  ∃ s, sys_reachable demo_base demo_ppa s ∧
    HCL_get_host_cmd_entry (e_hcl (s_emu s)) = Some (None, e_hcl (s_emu s)).
Proof.
  demo_state exhaust exhaust_test. apply andb_true_iff in E as [E1 E2].
  destruct (at_rest_idle demo_base demo_ppa s Hs Hh E2) as (Hq & H1 & H2 & _).
  exists s. split; [exact Hs|].
  apply (starved_stays demo_base demo_ppa s s Hs); [|exact Hq|exact H1|exact H2|exact Hh|apply rtc_refl].
  intros k Hk. rewrite forallb_forall in E1. apply E1, in_seq. lia.
Defined.
