(* ===== verification/HostLld.v ===== *)
(** * Host interface, low-level driver (src/nvme/host_lld.h, src/nvme/host_lld.c)

    The registers of the NVMe controller as layouts of named bit-fields, and
    the driver's routines over any [Bus].  IO_READ32, IO_WRITE32 and ASSERT
    come from headers outside the repository: the first two are the bus, the
    last is an argument.  So are the values of the task's status (nvme.h),
    [NvmeStatus].  What the controller does with a transfer is [DmaDevice]. *)
From stdpp Require Import strings.
From S2P Require Import Prelude CInt Bus.
#[local] Open Scope Z_scope.

(** ** Layouts: the members of a register structure, from bit 0 up *)
Record member := Bits { m_name : string; m_width : Z }.
Definition layout := list member.

Fixpoint member_at (L : layout) (n : string) (off : Z) : option (Z * Z) :=
  match L with
  | [] => None
  | m :: L' => if decide (m_name m = n) then Some (off, m_width m)
               else member_at L' n (off + m_width m)
  end.

(** The bit-field of member [n]: the words are allocated in order. *)
Definition field (L : layout) (n : string) : bitfield :=
  match member_at L n 0 with
  | Some (o, w) => BF (Z.to_nat (o / 32)) (o mod 32) w
  | None => BF 0 0 0
  end.

Definition rget (L : layout) (n : string) (r : list Z) : Z := bf_get (field L n) r.
Definition rset (L : layout) (n : string) (v : Z) (r : list Z) : list Z := bf_set (field L n) v r.
#[global] Arguments rget : simpl never.
#[global] Arguments rset : simpl never.
Definition dword (i : nat) (r : list Z) : Z := default 0 (r !! i).
Definition set_dword (i : nat) (v : Z) (r : list Z) : list Z := <[i := u32 v]> r.

(** [L] fills exactly [k] words, no member crosses a word, no name is reused. *)
Fixpoint layout_from (L : layout) (off : Z) : bool :=
  match L with
  | [] => true
  | m :: L' => bool_decide (0 < m_width m) && bool_decide (off mod 32 + m_width m ≤ 32)
               && layout_from L' (off + m_width m)
  end.
Definition layout_size (L : layout) : Z := foldr (λ m, Z.add (m_width m)) 0 L.
Definition layout_ok (k : nat) (L : layout) : bool :=
  layout_from L 0 && bool_decide (layout_size L = 32 * Z.of_nat k)
  && bool_decide (NoDup (map m_name L)).

(** ** Registers *)
Definition HOST_IP_ADDR : Z := 0x83c00000.
Definition DEV_IRQ_MASK_REG_ADDR : Z := HOST_IP_ADDR + 0x4.
Definition DEV_IRQ_CLEAR_REG_ADDR : Z := HOST_IP_ADDR + 0x8.
Definition DEV_IRQ_STATUS_REG_ADDR : Z := HOST_IP_ADDR + 0xC.
Definition PCIE_STATUS_REG_ADDR : Z := HOST_IP_ADDR + 0x100.
Definition PCIE_FUNC_REG_ADDR : Z := HOST_IP_ADDR + 0x104.
Definition NVME_STATUS_REG_ADDR : Z := HOST_IP_ADDR + 0x200.
Definition HOST_DMA_FIFO_CNT_REG_ADDR : Z := HOST_IP_ADDR + 0x204.
Definition NVME_ADMIN_QUEUE_SET_REG_ADDR : Z := HOST_IP_ADDR + 0x21C.
Definition NVME_IO_SQ_SET_REG_ADDR : Z := HOST_IP_ADDR + 0x220.
Definition NVME_IO_CQ_SET_REG_ADDR : Z := HOST_IP_ADDR + 0x260.
Definition ARBITRATION_PARAMETER_ADDR : Z := HOST_IP_ADDR + 0x2A0.
Definition NVME_CMD_FIFO_REG_ADDR : Z := HOST_IP_ADDR + 0x300.
Definition NVME_CPL_FIFO_REG_ADDR : Z := HOST_IP_ADDR + 0x304.
Definition HOST_DMA_CMD_FIFO_REG_ADDR : Z := HOST_IP_ADDR + 0x310.
Definition NVME_CMD_SRAM_ADDR : Z := HOST_IP_ADDR + 0x2000.

Definition HOST_DMA_DIRECT_TYPE : Z := 1.
Definition HOST_DMA_AUTO_TYPE : Z := 0.
Definition HOST_DMA_TX_DIRECTION : Z := 1.
Definition HOST_DMA_RX_DIRECTION : Z := 0.
Definition ONLY_CPL_TYPE : Z := 0.
Definition AUTO_CPL_TYPE : Z := 1.
Definition CMD_SLOT_RELEASE_TYPE : Z := 2.

Definition DEV_IRQ_REG : layout :=
  [Bits "pcieLink" 1; Bits "busMaster" 1; Bits "pcieIrq" 1; Bits "pcieMsi" 1; Bits "pcieMsix" 1;
   Bits "nvmeCcEn" 1; Bits "nvmeCcShn" 1; Bits "mAxiWriteErr" 1; Bits "mAxiReadErr" 1;
   Bits "pcieMreqErr" 1; Bits "pcieCpldErr" 1; Bits "pcieCpldLenErr" 1; Bits "reserved0" 20].
Definition PCIE_STATUS_REG : layout :=
  [Bits "ltssm" 6; Bits "reserved0" 2; Bits "pcieLinkUp" 1; Bits "reserved1" 23].
Definition PCIE_FUNC_REG : layout :=
  [Bits "busMaster" 1; Bits "msiEnable" 1; Bits "msixEnable" 1; Bits "irqDisable" 1;
   Bits "msiVecNum" 3; Bits "reserved0" 25].
Definition NVME_STATUS_REG : layout :=
  [Bits "ccEn" 1; Bits "ccShn" 2; Bits "reserved0" 1; Bits "cstsRdy" 1; Bits "cstsShst" 2;
   Bits "ccAms" 3; Bits "reserved1" 22].
Definition HOST_DMA_FIFO_CNT_REG : layout :=
  [Bits "directDmaRx" 8; Bits "directDmaTx" 8; Bits "autoDmaRx" 8; Bits "autoDmaTx" 8].
Definition NVME_ADMIN_QUEUE_SET_REG : layout :=
  [Bits "cqValid" 1; Bits "sqValid" 1; Bits "cqIrqEn" 1; Bits "reserved0" 29].
Definition NVME_IO_SQ_SET_REG : layout :=
  [Bits "pcieBaseAddrL" 32;
   Bits "pcieBaseAddrH" 4; Bits "reserved0" 11; Bits "valid" 1; Bits "cqVector" 4;
   Bits "sqPri" 2; Bits "reserved1" 2; Bits "sqSize" 8].
Definition NVME_IO_CQ_SET_REG : layout :=
  [Bits "pcieBaseAddrL" 32;
   Bits "pcieBaseAddrH" 4; Bits "reserved0" 11; Bits "valid" 1; Bits "irqVector" 3;
   Bits "irqEn" 1; Bits "reserved1" 4; Bits "cqSize" 8].
Definition NVME_ARB_WEIGHT_SET_REG : layout :=
  [Bits "arbBurst" 3; Bits "valid" 1; Bits "reserved0" 4; Bits "lpw" 8; Bits "mpw" 8; Bits "hpw" 8].
Definition NVME_CMD_FIFO_REG : layout :=
  [Bits "qID" 4; Bits "reserved0" 4; Bits "cmdSlotTag" 7; Bits "reserved2" 1; Bits "cmdSeqNum" 8;
   Bits "reserved3" 7; Bits "cmdValid" 1].
(** The status field is a union: [statusFieldWord] covers [NVME_CPL_statusField]. *)
Definition NVME_CPL_statusField : layout :=
  [Bits "reserved0" 1; Bits "SC" 8; Bits "SCT" 3; Bits "reserved1" 2; Bits "MORE" 1; Bits "DNR" 1].
Definition NVME_CPL_FIFO_REG : layout :=
  [Bits "cid" 16; Bits "sqId" 4; Bits "reserved0" 12;
   Bits "specific" 32;
   Bits "cmdSlotTag" 7; Bits "reserved1" 7; Bits "cplType" 2; Bits "statusFieldWord" 16].
Definition HOST_DMA_CMD_FIFO_REG : layout :=
  [Bits "devAddr" 32; Bits "pcieAddrH" 32; Bits "pcieAddrL" 32;
   Bits "dmaLen" 13; Bits "reserved0" 1; Bits "cmd4KBOffset" 9; Bits "cmdSlotTag" 7;
   Bits "dmaDirection" 1; Bits "dmaType" 1].

(** Every register structure with the number of its words. *)
Definition registers : list (nat * layout) :=
  [(1, DEV_IRQ_REG); (1, PCIE_STATUS_REG); (1, PCIE_FUNC_REG); (1, NVME_STATUS_REG);
   (1, HOST_DMA_FIFO_CNT_REG); (1, NVME_ADMIN_QUEUE_SET_REG); (2, NVME_IO_SQ_SET_REG);
   (2, NVME_IO_CQ_SET_REG); (1, NVME_ARB_WEIGHT_SET_REG); (1, NVME_CMD_FIFO_REG);
   (3, NVME_CPL_FIFO_REG); (4, HOST_DMA_CMD_FIFO_REG)]%nat.

(** ** State *)
Record HOST_DMA_STATUS := HostDmaStatus {
  fifoHead : list Z; fifoTail : list Z;
  directDmaTxCnt : Z; directDmaRxCnt : Z; autoDmaTxCnt : Z; autoDmaRxCnt : Z;
}.
#[export] Instance HOST_DMA_STATUS_eta : Settable HOST_DMA_STATUS := λ r,
  HostDmaStatus (fifoHead r) (fifoTail r) (directDmaTxCnt r) (directDmaRxCnt r)
    (autoDmaTxCnt r) (autoDmaRxCnt r).
Record HOST_DMA_ASSIST_STATUS := HostDmaAssistStatus {
  autoDmaTxOverFlowCnt : Z; autoDmaRxOverFlowCnt : Z;
}.
#[export] Instance HOST_DMA_ASSIST_STATUS_eta : Settable HOST_DMA_ASSIST_STATUS := λ r,
  HostDmaAssistStatus (autoDmaTxOverFlowCnt r) (autoDmaRxOverFlowCnt r).

(** The globals of the driver and the device behind the bus; [nvme_status] and
    [cacheEn] are the members of g_nvmeTask the sources use. *)
Record lld (St : Type) := Lld {
  dev : St;
  g_hostDmaStatus : HOST_DMA_STATUS;
  g_hostDmaAssistStatus : HOST_DMA_ASSIST_STATUS;
  nvme_status : Z;
  cacheEn : Z;
}.
#[global] Arguments Lld {St}.
#[global] Arguments dev {St}.
#[global] Arguments g_hostDmaStatus {St}.
#[global] Arguments g_hostDmaAssistStatus {St}.
#[global] Arguments nvme_status {St}.
#[global] Arguments cacheEn {St}.
#[export] Instance lld_eta {St} : Settable (lld St) := λ r,
  Lld (dev r) (g_hostDmaStatus r) (g_hostDmaAssistStatus r) (nvme_status r) (cacheEn r).

#[export] Instance lld_bus {St} `{Bus St} : Bus (lld St) := {|
  Xil_Out32 a v s := '(_, d) ← Xil_Out32 a v (dev s); Some (tt, s <| dev := d |>);
  Xil_In32 a s := '(v, d) ← Xil_In32 a (dev s); Some (v, s <| dev := d |>);
|}.

(** The values of g_nvmeTask.status, distinct. *)
Class NvmeStatus := {
  NVME_TASK_IDLE : Z; NVME_TASK_WAIT_CC_EN : Z; NVME_TASK_RUNNING : Z;
  NVME_TASK_SHUTDOWN : Z; NVME_TASK_WAIT_RESET : Z; NVME_TASK_RESET : Z;
  nvme_status_distinct :
    NoDup [NVME_TASK_IDLE; NVME_TASK_WAIT_CC_EN; NVME_TASK_RUNNING; NVME_TASK_SHUTDOWN;
           NVME_TASK_WAIT_RESET; NVME_TASK_RESET];
}.

(** The four FIFO counters. *)
Inductive dma_chan := DirectRx | DirectTx | AutoRx | AutoTx.
#[export] Instance dma_chan_eq_dec : EqDecision dma_chan.
Proof. solve_decision. Defined.
Definition cnt_name (c : dma_chan) : string :=
  match c with
  | DirectRx => "directDmaRx" | DirectTx => "directDmaTx"
  | AutoRx => "autoDmaRx" | AutoTx => "autoDmaTx"
  end.
Definition cnt (c : dma_chan) (r : list Z) : Z := rget HOST_DMA_FIFO_CNT_REG (cnt_name c) r.
Definition cnt_inc (c : dma_chan) (r : list Z) : list Z :=
  rset HOST_DMA_FIFO_CNT_REG (cnt_name c) (cnt c r + 1) r.

Inductive dma_dir := DirTx | DirRx.
#[export] Instance dma_dir_eq_dec : EqDecision dma_dir.
Proof. solve_decision. Defined.
Definition auto_chan (d : dma_dir) : dma_chan :=
  match d with DirTx => AutoTx | DirRx => AutoRx end.
Definition direct_chan (d : dma_dir) : dma_chan :=
  match d with DirTx => DirectTx | DirRx => DirectRx end.
Definition dir_bit (d : dma_dir) : Z :=
  match d with DirTx => HOST_DMA_TX_DIRECTION | DirRx => HOST_DMA_RX_DIRECTION end.

Section driver.
Context {St : Type} `{!Bus St} (ASSERT : bool → M (lld St) unit).
Implicit Types (d : dma_dir) (c : dma_chan) (s : lld St).

Definition IO_WRITE32 (a v : Z) : M (lld St) unit := out32 a v.
Definition IO_READ32 (a : Z) : M (lld St) Z := in32 a.

(** ** Interrupts *)
Definition dev_irq_init : M (lld St) unit :=
  let devReg := foldl (λ r n, rset DEV_IRQ_REG n 1 r) [0]
    ["pcieLink"; "busMaster"; "pcieIrq"; "pcieMsi"; "pcieMsix"; "nvmeCcEn"; "nvmeCcShn";
     "mAxiWriteErr"; "pcieMreqErr"; "pcieCpldErr"; "pcieCpldLenErr"]%string in
  IO_WRITE32 DEV_IRQ_MASK_REG_ADDR (dword 0 devReg).

(** [if (b) m] *)
Definition when (b : bool) (m : M (lld St) unit) : M (lld St) unit := if b then m else mret tt.
Definition set_status (v : Z) : M (lld St) unit := modify (λ s, s <| nvme_status := v |>).

Definition raised (status : Z) (n : string) : bool :=
  bool_decide (rget DEV_IRQ_REG n [status] = 1).

Definition dev_irq_handler `{!NvmeStatus} : M (lld St) unit :=
  status ← IO_READ32 DEV_IRQ_STATUS_REG_ADDR;
  _ ← IO_WRITE32 DEV_IRQ_CLEAR_REG_ADDR status;
  _ ← when (raised status "pcieLink"%string)
        (pcieReg ← IO_READ32 PCIE_STATUS_REG_ADDR;
         when (bool_decide (rget PCIE_STATUS_REG "pcieLinkUp" [pcieReg] = 0))
           (set_status NVME_TASK_RESET));
  _ ← when (raised status "busMaster"%string) (_ ← IO_READ32 PCIE_FUNC_REG_ADDR; mret tt);
  _ ← when (raised status "pcieIrq"%string) (_ ← IO_READ32 PCIE_FUNC_REG_ADDR; mret tt);
  _ ← when (raised status "pcieMsi"%string) (_ ← IO_READ32 PCIE_FUNC_REG_ADDR; mret tt);
  _ ← when (raised status "pcieMsix"%string) (_ ← IO_READ32 PCIE_FUNC_REG_ADDR; mret tt);
  _ ← when (raised status "nvmeCcEn"%string)
        (nvmeReg ← IO_READ32 NVME_STATUS_REG_ADDR;
         if decide (rget NVME_STATUS_REG "ccEn" [nvmeReg] = 1)
         then set_status NVME_TASK_WAIT_CC_EN else set_status NVME_TASK_RESET);
  when (raised status "nvmeCcShn"%string)
    (nvmeReg ← IO_READ32 NVME_STATUS_REG_ADDR;
     when (bool_decide (rget NVME_STATUS_REG "ccShn" [nvmeReg] = 1))
       (set_status NVME_TASK_SHUTDOWN)).

(** ** Controller registers *)
Definition check_nvme_cc_en : M (lld St) Z :=
  nvmeReg ← IO_READ32 NVME_STATUS_REG_ADDR; mret (rget NVME_STATUS_REG "ccEn" [nvmeReg]).
Definition check_nvme_cc_ams : M (lld St) Z :=
  nvmeReg ← IO_READ32 NVME_STATUS_REG_ADDR; mret (rget NVME_STATUS_REG "ccAms" [nvmeReg]).
Definition set_nvme_csts_rdy (rdy : Z) : M (lld St) unit :=
  nvmeReg ← IO_READ32 NVME_STATUS_REG_ADDR;
  IO_WRITE32 NVME_STATUS_REG_ADDR (dword 0 (rset NVME_STATUS_REG "cstsRdy" rdy [nvmeReg])).
Definition set_nvme_csts_shst (shst : Z) : M (lld St) unit :=
  nvmeReg ← IO_READ32 NVME_STATUS_REG_ADDR;
  IO_WRITE32 NVME_STATUS_REG_ADDR (dword 0 (rset NVME_STATUS_REG "cstsShst" shst [nvmeReg])).
Definition set_nvme_admin_queue (sqValid cqValid cqIrqEn : Z) : M (lld St) unit :=
  nvmeReg ← IO_READ32 NVME_ADMIN_QUEUE_SET_REG_ADDR;
  let r := [nvmeReg] in
  let r := rset NVME_ADMIN_QUEUE_SET_REG "sqValid" sqValid r in
  let r := rset NVME_ADMIN_QUEUE_SET_REG "cqValid" cqValid r in
  let r := rset NVME_ADMIN_QUEUE_SET_REG "cqIrqEn" cqIrqEn r in
  IO_WRITE32 NVME_ADMIN_QUEUE_SET_REG_ADDR (dword 0 r).

(** A command of the queue: [None] when the FIFO holds none. *)
Record NVME_COMMAND := NvmeCommand { qID : Z; cmdSlotTag : Z; cmdSeqNum : Z; cmdDword : list Z }.
Fixpoint read_words (n : nat) (addr : Z) (idx : Z) : M (lld St) (list Z) :=
  match n with
  | O => mret []
  | S n' => v ← IO_READ32 (addr + idx * 4); vs ← read_words n' addr (idx + 1); mret (v :: vs)
  end.
Definition get_nvme_cmd : M (lld St) (option NVME_COMMAND) :=
  nvmeReg ← IO_READ32 NVME_CMD_FIFO_REG_ADDR;
  let get n := rget NVME_CMD_FIFO_REG n [nvmeReg] in
  if decide (get "cmdValid"%string = 1)
  then
    dwords ← read_words 16 (NVME_CMD_SRAM_ADDR + get "cmdSlotTag"%string * 64) 0;
    mret (Some (NvmeCommand (get "qID"%string) (get "cmdSlotTag"%string)
                  (get "cmdSeqNum"%string) dwords))
  else mret None.

(** The local [nvmeReg] starts with arbitrary contents [junk]. *)
Definition set_auto_nvme_cpl (junk : list Z) (slot specific statusFieldWord nvme_cpl_dw0 : Z)
    : M (lld St) unit :=
  let r := junk in
  let r := rset NVME_CPL_FIFO_REG "specific" specific r in
  let r := rset NVME_CPL_FIFO_REG "cmdSlotTag" slot r in
  let r := rset NVME_CPL_FIFO_REG "statusFieldWord" statusFieldWord r in
  let r := rset NVME_CPL_FIFO_REG "cplType" AUTO_CPL_TYPE r in
  let r := set_dword 1 nvme_cpl_dw0 r in
  _ ← IO_WRITE32 (NVME_CPL_FIFO_REG_ADDR + 4) (dword 1 r);
  IO_WRITE32 (NVME_CPL_FIFO_REG_ADDR + 8) (dword 2 r).

Definition set_nvme_slot_release (junk : list Z) (slot : Z) : M (lld St) unit :=
  let r := junk in
  let r := rset NVME_CPL_FIFO_REG "cmdSlotTag" slot r in
  let r := rset NVME_CPL_FIFO_REG "cplType" CMD_SLOT_RELEASE_TYPE r in
  _ ← IO_WRITE32 NVME_CPL_FIFO_REG_ADDR (dword 0 r);
  IO_WRITE32 (NVME_CPL_FIFO_REG_ADDR + 8) (dword 2 r).

Definition set_nvme_cpl (junk : list Z) (sqId cid specific statusFieldWord : Z)
    : M (lld St) unit :=
  let r := junk in
  let r := rset NVME_CPL_FIFO_REG "cid" cid r in
  let r := rset NVME_CPL_FIFO_REG "sqId" sqId r in
  let r := rset NVME_CPL_FIFO_REG "specific" specific r in
  let r := rset NVME_CPL_FIFO_REG "statusFieldWord" statusFieldWord r in
  let r := rset NVME_CPL_FIFO_REG "cplType" ONLY_CPL_TYPE r in
  _ ← IO_WRITE32 NVME_CPL_FIFO_REG_ADDR (dword 0 r);
  _ ← IO_WRITE32 (NVME_CPL_FIFO_REG_ADDR + 4) (dword 1 r);
  IO_WRITE32 (NVME_CPL_FIFO_REG_ADDR + 8) (dword 2 r).

Definition io_sq_reg (junk : list Z) (valid cqVector qSzie pcieBaseAddrL pcieBaseAddrH Qprio : Z)
    : list Z :=
  let r := junk in
  let r := rset NVME_IO_SQ_SET_REG "valid" valid r in
  let r := rset NVME_IO_SQ_SET_REG "cqVector" cqVector r in
  let r := rset NVME_IO_SQ_SET_REG "sqSize" qSzie r in
  let r := rset NVME_IO_SQ_SET_REG "pcieBaseAddrL" pcieBaseAddrL r in
  let r := rset NVME_IO_SQ_SET_REG "pcieBaseAddrH" pcieBaseAddrH r in
  rset NVME_IO_SQ_SET_REG "sqPri" Qprio r.
Definition set_io_sq (junk : list Z)
    (ioSqIdx valid cqVector qSzie pcieBaseAddrL pcieBaseAddrH Qprio : Z) : M (lld St) unit :=
  let r := io_sq_reg junk valid cqVector qSzie pcieBaseAddrL pcieBaseAddrH Qprio in
  let addr := NVME_IO_SQ_SET_REG_ADDR + ioSqIdx * 8 in
  _ ← IO_WRITE32 addr (dword 0 r);
  IO_WRITE32 (addr + 4) (dword 1 r).

Definition set_arb_weight (dword11 : Z) : M (lld St) unit :=
  IO_WRITE32 ARBITRATION_PARAMETER_ADDR (dword 0 (rset NVME_ARB_WEIGHT_SET_REG "valid" 1 [u32 dword11])).

Definition io_cq_reg (junk : list Z) (valid irqEn irqVector qSzie pcieBaseAddrL pcieBaseAddrH : Z)
    : list Z :=
  let r := junk in
  let r := rset NVME_IO_CQ_SET_REG "valid" valid r in
  let r := rset NVME_IO_CQ_SET_REG "irqEn" irqEn r in
  let r := rset NVME_IO_CQ_SET_REG "irqVector" irqVector r in
  let r := rset NVME_IO_CQ_SET_REG "cqSize" qSzie r in
  let r := rset NVME_IO_CQ_SET_REG "pcieBaseAddrL" pcieBaseAddrL r in
  rset NVME_IO_CQ_SET_REG "pcieBaseAddrH" pcieBaseAddrH r.
Definition set_io_cq (junk : list Z)
    (ioCqIdx valid irqEn irqVector qSzie pcieBaseAddrL pcieBaseAddrH : Z) : M (lld St) unit :=
  let r := io_cq_reg junk valid irqEn irqVector qSzie pcieBaseAddrL pcieBaseAddrH in
  let addr := NVME_IO_CQ_SET_REG_ADDR + ioCqIdx * 8 in
  _ ← IO_WRITE32 addr (dword 0 r);
  IO_WRITE32 (addr + 4) (dword 1 r).

(** ** Direct transfers: no wait for room in the FIFO *)
Definition set_direct_dma d (junk : list Z) (devAddr pcieAddrH pcieAddrL len : Z)
    : M (lld St) unit :=
  _ ← ASSERT (bool_decide (len ≤ 0x1000) && bool_decide (pcieAddrH < 0x10)
              && bool_decide (Z.land pcieAddrL 0xF = 0));
  let r := junk in
  let r := rset HOST_DMA_CMD_FIFO_REG "devAddr" devAddr r in
  let r := rset HOST_DMA_CMD_FIFO_REG "pcieAddrL" pcieAddrL r in
  let r := rset HOST_DMA_CMD_FIFO_REG "pcieAddrH" pcieAddrH r in
  let r := set_dword 3 0 r in
  let r := rset HOST_DMA_CMD_FIFO_REG "dmaType" HOST_DMA_DIRECT_TYPE r in
  let r := rset HOST_DMA_CMD_FIFO_REG "dmaDirection" (dir_bit d) r in
  let r := rset HOST_DMA_CMD_FIFO_REG "dmaLen" len r in
  _ ← IO_WRITE32 HOST_DMA_CMD_FIFO_REG_ADDR (dword 0 r);
  _ ← IO_WRITE32 (HOST_DMA_CMD_FIFO_REG_ADDR + 4) (dword 1 r);
  _ ← IO_WRITE32 (HOST_DMA_CMD_FIFO_REG_ADDR + 8) (dword 2 r);
  _ ← IO_WRITE32 (HOST_DMA_CMD_FIFO_REG_ADDR + 12) (dword 3 r);
  modify (λ s,
    let g := g_hostDmaStatus s in
    let g := g <| fifoTail := cnt_inc (direct_chan d) (fifoTail g) |> in
    s <| g_hostDmaStatus :=
      match d with
      | DirTx => g <| directDmaTxCnt := u32 (directDmaTxCnt g + 1) |>
      | DirRx => g <| directDmaRxCnt := u32 (directDmaRxCnt g + 1) |>
      end |>).
Definition set_direct_tx_dma := set_direct_dma DirTx.
Definition set_direct_rx_dma := set_direct_dma DirRx.

(** ** Automatic transfers *)
(** [g_hostDmaStatus.fifoHead.dword = IO_READ32(HOST_DMA_FIFO_CNT_REG_ADDR)] *)
Definition read_head : M (lld St) unit :=
  v ← IO_READ32 HOST_DMA_FIFO_CNT_REG_ADDR;
  modify (λ s, s <| g_hostDmaStatus := (g_hostDmaStatus s) <| fifoHead := [v] |> |>).

Definition head_of c s : Z := cnt c (fifoHead (g_hostDmaStatus s)).
Definition tail_of c s : Z := cnt c (fifoTail (g_hostDmaStatus s)).
Definition overflow_of d s : Z :=
  match d with
  | DirTx => autoDmaTxOverFlowCnt (g_hostDmaAssistStatus s)
  | DirRx => autoDmaRxOverFlowCnt (g_hostDmaAssistStatus s)
  end.

(** The loop while the FIFO is full. *)
Fixpoint wait_room (fuel : nat) c : M (lld St) unit :=
  match fuel with
  | O => undef
  | S fuel' => λ s,
      if decide ((tail_of c s + 1) mod 256 = head_of c s)
      then (_ ← read_head; wait_room fuel' c) s
      else Some (tt, s)
  end.

(** The counters after a command: [tempTail = tail++; if (tempTail > tail) overflow++]. *)
Definition count_auto d s : lld St :=
  let g := g_hostDmaStatus s in
  let a := g_hostDmaAssistStatus s in
  let tempTail := cnt (auto_chan d) (fifoTail g) in
  let tail' := cnt_inc (auto_chan d) (fifoTail g) in
  let wrapped := bool_decide (tempTail > cnt (auto_chan d) tail') in
  let g := g <| fifoTail := tail' |> in
  match d with
  | DirTx =>
      s <| g_hostDmaAssistStatus :=
             (if wrapped then a <| autoDmaTxOverFlowCnt := u32 (autoDmaTxOverFlowCnt a + 1) |> else a) |>
        <| g_hostDmaStatus := g <| autoDmaTxCnt := u32 (autoDmaTxCnt g + 1) |> |>
  | DirRx =>
      s <| g_hostDmaAssistStatus :=
             (if wrapped then a <| autoDmaRxOverFlowCnt := u32 (autoDmaRxOverFlowCnt a + 1) |> else a) |>
        <| g_hostDmaStatus := g <| autoDmaRxCnt := u32 (autoDmaRxCnt g + 1) |> |>
  end.

Definition auto_reg d (junk : list Z) (slot cmd4KBOffset devAddr : Z) : list Z :=
  let r := junk in
  let r := rset HOST_DMA_CMD_FIFO_REG "devAddr" devAddr r in
  let r := set_dword 3 0 r in
  let r := rset HOST_DMA_CMD_FIFO_REG "dmaType" HOST_DMA_AUTO_TYPE r in
  let r := rset HOST_DMA_CMD_FIFO_REG "dmaDirection" (dir_bit d) r in
  let r := rset HOST_DMA_CMD_FIFO_REG "cmd4KBOffset" cmd4KBOffset r in
  rset HOST_DMA_CMD_FIFO_REG "cmdSlotTag" slot r.

Definition set_auto_dma (fuel : nat) d (junk : list Z) (slot cmd4KBOffset devAddr : Z)
    : M (lld St) unit :=
  _ ← ASSERT (bool_decide (cmd4KBOffset < 256));
  _ ← read_head;
  _ ← wait_room fuel (auto_chan d);
  let r := auto_reg d junk slot cmd4KBOffset devAddr in
  _ ← IO_WRITE32 HOST_DMA_CMD_FIFO_REG_ADDR (dword 0 r);
  _ ← IO_WRITE32 (HOST_DMA_CMD_FIFO_REG_ADDR + 12) (dword 3 r);
  modify (count_auto d).
Definition set_auto_tx_dma (fuel : nat) := set_auto_dma fuel DirTx.
Definition set_auto_rx_dma (fuel : nat) := set_auto_dma fuel DirRx.

(** ** Waiting for transfers *)
Fixpoint check_dma_done (fuel : nat) c : M (lld St) unit :=
  match fuel with
  | O => undef
  | S fuel' => λ s,
      if decide (head_of c s ≠ tail_of c s)
      then (_ ← read_head; check_dma_done fuel' c) s
      else Some (tt, s)
  end.
Definition check_direct_tx_dma_done (fuel : nat) := check_dma_done fuel DirectTx.
Definition check_direct_rx_dma_done (fuel : nat) := check_dma_done fuel DirectRx.
Definition check_auto_tx_dma_done (fuel : nat) := check_dma_done fuel AutoTx.
Definition check_auto_rx_dma_done (fuel : nat) := check_dma_done fuel AutoRx.

(** The decision of the partial check, from the head, the tail and the overflow
    count; the comparisons are nested as in the source. *)
Definition partial_done (head tail overflow tailIndex tailAssistIndex : Z) : Z :=
  if decide (head = tail) then 1
  else if decide (head < tailIndex) then
    if decide (tail < tailIndex) then
      if decide (tail > head) then 1
      else if decide (overflow ≠ u32 (tailAssistIndex + 1)) then 1 else 0
    else if decide (overflow ≠ tailAssistIndex) then 1 else 0
  else if decide (head = tailIndex) then 1
  else if decide (tail < tailIndex) then 1
  else if decide (tail > head) then 1
  else if decide (overflow ≠ tailAssistIndex) then 1 else 0.

Definition check_auto_dma_partial_done d (tailIndex tailAssistIndex : Z) : M (lld St) Z :=
  _ ← read_head;
  gets (λ s, partial_done (head_of (auto_chan d) s) (tail_of (auto_chan d) s) (overflow_of d s)
               tailIndex tailAssistIndex).
Definition check_auto_tx_dma_partial_done := check_auto_dma_partial_done DirTx.
Definition check_auto_rx_dma_partial_done := check_auto_dma_partial_done DirRx.
End driver.

(** ** Layout lemmas *)
Lemma member_at_bounds L n off o w :
  layout_from L off = true → 0 ≤ off → member_at L n off = Some (o, w) →
  off ≤ o ∧ 0 < w ∧ o mod 32 + w ≤ 32 ∧ o + w ≤ off + layout_size L ∧ 0 ≤ layout_size L.
Proof.
  revert off. induction L as [|m L IH]; intros off HL H0 Hm; simpl in *; [done|].
  apply andb_prop in HL as [[H1 H2]%andb_prop HL].
  apply bool_decide_eq_true in H1, H2.
  case_decide; simplify_eq.
  - assert (0 ≤ layout_size L); [|unfold layout_size in *; lia].
    clear - HL. revert HL. generalize (o + m_width m). induction L as [|m' L IH]; intros p HL; simpl in *; [done|].
    apply andb_prop in HL as [[H1 _]%andb_prop HL]. apply bool_decide_eq_true in H1.
    specialize (IH _ HL). unfold layout_size in *. lia.
  - destruct (IH (off + m_width m)) as (? & ? & ? & ? & ?); [done|lia|done|].
    unfold layout_size in *. split_and!; lia.
Qed.

Lemma member_at_disjoint L n n' off o w o' w' :
  layout_from L off = true → 0 ≤ off → n ≠ n' →
  member_at L n off = Some (o, w) → member_at L n' off = Some (o', w') →
  o + w ≤ o' ∨ o' + w' ≤ o.
Proof.
  revert off. induction L as [|m L IH]; intros off HL H0 Hne Hn Hn'; simpl in *; [done|].
  apply andb_prop in HL as [[H1 H2]%andb_prop HL]. apply bool_decide_eq_true in H1, H2.
  repeat case_decide; simplify_eq; try done.
  - right. apply member_at_bounds in Hn; [|done|lia]. lia.
  - left. apply member_at_bounds in Hn'; [|done|lia]. lia.
  - eapply (IH (off + m_width m)); try done. lia.
Qed.

(** [n] is a member of the [k]-word register [L]. *)
Definition has (k : nat) (L : layout) (n : string) : Prop :=
  layout_ok k L = true ∧ is_Some (member_at L n 0).

Lemma has_inv k L n :
  has k L n → ∃ o w, member_at L n 0 = Some (o, w) ∧ layout_from L 0 = true ∧
    field L n = BF (Z.to_nat (o / 32)) (o mod 32) w ∧
    0 ≤ o ∧ 0 < w ∧ o mod 32 + w ≤ 32 ∧ o + w ≤ 32 * Z.of_nat k.
Proof.
  intros [HL [[o w] Hm]]. unfold layout_ok in HL.
  apply andb_prop in HL as [[HL Hs%bool_decide_eq_true]%andb_prop _].
  destruct (member_at_bounds L n 0 o w HL) as (? & ? & ? & ? & ?); [lia|done|].
  exists o, w. unfold field. rewrite Hm. split_and!; try done; lia.
Qed.

Lemma field_ok k L n : has k L n → bf_ok k (field L n).
Proof.
  intros (o & w & _ & _ & -> & ? & ? & ? & ?)%has_inv. unfold bf_ok. simpl.
  split_and!; dlia.
Qed.

Lemma field_disjoint k L n n' :
  has k L n → has k L n' → n ≠ n' → bf_disjoint (field L n) (field L n').
Proof.
  intros (o & w & Hm & HL & -> & ? & ? & ? & ?)%has_inv
    (o' & w' & Hm' & _ & -> & ? & ? & ? & ?)%has_inv Hne.
  pose proof (member_at_disjoint L n n' 0 o w o' w' HL ltac:(lia) Hne Hm Hm').
  unfold bf_disjoint. simpl. destruct (decide (o / 32 = o' / 32)); [right|left]; dlia.
Qed.

Lemma length_rset L n v r : length (rset L n v r) = length r.
Proof. apply bf_set_length. Qed.
Lemma length_set_dword i v r : length (set_dword i v r) = length r.
Proof. apply length_insert. Qed.

Lemma rget_rset_same L n v r :
  has (length r) L n → rget L n (rset L n v r) = wrap (bf_width (field L n)) v.
Proof. intros H. by apply bf_get_set_same, field_ok. Qed.

Lemma rget_rset_other L n n' v r :
  has (length r) L n → has (length r) L n' → n ≠ n' →
  rget L n' (rset L n v r) = rget L n' r.
Proof. intros. apply bf_get_set_other; [by apply field_ok..|by eapply field_disjoint]. Qed.

Lemma rget_set_dword_other L n i v r :
  bf_word (field L n) ≠ i → rget L n (set_dword i v r) = rget L n r.
Proof. intros. unfold rget, bf_get, set_dword. by rewrite list_lookup_insert_ne. Qed.

(** Words that never leave their width. *)
Lemma get_bits_u32 x lo w : 0 ≤ lo → 0 ≤ w → lo + w ≤ 32 → get_bits (u32 x) lo w = get_bits x lo w.
Proof.
  intros. apply Z.bits_inj'. intros i ?. rewrite !get_bits_spec by lia.
  case_bool_decide; [|by rewrite !andb_false_r].
  unfold u32, wrap. by rewrite Z.mod_pow2_bits_low by lia.
Qed.

(** The driver writes [u32] words: a member is read back from what was written. *)
Lemma rget_u32 k L n r : has k L n → rget L n (map u32 r) = rget L n r.
Proof.
  intros (o & w & _ & _ & E & ? & ? & ? & ?)%has_inv. unfold rget, bf_get. rewrite E. simpl.
  change (map u32 r) with (u32 <$> r). rewrite list_lookup_fmap. destruct (r !! Z.to_nat (o / 32)) as [x|]; simpl.
  - apply get_bits_u32; dlia.
  - done.
Qed.

Ltac solve_has := split; [vm_compute; reflexivity|vm_compute; eexists; reflexivity].

(** Read members back through a chain of assignments, over any initial contents. *)
Ltac reg_simp Hlen :=
  repeat first
    [ rewrite rget_set_dword_other by (vm_compute; lia)
    | rewrite rget_rset_same by (rewrite ?length_rset, ?length_set_dword, ?length_rset, Hlen; solve_has)
    | rewrite rget_rset_other by
        first [discriminate|rewrite ?length_rset, ?length_set_dword, ?length_rset, Hlen; solve_has] ].

(** ** Registers and what the controller reads *)
Lemma registers_ok k L : (k, L) ∈ registers → layout_ok k L = true.
Proof.
  assert (Forall (λ p, layout_ok p.1 p.2 = true) registers) as H.
  { unfold registers. repeat (constructor; [by vm_compute|]). constructor. }
  rewrite Forall_forall in H. intros Hin. exact (H _ Hin).
Qed.

(** In every register structure the members are independent: an assigned member
    reads back as the value cut to its width, and no other member changes. *)
Theorem register_members_independent k L n n' v r :
  (k, L) ∈ registers → length r = k → is_Some (member_at L n 0) → is_Some (member_at L n' 0) →
  rget L n (rset L n v r) = v mod 2 ^ bf_width (field L n) ∧
  (n ≠ n' → rget L n' (rset L n v r) = rget L n' r).
Proof.
  intros HL%registers_ok <- Hn Hn'. split.
  - by apply rget_rset_same.
  - intros. by apply rget_rset_other.
Qed.

Lemma register_members_independent_witness :
  rget NVME_IO_SQ_SET_REG "sqSize" (rset NVME_IO_SQ_SET_REG "sqSize" 0x1ff [7; 0]) = 0xff ∧
  ("sqSize"%string ≠ "valid"%string →
   rget NVME_IO_SQ_SET_REG "valid" (rset NVME_IO_SQ_SET_REG "sqSize" 0x1ff [7; 0])
     = rget NVME_IO_SQ_SET_REG "valid" [7; 0]).
Proof.
  apply (register_members_independent 2 NVME_IO_SQ_SET_REG "sqSize" "valid" 0x1ff [7; 0]).
  - unfold registers. repeat (apply list_elem_of_here || apply list_elem_of_further).
  - reflexivity.
  - vm_compute. eexists. reflexivity.
  - vm_compute. eexists. reflexivity.
Defined.

(** The words a routine writes over a recording bus. *)
Definition written (s : lld trace) (ws : list (Z * Z)) : lld trace :=
  s <| dev := Trace (writes (dev s) ++ ws) |>.

Lemma io_write_trace a v (s : lld trace) :
  0 ≤ a < 4294967296 → IO_WRITE32 a v s = Some (tt, written s [(a, u32 v)]).
Proof. intros. unfold IO_WRITE32, out32. by rewrite (u32_small a). Qed.
Lemma written_written s l l' : written (written s l) l' = written s (l ++ l').
Proof. unfold written. simpl. by rewrite <- app_assoc. Qed.

Lemma words_2 r : length r = 2%nat → [u32 (dword 0 r); u32 (dword 1 r)] = map u32 r.
Proof. by destruct r as [|? [|? [|]]]. Qed.
Lemma words_3 r :
  length r = 3%nat → [u32 (dword 0 r); u32 (dword 1 r); u32 (dword 2 r)] = map u32 r.
Proof. by destruct r as [|? [|? [|? [|]]]]. Qed.

(** What a queue-setting register tells the controller. *)
Record io_queue := IoQueue { q_base : Z; q_valid : Z; q_vector : Z; q_size : Z; q_prio : Z }.
Definition decode_io_sq (r : list Z) : io_queue :=
  let g n := rget NVME_IO_SQ_SET_REG n r in
  IoQueue (g "pcieBaseAddrL"%string + 2 ^ 32 * g "pcieBaseAddrH"%string)
    (g "valid"%string) (g "cqVector"%string) (g "sqSize"%string) (g "sqPri"%string).

Lemma io_sq_reg_length junk valid vec size lo hi prio :
  length (io_sq_reg junk valid vec size lo hi prio) = length junk.
Proof. unfold io_sq_reg. by rewrite !length_rset. Qed.

Lemma decode_io_sq_reg junk valid vec size base prio :
  length junk = 2%nat → 0 ≤ valid < 2 → 0 ≤ vec < 16 → 0 ≤ size < 256 → 0 ≤ base < 2 ^ 36 →
  0 ≤ prio < 4 →
  decode_io_sq (map u32 (io_sq_reg junk valid vec size (base mod 2 ^ 32) (base / 2 ^ 32) prio)) =
    IoQueue base valid vec size prio.
Proof.
  intros Hlen. intros. unfold decode_io_sq.
  rewrite !(rget_u32 2) by solve_has. unfold io_sq_reg. reg_simp Hlen. simpl bf_width.
  change (2 ^ 36) with 68719476736 in *. change (2 ^ 32) with 4294967296 in *. f_equal.
  - change (wrap 32 (base mod 4294967296) + 4294967296 * wrap 4 (base / 4294967296) = base).
    unfold wrap. change (2 ^ 32) with 4294967296. change (2 ^ 4) with 16. dlia.
  - by apply wrap_small.
  - by apply wrap_small.
  - by apply wrap_small.
  - by apply wrap_small.
Qed.

(** set_io_sq: for queue [i] of 8 it writes the two words of that queue's
    register, which lie in the submission-queue window and in no other queue's,
    and the controller reads back the arguments, whatever the local held. *)
Theorem set_io_sq_roundtrip junk i valid vec size base prio (s : lld trace) :
  length junk = 2%nat → 0 ≤ i < 8 → 0 ≤ valid < 2 → 0 ≤ vec < 16 → 0 ≤ size < 256 →
  0 ≤ base < 2 ^ 36 → 0 ≤ prio < 4 →
  ∃ w0 w1,
    set_io_sq junk i valid vec size (base mod 2 ^ 32) (base / 2 ^ 32) prio s =
      Some (tt, written s [(NVME_IO_SQ_SET_REG_ADDR + 8 * i, w0);
                           (NVME_IO_SQ_SET_REG_ADDR + 8 * i + 4, w1)]) ∧
    NVME_IO_SQ_SET_REG_ADDR + 8 * i + 8 ≤ NVME_IO_CQ_SET_REG_ADDR ∧
    decode_io_sq [w0; w1] = IoQueue base valid vec size prio.
Proof.
  intros Hlen Hi Hv Hc Hs Hb Hp. set (r := io_sq_reg junk valid vec size (base mod 2 ^ 32)
    (base / 2 ^ 32) prio).
  exists (u32 (dword 0 r)), (u32 (dword 1 r)). split_and!.
  - unfold set_io_sq. fold r. rewrite (Z.mul_comm i 8). unfold NVME_IO_SQ_SET_REG_ADDR, HOST_IP_ADDR.
    erewrite bind_run by (apply io_write_trace; lia).
    by rewrite io_write_trace, written_written by lia.
  - unfold NVME_IO_CQ_SET_REG_ADDR, NVME_IO_SQ_SET_REG_ADDR. lia.
  - rewrite words_2 by (subst r; by rewrite io_sq_reg_length). by apply decode_io_sq_reg.
Qed.

Definition lld0 : lld trace :=
  Lld (Trace []) (HostDmaStatus [0] [0] 0 0 0 0) (HostDmaAssistStatus 0 0) 0 0.

Lemma set_io_sq_roundtrip_witness :
  ∃ w0 w1,
    set_io_sq [0xdead; 0xbeef] 3 1 2 31 (0x123456000 mod 2 ^ 32) (0x123456000 / 2 ^ 32) 1 lld0 =
      Some (tt, written lld0 [(NVME_IO_SQ_SET_REG_ADDR + 8 * 3, w0);
                              (NVME_IO_SQ_SET_REG_ADDR + 8 * 3 + 4, w1)]) ∧
    NVME_IO_SQ_SET_REG_ADDR + 8 * 3 + 8 ≤ NVME_IO_CQ_SET_REG_ADDR ∧
    decode_io_sq [w0; w1] = IoQueue 0x123456000 1 2 31 1.
Proof.
  apply (set_io_sq_roundtrip [0xdead; 0xbeef] 3 1 2 31 0x123456000 1 lld0);
    [reflexivity|by vm_compute..].
Defined.

(** A completion entry as the controller reads it. *)
Record completion := Completion {
  cpl_type : Z; cpl_slot : Z; cpl_cid : Z; cpl_sq : Z; cpl_specific : Z; cpl_status : Z;
}.
Definition decode_cpl (r : list Z) : completion :=
  let g n := rget NVME_CPL_FIFO_REG n r in
  Completion (g "cplType"%string) (g "cmdSlotTag"%string) (g "cid"%string) (g "sqId"%string)
    (g "specific"%string) (g "statusFieldWord"%string).

(** A member depends on its word only. *)
Lemma rget_agree L n r r' :
  r !! bf_word (field L n) = r' !! bf_word (field L n) → rget L n r = rget L n r'.
Proof. intros E. unfold rget, bf_get. by rewrite E. Qed.

Lemma dword_map_u32 i r : (i < length r)%nat → map u32 r !! i = Some (u32 (dword i r)).
Proof.
  intros [x Hx]%lookup_lt_is_Some_2. change (map u32 r) with (u32 <$> r).
  rewrite list_lookup_fmap. unfold dword. by rewrite Hx.
Qed.

Ltac decode_fields k Hlen :=
  unfold decode_cpl; rewrite !(rget_u32 k) by solve_has; reg_simp Hlen; simpl bf_width;
  simpl cpl_cid; simpl cpl_sq; f_equal; first [reflexivity|by apply wrap_small|idtac].
Ltac write_trace :=
  repeat (erewrite bind_run by (apply io_write_trace; vm_compute; split; congruence));
  rewrite io_write_trace by (vm_compute; split; congruence);
  rewrite ?written_written; reflexivity.

Lemma set_nvme_cpl_run junk sqId cid specific status (s : lld trace) :
  length junk = 3%nat → 0 ≤ sqId < 16 → 0 ≤ cid < 65536 →
  0 ≤ specific < 4294967296 → 0 ≤ status < 65536 →
  ∃ w0 w1 w2, set_nvme_cpl junk sqId cid specific status s =
      Some (tt, written s [(NVME_CPL_FIFO_REG_ADDR, w0); (NVME_CPL_FIFO_REG_ADDR + 4, w1);
                           (NVME_CPL_FIFO_REG_ADDR + 8, w2)]) ∧
    decode_cpl [w0; w1; w2] =
      Completion ONLY_CPL_TYPE (rget NVME_CPL_FIFO_REG "cmdSlotTag" junk) cid sqId specific status.
Proof.
  intros Hlen ????. unfold set_nvme_cpl. set (r := rset _ "cplType" _ _). do 3 eexists. split.
  - write_trace.
  - rewrite words_3 by (subst r; by rewrite !length_rset). subst r. decode_fields 3%nat Hlen.
Qed.

Lemma set_auto_nvme_cpl_run junk slot specific status dw0 (s : lld trace) :
  length junk = 3%nat → 0 ≤ slot < 128 → 0 ≤ status < 65536 → 0 ≤ dw0 < 4294967296 →
  ∃ w1 w2, set_auto_nvme_cpl junk slot specific status dw0 s =
      Some (tt, written s [(NVME_CPL_FIFO_REG_ADDR + 4, w1); (NVME_CPL_FIFO_REG_ADDR + 8, w2)]) ∧
    ∀ w0, decode_cpl [w0; w1; w2] =
      Completion AUTO_CPL_TYPE slot (rget NVME_CPL_FIFO_REG "cid" [w0; w1; w2])
        (rget NVME_CPL_FIFO_REG "sqId" [w0; w1; w2]) dw0 status.
Proof.
  intros Hlen ???. unfold set_auto_nvme_cpl. set (r := set_dword 1 _ _). do 2 eexists. split.
  - write_trace.
  - intros w0. assert (length r = 3%nat) as Hr by (subst r; by rewrite length_set_dword, !length_rset).
    unfold decode_cpl.
    assert (∀ n, bf_word (field NVME_CPL_FIFO_REG n) = 2%nat →
      rget NVME_CPL_FIFO_REG n [w0; u32 (dword 1 r); u32 (dword 2 r)] =
      rget NVME_CPL_FIFO_REG n (map u32 r)) as H2.
    { intros n E. apply rget_agree. rewrite E, dword_map_u32 by (rewrite Hr; lia). done. }
    assert (dword 1 r = u32 dw0) as Hd.
    { subst r. unfold dword, set_dword. by rewrite list_lookup_insert_eq by (rewrite !length_rset; lia). }
    rewrite (H2 "cplType"%string), (H2 "cmdSlotTag"%string), (H2 "statusFieldWord"%string) by reflexivity.
    assert (rget NVME_CPL_FIFO_REG "specific" [w0; u32 (dword 1 r); u32 (dword 2 r)] = dw0) as ->.
    { rewrite Hd. unfold rget, bf_get. simpl. rewrite get_bits_0 by done.
      change (u32 (u32 (u32 dw0)) = dw0). by rewrite !(u32_small dw0) by done. }
    subst r. decode_fields 3%nat Hlen.
Qed.

Lemma set_nvme_slot_release_run junk slot (s : lld trace) :
  length junk = 3%nat → 0 ≤ slot < 128 →
  ∃ w0 w2, set_nvme_slot_release junk slot s =
      Some (tt, written s [(NVME_CPL_FIFO_REG_ADDR, w0); (NVME_CPL_FIFO_REG_ADDR + 8, w2)]) ∧
    ∀ w1, decode_cpl [w0; w1; w2] =
      Completion CMD_SLOT_RELEASE_TYPE slot (rget NVME_CPL_FIFO_REG "cid" junk)
        (rget NVME_CPL_FIFO_REG "sqId" junk) (rget NVME_CPL_FIFO_REG "specific" [w0; w1; w2])
        (rget NVME_CPL_FIFO_REG "statusFieldWord" junk).
Proof.
  intros Hlen ?. unfold set_nvme_slot_release. set (r := rset _ "cplType" _ _). do 2 eexists. split.
  - write_trace.
  - intros w1. assert (length r = 3%nat) as Hr by (subst r; by rewrite !length_rset).
    unfold decode_cpl.
    assert (∀ n, bf_word (field NVME_CPL_FIFO_REG n) ≠ 1%nat → has 3 NVME_CPL_FIFO_REG n →
      rget NVME_CPL_FIFO_REG n [u32 (dword 0 r); w1; u32 (dword 2 r)] =
      rget NVME_CPL_FIFO_REG n (map u32 r)) as H2.
    { intros n E Hn%field_ok. apply rget_agree. destruct Hn as [Hn _].
      rewrite dword_map_u32 by (rewrite Hr; lia).
      destruct (bf_word _) as [|[|[|]]]; [done|done|done|lia]. }
    rewrite (H2 "cplType"%string), (H2 "cmdSlotTag"%string), (H2 "statusFieldWord"%string),
      (H2 "cid"%string), (H2 "sqId"%string) by first [solve_has|vm_compute; lia].
    subst r. decode_fields 3%nat Hlen.
Qed.

(** The completion routines write one entry of the completion FIFO.
    set_nvme_cpl fills all of it but the slot tag, which stays what the local
    variable held.  set_auto_nvme_cpl writes two words; its argument [specific]
    is dropped, the double word argument takes its place.  set_nvme_slot_release
    writes the identifiers and the status its local variable happened to hold. *)
Theorem completions_decode junk sqId cid slot specific status dw0 (s : lld trace) :
  length junk = 3%nat → 0 ≤ sqId < 16 → 0 ≤ cid < 65536 → 0 ≤ slot < 128 →
  0 ≤ specific < 4294967296 → 0 ≤ status < 65536 → 0 ≤ dw0 < 4294967296 →
  (∃ w0 w1 w2, set_nvme_cpl junk sqId cid specific status s =
      Some (tt, written s [(NVME_CPL_FIFO_REG_ADDR, w0); (NVME_CPL_FIFO_REG_ADDR + 4, w1);
                           (NVME_CPL_FIFO_REG_ADDR + 8, w2)]) ∧
    decode_cpl [w0; w1; w2] =
      Completion ONLY_CPL_TYPE (rget NVME_CPL_FIFO_REG "cmdSlotTag" junk) cid sqId specific status) ∧
  (∃ w1 w2, set_auto_nvme_cpl junk slot specific status dw0 s =
      Some (tt, written s [(NVME_CPL_FIFO_REG_ADDR + 4, w1); (NVME_CPL_FIFO_REG_ADDR + 8, w2)]) ∧
    ∀ w0, decode_cpl [w0; w1; w2] =
      Completion AUTO_CPL_TYPE slot (rget NVME_CPL_FIFO_REG "cid" [w0; w1; w2])
        (rget NVME_CPL_FIFO_REG "sqId" [w0; w1; w2]) dw0 status) ∧
  (∃ w0 w2, set_nvme_slot_release junk slot s =
      Some (tt, written s [(NVME_CPL_FIFO_REG_ADDR, w0); (NVME_CPL_FIFO_REG_ADDR + 8, w2)]) ∧
    ∀ w1, decode_cpl [w0; w1; w2] =
      Completion CMD_SLOT_RELEASE_TYPE slot (rget NVME_CPL_FIFO_REG "cid" junk)
        (rget NVME_CPL_FIFO_REG "sqId" junk) (rget NVME_CPL_FIFO_REG "specific" [w0; w1; w2])
        (rget NVME_CPL_FIFO_REG "statusFieldWord" junk)).
Proof.
  intros. split_and!;
    [by apply set_nvme_cpl_run|by apply set_auto_nvme_cpl_run|by apply set_nvme_slot_release_run].
Qed.

Lemma completions_decode_witness :
  ∃ w1 w2, set_auto_nvme_cpl [7; 8; 9] 5 1234 0 77 lld0 =
      Some (tt, written lld0 [(NVME_CPL_FIFO_REG_ADDR + 4, w1); (NVME_CPL_FIFO_REG_ADDR + 8, w2)]) ∧
    ∀ w0, decode_cpl [w0; w1; w2] =
      Completion AUTO_CPL_TYPE 5 (rget NVME_CPL_FIFO_REG "cid" [w0; w1; w2])
        (rget NVME_CPL_FIFO_REG "sqId" [w0; w1; w2]) 77 0.
Proof.
  apply (completions_decode [7; 8; 9] 1 2 5 1234 0 77 lld0); [reflexivity|lia..].
Defined.

(** ** Interrupts *)
(** The controller's registers as memory: a read returns what the register holds. *)
Definition host_window (r : ram) : Prop :=
  ram_lo r ≤ HOST_IP_ADDR ∧ HOST_IP_ADDR + 0x400 ≤ ram_lo r + ram_len r.

Lemma io_read_ram off (s : lld ram) :
  host_window (dev s) → 0 ≤ off < 0x400 → off mod 4 = 0 →
  IO_READ32 (HOST_IP_ADDR + off) s = Some (ram_get (dev s) (HOST_IP_ADDR + off), s).
Proof.
  unfold host_window, HOST_IP_ADDR. intros [? ?] ? ?. unfold IO_READ32, in32. simpl.
  rewrite u32_small by lia. rewrite decide_True by (unfold ram_ok; split_and!; dlia).
  by destruct s.
Qed.

Lemma io_write_ram off v (s : lld ram) :
  host_window (dev s) → 0 ≤ off < 0x400 → off mod 4 = 0 →
  IO_WRITE32 (HOST_IP_ADDR + off) v s =
    Some (tt, s <| dev := (dev s) <| ram_words := <[HOST_IP_ADDR + off := u32 v]> (ram_words (dev s)) |> |>).
Proof.
  unfold host_window, HOST_IP_ADDR. intros [? ?] ? ?. unfold IO_WRITE32, out32. simpl.
  rewrite u32_small by lia. by rewrite decide_True by (unfold ram_ok; split_and!; dlia).
Qed.

(** What the handler makes of the registers. *)
Definition irq_status `{!NvmeStatus} (irq link nvme old : Z) : Z :=
  if raised irq "nvmeCcShn" && bool_decide (rget NVME_STATUS_REG "ccShn" [nvme] = 1)
  then NVME_TASK_SHUTDOWN
  else if raised irq "nvmeCcEn" then
    if decide (rget NVME_STATUS_REG "ccEn" [nvme] = 1) then NVME_TASK_WAIT_CC_EN else NVME_TASK_RESET
  else if raised irq "pcieLink" && bool_decide (rget PCIE_STATUS_REG "pcieLinkUp" [link] = 0)
  then NVME_TASK_RESET else old.

Lemma when_read b off k (s : lld ram) :
  host_window (dev s) → 0 ≤ off < 0x400 → off mod 4 = 0 →
  when b (v ← IO_READ32 (HOST_IP_ADDR + off); k v) s =
    if b then k (ram_get (dev s) (HOST_IP_ADDR + off)) s else Some (tt, s).
Proof. intros. destruct b; [|done]. simpl. by erewrite bind_run by by apply io_read_ram. Qed.

Lemma when_read_nop b off (s : lld ram) :
  host_window (dev s) → 0 ≤ off < 0x400 → off mod 4 = 0 →
  when b (_ ← IO_READ32 (HOST_IP_ADDR + off); mret tt) s = Some (tt, s).
Proof. intros. rewrite when_read by done. by destruct b. Qed.

(** dev_irq_handler acknowledges exactly the interrupts it read, and of those it
    read a shutdown request outranks an enable change, which outranks a lost
    link; nothing else of the task changes. *)
Theorem dev_irq_handler_spec `{!NvmeStatus} (s : lld ram) :
  host_window (dev s) →
  let reg a := ram_get (dev s) a in
  ∃ s', dev_irq_handler s = Some (tt, s') ∧
    nvme_status s' = irq_status (reg DEV_IRQ_STATUS_REG_ADDR) (reg PCIE_STATUS_REG_ADDR)
                       (reg NVME_STATUS_REG_ADDR) (nvme_status s) ∧
    ram_get (dev s') DEV_IRQ_CLEAR_REG_ADDR = u32 (reg DEV_IRQ_STATUS_REG_ADDR) ∧
    (∀ a, a ≠ DEV_IRQ_CLEAR_REG_ADDR → ram_get (dev s') a = reg a) ∧
    g_hostDmaStatus s' = g_hostDmaStatus s ∧ cacheEn s' = cacheEn s.
Proof.
  intros Hw reg. unfold dev_irq_handler, DEV_IRQ_STATUS_REG_ADDR, DEV_IRQ_CLEAR_REG_ADDR.
  erewrite bind_run by (by apply io_read_ram).
  erewrite bind_run by (by apply io_write_ram).
  set (s1 := s <| dev := _ |>).
  assert (∀ a, a ≠ HOST_IP_ADDR + 0x8 → ram_get (dev s1) a = reg a) as Hget.
  { intros a Ha. unfold ram_get. simpl. by rewrite lookup_insert_ne by congruence. }
  assert (∀ v, host_window (dev (s1 <| nvme_status := v |>))) as Hw' by (intros v; exact Hw).
  set (irq := ram_get (dev s) (HOST_IP_ADDR + 0xC)) in *.
  set (link := reg PCIE_STATUS_REG_ADDR). set (nvme := reg NVME_STATUS_REG_ADDR).
  assert (reg (HOST_IP_ADDR + 0x100) = link ∧ reg (HOST_IP_ADDR + 0x200) = nvme) as [El En] by done.
  set (up (v : Z) := s1 <| nvme_status := v |>).
  change s1 with (up (nvme_status s)).
  assert (∀ a v, a ≠ HOST_IP_ADDR + 0x8 → ram_get (dev (up v)) a = reg a) as Hg by (intros; by apply Hget).
  assert (∀ v v', set_status v (up v') = Some (tt, up v)) as Hset by done.
  unfold NVME_STATUS_REG_ADDR, PCIE_STATUS_REG_ADDR, PCIE_FUNC_REG_ADDR.
  rewrite (bind_run _ _ (up (nvme_status s)) tt (up (
    if raised irq "pcieLink" && bool_decide (rget PCIE_STATUS_REG "pcieLinkUp" [link] = 0)
    then NVME_TASK_RESET else nvme_status s))).
  2:{ rewrite when_read by (exact (Hw' _) || done). rewrite Hg, El by done. destruct (raised irq _); [|done].
      unfold when. rewrite andb_true_l. by case_bool_decide. }
  do 4 (erewrite bind_run by (apply when_read_nop; [exact (Hw' _)|done|done])).
  set (v1 := if _ && _ then _ else _).
  rewrite (bind_run _ _ (up v1) tt (up (
    if raised irq "nvmeCcEn" then if decide (rget NVME_STATUS_REG "ccEn" [nvme] = 1)
      then NVME_TASK_WAIT_CC_EN else NVME_TASK_RESET else v1))).
  2:{ rewrite when_read by (exact (Hw' _) || done). rewrite Hg, En by done. destruct (raised irq "nvmeCcEn"); [|done].
      by case_decide. }
  set (v2 := if raised irq "nvmeCcEn" then _ else _).
  change (reg (HOST_IP_ADDR + 0xC)) with irq.
  exists (up (irq_status irq link nvme (nvme_status s))). split_and!; try done.
  - rewrite when_read by (exact (Hw' _) || done). rewrite Hg, En by done. unfold irq_status. fold v1. fold v2.
    destruct (raised irq "nvmeCcShn"); [|done].
    unfold when. rewrite andb_true_l. by case_bool_decide.
  - unfold ram_get. simpl. by rewrite lookup_insert_eq.
Qed.

(** Concrete values of the status, for examples. *)
Definition status_values : NvmeStatus.
Proof.
  refine {| NVME_TASK_IDLE := 0; NVME_TASK_WAIT_CC_EN := 1; NVME_TASK_RUNNING := 2;
    NVME_TASK_SHUTDOWN := 3; NVME_TASK_WAIT_RESET := 4; NVME_TASK_RESET := 5 |}.
  apply (bool_decide_unpack _). by vm_compute.
Defined.

(** Enable and shutdown changes raised together, shutdown requested. *)
Definition shutdown_regs : lld ram :=
  Lld (Ram HOST_IP_ADDR 0x400 (<[DEV_IRQ_STATUS_REG_ADDR := 0x60]> (<[NVME_STATUS_REG_ADDR := 3]> ∅)))
    (HostDmaStatus [0] [0] 0 0 0 0) (HostDmaAssistStatus 0 0) 2 0.

Lemma dev_irq_handler_spec_witness :
  host_window (dev shutdown_regs) ∧
  ∃ s', dev_irq_handler (H := status_values) shutdown_regs = Some (tt, s') ∧ nvme_status s' = 3.
Proof.
  assert (host_window (dev shutdown_regs)) as Hw by (split; by vm_compute).
  split; [exact Hw|].
  destruct (dev_irq_handler_spec (H := status_values) shutdown_regs Hw) as (s' & E & Est & _).
  exists s'. split; [exact E|]. rewrite Est. by vm_compute.
Defined.
