(* ===== verification/HostDma.v ===== *)
(** * Host DMA: the transfer FIFOs of the NVMe controller (src/nvme/host_lld.c)

    [DmaDevice] states how the controller answers the driver: it counts the
    transfers it was sent and those it has completed, per FIFO, and shows the
    completed ones modulo 256.  Against any such device the driver never has
    more than 255 automatic transfers under way, its waits end, and the check
    for one transfer, which compares bytes and an overflow count, decides
    whether that transfer is done. *)
From stdpp Require Import strings.
From S2P Require Import Prelude CInt Bus HostLld.
#[local] Open Scope Z_scope.

(** The FIFO a command word goes to. *)
Definition chan_of (v : Z) : dma_chan :=
  let g n := rget HOST_DMA_CMD_FIFO_REG n [0; 0; 0; v] in
  let tx := bool_decide (g "dmaDirection"%string = HOST_DMA_TX_DIRECTION) in
  if decide (g "dmaType"%string = HOST_DMA_DIRECT_TYPE)
  then if tx then DirectTx else DirectRx
  else if tx then AutoTx else AutoRx.

(** [dma_lag] bounds the reads before an outstanding transfer completes. *)
Class DmaDevice (St : Type) `{Bus St} := {
  dma_sent : dma_chan → St → Z;
  dma_done : dma_chan → St → Z;
  dma_lag : dma_chan → St → nat;
  dma_sane c d : 0 ≤ dma_done c d ≤ dma_sent c d;
  dma_out a v d : ∃ d', Xil_Out32 a v d = Some (tt, d') ∧
    ∀ c, dma_done c d ≤ dma_done c d' ∧
      dma_sent c d' = dma_sent c d +
        c_bool (bool_decide (a = HOST_DMA_CMD_FIFO_REG_ADDR + 12 ∧ chan_of v = c));
  dma_in d : ∃ v d', Xil_In32 HOST_DMA_FIFO_CNT_REG_ADDR d = Some (v, d') ∧
    ∀ c, cnt c [v] = dma_done c d' mod 256 ∧ dma_sent c d' = dma_sent c d ∧
      dma_done c d ≤ dma_done c d' ∧
      (dma_done c d < dma_sent c d →
        dma_done c d < dma_done c d' ∨ (dma_lag c d' < dma_lag c d)%nat);
}.

(** ** The partial check, on unbounded counts

    [T] commands were sent, [H] are completed, and the transfer asked about was
    the [P]-th: the bytes and the overflow count the driver keeps decide
    [P ≤ H] as long as the question is less than [2^32] wraps old. *)
Lemma partial_done_correct T H P :
  0 ≤ H ≤ T → T - H < 256 → 0 ≤ P ≤ T → T / 256 - P / 256 < 2 ^ 32 →
  partial_done (H mod 256) (T mod 256) (u32 (T / 256)) (P mod 256) (u32 (P / 256)) =
    c_bool (bool_decide (P ≤ H)).
Proof.
  intros HT Hw HP Hage. change (2 ^ 32) with 4294967296 in Hage.
  assert (u32 (u32 (P / 256) + 1) = u32 (T / 256) ↔ P / 256 + 1 = T / 256) as Hsucc.
  { unfold u32, wrap. change (2 ^ 32) with 4294967296. rewrite Zplus_mod_idemp_l.
    assert (P / 256 ≤ T / 256) by dlia. assert (0 ≤ P / 256) by dlia. split; [|by intros ->].
    intros E. generalize dependent (P / 256). generalize dependent (T / 256). intros. dlia. }
  assert (u32 (P / 256) = u32 (T / 256) ↔ P / 256 = T / 256) as Hsame.
  { unfold u32, wrap. change (2 ^ 32) with 4294967296.
    assert (P / 256 ≤ T / 256) by dlia. assert (0 ≤ P / 256) by dlia. split; [|by intros ->].
    intros E. generalize dependent (P / 256). generalize dependent (T / 256). intros. dlia. }
  unfold partial_done.
  assert (∀ b : bool, (b = true ↔ P ≤ H) → c_bool b = c_bool (bool_decide (P ≤ H))) as Hc.
  { intros b Hb. f_equal. apply eq_true_iff_eq. by rewrite Hb, bool_decide_eq_true. }
  repeat case_decide; first [apply (Hc true)|apply (Hc false)]; split; try done; intros; exfalso; dlia.
Qed.

(** ** Byte counters *)
Lemma has_cnt c : has 1 HOST_DMA_FIFO_CNT_REG (cnt_name c).
Proof. destruct c; solve_has. Qed.

Lemma cnt_range c r : 0 ≤ cnt c r < 256.
Proof.
  unfold cnt, rget, bf_get.
  assert (0 ≤ bf_lo (field HOST_DMA_FIFO_CNT_REG (cnt_name c)) ∧
    bf_width (field HOST_DMA_FIFO_CNT_REG (cnt_name c)) = 8) as [? ->] by (by destruct c).
  by apply (get_bits_range _ _ 8).
Qed.

Lemma length_cnt_inc c r : length (cnt_inc c r) = length r.
Proof. apply length_rset. Qed.

Lemma cnt_inc_same c r : length r = 1%nat → cnt c (cnt_inc c r) = (cnt c r + 1) mod 256.
Proof.
  intros Hl. unfold cnt at 1, cnt_inc. rewrite rget_rset_same by (rewrite Hl; apply has_cnt).
  by destruct c.
Qed.

Lemma cnt_inc_other c c' r : length r = 1%nat → c ≠ c' → cnt c' (cnt_inc c r) = cnt c' r.
Proof.
  intros Hl Hne. unfold cnt at 1, cnt_inc.
  rewrite rget_rset_other; [done|rewrite Hl; apply has_cnt..|by destruct c, c'].
Qed.

Section dma.
Context {St : Type} `{!Bus St, !DmaDevice St}.
Implicit Types (s : lld St) (c : dma_chan) (d : dma_dir).

Abbreviation sent c s := (dma_sent c (dev s)).
Abbreviation finished c s := (dma_done c (dev s)).
Abbreviation lag c s := (dma_lag c (dev s)).

(** The driver's counters against the device's: the tail and the overflow count
    are the number of commands sent, the head is a number of completions seen
    earlier, and the FIFO of automatic transfers is not overfull. *)
Record dma_rep s : Prop := DmaRep {
  rep_tail_len : length (fifoTail (g_hostDmaStatus s)) = 1%nat;
  rep_tail c : tail_of c s = sent c s mod 256;
  rep_overflow d : overflow_of d s = u32 (sent (auto_chan d) s / 256);
  rep_head d : ∃ H, head_of (auto_chan d) s = H mod 256 ∧
    H ≤ finished (auto_chan d) s ∧ sent (auto_chan d) s - H < 256;
}.

(** After a poll: the head is what the device has completed. *)
Definition fresh s : Prop := ∀ c, head_of c s = finished c s mod 256.

(** [s'] differs from [s] by polls only. *)
Record polled s s' : Prop := Polled {
  polled_tail : fifoTail (g_hostDmaStatus s') = fifoTail (g_hostDmaStatus s);
  polled_assist : g_hostDmaAssistStatus s' = g_hostDmaAssistStatus s;
  polled_sent c : sent c s' = sent c s;
  polled_done c : finished c s ≤ finished c s';
}.

Lemma polled_trans s1 s2 s3 : polled s1 s2 → polled s2 s3 → polled s1 s3.
Proof.
  intros [E1 E2 E3 E4] [F1 F2 F3 F4]. split; [congruence|congruence|intros; by rewrite F3|].
  intros c. etrans; [apply E4|apply F4].
Qed.

Lemma polled_tail_of s s' c : polled s s' → tail_of c s' = tail_of c s.
Proof. intros [E _ _ _]. unfold tail_of. by rewrite E. Qed.
Lemma polled_overflow_of s s' d : polled s s' → overflow_of d s' = overflow_of d s.
Proof. intros [_ E _ _]. unfold overflow_of. by rewrite E. Qed.

Lemma read_head_run s :
  ∃ s', read_head s = Some (tt, s') ∧ polled s s' ∧ fresh s' ∧
    ∀ c, finished c s < sent c s → finished c s < finished c s' ∨ (lag c s' < lag c s)%nat.
Proof.
  destruct (dma_in (dev s)) as (v & d' & E & Hc).
  exists (s <| dev := d' |> <| g_hostDmaStatus := (g_hostDmaStatus s) <| fifoHead := [v] |> |>).
  split_and!.
  - unfold read_head, IO_READ32, in32.
    rewrite (u32_small HOST_DMA_FIFO_CNT_REG_ADDR) by (vm_compute; split; congruence).
    unfold mbind, M_bind. simpl. by rewrite E.
  - split; [done|done|intros c; apply Hc|intros c; simpl; apply Hc].
  - intros c. unfold head_of. simpl. apply Hc.
  - intros c Hlt. simpl. by apply Hc.
Qed.

Lemma polled_rep s s' : polled s s' → fresh s' → dma_rep s → dma_rep s'.
Proof.
  intros Hp Hf [E1 E2 E3 E4]. pose proof (polled_sent _ _ Hp) as Es. split.
  - by rewrite (polled_tail _ _ Hp).
  - intros c. by rewrite (polled_tail_of _ _ _ Hp), E2, Es.
  - intros d. by rewrite (polled_overflow_of _ _ _ Hp), E3, Es.
  - intros d. exists (finished (auto_chan d) s'). split_and!; [apply Hf|done|].
    destruct (E4 d) as (H & _ & HH & Hr). rewrite Es. pose proof (polled_done _ _ Hp (auto_chan d)). lia.
Qed.

Lemma rep_room s d : dma_rep s → sent (auto_chan d) s - finished (auto_chan d) s < 256.
Proof. intros Hrep. destruct (rep_head _ Hrep d) as (H & _ & ? & ?). lia. Qed.

(** ** Waiting for room *)
Lemma wait_room_run d fuel s :
  dma_rep s → fresh s → (lag (auto_chan d) s + 2 ≤ fuel)%nat →
  ∃ s', wait_room fuel (auto_chan d) s = Some (tt, s') ∧ polled s s' ∧ fresh s' ∧
    sent (auto_chan d) s' - finished (auto_chan d) s' < 255.
Proof.
  set (c := auto_chan d). intros Hrep Hf. revert s Hrep Hf.
  assert (∀ s, dma_rep s → fresh s →
    ((tail_of c s + 1) mod 256 = head_of c s ↔ sent c s - finished c s = 255)) as Hfull.
  { intros s Hrep Hf. rewrite (rep_tail _ Hrep), Hf. pose proof (rep_room s d Hrep : sent c s - finished c s < 256).
    pose proof (dma_sane c (dev s)). dlia. }
  assert (∀ s, dma_rep s → sent c s - finished c s ≠ 255 → sent c s - finished c s < 255) as Hlt.
  { intros s Hrep ?. pose proof (rep_room s d Hrep : sent c s - finished c s < 256). lia. }
  assert (∀ s, polled s s) as Hrefl by by split.
  induction fuel as [|fuel IH]; intros s Hrep Hf Hl; [lia|]. simpl. case_decide as E.
  - apply Hfull in E; [|done|done]. destruct (read_head_run s) as (s1 & E1 & Hp1 & Hf1 & Hprog).
    erewrite bind_run by exact E1.
    assert (dma_rep s1) as Hrep1 by by eapply polled_rep.
    pose proof (polled_sent _ _ Hp1 c) as Es.
    assert (∃ s', wait_room fuel c s1 = Some (tt, s') ∧ polled s1 s' ∧ fresh s' ∧
      sent c s' - finished c s' < 255) as (s' & ? & ? & ?).
    { destruct (Hprog c) as [Hd|Hd]; [lia| |].
      - destruct fuel as [|fuel]; [lia|]. simpl. rewrite decide_False; [eexists; split_and!; eauto; lia|].
        rewrite Hfull by done. lia.
      - apply IH; [done|done|lia]. }
    exists s'. split_and!; try tauto. by eapply polled_trans.
  - exists s. rewrite Hfull in E by done. split_and!; auto.
Qed.

(** ** A command *)
Lemma chan_of_auto d junk slot off addr :
  length junk = 4%nat → chan_of (u32 (dword 3 (auto_reg d junk slot off addr))) = auto_chan d.
Proof.
  intros Hl. unfold auto_reg. set (r := rset _ "cmdSlotTag" _ _).
  assert (length r = 4%nat) as Hr by (subst r; by rewrite !length_rset, length_set_dword, length_rset).
  assert (∀ n, bf_word (field HOST_DMA_CMD_FIFO_REG n) = 3%nat →
    rget HOST_DMA_CMD_FIFO_REG n [0; 0; 0; u32 (dword 3 r)] =
    rget HOST_DMA_CMD_FIFO_REG n (map u32 r)) as H3.
  { intros n E. apply rget_agree. by rewrite E, dword_map_u32 by (rewrite Hr; lia). }
  unfold chan_of. rewrite !H3 by reflexivity. rewrite !(rget_u32 4) by solve_has. subst r.
  reg_simp Hl. by destruct d.
Qed.

Lemma count_auto_rep d s s1 :
  dma_rep s → fresh s → sent (auto_chan d) s - finished (auto_chan d) s < 255 →
  g_hostDmaStatus s1 = g_hostDmaStatus s → g_hostDmaAssistStatus s1 = g_hostDmaAssistStatus s →
  (∀ c, sent c s1 = sent c s + c_bool (bool_decide (auto_chan d = c))) →
  (∀ c, finished c s ≤ finished c s1) →
  dma_rep (count_auto d s1).
Proof.
  intros Hrep Hf Hroom Eg Ea Hs Hd.
  pose proof (rep_tail_len _ Hrep) as Hlen.
  assert (∀ c, 0 ≤ sent c s) as Hpos by (intros c; pose proof (dma_sane c (dev s)); lia).
  assert (tail_of (auto_chan d) s = cnt (auto_chan d) (fifoTail (g_hostDmaStatus s))) as Et by done.
  assert (bool_decide (cnt (auto_chan d) (fifoTail (g_hostDmaStatus s)) >
    cnt (auto_chan d) (cnt_inc (auto_chan d) (fifoTail (g_hostDmaStatus s)))) =
    bool_decide ((sent (auto_chan d) s + 1) mod 256 = 0)) as Hwrap.
  { apply bool_decide_ext. rewrite cnt_inc_same, <- Et, (rep_tail _ Hrep) by done. dlia. }
  split.
  - unfold count_auto. rewrite Eg. destruct d; simpl; by rewrite length_cnt_inc.
  - intros c. assert (tail_of c (count_auto d s1) =
      cnt c (cnt_inc (auto_chan d) (fifoTail (g_hostDmaStatus s)))) as ->.
    { unfold count_auto. rewrite Eg. by destruct d. }
    assert (dev (count_auto d s1) = dev s1) as -> by by destruct d.
    rewrite Hs. destruct (decide (auto_chan d = c)) as [<-|Hne].
    + rewrite cnt_inc_same, <- Et, (rep_tail _ Hrep), bool_decide_true by done. simpl.
      by rewrite Zplus_mod_idemp_l.
    + rewrite cnt_inc_other, bool_decide_false by done. simpl.
      rewrite Z.add_0_r. apply (rep_tail _ Hrep).
  - intros d'. assert (dev (count_auto d s1) = dev s1) as -> by by destruct d.
    assert (overflow_of d' (count_auto d s1) =
      if decide (d = d' ∧ (sent (auto_chan d) s + 1) mod 256 = 0)
      then u32 (overflow_of d' s + 1) else overflow_of d' s) as ->.
    { unfold count_auto. rewrite Eg, Ea, Hwrap.
      destruct d, d'; simpl; repeat case_bool_decide; repeat case_decide; try tauto; by destruct_and?. }
    rewrite Hs, (rep_overflow _ Hrep). pose proof (Hpos (auto_chan d)).
    assert (auto_chan d = auto_chan d' ↔ d = d') as Hd' by (split; [by destruct d, d'|congruence]).
    clear Hwrap. destruct (decide (d = d' ∧ _)) as [E|E].
    + destruct E as [<- E]. rewrite bool_decide_true, u32_add_l by done. f_equal. simpl. dlia.
    + case_bool_decide as Hc; [apply Hd' in Hc as <-|]; f_equal; simpl; [|dlia].
      assert ((sent (auto_chan d) s + 1) mod 256 ≠ 0) by tauto. dlia.
  - intros d'. exists (finished (auto_chan d') s).
    assert (dev (count_auto d s1) = dev s1) as -> by by destruct d.
    split_and!; [|apply Hd|].
    + rewrite <- Hf. unfold head_of, count_auto. rewrite Eg. by destruct d.
    + clear Hwrap. rewrite Hs. pose proof (rep_room _ d' Hrep). case_bool_decide as E; simpl; [rewrite <- E|]; lia.
Qed.

(** set_auto_tx_dma and set_auto_rx_dma return, whatever the load; they send one
    command to their own FIFO, keep the counters exact and never put more than
    255 transfers into it. *)
Theorem set_auto_dma_spec (ASSERT : bool → M (lld St) unit) d junk slot off addr s :
  (∀ s, ASSERT true s = Some (tt, s)) → length junk = 4%nat → off < 256 → dma_rep s →
  ∃ n, ∀ fuel, (n ≤ fuel)%nat → ∃ s',
    set_auto_dma ASSERT fuel d junk slot off addr s = Some (tt, s') ∧ dma_rep s' ∧
    (∀ c, sent c s' = sent c s + c_bool (bool_decide (auto_chan d = c))) ∧
    sent (auto_chan d) s' - finished (auto_chan d) s' ≤ 255.
Proof.
  intros HA Hj Hoff Hrep. destruct (read_head_run s) as (s1 & E1 & Hp1 & Hf1 & _).
  assert (dma_rep s1) as Hrep1 by by eapply polled_rep.
  exists (lag (auto_chan d) s1 + 2)%nat. intros fuel Hfuel.
  destruct (wait_room_run d fuel s1 Hrep1 Hf1 Hfuel) as (s2 & E2 & Hp2 & Hf2 & Hroom).
  assert (dma_rep s2) as Hrep2 by by eapply polled_rep.
  destruct (dma_out HOST_DMA_CMD_FIFO_REG_ADDR (u32 (dword 0 (auto_reg d junk slot off addr))) (dev s2))
    as (d3 & E3 & H3).
  destruct (dma_out (HOST_DMA_CMD_FIFO_REG_ADDR + 12) (u32 (dword 3 (auto_reg d junk slot off addr))) d3)
    as (d4 & E4 & H4).
  exists (count_auto d (s2 <| dev := d3 |> <| dev := d4 |>)). split.
  - unfold set_auto_dma. rewrite bool_decide_true by done.
    erewrite bind_run by apply HA. erewrite bind_run by exact E1. erewrite bind_run by exact E2.
    unfold IO_WRITE32, out32.
    rewrite (u32_small HOST_DMA_CMD_FIFO_REG_ADDR), (u32_small (HOST_DMA_CMD_FIFO_REG_ADDR + 12))
      by (vm_compute; split; congruence).
    erewrite bind_run by (simpl; by rewrite E3).
    erewrite bind_run by (simpl; by rewrite E4). done.
  - assert (∀ c, sent c (s2 <| dev := d3 |> <| dev := d4 |>) =
      sent c s2 + c_bool (bool_decide (auto_chan d = c))) as Hs.
    { intros c. simpl. rewrite (proj2 (H4 c)), (proj2 (H3 c)).
      rewrite (bool_decide_false (_ ∧ _)) by (intros [E _]; by apply (f_equal (λ x, x - HOST_DMA_CMD_FIFO_REG_ADDR)) in E).
      rewrite (bool_decide_ext (_ ∧ chan_of _ = c) (auto_chan d = c)) by (rewrite chan_of_auto by done; tauto).
      simpl. lia. }
    assert (∀ c, finished c s2 ≤ finished c (s2 <| dev := d3 |> <| dev := d4 |>)) as Hd.
    { intros c. simpl. etrans; [apply (H3 c)|apply (H4 c)]. }
    split; [by eapply (count_auto_rep d s2)|].
    assert (dev (count_auto d (s2 <| dev := d3 |> <| dev := d4 |>)) = d4) as -> by by destruct d.
    split.
    + intros c. rewrite (Hs c : dma_sent c d4 = _), (polled_sent _ _ Hp2), (polled_sent _ _ Hp1). done.
    + rewrite (Hs (auto_chan d) : dma_sent _ d4 = _), bool_decide_true by done.
      pose proof (Hd (auto_chan d) : finished _ s2 ≤ dma_done _ d4). simpl c_bool. lia.
Qed.

(** ** A direct command, sent without a look at the FIFO *)
(** The head the driver has is the number of completions it saw at some time. *)
Definition seen c H s : Prop := head_of c s = H mod 256 ∧ H ≤ finished c s.
(** Less than 256 transfers were sent since. *)
Definition window c s : Prop := ∃ H, seen c H s ∧ sent c s - H < 256.

Lemma rep_window d s : dma_rep s → window (auto_chan d) s.
Proof. intros Hrep. destruct (rep_head _ Hrep d) as (H & ? & ? & ?). by exists H. Qed.

(** set_direct_tx_dma and set_direct_rx_dma send one command to their own FIFO and keep
    the counters exact; nothing keeps them from sending more than the counters can tell. *)
Lemma set_direct_dma_spec (ASSERT : bool → M (lld St) unit) d junk devAddr h l len s :
  (∀ s, ASSERT true s = Some (tt, s)) → length junk = 4%nat →
  len ≤ 0x1000 → h < 0x10 → Z.land l 0xF = 0 → dma_rep s →
  ∃ s', set_direct_dma ASSERT d junk devAddr h l len s = Some (tt, s') ∧ dma_rep s' ∧
    (∀ c, sent c s' = sent c s + c_bool (bool_decide (direct_chan d = c))) ∧
    (∀ c H, seen c H s → seen c H s').
Proof.
  intros HA Hj Hlen Hh Hl Hrep. unfold set_direct_dma. rewrite !bool_decide_true by done.
  set (r := rset _ "dmaLen" _ _). assert (length r = 4%nat) as Hr by (subst r; by rewrite !length_rset, length_set_dword, !length_rset).
  assert (chan_of (u32 (dword 3 r)) = direct_chan d) as Hchan.
  { assert (∀ n, bf_word (field HOST_DMA_CMD_FIFO_REG n) = 3%nat →
      rget HOST_DMA_CMD_FIFO_REG n [0; 0; 0; u32 (dword 3 r)] = rget HOST_DMA_CMD_FIFO_REG n (map u32 r)) as H3.
    { intros n E. apply rget_agree. by rewrite E, dword_map_u32 by (rewrite Hr; lia). }
    unfold chan_of. rewrite !H3 by reflexivity. rewrite !(rget_u32 4) by solve_has. subst r. reg_simp Hj. by destruct d. }
  clearbody r. cbn [andb]. erewrite bind_run by apply HA.
  assert (∀ k v s0, k = 0 ∨ k = 4 ∨ k = 8 ∨ k = 12 → ∃ x1,
    IO_WRITE32 (HOST_DMA_CMD_FIFO_REG_ADDR + k) v s0 = Some (tt, s0 <| dev := x1 |>) ∧
    ∀ c, dma_done c (dev s0) ≤ dma_done c x1 ∧
      dma_sent c x1 = dma_sent c (dev s0) + c_bool (bool_decide (k = 12 ∧ chan_of (u32 v) = c))) as Hout.
  { intros k v s0 Hk. destruct (dma_out (HOST_DMA_CMD_FIFO_REG_ADDR + k) (u32 v) (dev s0)) as (x1 & E1 & H1).
    exists x1. split.
    - unfold IO_WRITE32, out32. rewrite (u32_small (HOST_DMA_CMD_FIFO_REG_ADDR + k)) by (destruct Hk as [->|[->|[->| ->]]]; vm_compute; split; congruence).
      cbn -[HOST_DMA_CMD_FIFO_REG_ADDR Z.add u32]. by rewrite E1.
    - intros c. destruct (H1 c) as [? E]. split; [done|]. rewrite E. f_equal. f_equal. apply bool_decide_ext.
      assert (HOST_DMA_CMD_FIFO_REG_ADDR + k = HOST_DMA_CMD_FIFO_REG_ADDR + 12 ↔ k = 12) by lia. tauto. }
  destruct (Hout 0 (dword 0 r) s) as (x1 & E1 & H1); [auto|]. rewrite Z.add_0_r in E1. erewrite bind_run by exact E1.
  destruct (Hout 4 (dword 1 r) (s <| dev := x1 |>)) as (x2 & E2 & H2); [auto|]. erewrite bind_run by exact E2.
  destruct (Hout 8 (dword 2 r) (s <| dev := x1 |> <| dev := x2 |>)) as (x3 & E3 & H3); [auto|]. erewrite bind_run by exact E3.
  destruct (Hout 12 (dword 3 r) (s <| dev := x1 |> <| dev := x2 |> <| dev := x3 |>)) as (x4 & E4 & H4); [auto|].
  erewrite bind_run by exact E4. eexists. split; [reflexivity|].
  assert (∀ c, dma_sent c x4 = sent c s + c_bool (bool_decide (direct_chan d = c))) as Hs.
  { intros c. rewrite (proj2 (H4 c) : dma_sent c x4 = dma_sent c x3 + _), (proj2 (H3 c) : dma_sent c x3 = dma_sent c x2 + _),
      (proj2 (H2 c) : dma_sent c x2 = dma_sent c x1 + _), (proj2 (H1 c)).
    rewrite Hchan, !(bool_decide_false (_ ∧ _)) by lia.
    rewrite (bool_decide_ext (12 = 12 ∧ direct_chan d = c) (direct_chan d = c)) by tauto. unfold c_bool. lia. }
  assert (∀ c, finished c s ≤ dma_done c x4) as Hd.
  { intros c. etrans; [apply (H1 c)|]. etrans; [apply (H2 c)|]. etrans; [apply (H3 c)|]. apply (H4 c). }
  clear Hout H1 H2 H3 H4 E1 E2 E3 E4. destruct Hrep as [R1 R2 R3 R4].
  split; [|split; [by destruct d|intros c H [? ?]; split; [by destruct d|etrans; [done|]]; specialize (Hd c); by destruct d]].
  split.
  - destruct d; simpl; by rewrite length_cnt_inc.
  - intros c. transitivity (cnt c (cnt_inc (direct_chan d) (fifoTail (g_hostDmaStatus s)))); [by destruct d|].
    transitivity (dma_sent c x4 mod 256); [|by destruct d]. rewrite Hs. destruct (decide (direct_chan d = c)) as [<-|Hne].
    + rewrite cnt_inc_same, bool_decide_true by done. change (cnt _ _) with (tail_of (direct_chan d) s). rewrite R2. simpl.
      by rewrite Zplus_mod_idemp_l.
    + rewrite cnt_inc_other, bool_decide_false by done. simpl. rewrite Z.add_0_r. apply R2.
  - intros d'. transitivity (u32 (dma_sent (auto_chan d') x4 / 256)); [|by destruct d]. rewrite Hs, bool_decide_false by (by destruct d, d').
    simpl. rewrite Z.add_0_r, <- R3. by destruct d.
  - intros d'. destruct (R4 d') as (H & E & HH & Hw). exists H. split_and!; [by rewrite <- E; destruct d| |].
    + etrans; [exact HH|]. specialize (Hd (auto_chan d')). by destruct d.
    + assert (dma_sent (auto_chan d') x4 - H < 256) by (rewrite Hs, bool_decide_false by (by destruct d, d'); simpl; lia). by destruct d.
Qed.

(** ** Waiting for all transfers of a FIFO *)
(** The loop ended with every transfer sent to [c] completed. *)
Definition all_done c s s' : Prop :=
  dma_rep s' ∧ sent c s' = sent c s ∧ finished c s' = sent c s'.

Lemma head_tail_eq c s :
  dma_rep s → window c s → head_of c s = tail_of c s → finished c s = sent c s.
Proof.
  intros Hrep (H & [EH HH] & Hw) E. rewrite EH, (rep_tail _ Hrep) in E.
  pose proof (dma_sane c (dev s)). dlia.
Qed.

Lemma polled_window c s s1 : polled s s1 → fresh s1 → window c s → window c s1.
Proof.
  intros Hp Hf (H & [_ HH] & Hw). exists (finished c s1). split; [by split; [apply Hf|]|].
  rewrite (polled_sent _ _ Hp). pose proof (polled_done _ _ Hp c). lia.
Qed.

Lemma polled_all_done c s s1 s' : polled s s1 → all_done c s1 s' → all_done c s s'.
Proof. intros Hp (? & E & ?). split_and!; [done| |done]. by rewrite E, (polled_sent _ _ Hp). Qed.

(** One turn of the loop: it is over, or it polls. *)
Lemma check_turn c s :
  dma_rep s → fresh s → window c s →
  (∀ fuel, check_dma_done (S fuel) c s = Some (tt, s)) ∧ all_done c s s ∨
  finished c s < sent c s ∧
  ∃ s1, polled s s1 ∧ dma_rep s1 ∧ fresh s1 ∧ window c s1 ∧
    (∀ fuel, check_dma_done (S fuel) c s = check_dma_done fuel c s1) ∧
    (finished c s < finished c s1 ∨ (lag c s1 < lag c s)%nat).
Proof.
  intros Hrep Hf Hwin. pose proof (dma_sane c (dev s)) as Hsane.
  destruct (decide (head_of c s = tail_of c s)) as [E|E].
  - left. split; [intros fuel; simpl; by rewrite decide_False by auto|].
    split_and!; [done|done|by apply head_tail_eq].
  - right. destruct (read_head_run s) as (s1 & E1 & Hp & Hf1 & Hprog).
    assert (finished c s < sent c s) as Hlt.
    { destruct (decide (finished c s = sent c s)) as [Es|]; [|lia].
      destruct E. by rewrite Hf, (rep_tail _ Hrep), Es. }
    split; [done|]. exists s1. split_and!; [done|by eapply polled_rep|done|by eapply polled_window| |by apply Hprog].
    intros fuel. simpl. rewrite decide_True by done. by erewrite bind_run by exact E1.
Qed.

Lemma check_fresh c k l s :
  dma_rep s → fresh s → window c s → sent c s - finished c s ≤ Z.of_nat k → (lag c s ≤ l)%nat →
  ∃ n, ∀ fuel, (n ≤ fuel)%nat → ∃ s',
    check_dma_done fuel c s = Some (tt, s') ∧ all_done c s s'.
Proof.
  revert l s. induction k as [|k IHk]; intros l; induction l as [l IHl] using lt_wf_ind;
    intros s Hrep Hf Hw Hk Hl.
  all: destruct (check_turn c s Hrep Hf Hw) as [[Hrun Hdone]|(Hlt & s1 & Hp & Hrep1 & Hf1 & Hw1 & Hrun & Hd)];
    [exists 1%nat; intros [|fuel] ?; [lia|]; by eauto|].
  all: pose proof (polled_sent _ _ Hp c) as Es.
  - lia.
  - assert (∃ n, ∀ fuel, (n ≤ fuel)%nat → ∃ s',
      check_dma_done fuel c s1 = Some (tt, s') ∧ all_done c s1 s') as [n Hn].
    { destruct (decide (finished c s < finished c s1)).
      - apply (IHk (lag c s1)); [done|done|done|lia|lia].
      - pose proof (polled_done _ _ Hp c).
        apply (IHl (lag c s1)); [lia|done|done|done|lia|lia]. }
    exists (S n). intros [|fuel] ?; [lia|]. destruct (Hn fuel) as (s' & E & Hs'); [lia|].
    exists s'. rewrite Hrun. split; [done|]. by eapply polled_all_done.
Qed.

(** C17. The four waits, check_auto_tx_dma_done, check_auto_rx_dma_done and those for direct
    transfers, end on any controller that goes on completing what it was sent: they return
    whenever there is fuel for enough polls, and then every transfer sent to that FIFO is
    complete; a stale head cannot end the wait early.  For a direct FIFO, where the driver
    never waits for room, fewer than 256 transfers may have been sent since the completions
    that its head counts ([window]); for the others this is part of [dma_rep]. *)
Theorem check_dma_done_spec c s :
  dma_rep s → (∀ d, c = direct_chan d → window c s) → ∃ n, ∀ fuel, (n ≤ fuel)%nat → ∃ s',
    check_dma_done fuel c s = Some (tt, s') ∧ dma_rep s' ∧
    sent c s' = sent c s ∧ finished c s' = sent c s'.
Proof.
  intros Hrep Hd. assert (window c s) as Hw.
  { destruct c; [by apply (Hd DirRx)|by apply (Hd DirTx)|by apply (rep_window DirRx)|by apply (rep_window DirTx)]. }
  destruct (decide (head_of c s = tail_of c s)) as [E|E].
  - exists 1%nat. intros [|fuel] ?; [lia|]. exists s. simpl. rewrite decide_False by auto.
    split_and!; [done..|]. by apply head_tail_eq.
  - destruct (read_head_run s) as (s1 & E1 & Hp & Hf1 & _).
    assert (dma_rep s1) as Hrep1 by by eapply polled_rep.
    pose proof (dma_sane c (dev s1)).
    destruct (check_fresh c (Z.to_nat (sent c s1 - finished c s1)) (lag c s1) s1) as [n Hn];
      [done|done|by eapply polled_window|lia|done|].
    exists (S n). intros [|fuel] ?; [lia|]. destruct (Hn fuel) as (s' & E' & Hs'); [lia|].
    exists s'. simpl. rewrite decide_True by done. erewrite bind_run by exact E1. split; [done|].
    apply (polled_all_done _ _ _ _ Hp Hs').
Qed.

(** With 256 of them under way the wait for a direct FIFO ends at once. *)
Lemma check_direct_missed fuel c H s :
  dma_rep s → head_of c s = H mod 256 → sent c s = H + 256 → check_dma_done (S fuel) c s = Some (tt, s).
Proof.
  intros Hrep EH Es. simpl. rewrite decide_False; [done|]. rewrite EH, (rep_tail _ Hrep), Es.
  intros E. apply E. dlia.
Qed.

(** C16. check_auto_tx_dma_partial_done and check_auto_rx_dma_partial_done: asked about
    the [P]-th transfer with the tail and the overflow count the driver had after
    sending it, they answer 1 exactly when the device has completed it. *)
Theorem check_partial_done_spec d P s :
  dma_rep s → 0 ≤ P ≤ sent (auto_chan d) s →
  sent (auto_chan d) s / 256 - P / 256 < 2 ^ 32 →
  ∃ s', check_auto_dma_partial_done d (P mod 256) (u32 (P / 256)) s =
      Some (c_bool (bool_decide (P ≤ finished (auto_chan d) s')), s') ∧
    dma_rep s' ∧ sent (auto_chan d) s' = sent (auto_chan d) s.
Proof.
  intros Hrep HP Hage. destruct (read_head_run s) as (s1 & E1 & Hp & Hf1 & _).
  assert (dma_rep s1) as Hrep1 by by eapply polled_rep.
  pose proof (polled_sent _ _ Hp (auto_chan d)) as Es.
  exists s1. split_and!; [|done|done]. unfold check_auto_dma_partial_done.
  erewrite bind_run by exact E1. unfold gets. do 2 f_equal.
  rewrite Hf1, (rep_tail _ Hrep1), (rep_overflow _ Hrep1), Es.
  apply partial_done_correct; [| |done|done].
  - pose proof (dma_sane (auto_chan d) (dev s1)). lia.
  - pose proof (rep_room _ d Hrep1). lia.
Qed.
End dma.

(** ** A controller that completes one transfer of each FIFO per read of the counts *)
Record demo_dma := DemoDma { demo_sent : list Z; demo_done : list Z }.
Definition chan_no (c : dma_chan) : nat :=
  match c with DirectRx => 0 | DirectTx => 1 | AutoRx => 2 | AutoTx => 3 end.
Definition total_sent (c : dma_chan) (d : demo_dma) : Z := Z.abs (nth (chan_no c) (demo_sent d) 0).
Definition total_done (c : dma_chan) (d : demo_dma) : Z :=
  Z.min (Z.abs (nth (chan_no c) (demo_done d) 0)) (total_sent c d).
Definition per_chan (f : dma_chan → Z) : list Z := map f [DirectRx; DirectTx; AutoRx; AutoTx].

#[export] Instance demo_dma_bus : Bus demo_dma := {|
  Xil_Out32 a v d := Some (tt, DemoDma
    (per_chan (λ c, total_sent c d +
       c_bool (bool_decide (a = HOST_DMA_CMD_FIFO_REG_ADDR + 12 ∧ chan_of v = c))))
    (per_chan (λ c, total_done c d)));
  Xil_In32 a d :=
    let d' := DemoDma (per_chan (λ c, total_sent c d))
                (per_chan (λ c, Z.min (total_done c d + 1) (total_sent c d))) in
    Some (dword 0 (foldl (λ r c, rset HOST_DMA_FIFO_CNT_REG (cnt_name c) (total_done c d') r) [0]
                     [DirectRx; DirectTx; AutoRx; AutoTx]), d');
|}.

Lemma nth_per_chan f c : nth (chan_no c) (per_chan f) 0 = f c.
Proof. by destruct c. Qed.
Lemma total_sent_make f g c : 0 ≤ f c → total_sent c (DemoDma (per_chan f) g) = f c.
Proof. intros. unfold total_sent. simpl demo_sent. rewrite nth_per_chan. lia. Qed.
Lemma total_done_make f g c :
  0 ≤ g c ≤ f c → total_done c (DemoDma (per_chan f) (per_chan g)) = g c.
Proof.
  intros. unfold total_done. rewrite total_sent_make by lia. simpl demo_done.
  rewrite nth_per_chan. lia.
Qed.
Lemma total_sane c d : 0 ≤ total_done c d ≤ total_sent c d.
Proof. unfold total_done, total_sent. lia. Qed.

Lemma counts_word (g : dma_chan → Z) c :
  cnt c [dword 0 (foldl (λ r c, rset HOST_DMA_FIFO_CNT_REG (cnt_name c) (g c) r) [0]
                    [DirectRx; DirectTx; AutoRx; AutoTx])] = g c mod 256.
Proof.
  set (r := foldl _ _ _). assert (length r = 1%nat) as Hr by (subst r; simpl foldl; by rewrite !length_rset).
  assert ([dword 0 r] = r) as -> by by destruct r as [|x [|]].
  subst r. simpl foldl. assert (length [0] = 1%nat) as Hl by done. revert Hl. generalize [0].
  intros r Hl. unfold cnt. destruct c; simpl cnt_name; by reg_simp Hl.
Qed.

#[export] Instance demo_dma_device : DmaDevice demo_dma.
Proof.
  refine {| dma_sent := total_sent; dma_done := total_done; dma_lag := λ _ _, 0%nat |}.
  - intros. apply total_sane.
  - intros a v d. eexists. split; [reflexivity|]. intros c. pose proof (total_sane c d).
    rewrite total_done_make, total_sent_make by (case_bool_decide; simpl; lia). lia.
  - intros d. do 2 eexists. split; [reflexivity|]. intros c. pose proof (total_sane c d).
    rewrite total_sent_make, total_done_make by lia. split_and!; [|done|lia|lia].
    rewrite counts_word, total_done_make by lia. done.
Defined.

(** 300 transfers sent to host reads, 50 of them not completed yet. *)
Definition busy_dma : lld demo_dma :=
  Lld (DemoDma [0; 0; 300; 0] [0; 0; 250; 0]) (HostDmaStatus [0xfa0000] [0x2c0000] 0 0 0 300)
    (HostDmaAssistStatus 0 1) 2 0.

Lemma busy_dma_rep : dma_rep busy_dma.
Proof.
  split; [done| | |].
  - intros []; by vm_compute.
  - intros []; by vm_compute.
  - intros []; [exists 0|exists 250]; split_and!; by vm_compute.
Qed.

Lemma set_auto_dma_spec_witness :
  ∃ n, ∀ fuel, (n ≤ fuel)%nat → ∃ s',
    set_auto_dma (λ b, if b then mret tt else undef) fuel DirRx [0; 0; 0; 0] 9 255 0x1000 busy_dma =
      Some (tt, s') ∧ dma_rep s' ∧
    (∀ c, dma_sent c (dev s') =
       dma_sent c (dev busy_dma) + c_bool (bool_decide (auto_chan DirRx = c))) ∧
    dma_sent AutoRx (dev s') - dma_done AutoRx (dev s') ≤ 255.
Proof.
  apply (set_auto_dma_spec (λ b, if b then mret tt else undef) DirRx [0; 0; 0; 0] 9 255 0x1000 busy_dma);
    [reflexivity|reflexivity|lia|exact busy_dma_rep].
Defined.

(** Three direct transfers to the host, none of them completed, and the driver's first wait. *)
Definition direct_dma : lld demo_dma :=
  Lld (DemoDma [0; 3; 0; 0] [0; 0; 0; 0]) (HostDmaStatus [0] [dword 0 (rset HOST_DMA_FIFO_CNT_REG (cnt_name DirectTx) 3 [0])] 3 0 0 0)
    (HostDmaAssistStatus 0 0) 2 0.

Lemma check_dma_done_spec_witness :
  ∃ n, ∀ fuel, (n ≤ fuel)%nat → ∃ s',
    check_dma_done fuel DirectTx direct_dma = Some (tt, s') ∧ dma_rep s' ∧
    dma_sent DirectTx (dev s') = dma_sent DirectTx (dev direct_dma) ∧
    dma_done DirectTx (dev s') = dma_sent DirectTx (dev s').
Proof.
  apply check_dma_done_spec.
  - split; [done|intros []; by vm_compute..|]. intros []; exists 0; split_and!; by vm_compute.
  - intros d _. exists 0. split; [split; by vm_compute|by vm_compute].
Defined.

(** Transfer 251, asked about while 50 of 300 are outstanding. *)
Lemma check_partial_done_spec_witness :
  ∃ s', check_auto_dma_partial_done DirRx (251 mod 256) (u32 (251 / 256)) busy_dma =
      Some (c_bool (bool_decide (251 ≤ dma_done AutoRx (dev s'))), s') ∧
    dma_rep s' ∧ dma_sent AutoRx (dev s') = dma_sent AutoRx (dev busy_dma).
Proof.
  apply (check_partial_done_spec DirRx 251 busy_dma busy_dma_rep); [split; by vm_compute|by vm_compute].
Defined.
