(* ===== verification/HostNvme.v ===== *)
(** * The NVMe task of the board (src/ftl/ftl_nvme.c without EMU)

    The state machine that brings the controller up, serves commands, shuts it
    down and resets it.  The command handlers (nvme_admin_cmd.h, nvme_io_cmd.h)
    are outside the repository and are arguments; the locals a routine leaves
    uninitialised hold arbitrary contents [sq_junk], [cq_junk]. *)
From stdpp Require Import strings.
From S2P Require Import Prelude CInt Config Bus HostLld.
#[local] Open Scope Z_scope.

Section task.
Context {St : Type} `{!Bus St, !NvmeStatus}.
Context (handle_nvme_admin_cmd handle_nvme_io_cmd : NVME_COMMAND → M (lld St) unit).
Context (sq_junk cq_junk : nat → list Z).
Implicit Types (s : lld St).

Definition set_cacheEn (v : Z) : M (lld St) unit := modify (λ s, s <| cacheEn := v |>).

Definition FTL_nvme_init : M (lld St) unit :=
  modify (λ s,
    let g := g_hostDmaStatus s in
    let g := g <| fifoTail := rset HOST_DMA_FIFO_CNT_REG "autoDmaRx" 0 (fifoTail g) |> in
    let g := g <| autoDmaRxCnt := 0 |> in
    let g := g <| fifoTail := rset HOST_DMA_FIFO_CNT_REG "autoDmaTx" 0 (fifoTail g) |> in
    let g := g <| autoDmaTxCnt := 0 |> in
    s <| nvme_status := NVME_TASK_IDLE |> <| cacheEn := 0 |>
      <| g_hostDmaStatus := g |>
      <| g_hostDmaAssistStatus := HostDmaAssistStatus 0 0 |>).

(** [for (qID = 0; qID < 8; qID++)] over both registers of a queue. *)
Definition clear_queues : M (lld St) unit :=
  for_M 8 O (λ q : nat,
    _ ← set_io_cq (cq_junk q) (Z.of_nat q) 0 0 0 0 0 0;
    set_io_sq (sq_junk q) (Z.of_nat q) 0 0 0 0 0 0).

Definition task_wait_cc_en : M (lld St) unit :=
  ccEn ← check_nvme_cc_en;
  when (bool_decide (ccEn = 1))
    (_ ← set_nvme_admin_queue 1 1 1; _ ← set_nvme_csts_rdy 1; set_status NVME_TASK_RUNNING).

Definition task_running : M (lld St) unit :=
  cmd ← get_nvme_cmd;
  match cmd with
  | Some nvmeCmd =>
      if decide (qID nvmeCmd = 0) then handle_nvme_admin_cmd nvmeCmd else handle_nvme_io_cmd nvmeCmd
  | None => mret tt
  end.

Definition task_shutdown : M (lld St) unit :=
  nvmeReg ← IO_READ32 NVME_STATUS_REG_ADDR;
  when (bool_decide (rget NVME_STATUS_REG "ccShn" [nvmeReg] ≠ 0))
    (_ ← set_nvme_csts_shst 1; _ ← clear_queues; _ ← set_nvme_admin_queue 0 0 0;
     _ ← set_cacheEn 0; _ ← set_nvme_csts_shst 2; set_status NVME_TASK_WAIT_RESET).

Definition task_wait_reset : M (lld St) unit :=
  ccEn ← check_nvme_cc_en;
  when (bool_decide (ccEn = 0))
    (_ ← set_cacheEn 0; _ ← set_nvme_csts_shst 0; _ ← set_nvme_csts_rdy 0;
     set_status NVME_TASK_IDLE).

Definition task_reset : M (lld St) unit :=
  _ ← clear_queues; _ ← set_cacheEn 0; _ ← set_nvme_admin_queue 0 0 0;
  _ ← set_nvme_csts_shst 0; _ ← set_nvme_csts_rdy 0; set_status NVME_TASK_IDLE.

(** One turn; the status is read once, between interrupts. *)
Definition nvme_turn : M (lld St) unit :=
  status ← gets nvme_status;
  if decide (status = NVME_TASK_WAIT_CC_EN) then task_wait_cc_en
  else if decide (status = NVME_TASK_RUNNING) then task_running
  else if decide (status = NVME_TASK_SHUTDOWN) then task_shutdown
  else if decide (status = NVME_TASK_WAIT_RESET) then task_wait_reset
  else if decide (status = NVME_TASK_RESET) then task_reset
  else mret tt.

Definition FTL_nvme_req_polling : M (lld St) unit := for_M MAX_POLLING_NUM O (λ _, nvme_turn).
End task.

(** ** Over registers that keep their contents *)
Section registers.
Context `{!NvmeStatus} (sq_junk cq_junk : nat → list Z).
Context (admin io : NVME_COMMAND → M (lld ram) unit).
Hypothesis sq_junk_ok : ∀ q, length (sq_junk q) = 2%nat.
Hypothesis cq_junk_ok : ∀ q, length (cq_junk q) = 2%nat.
Implicit Types (s : lld ram).

(** The register at offset [off] of the host interface. *)
Definition reg (off : Z) s : Z := ram_get (dev s) (HOST_IP_ADDR + off).
Definition upd_reg (off v : Z) s : lld ram :=
  s <| dev := (dev s) <| ram_words := <[HOST_IP_ADDR + off := u32 v]> (ram_words (dev s)) |> |>.

Lemma reg_upd_same off v s : reg off (upd_reg off v s) = u32 v.
Proof. unfold reg, ram_get. simpl. by rewrite lookup_insert_eq. Qed.
Lemma reg_upd_other off off' v s : off ≠ off' → reg off' (upd_reg off v s) = reg off' s.
Proof. intros. unfold reg, ram_get. simpl. rewrite lookup_insert_ne; [done|lia]. Qed.
Lemma window_upd off v s : host_window (dev s) → host_window (dev (upd_reg off v s)).
Proof. done. Qed.

(** What a part of the driver may change: registers in [P], not the task. *)
Record touches (P : Z → Prop) s s' : Prop := Touches {
  touch_window : host_window (dev s) → host_window (dev s');
  touch_status : nvme_status s' = nvme_status s;
  touch_cache : cacheEn s' = cacheEn s;
  touch_reg off : ¬ P off → reg off s' = reg off s;
}.
Lemma touches_refl P s : touches P s s.
Proof. by split. Qed.
Lemma touches_trans P s1 s2 s3 : touches P s1 s2 → touches P s2 s3 → touches P s1 s3.
Proof.
  intros [A1 B1 C1 D1] [A2 B2 C2 D2]. split; [auto|congruence|congruence|].
  intros off Hoff. by rewrite D2, D1.
Qed.
Lemma touches_upd (P : Z → Prop) off v s : P off → touches P s (upd_reg off v s).
Proof. intros HP. split; try done. intros off' Hoff. apply reg_upd_other. by intros <-. Qed.
Lemma touches_weaken (P Q : Z → Prop) s s' : (∀ off, P off → Q off) → touches P s s' → touches Q s s'.
Proof. intros HPQ [A B C D]. split; [done..|]. auto. Qed.

Lemma read_reg off s :
  host_window (dev s) → 0 ≤ off < 0x400 → off mod 4 = 0 →
  IO_READ32 (HOST_IP_ADDR + off) s = Some (reg off s, s).
Proof. apply io_read_ram. Qed.
Lemma write_reg off v s :
  host_window (dev s) → 0 ≤ off < 0x400 → off mod 4 = 0 →
  IO_WRITE32 (HOST_IP_ADDR + off) v s = Some (tt, upd_reg off v s).
Proof. apply io_write_ram. Qed.

(** ** The controller's state in its registers *)
Definition status_member (n : string) s : Z := rget NVME_STATUS_REG n [reg 0x200 s].
Definition admin_member (n : string) s : Z := rget NVME_ADMIN_QUEUE_SET_REG n [reg 0x21C s].
Definition sq_valid (q : Z) s : Z :=
  rget NVME_IO_SQ_SET_REG "valid" [reg (0x220 + 8 * q) s; reg (0x220 + 8 * q + 4) s].
Definition cq_valid (q : Z) s : Z :=
  rget NVME_IO_CQ_SET_REG "valid" [reg (0x260 + 8 * q) s; reg (0x260 + 8 * q + 4) s].

Definition io_queue_regs (off : Z) : Prop := 0x220 ≤ off < 0x2A0.

Lemma set_io_sq_run junk q s :
  host_window (dev s) → length junk = 2%nat → 0 ≤ q < 8 →
  ∃ s', set_io_sq junk q 0 0 0 0 0 0 s = Some (tt, s') ∧ sq_valid q s' = 0 ∧
    touches (λ off, off = 0x220 + 8 * q ∨ off = 0x220 + 8 * q + 4) s s'.
Proof.
  intros Hw Hj Hq. set (r := io_sq_reg junk 0 0 0 0 0 0).
  exists (upd_reg (0x220 + 8 * q + 4) (dword 1 r) (upd_reg (0x220 + 8 * q) (dword 0 r) s)). split_and!.
  - unfold set_io_sq. fold r. unfold NVME_IO_SQ_SET_REG_ADDR.
    replace (HOST_IP_ADDR + 0x220 + q * 8) with (HOST_IP_ADDR + (0x220 + 8 * q)) by lia.
    erewrite bind_run by (apply write_reg; [done|lia|dlia]). rewrite <- Z.add_assoc.
    apply write_reg; [done|lia|dlia].
  - unfold sq_valid. rewrite reg_upd_same, reg_upd_other, reg_upd_same by lia.
    rewrite words_2 by (subst r; by rewrite io_sq_reg_length).
    rewrite (rget_u32 2) by solve_has. subst r. unfold io_sq_reg. by reg_simp Hj.
  - eapply touches_trans; apply touches_upd; auto.
Qed.

Lemma set_io_cq_run junk q s :
  host_window (dev s) → length junk = 2%nat → 0 ≤ q < 8 →
  ∃ s', set_io_cq junk q 0 0 0 0 0 0 s = Some (tt, s') ∧ cq_valid q s' = 0 ∧
    touches (λ off, off = 0x260 + 8 * q ∨ off = 0x260 + 8 * q + 4) s s'.
Proof.
  intros Hw Hj Hq. set (r := io_cq_reg junk 0 0 0 0 0 0).
  exists (upd_reg (0x260 + 8 * q + 4) (dword 1 r) (upd_reg (0x260 + 8 * q) (dword 0 r) s)). split_and!.
  - unfold set_io_cq. fold r. unfold NVME_IO_CQ_SET_REG_ADDR.
    replace (HOST_IP_ADDR + 0x260 + q * 8) with (HOST_IP_ADDR + (0x260 + 8 * q)) by lia.
    erewrite bind_run by (apply write_reg; [done|lia|dlia]). rewrite <- Z.add_assoc.
    apply write_reg; [done|lia|dlia].
  - unfold cq_valid. rewrite reg_upd_same, reg_upd_other, reg_upd_same by lia.
    rewrite words_2 by (subst r; unfold io_cq_reg; by rewrite !length_rset).
    rewrite (rget_u32 2) by solve_has. subst r. unfold io_cq_reg. by reg_simp Hj.
  - eapply touches_trans; apply touches_upd; auto.
Qed.

(** The loop makes all eight pairs of queues invalid and touches nothing else. *)
Lemma clear_queues_run s :
  host_window (dev s) →
  ∃ s', clear_queues sq_junk cq_junk s = Some (tt, s') ∧ touches io_queue_regs s s' ∧
    ∀ q, 0 ≤ q < 8 → sq_valid q s' = 0 ∧ cq_valid q s' = 0.
Proof.
  intros Hw.
  destruct (for_M_ind (λ n s', touches io_queue_regs s s' ∧ ∀ q, 0 ≤ q < Z.of_nat n →
      sq_valid q s' = 0 ∧ cq_valid q s' = 0) 8 O
    (λ q : nat, _ ← set_io_cq (cq_junk q) (Z.of_nat q) 0 0 0 0 0 0;
      set_io_sq (sq_junk q) (Z.of_nat q) 0 0 0 0 0 0) s) as (s' & E & H1 & H2).
  - split; [apply touches_refl|lia].
  - intros j s1 Hj [Ht Hv]. assert (host_window (dev s1)) as Hw1 by by apply (touch_window _ _ _ Ht).
    destruct (set_io_cq_run (cq_junk j) (Z.of_nat j) s1) as (s2 & E2 & Hc & Ht2); [done|done|lia|].
    assert (host_window (dev s2)) as Hw2 by by apply (touch_window _ _ _ Ht2).
    destruct (set_io_sq_run (sq_junk j) (Z.of_nat j) s2) as (s3 & E3 & Hs & Ht3); [done|done|lia|].
    exists s3. split; [by erewrite bind_run by exact E2|]. split.
    + eapply touches_trans; [exact Ht|]. eapply touches_trans.
      * eapply touches_weaken; [|exact Ht2]. unfold io_queue_regs. lia.
      * eapply touches_weaken; [|exact Ht3]. unfold io_queue_regs. lia.
    + intros q Hq. unfold sq_valid, cq_valid. destruct (decide (q = Z.of_nat j)) as [->|Hne].
      * split; [done|]. rewrite !(touch_reg _ _ _ Ht3) by lia. done.
      * rewrite !(touch_reg _ _ _ Ht3), !(touch_reg _ _ _ Ht2) by lia. apply Hv. lia.
  - exists s'. auto.
Qed.

(** Read, assign one member, write back. *)
Lemma words_1 r : length r = 1%nat → [u32 (dword 0 r)] = map u32 r.
Proof. by destruct r as [|? [|]]. Qed.

Lemma modify_member L off n v s n' :
  has 1 L n → has 1 L n' →
  rget L n' [reg off (upd_reg off (dword 0 (rset L n v [reg off s])) s)] =
    if decide (n = n') then wrap (bf_width (field L n)) v else rget L n' [reg off s].
Proof.
  intros Hn Hn'. rewrite reg_upd_same, words_1 by by rewrite length_rset.
  rewrite (rget_u32 1) by done. case_decide as E; [subst n'; by apply rget_rset_same|].
  by apply rget_rset_other.
Qed.

Definition at_status (off : Z) : Prop := off = 0x200.
Definition at_admin (off : Z) : Prop := off = 0x21C.

Lemma set_rdy_run v s :
  host_window (dev s) → 0 ≤ v < 2 →
  ∃ s', set_nvme_csts_rdy v s = Some (tt, s') ∧ touches at_status s s' ∧
    status_member "cstsRdy" s' = v ∧ status_member "cstsShst" s' = status_member "cstsShst" s.
Proof.
  intros Hw Hv. eexists. split_and!.
  - unfold set_nvme_csts_rdy. erewrite bind_run by (apply read_reg; done). by apply write_reg.
  - by apply touches_upd.
  - unfold status_member. rewrite modify_member by solve_has. by apply wrap_small.
  - unfold status_member. by rewrite modify_member by solve_has.
Qed.

Lemma set_shst_run v s :
  host_window (dev s) → 0 ≤ v < 4 →
  ∃ s', set_nvme_csts_shst v s = Some (tt, s') ∧ touches at_status s s' ∧
    status_member "cstsShst" s' = v ∧ status_member "cstsRdy" s' = status_member "cstsRdy" s.
Proof.
  intros Hw Hv. eexists. split_and!.
  - unfold set_nvme_csts_shst. erewrite bind_run by (apply read_reg; done). by apply write_reg.
  - by apply touches_upd.
  - unfold status_member. rewrite modify_member by solve_has. by apply wrap_small.
  - unfold status_member. by rewrite modify_member by solve_has.
Qed.

Lemma set_admin_run v s :
  host_window (dev s) → 0 ≤ v < 2 →
  ∃ s', set_nvme_admin_queue v v v s = Some (tt, s') ∧ touches at_admin s s' ∧
    admin_member "sqValid" s' = v ∧ admin_member "cqValid" s' = v ∧ admin_member "cqIrqEn" s' = v.
Proof.
  intros Hw Hv. unfold set_nvme_admin_queue.
  erewrite bind_run by (apply read_reg; done).
  set (x := reg 0x21C s). set (r := rset _ "cqIrqEn" _ _). exists (upd_reg 0x21C (dword 0 r) s).
  assert (length [x] = 1%nat) as Hx by done.
  assert (∀ n, has 1 NVME_ADMIN_QUEUE_SET_REG n →
    admin_member n (upd_reg 0x21C (dword 0 r) s) = rget NVME_ADMIN_QUEUE_SET_REG n r) as Hm.
  { intros n Hn. unfold admin_member. rewrite reg_upd_same, words_1 by (subst r; by rewrite !length_rset).
    by apply (rget_u32 1). }
  split_and!; [by apply write_reg|by apply touches_upd| | |];
    rewrite Hm by solve_has; subst r; revert Hx; generalize [x]; intros l Hx; reg_simp Hx;
    by apply wrap_small.
Qed.

(** No queue of the controller is valid. *)
Definition queues_off s : Prop :=
  (∀ q, 0 ≤ q < 8 → sq_valid q s = 0 ∧ cq_valid q s = 0) ∧
  admin_member "sqValid" s = 0 ∧ admin_member "cqValid" s = 0 ∧ admin_member "cqIrqEn" s = 0.

Lemma queues_off_touch s s' : touches at_status s s' → queues_off s → queues_off s'.
Proof.
  intros Ht (Hq & Ha). unfold queues_off, sq_valid, cq_valid, admin_member, at_status in *.
  split.
  - intros q Hq0. rewrite !(touch_reg _ _ _ Ht) by lia. by apply Hq.
  - by rewrite !(touch_reg _ _ _ Ht) by lia.
Qed.
Lemma queues_off_admin s s' :
  touches at_admin s s' → (∀ q, 0 ≤ q < 8 → sq_valid q s = 0 ∧ cq_valid q s = 0) →
  admin_member "sqValid" s' = 0 → admin_member "cqValid" s' = 0 → admin_member "cqIrqEn" s' = 0 →
  queues_off s'.
Proof.
  intros Ht Hq ???. split_and!; [|done..]. intros q Hq0. unfold sq_valid, cq_valid, at_admin in *.
  rewrite !(touch_reg _ _ _ Ht) by lia. by apply Hq.
Qed.

(** ** The state machine *)
(** The task in [s] waits for the host, or is not started. *)
Definition blocked s : Prop :=
  (nvme_status s = NVME_TASK_WAIT_CC_EN ∧ status_member "ccEn" s ≠ 1) ∨
  (nvme_status s = NVME_TASK_SHUTDOWN ∧ status_member "ccShn" s = 0) ∨
  (nvme_status s = NVME_TASK_WAIT_RESET ∧ status_member "ccEn" s ≠ 0) ∨
  nvme_status s ∉ [NVME_TASK_WAIT_CC_EN; NVME_TASK_RUNNING; NVME_TASK_SHUTDOWN;
                   NVME_TASK_WAIT_RESET; NVME_TASK_RESET].

Inductive nvme_trans s s' : Prop :=
| Nvme_enable :
    nvme_status s = NVME_TASK_WAIT_CC_EN → status_member "ccEn" s = 1 →
    nvme_status s' = NVME_TASK_RUNNING → status_member "cstsRdy" s' = 1 →
    admin_member "sqValid" s' = 1 → admin_member "cqValid" s' = 1 →
    admin_member "cqIrqEn" s' = 1 → nvme_trans s s'
| Nvme_shutdown :
    nvme_status s = NVME_TASK_SHUTDOWN → status_member "ccShn" s ≠ 0 →
    nvme_status s' = NVME_TASK_WAIT_RESET → status_member "cstsShst" s' = 2 →
    queues_off s' → cacheEn s' = 0 → nvme_trans s s'
| Nvme_disable :
    nvme_status s = NVME_TASK_WAIT_RESET → status_member "ccEn" s = 0 →
    nvme_status s' = NVME_TASK_IDLE → status_member "cstsShst" s' = 0 →
    status_member "cstsRdy" s' = 0 → cacheEn s' = 0 → nvme_trans s s'
| Nvme_reset :
    nvme_status s = NVME_TASK_RESET →
    nvme_status s' = NVME_TASK_IDLE → status_member "cstsShst" s' = 0 →
    status_member "cstsRdy" s' = 0 → queues_off s' → cacheEn s' = 0 → nvme_trans s s'
| Nvme_wait : blocked s → s' = s → nvme_trans s s'.

Lemma check_cc_en_run s :
  host_window (dev s) → check_nvme_cc_en s = Some (status_member "ccEn" s, s).
Proof. intros. unfold check_nvme_cc_en. by erewrite bind_run by by apply read_reg. Qed.

Lemma wait_cc_en_run s :
  host_window (dev s) → nvme_status s = NVME_TASK_WAIT_CC_EN →
  ∃ s', task_wait_cc_en s = Some (tt, s') ∧ nvme_trans s s'.
Proof.
  intros Hw Hst. unfold task_wait_cc_en. erewrite bind_run by by apply check_cc_en_run.
  unfold when. case_bool_decide as E; [|exists s; split; [done|apply Nvme_wait; [by left|done]]].
  destruct (set_admin_run 1 s Hw) as (s1 & E1 & Ht1 & A1 & A2 & A3); [lia|].
  erewrite bind_run by exact E1.
  destruct (set_rdy_run 1 s1) as (s2 & E2 & Ht2 & R2 & _); [by apply (touch_window _ _ _ Ht1)|lia|].
  erewrite bind_run by exact E2. eexists. split; [reflexivity|].
  unfold admin_member in *. rewrite <- (touch_reg _ _ _ Ht2) in A1, A2, A3 by (unfold at_status; lia).
  by apply Nvme_enable.
Qed.

Lemma shutdown_run s :
  host_window (dev s) → nvme_status s = NVME_TASK_SHUTDOWN →
  ∃ s', task_shutdown sq_junk cq_junk s = Some (tt, s') ∧ nvme_trans s s'.
Proof.
  intros Hw Hst. unfold task_shutdown. erewrite bind_run by by apply read_reg.
  unfold when. case_bool_decide as E.
  2:{ exists s. split; [done|]. apply Nvme_wait; [right; left; split; [done|]|done].
      by destruct (decide (status_member "ccShn" s = 0)). }
  destruct (set_shst_run 1 s Hw) as (s1 & E1 & Ht1 & _); [lia|]. erewrite bind_run by exact E1.
  destruct (clear_queues_run s1) as (s2 & E2 & Ht2 & Q2); [by apply (touch_window _ _ _ Ht1)|].
  erewrite bind_run by exact E2.
  destruct (set_admin_run 0 s2) as (s3 & E3 & Ht3 & A1 & A2 & A3);
    [by apply (touch_window _ _ _ Ht2), (touch_window _ _ _ Ht1)|lia|].
  erewrite bind_run by exact E3.
  assert (host_window (dev s3)) as Hw3
    by by apply (touch_window _ _ _ Ht3), (touch_window _ _ _ Ht2), (touch_window _ _ _ Ht1).
  assert (queues_off s3) as Hoff by by eapply queues_off_admin.
  erewrite bind_run by reflexivity.
  destruct (set_shst_run 2 (s3 <| cacheEn := 0 |>)) as (s4 & E4 & Ht4 & S4 & _); [done|lia|].
  erewrite bind_run by exact E4. eexists. split; [reflexivity|].
  apply Nvme_shutdown; [done|done|done|done| |].
  - exact (queues_off_touch _ _ Ht4 Hoff).
  - exact (touch_cache _ _ _ Ht4).
Qed.

Lemma wait_reset_run s :
  host_window (dev s) → nvme_status s = NVME_TASK_WAIT_RESET →
  ∃ s', task_wait_reset s = Some (tt, s') ∧ nvme_trans s s'.
Proof.
  intros Hw Hst. unfold task_wait_reset. erewrite bind_run by by apply check_cc_en_run.
  unfold when. case_bool_decide as E.
  2:{ exists s. split; [done|]. apply Nvme_wait; [right; right; by left|done]. }
  erewrite bind_run by reflexivity.
  destruct (set_shst_run 0 (s <| cacheEn := 0 |>)) as (s1 & E1 & Ht1 & S1 & _); [exact Hw|lia|].
  erewrite bind_run by exact E1.
  destruct (set_rdy_run 0 s1) as (s2 & E2 & Ht2 & R2 & R2'); [by apply (touch_window _ _ _ Ht1)|lia|].
  erewrite bind_run by exact E2. eexists. split; [reflexivity|].
  apply Nvme_disable; [done|done|done| |done|].
  - change (status_member "cstsShst" s2 = 0). by rewrite R2'.
  - change (cacheEn s2 = 0). by rewrite (touch_cache _ _ _ Ht2), (touch_cache _ _ _ Ht1).
Qed.

Lemma reset_run s :
  host_window (dev s) → nvme_status s = NVME_TASK_RESET →
  ∃ s', task_reset sq_junk cq_junk s = Some (tt, s') ∧ nvme_trans s s'.
Proof.
  intros Hw Hst. unfold task_reset.
  destruct (clear_queues_run s Hw) as (s1 & E1 & Ht1 & Q1). erewrite bind_run by exact E1.
  erewrite bind_run by reflexivity.
  assert (host_window (dev s1)) as Hw1 by by apply (touch_window _ _ _ Ht1).
  destruct (set_admin_run 0 (s1 <| cacheEn := 0 |>)) as (s2 & E2 & Ht2 & A1 & A2 & A3); [exact Hw1|lia|].
  erewrite bind_run by exact E2.
  assert (host_window (dev s2)) as Hw2 by by apply (touch_window _ _ _ Ht2).
  assert (queues_off s2) as Hoff by by eapply queues_off_admin.
  destruct (set_shst_run 0 s2 Hw2) as (s3 & E3 & Ht3 & S3 & _); [lia|]. erewrite bind_run by exact E3.
  destruct (set_rdy_run 0 s3) as (s4 & E4 & Ht4 & R4 & R4'); [by apply (touch_window _ _ _ Ht3)|lia|].
  erewrite bind_run by exact E4. eexists. split; [reflexivity|].
  apply Nvme_reset; [done|done| |done| |].
  - change (status_member "cstsShst" s4 = 0). by rewrite R4'.
  - exact (queues_off_touch _ _ Ht4 (queues_off_touch _ _ Ht3 Hoff)).
  - change (cacheEn s4 = 0).
    by rewrite (touch_cache _ _ _ Ht4), (touch_cache _ _ _ Ht3), (touch_cache _ _ _ Ht2).
Qed.

Lemma turn_run s :
  host_window (dev s) → nvme_status s ≠ NVME_TASK_RUNNING →
  ∃ s', nvme_turn admin io sq_junk cq_junk s = Some (tt, s') ∧ nvme_trans s s'.
Proof.
  intros Hw Hrun. unfold nvme_turn. erewrite bind_run by reflexivity.
  destruct (decide (nvme_status s = NVME_TASK_WAIT_CC_EN)); [by apply wait_cc_en_run|].
  destruct (decide (nvme_status s = NVME_TASK_RUNNING)); [done|].
  destruct (decide (nvme_status s = NVME_TASK_SHUTDOWN)); [by apply shutdown_run|].
  destruct (decide (nvme_status s = NVME_TASK_WAIT_RESET)); [by apply wait_reset_run|].
  destruct (decide (nvme_status s = NVME_TASK_RESET)); [by apply reset_run|].
  exists s. split; [done|]. apply Nvme_wait; [|done]. right. right. right.
  rewrite !not_elem_of_cons. split_and!; try done. apply not_elem_of_nil.
Qed.
End registers.

(** A turn of the NVMe task outside RUNNING takes exactly the transition its state
    and the controller's registers ask for, or waits and changes nothing: the
    queues are all invalid after a shutdown and after a reset, and the status
    member the host polls tells the new state. *)
Theorem nvme_turn_transitions `{!NvmeStatus} (sq_junk cq_junk : nat → list Z) admin io (s : lld ram) :
  (∀ q, length (sq_junk q) = 2%nat) → (∀ q, length (cq_junk q) = 2%nat) →
  host_window (dev s) → nvme_status s ≠ NVME_TASK_RUNNING →
  ∃ s', nvme_turn admin io sq_junk cq_junk s = Some (tt, s') ∧ nvme_trans s s'.
Proof. intros. by apply turn_run. Qed.

Lemma nvme_turn_transitions_witness :
  ∃ s', nvme_turn (H := status_values) (λ _, mret tt) (λ _, mret tt) (λ _, [7; 7]) (λ _, [9; 9])
      (shutdown_regs <| nvme_status := 3 |>) = Some (tt, s') ∧
    nvme_trans (H := status_values) (shutdown_regs <| nvme_status := 3 |>) s'.
Proof.
  apply (nvme_turn_transitions (H := status_values) (λ _, [7; 7]) (λ _, [9; 9]));
    [done|done|split; by vm_compute|by vm_compute].
Defined.

(** ** A whole poll *)
Lemma for_M_S {St} n i (m : nat → M St unit) :
  for_M (S n) i m = (_ ← m i; for_M n (S i) m).
Proof. done. Qed.

Lemma idle_turns `{!NvmeStatus} {St} `{!Bus St} admin io sqj cqj n i (s : lld St) :
  nvme_status s = NVME_TASK_IDLE →
  for_M n i (λ _, nvme_turn admin io sqj cqj) s = Some (tt, s).
Proof.
  intros Hs. revert i. induction n as [|n IH]; intros i; simpl; [done|].
  pose proof nvme_status_distinct as Hd. rewrite !NoDup_cons, !not_elem_of_cons in Hd.
  erewrite bind_run; [apply IH|]. unfold nvme_turn. erewrite bind_run by reflexivity. rewrite Hs.
  by rewrite !decide_False by (destruct_and!; congruence).
Qed.

(** FTL_nvme_req_polling after a reset (a lost link, or the controller disabled):
    the eight turns of one poll leave the task idle, the controller not ready and
    every queue invalid, whatever was set up before. *)
Theorem polling_resets `{!NvmeStatus} (sq_junk cq_junk : nat → list Z) admin io (s : lld ram) :
  (∀ q, length (sq_junk q) = 2%nat) → (∀ q, length (cq_junk q) = 2%nat) →
  host_window (dev s) → nvme_status s = NVME_TASK_RESET →
  ∃ s', FTL_nvme_req_polling admin io sq_junk cq_junk s = Some (tt, s') ∧
    nvme_status s' = NVME_TASK_IDLE ∧ queues_off s' ∧
    status_member "cstsRdy" s' = 0 ∧ status_member "cstsShst" s' = 0 ∧ cacheEn s' = 0.
Proof.
  intros Hsq Hcq Hw Hst. pose proof nvme_status_distinct as Hd.
  rewrite !NoDup_cons, !not_elem_of_cons in Hd. destruct_and!.
  destruct (turn_run sq_junk cq_junk admin io Hsq Hcq s Hw) as (s1 & E & Ht); [congruence|].
  assert (nvme_status s1 = NVME_TASK_IDLE ∧ queues_off s1 ∧
    status_member "cstsRdy" s1 = 0 ∧ status_member "cstsShst" s1 = 0 ∧ cacheEn s1 = 0) as (Hidle & ?).
  { destruct Ht as [| | | |Hb ->]; try congruence; [done|].
    destruct Hb as [[? _]|[[? _]|[[? _]|Hb]]]; [congruence..|].
    rewrite !not_elem_of_cons in Hb. destruct_and!. congruence. }
  exists s1. split; [|done]. unfold FTL_nvme_req_polling, MAX_POLLING_NUM.
  rewrite (for_M_S 7). erewrite bind_run by exact E. exact (idle_turns _ _ _ _ 7 1 s1 Hidle).
Qed.

Lemma polling_resets_witness :
  ∃ s', FTL_nvme_req_polling (H := status_values) (λ _, mret tt) (λ _, mret tt) (λ _, [-1; -1])
      (λ _, [-1; -1]) (shutdown_regs <| nvme_status := 5 |>) = Some (tt, s') ∧
    nvme_status s' = 0 ∧ queues_off s' ∧
    status_member "cstsRdy" s' = 0 ∧ status_member "cstsShst" s' = 0 ∧ cacheEn s' = 0.
Proof.
  apply (polling_resets (H := status_values) (λ _, [-1; -1]) (λ _, [-1; -1]));
    [done|done|split; by vm_compute|done].
Defined.
