(* ===== verification/CqBoard.v ===== *)
(** * Completion polling of the board (src/ftl/ftl_core1.c without EMU)

    Core 1 follows each channel's completion ring by an index and a two-bit
    phase: an entry is new when its phase is the one expected.  [cq_written]
    states what the flash controller leaves in a ring after its completions; the
    polls then take each completion of each channel once and in order.  What the
    completion of a garbage collector's command does (the sources of the collector are
    commented out) and the release of the erase lock, whose address is not defined, are
    arguments: functions on the rest of the memory, a type of its own. *)
From stdpp Require Import functions.
From S2P Require Import Prelude CInt Bitmap Config ListHeap Shm Buffer Hcl TaskQueue FlashLog Fcl.
From S2P Require Import L2P Backend Ftl FtlSpec.
#[local] Open Scope Z_scope.

Record polling_status := PollingStatus {
  polling_index : Z; polling_phase : Z; complete_num : Z; CQ_addr : Z;
}.
#[export] Instance polling_status_eta : Settable polling_status := λ r,
  PollingStatus (polling_index r) (polling_phase r) (complete_num r) (CQ_addr r).

(** The part of the board's memory core 1 works on, and the rest: the erase lock and the
    command of the garbage collector. *)
Record board {X : Type} := Board {
  b_hw : hw_queues; b_hcl : hcl; b_tq : task_queues; b_poll : list polling_status; b_rest : X;
}.
#[global] Arguments board X : clear implicits.
#[global] Arguments Board {X}.
#[export] Instance board_eta {X} : Settable (board X) :=
  λ r, Board (b_hw r) (b_hcl r) (b_tq r) (b_poll r) (b_rest r).

(** [CQ_addr + polling_index * 16]: the entry of the channel's ring. *)
Definition CQ_entry (ch i : Z) (s : hw_queues) : option hw_queue_entry :=
  q ← zget (hw_CQ s) ch; zget q i.

Definition poll_upd {X} (i : Z) (f : polling_status → polling_status) (s : board X) : option (board X) :=
  p ← zget (b_poll s) i; l ← zset (b_poll s) i (f p); Some (s <| b_poll := l |>).

(** The index and the phase of the next entry. *)
Definition poll_next (p : polling_status) : polling_status :=
  let p := p <| polling_index := u32 (polling_index p + 1) |> in
  if decide (polling_index p = 256)
  then p <| polling_index := 0 |> <| polling_phase := u32 (polling_phase p + 1) mod 4 |>
  else p.

Section poll.
Context {X : Type} (release_erase_lock gc_completion : X → X).

(** A completed command page: counted, and the last one sends the command on. *)
Definition host_completion (k : nat) : M (board X) unit :=
  _ ← try_mod (λ s, h ← hcmd_upd k (λ e, e <| Hcl.cpl_cnt := u32 (Hcl.cpl_cnt e + 1) |>) (b_hcl s);
                    Some (s <| b_hcl := h |>));
  e ← try_get (λ s, hcmd_load k (b_hcl s));
  if decide (Hcl.cpl_cnt e = Hcl.req_num e)
  then try_mod (λ s, '(_, q) ← TaskQueue.FTL_sendhcmd (Some k) HCE_FROM_CQ (b_hcl s) (b_tq s);
                     Some (s <| b_tq := q |>))
  else mret tt.

Definition cq_turn (i : Z) : M (board X) unit :=
  p ← try_get (λ s, zget (b_poll s) i);
  CQ_entry ← try_get (λ s, CQ_entry i (polling_index p) (b_hw s));
  if decide (bf_get ph CQ_entry = polling_phase p)
  then
    _ ← try_mod (poll_upd 0 (λ p, p <| complete_num := u32 (complete_num p + 1) |>));
    _ ← try_mod (poll_upd i poll_next);
    let SQ_index := bf_get cur_ptr CQ_entry in
    sq ← try_get (λ s, SQ_entry i SQ_index (b_hw s));
    let hcmd_entry_index := bf_get hcmd_index sq in
    _ ← try_mod (λ s, h ← FCL_free_SQ_entry i SQ_index (b_hw s); Some (s <| b_hw := h |>));
    if decide (bf_get cmd_space CQ_entry = HCMD_SPACE)
    then if decide (bf_get op CQ_entry = HCE_ERASE)
         then modify (λ s, s <| b_rest := release_erase_lock (b_rest s) |>)
         else host_completion (HCL_get_hcmd_entry_addr hcmd_entry_index)
    else modify (λ s, s <| b_rest := gc_completion (b_rest s) |>)
  else mret tt.

Definition FTL_CQ_polling : M (board X) unit := for_M 4 O (λ i, cq_turn (Z.of_nat i)).
End poll.

(** ** The ring *)
(** The fields of a completion the poll uses, the phase aside. *)
Definition same_completion (e e' : hw_queue_entry) : Prop :=
  bf_get cur_ptr e = bf_get cur_ptr e' ∧ bf_get op e = bf_get op e' ∧
  bf_get cmd_space e = bf_get cmd_space e'.

(** After the completions [log] the ring holds the last 256 of them, each at its
    number modulo 256 with its number of laps as phase; a slot not written yet
    still has the phase 3 FCL_init_hw_queue left. *)
Record cq_written (ring log : list hw_queue_entry) : Prop := CqWritten {
  cq_length : length ring = 256%nat;
  cq_slot n c : log !! n = Some c → (length log ≤ n + 256)%nat →
    ∃ e, ring !! (n mod 256)%nat = Some e ∧ same_completion e c ∧
         bf_get ph e = Z.of_nat (n / 256) mod 4;
  cq_empty n : (length log ≤ n < 256)%nat → ∃ e, ring !! n = Some e ∧ bf_get ph e = 3;
}.

Lemma cq_written_init : cq_written (repeat (repeat 0xffffffff 4) 256) [].
Proof.
  split; [done|done|]. intros n Hn. eexists. split; [apply lookup_repeat_lt; lia|done].
Qed.

(** The phase tells a new entry from an old one, as long as the ring is not overrun. *)
Lemma phase_new ring log R e :
  cq_written ring log → (R ≤ length log ≤ R + 256)%nat → ring !! (R mod 256)%nat = Some e →
  bf_get ph e = Z.of_nat (R / 256) mod 4 ↔ (R < length log)%nat.
Proof.
  intros [Hl Hs He] HR Hr. split.
  - intros Hph. destruct (decide (R < length log)%nat) as [|Hge]; [done|exfalso].
    assert (R = length log) as -> by lia. destruct (decide (length log < 256)%nat) as [Hlt|Hlap].
    + destruct (He (length log)) as (e' & Hr' & Hp'); [lia|].
      rewrite Nat.mod_small in Hr by lia. simplify_eq.
      rewrite Nat.div_small in Hph by lia. change (Z.of_nat 0 mod 4) with 0 in Hph. lia.
    + destruct (lookup_lt_is_Some_2 log (length log - 256)) as [c Hc]; [lia|].
      destruct (Hs _ _ Hc) as (e' & Hr' & _ & Hp'); [lia|].
      replace ((length log - 256) mod 256)%nat with (length log mod 256)%nat in Hr' by dlia.
      simplify_eq. rewrite Hp' in Hph.
      replace ((length log - 256) / 256)%nat with (length log / 256 - 1)%nat in Hph by dlia.
      assert (1 ≤ length log / 256)%nat as H1 by dlia. revert Hph H1.
      generalize (length log / 256)%nat. intros. dlia.
  - intros Hlt. destruct (lookup_lt_is_Some_2 log R Hlt) as [c Hc].
    destruct (Hs _ _ Hc) as (e' & Hr' & _ & Hp'); [lia|]. by simplify_eq.
Qed.

(** The poller of a channel that has taken [R] completions. *)
Definition poll_at (R : nat) (p : polling_status) : Prop :=
  polling_index p = Z.of_nat (R mod 256) ∧ polling_phase p = Z.of_nat (R / 256) mod 4.

Lemma poll_at_next R p : poll_at R p → poll_at (S R) (poll_next p).
Proof.
  intros [Hi Hp].
  assert (poll_next p = if decide (R mod 256 = 255)%nat
    then p <| polling_index := 0 |> <| polling_phase := u32 (polling_phase p + 1) mod 4 |>
    else p <| polling_index := Z.of_nat (R mod 256) + 1 |>) as ->.
  { unfold poll_next. cbn [set_field_of polling_index polling_phase]. rewrite Hi.
    rewrite u32_small by dlia. repeat case_decide; try done; dlia. }
  unfold poll_at. case_decide; cbn [set_field_of polling_index polling_phase]; rewrite ?Hp; (split; [dlia|]).
  - rewrite u32_small by dlia. replace (S R / 256)%nat with (S (R / 256)) by dlia.
    generalize (R / 256)%nat. intros. dlia.
  - replace (S R / 256)%nat with (R / 256)%nat by dlia. done.
Qed.

(** ** Completions *)
(** What a completion is of: a page of a host command, an erase of the host's, a command
    of the garbage collector. *)
Inductive completion := Page (k : nat) | Erased | Collected.

(** The submission entry a completion [c] of channel [ch] names, and what it is of. *)
Definition completion_of (ch : nat) (hw : hw_queues) (c : hw_queue_entry) : option (nat * completion) :=
  sq ← SQ_entry (Z.of_nat ch) (bf_get cur_ptr c) hw;
  Some (Z.to_nat (bf_get cur_ptr c),
    if decide (bf_get cmd_space c = HCMD_SPACE)
    then if decide (bf_get op c = HCE_ERASE) then Erased else Page (Z.to_nat (bf_get hcmd_index sq))
    else Collected).

Section complete.
Context {X : Type} (release gc : X → X).

(** The effect of a completion on the command table, on the queue of commands back from
    the flash and on the rest: a page is counted, and the last page of a command sends it
    on. *)
Definition complete (st : hcl * list nat * X) (c : completion) : hcl * list nat * X :=
  let '(h, l, x) := st in
  match c with
  | Page k =>
      match hcmd_load k h with
      | Some e =>
          let e' := e <| Hcl.cpl_cnt := u32 (Hcl.cpl_cnt e + 1) |> in
          (hcl_put k e' h, if decide (Hcl.cpl_cnt e' = Hcl.req_num e) then l ++ [k] else l, x)
      | None => st
      end
  | Erased => (h, l, release x)
  | Collected => (h, l, gc x)
  end.
Definition back (st : hcl * list nat * X) : list nat := st.1.2.

Lemma complete_grows st c : (length (back st) ≤ length (back (complete st c)))%nat.
Proof.
  destruct st as [[h l] x]. destruct c as [k| |]; simpl; try done. destruct (hcmd_load k h); [|done].
  unfold back. simpl. case_decide; rewrite ?length_app; simpl; lia.
Qed.
Lemma completes_grow cs st : (length (back st) ≤ length (back (foldl complete st cs)))%nat.
Proof.
  revert st. induction cs as [|c cs IH]; intros st; [done|]. simpl. etrans; [apply complete_grows|apply IH].
Qed.
End complete.

(** The next [n] completions of each channel, as polling takes them: one of each channel
    that has one, in the order of the channels. *)
Definition channels : list nat := [0; 1; 2; 3]%nat.
Fixpoint rounds {A} (n : nat) (todo : nat → list A) : list A :=
  match n with
  | O => []
  | S n => omap (λ ch, head (todo ch)) channels ++ rounds n (λ ch, tail (todo ch))
  end.

(** ** One turn *)
Section turn.
Context {X : Type} (release gc : X → X) (log : nat → list hw_queue_entry).
Abbreviation turn := (cq_turn release gc).
Abbreviation polling := (FTL_CQ_polling release gc).

(** The state of core 1 with each channel [ch] at completion [R ch] of [log ch]. *)
Record core1_rep (R : nat → nat) (F : nat → list nat) (s : board X) : Prop := {
  c1_poll ch : (ch < 4)%nat → ∃ p, b_poll s !! ch = Some p ∧ poll_at (R ch) p;
  c1_polls : length (b_poll s) = 4%nat;
  c1_ring ch : (ch < 4)%nat → ∃ ring, hw_CQ (b_hw s) !! ch = Some ring ∧ cq_written ring (log ch);
  c1_hw : hwq_wf (b_hw s);
  c1_hcl : hcl_wf (b_hcl s);
  c1_tq : tqs_rep (b_tq s) F;
}.

(** Nothing new: nothing happens. *)
Lemma turn_idle ch R F s :
  core1_rep R F s → (ch < 4)%nat → R ch = length (log ch) → turn (Z.of_nat ch) s = Some (tt, s).
Proof.
  intros Hrep Hch HR. destruct (c1_poll _ _ _ Hrep ch Hch) as (p & Hp & Hat).
  destruct (c1_ring _ _ _ Hrep ch Hch) as (ring & Hr & Hw). unfold cq_turn.
  erewrite bind_run by (apply try_get_run; rewrite zget_nat; exact Hp).
  destruct (lookup_lt_is_Some_2 ring (length (log ch) mod 256)) as [e He].
  { rewrite (cq_length _ _ Hw). dlia. }
  destruct Hat as [Hi Hph]. rewrite HR in Hi, Hph.
  erewrite bind_run by (apply try_get_run; unfold CQ_entry; rewrite zget_nat, Hr; cbn [mbind option_bind];
    rewrite Hi, zget_nat; exact He).
  rewrite decide_False; [done|]. rewrite Hph, (phase_new ring (log ch) (length (log ch)) e); [lia|done|lia|done].
Qed.

Lemma host_completion_run k F (s : board X) e :
  hcl_wf (b_hcl s) → tqs_rep (b_tq s) F → hcmd_load k (b_hcl s) = Some e →
  let st := complete release gc (b_hcl s, F 3%nat, b_rest s) (Page k) in (length (back st) ≤ 256)%nat →
  ∃ q', host_completion k s = Some (tt, s <| b_hcl := st.1.1 |> <| b_tq := q' |>) ∧
    tqs_rep q' (<[3%nat := back st]> F) ∧ hcl_wf st.1.1 ∧ st.2 = b_rest s.
Proof.
  intros Hw Hq He st. assert (k < 256)%nat as Hk by by eapply hcl_load_lt.
  set (e' := e <| Hcl.cpl_cnt := u32 (Hcl.cpl_cnt e + 1) |>). set (h' := hcl_put k e' (b_hcl s)).
  assert (hcl_wf h') as Hw' by by apply hcl_put_wf.
  assert (hcmd_load k h' = Some e') as He' by (subst h'; rewrite hcl_put_load by done; by rewrite decide_True).
  assert (st = (h', if decide (Hcl.cpl_cnt e' = Hcl.req_num e) then F 3%nat ++ [k] else F 3%nat, b_rest s)) as ->.
  { subst st. cbn [complete]. by rewrite He. }
  unfold back. cbn [fst snd]. intros Hl. unfold host_completion.
  rewrite (bind_run _ _ s tt (s <| b_hcl := h' |>)).
  2:{ unfold try_mod, hcmd_upd. unfold hcmd_load in He. by rewrite He. }
  erewrite bind_run by (apply try_get_run; exact He').
  change (Hcl.req_num e') with (Hcl.req_num e). case_decide as Ec.
  - rewrite length_app in Hl. simpl in Hl.
    destruct (FTL_sendhcmd_spec h' (b_tq s) F k 3 e' Hq ltac:(lia) He' ltac:(lia)) as (q' & E & Hq').
    exists q'. split; [|done]. unfold try_mod. cbn [set_field_of b_hcl b_tq].
    change (Z.of_nat 3) with HCE_FROM_CQ in E. rewrite E. done.
  - exists (b_tq s). split_and!; [done| |done|done]. eapply tqs_rep_ext; [exact Hq|].
    intros j _. destruct (decide (j = 3%nat)) as [->|]; [by rewrite fn_lookup_insert|].
    by rewrite fn_lookup_insert_ne.
Qed.

Lemma free_entry_CQ ch i hw hw' : FCL_free_SQ_entry ch i hw = Some hw' → hw_CQ hw' = hw_CQ hw.
Proof. unfold FCL_free_SQ_entry. intros. by run_inv. Qed.

Lemma completion_same ch hw hw' c : hw_SQ hw' = hw_SQ hw → completion_of ch hw' c = completion_of ch hw c.
Proof. intros E. unfold completion_of, SQ_entry. by rewrite E. Qed.

(** The bookkeeping of a new completion: the poller goes on, and the entry is free. *)
Lemma poll_updates R F (s : board X) ch p hw' :
  core1_rep R F s → (ch < 4)%nat → b_poll s !! ch = Some p →
  ∃ s1 s2, poll_upd 0 (λ p, p <| complete_num := u32 (complete_num p + 1) |>) s = Some s1 ∧
    poll_upd (Z.of_nat ch) poll_next s1 = Some s2 ∧
    b_hw s2 = b_hw s ∧ b_hcl s2 = b_hcl s ∧ b_tq s2 = b_tq s ∧ b_rest s2 = b_rest s ∧
    (hwq_wf hw' → hw_CQ hw' = hw_CQ (b_hw s) → core1_rep (<[ch := S (R ch)]> R) F (s2 <| b_hw := hw' |>)).
Proof.
  intros [Hp Hpl Hr Hw Hh Hq] Hch Hpch. set (p0 := λ p, p <| complete_num := u32 (complete_num p + 1) |>).
  assert (∃ s1, poll_upd 0 p0 s = Some s1 ∧ b_hw s1 = b_hw s ∧ b_hcl s1 = b_hcl s ∧ b_tq s1 = b_tq s ∧ b_rest s1 = b_rest s ∧
    length (b_poll s1) = 4%nat ∧ ∀ c, (c < 4)%nat → ∃ p1, b_poll s1 !! c = Some p1 ∧ poll_at (R c) p1)
    as (s1 & E1 & Hw1 & Hh1 & Hq1 & Hx1 & Hl1 & Hp1).
  { destruct (b_poll s) as [|q l] eqn:El; [done|]. unfold poll_upd. rewrite El.
    eexists. split; [reflexivity|]. split_and!; [done..|]. intros [|c] Hc; [|exact (Hp (S c) Hc)].
    destruct (Hp 0%nat Hc) as (q' & [= <-] & Hat). by exists (p0 q). }
  destruct (Hp1 ch Hch) as (p1 & Hp1c & Hat1).
  exists s1. eexists. split; [exact E1|]. unfold poll_upd. rewrite zget_nat, Hp1c. cbn [mbind option_bind]. rewrite zset_nat by lia.
  split; [reflexivity|]. do 4 (split; [done|]). intros Hw' Hcq. split; cbn [set_field_of b_hw b_hcl b_tq b_poll].
  - intros c Hc. destruct (decide (c = ch)) as [->|Hne].
    + exists (poll_next p1). rewrite list_lookup_insert_eq, fn_lookup_insert by lia. split; [done|by apply poll_at_next].
    + rewrite list_lookup_insert_ne, fn_lookup_insert_ne by done. by apply Hp1.
  - by rewrite length_insert.
  - intros c Hc. rewrite Hcq. by apply Hr.
  - done.
  - by rewrite Hh1.
  - by rewrite Hq1.
Qed.

(** After the bookkeeping, the effect. *)
Lemma effect_run R F (s : board X) cm :
  core1_rep R F s → (∀ k, cm = Page k → (k < 256)%nat) →
  let st := complete release gc (b_hcl s, F 3%nat, b_rest s) cm in (length (back st) ≤ 256)%nat →
  ∃ s', match cm with
        | Page k => host_completion k
        | Erased => modify (λ s, s <| b_rest := release (b_rest s) |>)
        | Collected => modify (λ s, s <| b_rest := gc (b_rest s) |>)
        end s = Some (tt, s') ∧ core1_rep R (<[3%nat := back st]> F) s' ∧
    b_hcl s' = st.1.1 ∧ b_rest s' = st.2 ∧ b_hw s' = b_hw s.
Proof.
  intros [Hp Hpl Hr Hw Hh Hq] Hk st Hl.
  assert (tqs_rep (b_tq s) (<[3%nat := F 3%nat]> F)) as Hsame.
  { eapply tqs_rep_ext; [exact Hq|]. intros m _. destruct (decide (m = 3%nat)) as [->|];
      [by rewrite fn_lookup_insert|by rewrite fn_lookup_insert_ne]. }
  destruct cm as [k| |]; [|eexists; split; [reflexivity|]; split_and!; done..].
  destruct (hcl_load_some (b_hcl s) k Hh (Hk k eq_refl)) as [e He].
  destruct (host_completion_run k F s e Hh Hq He Hl) as (q' & E & Hq' & Hh' & Hx).
  eexists. split; [exact E|]. split; [done|]. done.
Qed.

(** A new completion: it has its effect, and its entry is free again. *)
Lemma turn_new ch R F s c j cm :
  core1_rep R F s → (ch < 4)%nat → log ch !! R ch = Some c → (length (log ch) ≤ R ch + 256)%nat →
  completion_of ch (b_hw s) c = Some (j, cm) → (∀ k, cm = Page k → (k < 256)%nat) →
  let st := complete release gc (b_hcl s, F 3%nat, b_rest s) cm in (length (back st) ≤ 256)%nat →
  ∃ s', turn (Z.of_nat ch) s = Some (tt, s') ∧
    core1_rep (<[ch := S (R ch)]> R) (<[3%nat := back st]> F) s' ∧ b_hcl s' = st.1.1 ∧ b_rest s' = st.2 ∧
    hw_SQ (b_hw s') = hw_SQ (b_hw s) ∧
    ∀ ch' i, (ch' < 4)%nat → (i < 256)%nat →
      sq_used ch' (b_hw s') i = negb (bool_decide (ch' = ch ∧ i = j)) && sq_used ch' (b_hw s) i.
Proof.
  intros Hrep Hch Hc Hlen Hcm Hk st Hl. destruct (c1_poll _ _ _ Hrep ch Hch) as (p & Hp & Hi & Hph).
  destruct (c1_ring _ _ _ Hrep ch Hch) as (ring & Hr & Hring).
  destruct (cq_slot _ _ Hring (R ch) c Hc Hlen) as (x & Hx & (X1 & X2 & X3) & Xp).
  unfold completion_of in Hcm. apply bind_Some in Hcm as (sq & Hsq & Hcm).
  apply (inj Some), pair_equal_spec in Hcm as [Ej Ecm].
  assert (∃ n, bf_get cur_ptr c = Z.of_nat n ∧ (n < 256)%nat) as (n & En & Hn).
  { unfold SQ_entry in Hsq. apply bind_Some in Hsq as (q & Hq & Hsq%zget_Some_range).
    rewrite zget_nat in Hq. rewrite (hw_wf_SQ_len _ (c1_hw _ _ _ Hrep) ch q Hq) in Hsq.
    exists (Z.to_nat (bf_get cur_ptr c)). lia. }
  rewrite En, Nat2Z.id in Ej. subst n. rewrite En in Hsq.
  destruct (FCL_free_spec (b_hw s) ch j (c1_hw _ _ _ Hrep) Hch Hn) as (hw' & Ef & Hw' & Hsame & Hoth & Hused).
  destruct (poll_updates R F s ch p hw' Hrep Hch Hp) as (s1 & s2 & E1 & E2 & Hw2 & Hh2 & Hq2 & Hx2 & Hrep2).
  specialize (Hrep2 Hw' (free_entry_CQ _ _ _ _ Ef)). set (s3 := s2 <| b_hw := hw' |>) in *.
  assert (st = complete release gc (b_hcl s3, F 3%nat, b_rest s3) cm) as Est.
  { change (b_hcl s3) with (b_hcl s2). change (b_rest s3) with (b_rest s2). by rewrite Hh2, Hx2. }
  destruct (effect_run _ F s3 cm Hrep2 Hk) as (s' & E & Hrep' & Hh' & Hx' & Hwe); [by rewrite <- Est|].
  rewrite <- Est in Hrep', Hh', Hx'. exists s'. split_and!; [|done|done|done|by rewrite Hwe|].
  - unfold cq_turn.
    erewrite bind_run by (apply try_get_run; rewrite zget_nat; exact Hp).
    erewrite bind_run by (apply try_get_run; unfold CQ_entry; rewrite zget_nat, Hr; cbn [mbind option_bind];
      rewrite Hi, zget_nat; exact Hx).
    rewrite decide_True by congruence. erewrite bind_run by (apply try_mod_run; exact E1).
    erewrite bind_run by (apply try_mod_run; exact E2).
    rewrite X1, X2, X3, En. erewrite bind_run by (apply try_get_run; rewrite Hw2; exact Hsq).
    rewrite (bind_run _ _ s2 tt s3) by (unfold try_mod; by rewrite Hw2, Ef).
    rewrite <- Ecm in E. unfold HCL_get_hcmd_entry_addr. repeat case_decide; exact E.
  - intros ch' i Hch' Hi'. rewrite Hwe. change (b_hw s3) with hw'. destruct (decide (ch' = ch)) as [->|Hne].
    + rewrite Hused by done. f_equal. f_equal. apply bool_decide_ext. tauto.
    + rewrite Hoth by done. rewrite bool_decide_false by tauto. done.
Qed.

(** ** Polling *)
(** Where a polling stands: the completions not taken yet ([todo]) and the effect so far;
    of the completions [new] of channel [ch] at the beginning, the others are taken and
    their entries free. *)
Record polling_rep (hw : hw_queues) (F : nat → list nat) (new todo : nat → list (nat * completion))
    (st : hcl * list nat * X) (s : board X) : Prop := {
  pr_rep : ∃ R, core1_rep R (<[3%nat := back st]> F) s ∧ ∀ ch, (ch < 4)%nat →
    (R ch ≤ length (log ch) ≤ R ch + 256)%nat ∧ mapM (completion_of ch hw) (drop (R ch) (log ch)) = Some (todo ch);
  pr_hcl : b_hcl s = st.1.1;
  pr_rest : b_rest s = st.2;
  pr_SQ : hw_SQ (b_hw s) = hw_SQ hw;
  pr_free ch : (ch < 4)%nat → ∃ taken, new ch = taken ++ todo ch ∧
    ∀ i, (i < 256)%nat → sq_used ch (b_hw s) i = negb (bool_decide (i ∈ taken.*1)) && sq_used ch hw i;
}.

(** Every page is one of an entry of the command table. *)
Definition known (l : list (nat * completion)) : Prop := ∀ j k, (j, Page k) ∈ l → (k < 256)%nat.

Lemma turn_polls hw F new todo st s ch :
  polling_rep hw F new todo st s → (ch < 4)%nat → known (todo ch) →
  let st' := foldl (complete release gc) st (option_list (head (todo ch))).*2 in (length (back st') ≤ 256)%nat →
  ∃ s', turn (Z.of_nat ch) s = Some (tt, s') ∧ polling_rep hw F new (<[ch := tail (todo ch)]> todo) st' s'.
Proof.
  intros [(R & Hrep & Hlog) Hh Hx HSQ Hfree] Hch Hk st' Hl. destruct (Hlog ch Hch) as [HR Hnew].
  destruct (todo ch) as [|[j cm] l] eqn:Et.
  - apply mapM_Some, Forall2_nil_inv_r in Hnew. exists s. split.
    { apply (turn_idle ch R (<[3%nat := back st]> F)); [done|done|]. apply (f_equal length) in Hnew. rewrite length_drop in Hnew. simpl in Hnew. lia. }
    split; [|done..|]; [exists R; split; [done|]|]; intros c Hc; destruct (decide (c = ch)) as [->|];
      rewrite ?fn_lookup_insert, ?fn_lookup_insert_ne by done; try by auto.
    + split; [done|]. by rewrite Hnew.
    + destruct (Hfree ch Hc) as (tk & E & ?). rewrite Et in E. by exists tk.
  - pose proof Hnew as Hm. apply mapM_Some, Forall2_cons_inv_r in Hm as (c & rest & Hc & Hrest & Ed).
    assert (log ch !! R ch = Some c) as Hlk by (by rewrite <- (Nat.add_0_r (R ch)), <- lookup_drop, Ed).
    assert (drop (S (R ch)) (log ch) = rest) as Ed' by (by rewrite <- Nat.add_1_r, <- drop_drop, Ed).
    assert (complete release gc st cm = st') as Est by done.
    assert (st = (b_hcl s, <[3%nat := back st]> F 3%nat, b_rest s)) as Est0.
    { rewrite fn_lookup_insert, Hh, Hx. by destruct st as [[? ?] ?]. }
    rewrite Est0 in Est.
    destruct (turn_new ch R _ s c j cm Hrep Hch Hlk) as (s' & E & Hrep' & Hh' & Hx' & Hsq' & Hu');
      [lia|by rewrite (completion_same _ _ _ _ HSQ)|intros k ->; apply (Hk j); left|by rewrite Est|].
    rewrite Est in Hrep', Hh', Hx'. exists s'. split; [done|]. split; [|done|done|by rewrite Hsq'|].
    + exists (<[ch := S (R ch)]> R). split.
      { destruct Hrep' as [? ? ? ? ? Hq']. split; [done..|]. eapply tqs_rep_ext; [exact Hq'|]. intros m _.
        destruct (decide (m = 3%nat)) as [->|]; [by rewrite !fn_lookup_insert|by rewrite !fn_lookup_insert_ne]. }
      intros c' Hc'. destruct (decide (c' = ch)) as [->|]; [|rewrite !fn_lookup_insert_ne by done; by apply Hlog].
      rewrite !fn_lookup_insert, Ed'. split; [apply lookup_lt_Some in Hlk; lia|]. by apply mapM_Some.
    + intros c' Hc'. destruct (Hfree c' Hc') as (tk & Etk & Htk). destruct (decide (c' = ch)) as [->|].
      * rewrite fn_lookup_insert. exists (tk ++ [(j, cm)]). split; [rewrite Etk, Et, <- app_assoc; done|].
        intros i Hi. rewrite Hu', Htk by done. rewrite fmap_app, andb_assoc. change ([(j, cm)].*1) with [j]. f_equal. rewrite <- negb_orb, <- bool_decide_or. f_equal.
        apply bool_decide_ext. rewrite elem_of_app, list_elem_of_singleton. tauto.
      * rewrite fn_lookup_insert_ne by done. exists tk. split; [done|]. intros i Hi. rewrite Hu' by done.
        rewrite bool_decide_false by tauto. by apply Htk.
Qed.

Lemma polling_rep_ext hw F new todo todo' st s :
  polling_rep hw F new todo st s → (∀ ch, (ch < 4)%nat → todo ch = todo' ch) → polling_rep hw F new todo' st s.
Proof.
  intros [(R & Hrep & Hlog) Hh Hx HSQ Hfree] E. split; [|done..|].
  - exists R. split; [done|]. intros ch Hch. rewrite <- E by done. by apply Hlog.
  - intros ch Hch. rewrite <- E by done. by apply Hfree.
Qed.

Definition all_known (todo : nat → list (nat * completion)) : Prop := ∀ ch, (ch < 4)%nat → known (todo ch).

Lemma known_tail l : known l → known (tail l).
Proof. intros Hk j k Hin. apply (Hk j k). destruct l; [done|]. by right. Qed.

(** The next completion of each of the channels [l]. *)
Definition heads (todo : nat → list (nat * completion)) (l : list nat) : list completion :=
  (omap (λ ch, head (todo ch)) l).*2.

Lemma heads_app todo l l' : heads todo (l ++ l') = heads todo l ++ heads todo l'.
Proof. unfold heads. by rewrite omap_app, fmap_app. Qed.
Lemma heads_one todo ch : heads todo [ch] = (option_list (head (todo ch))).*2.
Proof. unfold heads. simpl. by destruct (head (todo ch)). Qed.

(** Polling once takes the next completion of each channel that has one. *)
Lemma polling_takes hw F new todo st s :
  polling_rep hw F new todo st s → all_known todo →
  let st' := foldl (complete release gc) st (heads todo channels) in (length (back st') ≤ 256)%nat →
  ∃ s', polling s = Some (tt, s') ∧ polling_rep hw F new (λ ch, tail (todo ch)) st' s'.
Proof.
  intros Hrep Hk st' Hl.
  set (P := λ j s, polling_rep hw F new (λ ch, if decide (ch < j)%nat then tail (todo ch) else todo ch)
                     (foldl (complete release gc) st (heads todo (seq 0 j))) s).
  destruct (for_M_ind P 4 0 (λ i, turn (Z.of_nat i)) s) as (s' & E & HP).
  - by eapply polling_rep_ext; [exact Hrep|].
  - intros j s0 [_ Hj] HP. unfold P in HP.
    destruct (turn_polls _ _ _ _ _ _ j HP) as (s1 & E & H1); [lia|..].
    + rewrite decide_False by lia. by apply Hk.
    + rewrite decide_False by lia. etrans; [|exact Hl]. subst st'. rewrite <- heads_one, <- foldl_app, <- heads_app.
      assert (channels = (seq 0 j ++ [j]) ++ seq (j + 1) (3 - j)) as ->.
      { do 4 (destruct j as [|j]; [done|]). lia. }
      rewrite (heads_app _ (seq 0 j ++ [j])), (foldl_app _ (heads _ (_ ++ [j]))). apply completes_grow.
    + exists s1. split; [done|]. unfold P. rewrite decide_False in H1 by lia.
      rewrite seq_S, heads_app, foldl_app, heads_one. eapply polling_rep_ext; [exact H1|]. intros ch _.
      destruct (decide (ch = j)) as [->|]; [rewrite fn_lookup_insert, decide_True by lia; done|].
      rewrite fn_lookup_insert_ne by done. repeat case_decide; done || lia.
  - exists s'. split; [exact E|]. unfold P in HP. eapply polling_rep_ext; [exact HP|]. intros ch Hch. cbn beta. by rewrite decide_True by lia.
Qed.

Lemma rounds_take n (todo : nat → list (nat * completion)) hw F new st s :
  polling_rep hw F new todo st s → all_known todo →
  let st' := foldl (complete release gc) st (rounds n todo).*2 in (length (back st') ≤ 256)%nat →
  ∀ i, ∃ s', for_M n i (λ _, polling) s = Some (tt, s') ∧ polling_rep hw F new (λ ch, drop n (todo ch)) st' s'.
Proof.
  revert todo st s. induction n as [|n IH]; intros todo st s Hrep Hk st' Hl i; [by exists s|].
  subst st'. revert Hl. cbn [rounds]. rewrite fmap_app, foldl_app. fold (heads todo channels). intros Hl.
  destruct (polling_takes _ _ _ _ _ _ Hrep Hk) as (s1 & E & H1); [etrans; [|exact Hl]; apply completes_grow|].
  destruct (IH _ _ _ H1 (λ ch Hch, known_tail _ (Hk ch Hch)) Hl (S i)) as (s2 & E2 & H2).
  exists s2. split; [simpl; by rewrite (bind_run _ _ _ _ _ E)|].
  eapply polling_rep_ext; [exact H2|]. intros ch _. cbn beta. destruct (todo ch); simpl; [apply drop_nil|done].
Qed.

(** No channel has a completion left: polling does nothing. *)
Lemma polling_idle R F s :
  core1_rep R F s → (∀ ch, (ch < 4)%nat → R ch = length (log ch)) → polling s = Some (tt, s).
Proof.
  intros Hrep HR. destruct (for_M_ind (λ _ s', s' = s) 4 0 (λ i, turn (Z.of_nat i)) s) as (s' & E & ->); [done| |exact E].
  intros j s0 [_ Hj] ->. exists s. split; [|done]. by apply (turn_idle j R F); [..|apply HR].
Qed.
End turn.

Lemma completions_known ch hw log l : mapM (completion_of ch hw) log = Some l → known l.
Proof.
  intros Hm%mapM_Some j k (i & Hi)%list_elem_of_lookup_1.
  destruct (Forall2_lookup_r _ _ _ _ _ Hm Hi) as (c & _ & Hc). unfold completion_of in Hc.
  apply bind_Some in Hc as (sq & _ & Hc). apply (inj Some), pair_equal_spec in Hc as [_ Hc].
  repeat case_decide; try done. injection Hc as <-.
  assert (0 ≤ bf_get hcmd_index sq < 256); [apply get_bits_range; simpl; lia|lia].
Qed.

(** C18. Polling the completion rings of the four channels, [n] times, core 1 alone: the
    completions [new] of each channel since it was polled last are taken in order, each
    once, one of each channel in a polling.  Each has its effect - a page is counted, and
    the last page of a command puts the command on the queue of commands back from the
    flash; an erase releases the erase lock; a completion of the garbage collector has the
    collector's effect - and the submission entries of the completions taken, no other,
    are free again.  When all are taken, polling does nothing. *)
Theorem cq_polling_drains {X} (release gc : X → X) log R F s new n :
  core1_rep log R F s →
  (∀ ch, (ch < 4)%nat → (R ch ≤ length (log ch) ≤ R ch + 256)%nat ∧
     mapM (completion_of ch (b_hw s)) (drop (R ch) (log ch)) = Some (new ch)) →
  let out := foldl (complete release gc) (b_hcl s, F 3%nat, b_rest s) (rounds n new).*2 in
  (length (back out) ≤ 256)%nat →
  ∃ s', for_M n O (λ _, FTL_CQ_polling release gc) s = Some (tt, s') ∧
    b_hcl s' = out.1.1 ∧ tqs_rep (b_tq s') (<[3%nat := back out]> F) ∧ b_rest s' = out.2 ∧
    (∀ ch i, (ch < 4)%nat → (i < 256)%nat → sq_used ch (b_hw s') i =
       negb (bool_decide (i ∈ (take n (new ch)).*1)) && sq_used ch (b_hw s) i) ∧
    ((∀ ch, (ch < 4)%nat → (length (new ch) ≤ n)%nat) → FTL_CQ_polling release gc s' = Some (tt, s')).
Proof.
  intros Hrep Hnew out Hl.
  destruct (rounds_take release gc log n new (b_hw s) F new (b_hcl s, F 3%nat, b_rest s) s) with (i := O)
    as (s' & E & [(R' & Hrep' & Hlog') Hh' Hx' _ Hfree']); [|by intros ch Hch; eapply completions_known, Hnew|done|].
  { split; [|done..|].
    - exists R. split; [|done]. destruct Hrep as [? ? ? ? ? Hq]. split; [done..|].
      eapply tqs_rep_ext; [exact Hq|]. intros m _. destruct (decide (m = 3%nat)) as [->|];
        [by rewrite fn_lookup_insert|by rewrite fn_lookup_insert_ne].
    - intros ch Hch. by exists []. }
  exists s'. split_and!; [exact E|exact Hh'|apply (c1_tq _ _ _ _ Hrep')|exact Hx'| |].
  - intros ch i Hch Hi. destruct (Hfree' ch Hch) as (tk & Etk & Hu). rewrite Hu by done.
    assert (take n (new ch) = tk) as ->; [|done].
    apply (app_inv_tail (drop n (new ch))). by rewrite take_drop.
  - intros Hall. apply (polling_idle release gc log R' _ s' Hrep'). intros ch Hch. destruct (Hlog' ch Hch) as [HR Hm].
    rewrite (drop_ge (new ch)) in Hm by by apply Hall. apply mapM_Some, Forall2_nil_inv_r, (f_equal length) in Hm.
    rewrite length_drop in Hm. simpl in Hm. lia.
Qed.

(** Core 1 finds on channel 0 the completion of entry 5, the one page of command 0, and on
    channel 2 that of an erase at entry 7 and of a command of the collector at entry 9; the
    rest of the memory here is two counters. *)
Definition demo_cq (i o sp : Z) : hw_queue_entry :=
  bf_set cur_ptr i (bf_set op o (bf_set cmd_space sp (repeat 0 4))).
Definition demo_logs (ch : nat) : list hw_queue_entry :=
  match ch with
  | 0%nat => [demo_cq 5 HCE_READ HCMD_SPACE]
  | 2%nat => [demo_cq 7 HCE_ERASE HCMD_SPACE; demo_cq 9 HCE_READ GCMD_SPACE]
  | _ => []
  end.
Definition demo_ring (log : list hw_queue_entry) : list hw_queue_entry :=
  log ++ repeat (repeat 0xffffffff 4) (256 - length log).
Definition demo_board : board (nat * nat) :=
  Board (init_hw_queues <| hw_CQ := map (λ ch, demo_ring (demo_logs ch)) channels |>)
    (hcl_put 0 (hcmd_zero <| Hcl.req_num := 1 |>) (snd HCL_init_host_cmd_entry_queue))
    FTL_int_task_queue (repeat (PollingStatus 0 0 0 0) 4) (0, 0)%nat.

Lemma demo_ring_written log : (length log ≤ 256)%nat → Forall (λ c, bf_get ph c = 0) log → cq_written (demo_ring log) log.
Proof.
  intros Hl Hp. unfold demo_ring. split.
  - rewrite length_app, repeat_length. lia.
  - intros n c Hc _. pose proof (lookup_lt_Some _ _ _ Hc). rewrite Nat.mod_small, Nat.div_small by lia.
    exists c. split; [by rewrite lookup_app_l|]. split; [done|]. by eapply Forall_lookup_1 in Hp.
  - intros n Hn. eexists. split; [|]. { rewrite lookup_app_r by lia. apply lookup_repeat_lt. lia. } done.
Qed.

Lemma demo_core1_rep : core1_rep demo_logs (λ _, 0%nat) (λ _, []) demo_board.
Proof.
  split.
  - intros ch Hch. do 4 (destruct ch as [|ch]; [by eexists|]). lia.
  - done.
  - intros ch Hch. exists (demo_ring (demo_logs ch)). split.
    + do 4 (destruct ch as [|ch]; [done|]). lia.
    + apply demo_ring_written; do 4 (destruct ch as [|ch]; [simpl; lia || by repeat constructor|]); lia.
  - destruct init_hw_queues_wf as [? ? ? ? ?]. by split.
  - apply hcl_put_wf, HCL_init_spec.
  - apply FTL_int_task_queue_rep.
Qed.

Definition demo_new (ch : nat) : list (nat * completion) :=
  match ch with 0%nat => [(5%nat, Page 0)] | 2%nat => [(7%nat, Erased); (9%nat, Collected)] | _ => [] end.

Lemma cq_polling_drains_witness :
  let out := foldl (complete (prod_map S id) (prod_map id S)) (b_hcl demo_board, [], (0, 0)%nat) (rounds 2 demo_new).*2 in
  (back out, out.2) = ([0%nat], (1, 1)%nat) ∧
  ∃ s', for_M 2 O (λ _, FTL_CQ_polling (prod_map S id) (prod_map id S)) demo_board = Some (tt, s') ∧
    b_hcl s' = out.1.1 ∧ tqs_rep (b_tq s') (<[3%nat := back out]> (λ _, [])) ∧ b_rest s' = out.2 ∧
    (∀ ch i, (ch < 4)%nat → (i < 256)%nat → sq_used ch (b_hw s') i =
       negb (bool_decide (i ∈ (take 2 (demo_new ch)).*1)) && sq_used ch (b_hw demo_board) i) ∧
    ((∀ ch, (ch < 4)%nat → (length (demo_new ch) ≤ 2)%nat) →
     FTL_CQ_polling (prod_map S id) (prod_map id S) s' = Some (tt, s')).
Proof.
  split; [by vm_compute|].
  apply (cq_polling_drains (prod_map S id) (prod_map id S) demo_logs (λ _, 0%nat) (λ _, []) demo_board demo_new 2 demo_core1_rep).
  - intros ch Hch. do 4 (destruct ch as [|ch]; [split; [simpl; lia|by vm_compute]|]). lia.
  - vm_compute. lia.
Defined.
