(* ===== verification/EmuIo.v ===== *)
(** * The host's I/O engine (src/fio4emu/engines/emu_io.c)

    fio's threads run the engine's calls under one process mutex and the lock of
    the shared segment.  A lock that is held makes the call wait for ever when
    nobody else releases it: it has no result.  While a caller sleeps between
    two tries for a free slot the firmware and other processes work on the
    segment: [env n] is what they did during the [n]-th sleep.  fio's own calls
    (fio_ro_check, do_io_u_sync, do_io_u_trim, generic_close_file) do not touch
    the segment; their results and those of the system calls are arguments. *)
From stdpp Require Import functions.
From S2P Require Import Prelude CInt Config Shm.
#[local] Open Scope Z_scope.

Record engine := Engine {
  mu : bool;                          (** the mutex is held *)
  eng_shm : shm;
  eng_c : Z;                          (** static c *)
  eng_data : option (Z * option Z);   (** FILE_ENG_DATA: descriptor and mapping *)
  real_file_size : Z;
}.
#[export] Instance engine_eta : Settable engine := λ r,
  Engine (mu r) (eng_shm r) (eng_c r) (eng_data r) (real_file_size r).

Definition pthread_mutex_lock : M engine unit :=
  λ s, if mu s then None else Some (tt, s <| mu := true |>).
Definition pthread_mutex_unlock : M engine unit := modify (λ s, s <| mu := false |>).
(** An operation on the segment. *)
Definition on_segment (f : shm → option shm) : M engine unit :=
  try_mod (λ s, m ← f (eng_shm s); Some (s <| eng_shm := m |>)).

Inductive fio_ddir := DDIR_READ | DDIR_WRITE | DDIR_TRIM | DDIR_OTHER.

Definition send_cmd_to_shm (offset data_len op : Z) : M engine unit :=
  let lpn0 := u64 offset / HOST_BLOCK_SIZE in
  victim_slot_index ← (λ s, '(i, m) ← shm_list_remove_x64 FREE_LIST (eng_shm s);
                            Some (i, s <| eng_shm := m |>));
  _ ← modify (λ s, s <| eng_c := eng_c s + 1 |>);
  _ ← on_segment (λ m,
        slot_set victim_slot_index
          (λ c, c <| lpn := u32 lpn0 |> <| ops := op |> <| size := u32 data_len |>) m);
  on_segment (shm_list_add_x64 victim_slot_index RDY_LIST).

(** [while (shm_list_empty_x64(FREE)) { shm_release; usleep; shm_get }] *)
Fixpoint wait_free (fuel : nat) (env : nat → shm → shm) (n : nat) : M engine unit :=
  match fuel with
  | O => undef
  | S fuel' => λ s,
      if decide (shm_list_empty_x64 FREE_LIST (eng_shm s) = 1)
      then (_ ← on_segment (λ m, Some (shm_release m));
            _ ← on_segment (λ m, Some (env n m));
            _ ← on_segment shm_get;
            wait_free fuel' env (S n)) s
      else Some (tt, s)
  end.

Definition fio_emussd_queue (fuel : nat) (env : nat → shm → shm) (ddir : fio_ddir)
    (offset xfer_buflen : Z) : M engine unit :=
  _ ← pthread_mutex_lock;
  _ ← on_segment shm_get;
  _ ← wait_free fuel env O;
  match ddir with
  | DDIR_TRIM => mret tt     (* returns at once *)
  | _ =>
      _ ← match ddir with
          | DDIR_READ => send_cmd_to_shm offset xfer_buflen SHM_READ_OPS
          | DDIR_WRITE => send_cmd_to_shm offset xfer_buflen SHM_WRITE_OPS
          | _ => mret tt
          end;
      _ ← pthread_mutex_unlock;
      on_segment (λ m, Some (shm_release m))
  end.

(** [fd], [truncated], [mapped]: the results of shm_open, ftruncate and mmap. *)
Definition fio_emussd_open_file (fd truncated : Z) (mapped : option Z) : M engine Z :=
  _ ← pthread_mutex_lock;
  if decide (fd = -1) then mret 1
  else if decide (truncated = -1) then mret 1
  else match mapped with
       | None => mret 1
       | Some base =>
           _ ← modify (λ s, s <| eng_data := Some (fd, Some base) |>);
           _ ← pthread_mutex_unlock;
           mret 0
       end.

Definition fio_emussd_close_file (generic : Z) : M engine Z :=
  _ ← pthread_mutex_lock;
  _ ← modify (λ s, s <| eng_data := None |>);
  _ ← pthread_mutex_unlock;
  mret generic.

Definition get_emussd_size : M engine Z :=
  _ ← modify (λ s, s <| real_file_size := EMU_SSD_SIZE |>); mret 0.

(** ** A request *)
Lemma on_segment_run f s m : f (eng_shm s) = Some m → on_segment f s = Some (tt, s <| eng_shm := m |>).
Proof. intros E. unfold on_segment, try_mod. by rewrite E. Qed.

(** The engine's request with a slot free is one [host_submit]. *)
Lemma send_is_submit op offset len s i f r p m0 :
  shm_lists m0 (abs (i :: f) r p) → ctrl m0 = 0 → shm_get m0 = Some (eng_shm s) →
  ∃ m, send_cmd_to_shm offset len op s = Some (tt, s <| eng_c := eng_c s + 1 |> <| eng_shm := m |>) ∧
    host_submit op (u32 (u64 offset / HOST_BLOCK_SIZE)) (u32 len) m0 = Some (i, shm_release m).
Proof.
  intros Hl Hc Hg.
  destruct (host_submit_spec m0 i f r p op (u32 (u64 offset / HOST_BLOCK_SIZE)) (u32 len) Hl Hc)
    as (m' & E & _). pose proof E as E'. unfold host_submit in E. rewrite Hg in E.
  cbn [mbind option_bind] in E. case_decide as Hne; [done|].
  destruct (shm_list_remove FREE_LIST (eng_shm s)) as [[i' m1]|] eqn:E1; [|done].
  cbn [mbind option_bind] in E.
  destruct (slot_set i' _ m1) as [m2|] eqn:E2; [|done]. cbn [mbind option_bind] in E.
  destruct (shm_list_add i' RDY_LIST m2) as [m3|] eqn:E3; [|done]. cbn [mbind option_bind] in E.
  injection E as -> Em. exists m3. split; [|by rewrite E', Em].
  unfold send_cmd_to_shm.
  rewrite (bind_run _ _ s i (s <| eng_shm := m1 |>))
    by by rewrite (proj2 (proj2 (shm_x64_same (eng_shm s) FREE_LIST i))), E1.
  erewrite bind_run by reflexivity.
  erewrite bind_run by (apply on_segment_run; exact E2).
  by erewrite on_segment_run by (rewrite (proj1 (proj2 (shm_x64_same _ RDY_LIST i))); exact E3).
Qed.

(** The segment after [k] sleeps that began with it in state [m]. *)
Fixpoint after (env : nat → shm → shm) (m : shm) (k : nat) : shm :=
  match k with
  | O => m
  | S k' => env k' (after env m k')
  end.

(** While the caller sleeps it does not hold the lock and the segment is as it
    found it; it wakes up with the lock and looks again. *)
Lemma wait_free_run env m n f r p i s :
  (∀ k, (k ≤ n)%nat → ctrl (after env m k) = 0) →
  (∀ k, (k < n)%nat → shm_list_empty FREE_LIST (after env m k) = 1) →
  shm_lists (after env m n) (abs (i :: f) r p) →
  ∀ d k, (k + d = n)%nat →
  wait_free (S d) env k (s <| eng_shm := (after env m k) <| ctrl := 1 |> |>) =
    Some (tt, s <| eng_shm := (after env m n) <| ctrl := 1 |> |>).
Proof.
  intros Hc He Hl d. induction d as [|d IH]; intros k Hk.
  - assert (k = n) as -> by lia. cbn [wait_free]. rewrite decide_False; [done|].
    cbn [set_field_of eng_shm]. rewrite (proj1 (shm_x64_same _ _ 0)).
    destruct Hl as (_ & Hrep & _). pose proof (shm_list_empty_spec _ _ _ (Hrep FREE_LIST)) as E.
    unfold shm_list_empty in *. cbn [set_field_of heads] in *. by rewrite E.
  - remember (S d) as d1 eqn:Ed. cbn [wait_free]. rewrite decide_True by (apply (He k); lia).
    subst d1.
    erewrite bind_run by (apply on_segment_run; reflexivity).
    erewrite bind_run by (apply on_segment_run; reflexivity).
    cbn [set_field_of eng_shm]. unfold shm_release. cbn [set_field_of ctrl slots heads].
    assert (Shm (slots (after env m k)) (heads (after env m k)) 0 = after env m k) as Em.
    { pose proof (Hc k ltac:(lia)) as E0. destruct (after env m k). simpl in *. by subst. }
    rewrite Em.
    erewrite bind_run by (apply on_segment_run; unfold shm_get;
      rewrite decide_True by (apply (Hc (S k)); lia); reflexivity).
    cbn [set_field_of mu eng_shm eng_c eng_data real_file_size]. apply IH. lia.
Qed.

(** C19. A read or a write through the engine waits for a free slot, however often it
    has to, and then does what one [host_submit] does to the segment it finds,
    with the offset in blocks and the length cut to 32 bits; both locks are free
    again. *)
Theorem emussd_queue_submits op ddir env n offset len s i f r p :
  (ddir = DDIR_READ ∧ op = SHM_READ_OPS ∨ ddir = DDIR_WRITE ∧ op = SHM_WRITE_OPS) →
  mu s = false →
  (∀ k, (k ≤ n)%nat → ctrl (after env (eng_shm s) k) = 0) →
  (∀ k, (k < n)%nat → shm_list_empty FREE_LIST (after env (eng_shm s) k) = 1) →
  shm_lists (after env (eng_shm s) n) (abs (i :: f) r p) →
  ∃ m, host_submit op (u32 (u64 offset / HOST_BLOCK_SIZE)) (u32 len) (after env (eng_shm s) n) =
      Some (i, m) ∧
    fio_emussd_queue (S n) env ddir offset len s =
      Some (tt, s <| eng_shm := m |> <| eng_c := eng_c s + 1 |>).
Proof.
  intros Hop Hmu Hc He Hl. set (mn := after env (eng_shm s) n) in *.
  pose proof (wait_free_run env (eng_shm s) n f r p i (s <| mu := true |>) Hc He Hl n O eq_refl) as Hw.
  fold mn in Hw. cbn [after] in Hw.
  destruct (send_is_submit op offset len (s <| mu := true |> <| eng_shm := mn <| ctrl := 1 |> |>) i f r p mn)
    as (m & Es & Eh); [done|by apply (Hc n)|unfold shm_get; by rewrite decide_True by (by apply (Hc n))|].
  exists (shm_release m). split; [exact Eh|]. unfold fio_emussd_queue.
  erewrite bind_run by (unfold pthread_mutex_lock; by rewrite Hmu).
  erewrite bind_run by (apply on_segment_run; unfold shm_get;
    rewrite decide_True by (apply (Hc O); lia); reflexivity).
  erewrite bind_run by exact Hw.
  destruct Hop as [[E1 E2]|[E1 E2]]; subst ddir op; erewrite bind_run by exact Es;
    (erewrite bind_run by reflexivity); erewrite on_segment_run by reflexivity;
    cbn [set_field_of mu eng_shm eng_c eng_data real_file_size]; by rewrite Hmu.
Qed.

(** ** Locks that are not given back *)
(** C20. A trim returns with both locks held, and opening a file that fails returns
    with the mutex held.  After a trim the firmware never gets a command again;
    after either, no request of this process returns. *)
Theorem locks_lost env fuel offset len s :
  mu s = false → ctrl (eng_shm s) = 0 → shm_list_empty FREE_LIST (eng_shm s) = 0 →
  (∃ s', fio_emussd_queue (S fuel) env DDIR_TRIM offset len s = Some (tt, s') ∧
     SHM_get_rdy_list (eng_shm s') = None ∧
     ∀ fuel' env' ddir o l, fio_emussd_queue fuel' env' ddir o l s' = None) ∧
  (∀ fd truncated mapped, fd = -1 ∨ truncated = -1 ∨ mapped = None →
   ∃ s', fio_emussd_open_file fd truncated mapped s = Some (1, s') ∧
     (∀ fuel' env' ddir o l, fio_emussd_queue fuel' env' ddir o l s' = None) ∧
     ∀ fd' t' m', fio_emussd_open_file fd' t' m' s' = None).
Proof.
  intros Hmu Hc He. split.
  - exists (s <| mu := true |> <| eng_shm := (eng_shm s) <| ctrl := 1 |> |>). split_and!.
    + unfold fio_emussd_queue. erewrite bind_run by (unfold pthread_mutex_lock; by rewrite Hmu).
      erewrite bind_run by (apply on_segment_run; unfold shm_get; by rewrite decide_True by exact Hc).
      erewrite bind_run; [reflexivity|]. cbn [wait_free]. rewrite decide_False; [reflexivity|].
      rewrite (proj1 (shm_x64_same _ _ 0)). unfold shm_list_empty in *.
      cbn [set_field_of eng_shm heads] in *. by rewrite He.
    + done.
    + done.
  - intros fd truncated mapped Hf. exists (s <| mu := true |>). split_and!; [|done|done].
    unfold fio_emussd_open_file. erewrite bind_run by (unfold pthread_mutex_lock; by rewrite Hmu).
    repeat case_decide; try done. destruct Hf as [Ef|[Ef|Ef]]; by subst.
Qed.

Definition fresh_engine (m : shm) : engine := Engine false m 0 None 0.

Lemma init_segment :
  ∃ m f, SHM_init = Some m ∧ shm_lists m (abs (0 :: f) [] []) ∧ ctrl m = 0.
Proof.
  destruct SHM_init_spec as (m & E & Hc & Hl). exists m, (seqZ 1 255).
  split_and!; [exact E| |exact Hc]. unfold CMD_SLOT_NUM in Hl.
  rewrite (seqZ_cons 0 256) in Hl by lia. exact Hl.
Qed.

(** The first write of a block to a fresh segment. *)
Lemma emussd_queue_submits_witness :
  ∃ m0 m, SHM_init = Some m0 ∧ host_submit SHM_WRITE_OPS 2 16384 m0 = Some (0, m) ∧
    fio_emussd_queue 1 (λ _ m, m) DDIR_WRITE 8192 16384 (fresh_engine m0) =
      Some (tt, Engine false m 1 None 0).
Proof.
  destruct init_segment as (m0 & f & Ei & Hl & Hc).
  destruct (emussd_queue_submits SHM_WRITE_OPS DDIR_WRITE (λ _ m, m) 0 8192 16384 (fresh_engine m0)
    0 f [] []) as (m & E1 & E2).
  - right. split; reflexivity.
  - reflexivity.
  - intros [|k] Hk; [exact Hc|lia].
  - lia.
  - exact Hl.
  - exists m0, m. split; [exact Ei|]. split; [exact E1|exact E2].
Defined.

Lemma locks_lost_witness :
  ∃ m0 s', SHM_init = Some m0 ∧
    fio_emussd_queue 1 (λ _ m, m) DDIR_TRIM 0 4096 (fresh_engine m0) = Some (tt, s') ∧
    SHM_get_rdy_list (eng_shm s') = None.
Proof.
  destruct init_segment as (m0 & f & Ei & Hl & Hc).
  destruct (locks_lost (λ _ m, m) 0 0 4096 (fresh_engine m0)) as [(s' & E & Hs & _) _].
  - reflexivity.
  - exact Hc.
  - destruct Hl as (_ & Hrep & _). exact (shm_list_empty_spec _ _ _ (Hrep FREE_LIST)).
  - exists m0, s'. split; [exact Ei|]. split; [exact E|exact Hs].
Defined.
