(* ===== verification/Lock.v ===== *)
(** * Spin locks (src/lib/lock.c)

    On the board a lock is taken by an exclusive load and store (ldrex, strexeq)
    in a loop and given back by a plain store; in the emulator the routines are
    empty.  [spin_step] interleaves the instructions of the cores that use one
    lock word: an exclusive store succeeds only while the core's monitor is
    open, and every store to the word closes the monitors. *)
From stdpp Require Import functions.
From S2P Require Import Prelude CInt Config Bus.
#[local] Open Scope Z_scope.

(** ** Initialisation *)
Definition init_spin_lock (g_spin_lock : Z) : M ram unit := out32 g_spin_lock 0.

(** The lock words, in the order of init_all_spin_lock. *)
Definition spin_lock_words (mem_base : Z) : list Z :=
  GLOBAL_SPIN_LOCK_1_ADDR mem_base ::
  map (λ i, CH_SQ_SPIN_LOCK mem_base + Z.of_nat i * SPIN_LOCK_SZ) (seq 0 (Z.to_nat TOTAL_CHANNEL)) ++
  [TQ_FROMCQ_SPIN_LOCK mem_base].

Definition init_all_spin_lock (mem_base : Z) : M ram unit :=
  _ ← init_spin_lock (GLOBAL_SPIN_LOCK_1_ADDR mem_base);
  _ ← for_M (Z.to_nat TOTAL_CHANNEL) O (λ i : nat,
        init_spin_lock (CH_SQ_SPIN_LOCK mem_base + Z.of_nat i * SPIN_LOCK_SZ));
  init_spin_lock (TQ_FROMCQ_SPIN_LOCK mem_base).

(** ** One lock word, several cores *)
Section spin.
Context {T : Type} `{EqDecision T}.

(** Where a core is: outside, before the ldrex, after it with the loaded word in
    its register, or past get_spin_lock. *)
Inductive lock_pc := Outside | Trying | Loaded (temp : Z) | Inside.

Record spin := Spin { word : Z; monitor : T → bool; pc : T → lock_pc }.

Definition at_pc (t : T) (p : lock_pc) (s : spin) : spin := Spin (word s) (monitor s) (<[t := p]> (pc s)).
(** A store to the lock word closes every monitor on it. *)
Definition store (v : Z) (s : spin) : spin := Spin v (λ _, false) (pc s).

(** get_spin_lock: [1: ldrex; teq #0; strexeq 1; teqeq #0; bne 1b], then
    release_spin_lock: a store of 0. *)
Inductive spin_step : spin → spin → Prop :=
| Spin_call t s : pc s t = Outside → spin_step s (at_pc t Trying s)
| Spin_ldrex t s : pc s t = Trying →
    spin_step s (at_pc t (Loaded (word s)) (Spin (word s) (<[t := true]> (monitor s)) (pc s)))
| Spin_taken t temp s : pc s t = Loaded temp → temp ≠ 0 → spin_step s (at_pc t Trying s)
| Spin_strex t s : pc s t = Loaded 0 → monitor s t = true → spin_step s (at_pc t Inside (store 1 s))
| Spin_strex_fails t s : pc s t = Loaded 0 → monitor s t = false → spin_step s (at_pc t Trying s)
| Spin_release t s : pc s t = Inside → spin_step s (at_pc t Outside (store 0 s)).

(** The word says whether a core is inside; at most one is; a core whose monitor
    is open has loaded the word's present value. *)
Record spin_inv (s : spin) : Prop := SpinInv {
  spin_word : word s = 0 ∧ (∀ t, pc s t ≠ Inside) ∨
              word s = 1 ∧ ∃ t, pc s t = Inside ∧ ∀ t', pc s t' = Inside → t' = t;
  spin_loaded t temp : pc s t = Loaded temp → monitor s t = true → temp = word s;
}.

Lemma at_pc_inv t p s :
  spin_inv s → pc s t ≠ Inside → p ≠ Inside →
  (∀ temp, p = Loaded temp → monitor s t = true → temp = word s) → spin_inv (at_pc t p s).
Proof.
  intros [Hw Hl] Ht Hp Hload. split; simpl.
  - destruct Hw as [[Hw Hno]|(Hw & u & Hu & Hun)]; [left|right]; (split; [done|]).
    + intros t'. destruct (decide (t' = t)) as [->|]; [by rewrite fn_lookup_insert|].
      by rewrite fn_lookup_insert_ne.
    + exists u. assert (u ≠ t) by congruence. rewrite fn_lookup_insert_ne by done.
      split; [done|]. intros t'. destruct (decide (t' = t)) as [->|]; [by rewrite fn_lookup_insert|].
      rewrite fn_lookup_insert_ne by done. apply Hun.
  - intros t' temp. destruct (decide (t' = t)) as [->|]; [rewrite fn_lookup_insert; auto|].
    rewrite fn_lookup_insert_ne by done. apply Hl.
Qed.

Lemma spin_step_inv s s' : spin_step s s' → spin_inv s → spin_inv s'.
Proof.
  intros Hst Hi. pose proof Hi as [Hw Hl].
  destruct Hst as [t s E|t s E|t temp s E Ht|t s E Hm|t s E Hm|t s E];
    [by apply at_pc_inv; rewrite ?E| |by apply at_pc_inv; rewrite ?E| |by apply at_pc_inv; rewrite ?E|].
  - apply at_pc_inv; simpl; [|by rewrite E|done|by intros ? [= <-]].
    split; [exact Hw|]. simpl. intros t' temp Ht'. destruct (decide (t' = t)) as [->|]; [congruence|].
    rewrite fn_lookup_insert_ne by done. by apply Hl.
  - assert (word s = 0) as E0 by (symmetry; by apply (Hl t)).
    destruct Hw as [[_ Hno]|[Hw _]]; [|congruence]. split; simpl; [|done].
    right. split; [done|]. exists t. rewrite fn_lookup_insert. split; [done|].
    intros t'. destruct (decide (t' = t)) as [|]; [done|]. rewrite fn_lookup_insert_ne by done.
    intros Ht'. by destruct (Hno t').
  - destruct Hw as [[_ Hno]|(_ & u & Hu & Hun)]; [by destruct (Hno t)|].
    split; simpl; [|done]. left. split; [done|]. intros t'.
    destruct (decide (t' = t)) as [->|Hne]; [by rewrite fn_lookup_insert|].
    rewrite fn_lookup_insert_ne by done. intros Ht'. destruct Hne.
    by rewrite (Hun t' Ht'), (Hun t E).
Qed.

(** The word after init_spin_lock, no core in the routines. *)
Definition spin_init : spin := Spin 0 (λ _, false) (λ _, Outside).

Lemma spin_reachable_inv s : rtc spin_step spin_init s → spin_inv s.
Proof.
  assert (spin_inv spin_init) as H0 by (split; [by left|done]). revert H0. generalize spin_init.
  intros s0 H0 Hr. induction Hr; [done|]. eauto using spin_step_inv.
Qed.

(** C21. Under every interleaving of the cores' instructions, at most one core is
    between get_spin_lock and release_spin_lock. *)
Theorem spin_lock_mutex s t t' :
  rtc spin_step spin_init s → pc s t = Inside → pc s t' = Inside → t = t'.
Proof.
  intros [[[_ Hno]|(_ & u & _ & Hu)] _]%spin_reachable_inv Ht Ht'; [by destruct (Hno t)|].
  by rewrite (Hu t Ht), (Hu t' Ht').
Qed.
(** A core whose ldrex and strex run back to back while the lock is free gets it:
    the loop is not stuck on a stale monitor. *)
Theorem spin_lock_acquires s t :
  rtc spin_step spin_init s → pc s t = Trying → (∀ t', pc s t' ≠ Inside) →
  ∃ s', rtc spin_step s s' ∧ pc s' t = Inside ∧ word s' = 1.
Proof.
  intros [[[Hw _]|(_ & u & Hu & _)] _]%spin_reachable_inv Ht Hno; [|by destruct (Hno u)].
  eexists. split_and!.
  - eapply rtc_l; [by apply (Spin_ldrex t)|]. eapply rtc_once, (Spin_strex t); simpl.
    + by rewrite fn_lookup_insert, Hw.
    + by rewrite fn_lookup_insert.
  - simpl. by rewrite fn_lookup_insert.
  - done.
Qed.
End spin.
#[global] Arguments spin : clear implicits.

(** Core 0 of two has taken the lock. *)
Lemma core0_inside : ∃ s : spin bool, rtc spin_step spin_init s ∧ pc s false = Inside.
Proof.
  eexists. split.
  - eapply rtc_l; [by apply (Spin_call false)|]. eapply rtc_l; [by apply (Spin_ldrex false)|].
    eapply rtc_once, (Spin_strex false); by rewrite ?fn_lookup_insert.
  - done.
Qed.

Lemma spin_lock_mutex_witness :
  ∃ s : spin bool, rtc spin_step spin_init s ∧ ∀ t, pc s t = Inside → t = false.
Proof.
  destruct core0_inside as (s & Hr & Hin). exists s. split; [exact Hr|].
  intros t Ht. exact (spin_lock_mutex s t false Hr Ht Hin).
Defined.

Lemma spin_lock_acquires_witness :
  ∃ s' : spin bool, rtc spin_step (at_pc true Trying spin_init) s' ∧ pc s' true = Inside ∧ word s' = 1.
Proof.
  apply (spin_lock_acquires (at_pc true Trying spin_init) true).
  - apply rtc_once. by apply (Spin_call true).
  - reflexivity.
  - intros []; discriminate.
Defined.

(** ** The lock words *)
Lemma out_ram_words r a :
  ram_ok r (u32 a) →
  init_spin_lock a r = Some (tt, Ram (ram_lo r) (ram_len r) (<[u32 a := 0]> (ram_words r))).
Proof. intros. unfold init_spin_lock. by rewrite ram_out. Qed.

(** The DRAM of the firmware: 1 GB at a word boundary. *)
Definition dram_window (mem_base : Z) (r : ram) : Prop :=
  0 ≤ mem_base ∧ mem_base mod 4 = 0 ∧ ram_lo r ≤ mem_base ∧
  mem_base + 1 * GB ≤ ram_lo r + ram_len r ≤ 4294967296.

Lemma lock_words_eq mem_base :
  spin_lock_words mem_base = map (λ i, mem_base + 5 * MB + 4 * Z.of_nat i) (seq 0 6).
Proof.
  unfold spin_lock_words, TQ_FROMCQ_SPIN_LOCK, CH_SQ_SPIN_LOCK, GLOBAL_SPIN_LOCK_1_ADDR, SPIN_LOCK_SZ,
    TOTAL_CHANNEL.
  change (seq 0 (Z.to_nat 4)) with [0; 1; 2; 3]%nat. change (seq 0 6) with [0; 1; 2; 3; 4; 5]%nat.
  simpl map. simpl app. repeat (f_equal; try lia).
Qed.

Lemma init_words_run mem_base r l :
  dram_window mem_base r → (∀ a, a ∈ l → ∃ i, (i < 6)%nat ∧ a = mem_base + 5 * MB + 4 * Z.of_nat i) →
  ∃ r', foldr (λ a m, _ ← init_spin_lock a; m) (mret tt) l r = Some (tt, r') ∧
    ram_lo r' = ram_lo r ∧ ram_len r' = ram_len r ∧
    ∀ a, ram_get r' a = if decide (a ∈ l) then 0 else ram_get r a.
Proof.
  intros Hw. revert r Hw. induction l as [|a l IH]; intros r Hw Hl.
  - exists r. split_and!; [done..|]. intros a. by rewrite decide_False by apply not_elem_of_nil.
  - destruct (Hl a ltac:(left)) as (i & Hi & Ha).
    destruct Hw as (H0 & Hal & Hlo & Hhi & Hmax).
    change (1 * GB) with 1073741824 in Hhi. change (5 * MB) with 5242880 in Ha.
    assert (u32 a = a) as Eu by (apply u32_small; lia).
    cbn [foldr]. erewrite bind_run by (apply out_ram_words; rewrite Eu; unfold ram_ok; split_and!; dlia).
    rewrite Eu. destruct (IH (Ram (ram_lo r) (ram_len r) (<[a := 0]> (ram_words r)))) as (r' & E & E1 & E2 & Hg).
    + unfold dram_window. simpl. change (1 * GB) with 1073741824. lia.
    + intros b Hb. apply Hl. by right.
    + exists r'. split_and!; [done..|]. intros b. rewrite Hg.
      destruct (decide (b = a)) as [->|Hne].
      * rewrite (decide_True (P := a ∈ a :: l)) by left. case_decide; [done|].
        unfold ram_get. simpl. by rewrite lookup_insert_eq.
      * unfold ram_get. simpl. rewrite lookup_insert_ne by done.
        destruct (decide (b ∈ l)); [by rewrite decide_True by by right|].
        by rewrite decide_False by by rewrite elem_of_cons; intros [?|?].
Qed.

(** init_all_spin_lock leaves the six lock words 0 and every other word of the
    DRAM as it was; no two locks share a word. *)
Theorem init_all_spin_lock_spec mem_base r :
  dram_window mem_base r →
  NoDup (spin_lock_words mem_base) ∧
  ∃ r', init_all_spin_lock mem_base r = Some (tt, r') ∧
    ∀ a, ram_get r' a = if decide (a ∈ spin_lock_words mem_base) then 0 else ram_get r a.
Proof.
  intros Hw. split.
  - rewrite lock_words_eq. apply NoDup_fmap_2; [|apply NoDup_seq]. intros i j. lia.
  - destruct (init_words_run mem_base r (spin_lock_words mem_base) Hw) as (r' & E & _ & _ & Hg).
    + intros a. rewrite lock_words_eq. intros (i & -> & Hi%elem_of_seq)%list_elem_of_fmap. exists i. split; [lia|done].
    + exists r'. split; [|exact Hg]. rewrite <- E. clear.
      unfold init_all_spin_lock, spin_lock_words.
      change (Z.to_nat TOTAL_CHANNEL) with 4%nat. cbn [for_M seq map app foldr].
      unfold mbind, M_bind, mret, M_ret. 
      repeat (destruct (init_spin_lock _ _) as [[[] ?]|]; cbn [mbind option_bind]; [|reflexivity]).
      reflexivity.
Qed.

Lemma init_all_spin_lock_spec_witness :
  NoDup (spin_lock_words 0) ∧
  ∃ r', init_all_spin_lock 0 (Ram 0 (1 * GB) ∅) = Some (tt, r') ∧
    ∀ a, ram_get r' a = if decide (a ∈ spin_lock_words 0) then 0 else ram_get (Ram 0 (1 * GB) ∅) a.
Proof. apply (init_all_spin_lock_spec 0). split_and!; by vm_compute. Defined.
