(* ===== verification/Contracts.v ===== *)
(** * Component contracts: sequences of calls

    What the lists, the task queues and the two tables promise to a client that
    calls them any number of times, each against an executable reference: a
    sequence of nodes, a bounded queue of numbers, the set of numbers in use. *)
From stdpp Require Import functions.
From S2P Require Import Prelude CInt Bitmap Config ListHeap Shm Buffer Hcl TaskQueue FlashLog Fcl.
#[local] Open Scope Z_scope.

(** ** Intrusive lists (src/lib/list.c) *)
Section lists.
Context {ptr : Type} `{Countable ptr}.
Abbreviation heap := (gmap ptr (list_node ptr)).
Implicit Types (h : heap) (head x : ptr) (l : list ptr).

Inductive list_op :=
  | Add_tail (x : ptr) | Add_head (x : ptr) | Delete (x : ptr)
  | Delete_head | Delete_tail | Move_head (x : ptr) | Move_tail_to_head.

Definition list_call head (o : list_op) : heap → option heap :=
  match o with
  | Add_tail x => list_add_tail (Some x) (Some head)
  | Add_head x => list_add_head (Some x) (Some head)
  | Delete x => list_delete (Some x)
  | Delete_head => list_delete_head (Some head)
  | Delete_tail => list_delete_tail (Some head)
  | Move_head x => list_move_head (Some x) (Some head)
  | Move_tail_to_head => list_move_tail_to_head (Some head)
  end.

(** The same call on the sequence of nodes; [None] where its use is wrong: a node
    added twice, one moved that is not there, an empty list shortened. *)
Definition remove_node x l : list ptr := filter (λ y, y ≠ x) l.
Definition seq_call (known : list ptr) (o : list_op) l : option (list ptr) :=
  match o with
  | Add_tail x => if decide (x ∈ known ∧ x ∉ l) then Some (l ++ [x]) else None
  | Add_head x => if decide (x ∈ known ∧ x ∉ l) then Some (x :: l) else None
  | Delete x => if decide (x ∈ l) then Some (remove_node x l) else None
  | Delete_head => match l with [] => None | _ :: l' => Some l' end
  | Delete_tail => match l with [] => None | _ => Some (removelast l) end
  | Move_head x => if decide (x ∈ l) then Some (x :: remove_node x l) else None
  | Move_tail_to_head => match last l with None => None | Some x => Some (x :: removelast l) end
  end.

Fixpoint calls {S O} (f : O → S → option S) (os : list O) (s : S) : option S :=
  match os with
  | [] => Some s
  | o :: os' => s' ← f o s; calls f os' s'
  end.

Lemma remove_node_none x l : x ∉ l → remove_node x l = l.
Proof.
  unfold remove_node. induction l as [|y l IH]; [done|]. rewrite not_elem_of_cons. intros [Hy Hl].
  rewrite filter_cons_True by congruence. by rewrite IH.
Qed.

Lemma remove_node_mid x l1 l2 : NoDup (l1 ++ x :: l2) → remove_node x (l1 ++ x :: l2) = l1 ++ l2.
Proof.
  intros Hnd. apply not_elem_of_NoDup_app_cons in Hnd as [H1 H2]. unfold remove_node.
  rewrite filter_app, filter_cons_False by auto. f_equal.
  - by apply remove_node_none.
  - by apply remove_node_none.
Qed.

Lemma list_call_seq known h head o l l' :
  is_list h head l → (∀ x, x ∈ known → allocated h x ∧ x ≠ head) → seq_call known o l = Some l' →
  ∃ h', list_call head o h = Some h' ∧ is_list h' head l' ∧
    (∀ x, x ∈ known → allocated h' x ∧ x ≠ head).
Proof.
  intros Hl Hk Hs. pose proof Hl as [Hnd _]. apply NoDup_cons in Hnd as [Hhead Hnd].
  assert (∀ h', same_dom h h' → ∀ x, x ∈ known → allocated h' x ∧ x ≠ head) as Hk'.
  { intros h' Hd x Hx. destruct (Hk x Hx) as [Ha Hne]. split; [|done]. by apply Hd. }
  assert (∀ x, x ∈ known → x ∉ l → x ∉ head :: l) as Hnew.
  { intros x Hx Hxl. rewrite not_elem_of_cons. split; [by apply Hk|done]. }
  destruct o as [x|x|x| | |x|]; simpl in *; repeat case_decide; destruct_and?; simplify_eq.
  - destruct (list_add_tail_spec h head l x Hl) as (h' & ? & ? & _ & Hd); [by apply Hk|auto|].
    exists h'. auto.
  - destruct (list_add_head_spec h head l x Hl) as (h' & ? & ? & _ & Hd); [by apply Hk|auto|].
    exists h'. auto.
  - apply list_elem_of_split in H0 as (l1 & l2 & ->). rewrite remove_node_mid by done.
    destruct (list_delete_spec h head l1 x l2 Hl) as (h' & ? & ? & _ & _ & Hd). exists h'. auto.
  - destruct l as [|x l]; simplify_eq.
    destruct (list_delete_head_spec h head x l' Hl) as (h' & ? & ? & _ & _ & Hd). exists h'. auto.
  - destruct (list_snoc_inv l) as [->|(l1 & x & ->)]; [done|].
    rewrite removelast_last in Hs. assert (l' = l1) as -> by (destruct l1; simpl in Hs; congruence).
    destruct (list_delete_tail_spec h head l1 x Hl) as (h' & ? & ? & _ & _ & Hd). exists h'. auto.
  - apply list_elem_of_split in H0 as (l1 & l2 & ->). rewrite remove_node_mid by done.
    destruct (list_move_head_spec h head l1 x l2 Hl) as (h' & ? & ? & _ & Hd). exists h'. auto.
  - destruct (list_snoc_inv l) as [->|(l1 & x & ->)]; [done|].
    rewrite last_snoc, removelast_last in Hs. simplify_eq.
    destruct (list_move_tail_to_head_spec h head l1 x Hl) as (h' & ? & ? & _ & Hd). exists h'. auto.
Qed.

(** C15. Any sequence of correct calls of list.c on one head does to the circular list
    what it does to the sequence of its nodes; no call is undefined. *)
Theorem list_calls_refine known h head os l l' :
  is_list h head l → (∀ x, x ∈ known → allocated h x ∧ x ≠ head) →
  calls (seq_call known) os l = Some l' →
  ∃ h', calls (list_call head) os h = Some h' ∧ is_list h' head l'.
Proof.
  revert h l. induction os as [|o os IH]; intros h l Hl Hk Hs; simpl in *.
  - simplify_eq. eauto.
  - destruct (seq_call known o l) as [l1|] eqn:E; [|done]. simpl in Hs.
    destruct (list_call_seq known h head o l l1 Hl Hk E) as (h1 & -> & Hl1 & Hk1). simpl. eauto.
Qed.
End lists.

(** A head 0 and three nodes: add all, move the middle one, take from both ends. *)
Lemma list_calls_refine_witness :
  ∃ h', calls (list_call 0%nat) [Add_tail 1; Add_tail 2; Add_head 3; Move_head 1; Delete_tail; Delete 3]%nat
      (list_to_map [(0%nat, Node (Some 0%nat) (Some 0%nat)); (1%nat, Node None None);
                    (2%nat, Node None None); (3%nat, Node None None)]) = Some h' ∧
    is_list h' 0%nat [1%nat].
Proof.
  apply (list_calls_refine [1; 2; 3]%nat _ 0%nat _ []).
  - split; [apply NoDup_singleton|]. split; reflexivity.
  - intros x Hx. rewrite !elem_of_cons in Hx. unfold allocated.
    destruct Hx as [->|[->|[->|Hx]]]; [split; [by eexists|done]..|by apply elem_of_nil in Hx].
  - reflexivity.
Defined.

(** ** Task queues (src/ftl/ftl_taskqueue.c) *)
Inductive queue_op := Send (x : nat) (status : Z) | Take (k : nat) | Count (k : nat).

Definition queue_call (h : hcl) (o : queue_op) (q : task_queues)
    : option ((Z + hcmd_ptr) * task_queues) :=
  match o with
  | Send x status => '(r, q) ← FTL_sendhcmd (Some x) status h q; Some (inl r, q)
  | Take k => '(p, q) ← FTL_task_queue_remove_head (Z.of_nat k) q; Some (inr p, q)
  | Count k => n ← FTL_get_taskqueue_cnt (Z.of_nat k) q; Some (inl n, q)
  end.

(** Six sequences of at most 256 commands each. *)
Definition fifo_call (o : queue_op) (F : nat → list nat) : (Z + hcmd_ptr) * (nat → list nat) :=
  match o with
  | Send x status =>
      let k := Z.to_nat status in
      if decide (0 ≤ status < 6 ∧ (length (F k) < 256)%nat)
      then (inl SUCCESS, <[k := F k ++ [x]]> F) else (inl FAIL, F)
  | Take k => match F k with [] => (inr None, F) | x :: l => (inr (Some x), <[k := l]> F) end
  | Count k => (inl (Z.of_nat (length (F k))), F)
  end.

(** The command exists, and the queue asked for does; for [HCE_INIT], see below. *)
Definition queue_op_ok (h : hcl) (o : queue_op) : Prop :=
  match o with
  | Send x status => is_Some (hcmd_load x h) ∧ status ≠ HCE_INIT
  | Take k | Count k => (k < 6)%nat
  end.

Lemma FTL_sendhcmd_bad h q x status e :
  hcmd_load x h = Some e → ¬ 0 ≤ status ≤ 6 → FTL_sendhcmd (Some x) status h q = Some (FAIL, q).
Proof.
  intros He Hs. unfold FTL_sendhcmd. simpl. rewrite He. simpl.
  by rewrite decide_True by (unfold HCE_INIT, HCE_CHECK_CACHE; lia).
Qed.

Lemma FTL_sendhcmd_init h q x : queue_call h (Send x HCE_INIT) q = None.
Proof. unfold queue_call, FTL_sendhcmd. cbn [mbind option_bind]. by destruct (hcmd_load x h). Qed.

Lemma queue_call_fifo h o q F :
  queue_op_ok h o → tqs_rep q F →
  ∃ q', queue_call h o q = Some ((fifo_call o F).1, q') ∧ tqs_rep q' (fifo_call o F).2.
Proof.
  destruct o as [x status|k|k]; cbn [queue_call fifo_call queue_op_ok]; intros Hok Hq.
  - destruct Hok as [[e He] Hi]. unfold HCE_INIT in Hi. destruct (decide (0 ≤ status < 6)) as [Hs|Hs].
    + assert (∃ k, status = Z.of_nat k ∧ (k < 6)%nat) as (k & -> & Hk) by (exists (Z.to_nat status); lia).
      rewrite (FTL_sendhcmd_eq h q x k e Hk He), Nat2Z.id.
      destruct (decide (length (F k) < 256)%nat) as [Hr|Hr].
      * rewrite decide_True by (split; [lia|exact Hr]).
        destruct (add_tail_spec q F k x Hq Hk Hr) as (q' & -> & Hq'). simpl. eauto.
      * rewrite decide_False by (intros [_ ?]; done).
        pose proof (qb_cap q F k Hq Hk). rewrite (add_tail_full q F k (Some x) Hq Hk) by lia. simpl. eauto.
    + rewrite decide_False by tauto. rewrite (FTL_sendhcmd_bad h q x status e He) by lia. simpl. eauto.
  - destruct (F k) as [|x l] eqn:E.
    + rewrite (remove_head_empty q F k Hq Hok E). simpl. eauto.
    + destruct (remove_head_spec q F k x l Hq Hok E) as (q' & -> & Hq'). simpl. eauto.
  - rewrite (get_cnt_spec q F k Hq Hok). simpl. eauto.
Qed.

(** C14. After [FTL_int_task_queue] any sequence of [FTL_sendhcmd], [remove_head] and
    [get_taskqueue_cnt] calls answers as six bounded first-in first-out queues do:
    FAIL from a full queue or for a number that is not a status, NULL from an empty
    queue.  The exception is [HCE_INIT], the one status without a queue: sending a command
    there reaches the end of the function without a value, so that the sequence has no
    result. *)
Theorem task_queue_fifo h os :
  Forall (queue_op_ok h) os →
  (∃ q, code_calls (queue_call h) os FTL_int_task_queue
         = Some ((spec_calls fifo_call os (λ _, [])).1, q) ∧
       tqs_rep q (spec_calls fifo_call os (λ _, [])).2) ∧
  ∀ x os', code_calls (queue_call h) (os ++ Send x HCE_INIT :: os') FTL_int_task_queue = None.
Proof.
  intros Hos.
  assert (∃ q, code_calls (queue_call h) os FTL_int_task_queue
    = Some ((spec_calls fifo_call os (λ _, [])).1, q) ∧ tqs_rep q (spec_calls fifo_call os (λ _, [])).2) as (q & E & Hq).
  { apply (calls_simulate (queue_op_ok h) tqs_rep); [|exact Hos|exact FTL_int_task_queue_rep].
    intros o s t. apply queue_call_fifo. }
  split; [by exists q|]. intros x os'. eapply calls_undefined; [exact E|]. apply FTL_sendhcmd_init.
Qed.

(** Two commands queued, a number that is no status, both taken, and one too many. *)
Lemma task_queue_fifo_witness :
  let h := snd HCL_init_host_cmd_entry_queue in
  let os := [Send 3 1; Send 200 1; Send 5 9; Count 1; Take 1; Take 1; Take 1] in
  (spec_calls fifo_call os (λ _, [])).1 =
    [inl SUCCESS; inl SUCCESS; inl FAIL; inl 2; inr (Some 3%nat); inr (Some 200%nat); inr None] ∧
  (∃ q, code_calls (queue_call h) os FTL_int_task_queue
         = Some ((spec_calls fifo_call os (λ _, [])).1, q) ∧
       tqs_rep q (spec_calls fifo_call os (λ _, [])).2) ∧
  ∀ x os', code_calls (queue_call h) (os ++ Send x HCE_INIT :: os') FTL_int_task_queue = None.
Proof.
  split; [vm_compute; reflexivity|]. apply task_queue_fifo.
  repeat apply List.Forall_cons; try apply List.Forall_nil;
    try (split; [by eexists; vm_compute|intros E; vm_compute in E; congruence]); simpl; lia.
Defined.

(** ** The tables with a bitmap (src/hcl/hcl.c, src/fcl/fcl.c) *)
Inductive slot_op := Alloc | Free (k : nat).

(** A set of numbers in use, of which the lowest missing one is handed out. *)
Definition pool_call (cap : nat) (o : slot_op) (U : gset nat) : option nat * gset nat :=
  match o with
  | Alloc => match list_find (.∉ U) (seq 0 cap) with
             | Some (_, k) => (Some k, {[k]} ∪ U)
             | None => (None, U)
             end
  | Free k => (None, U ∖ {[k]})
  end.

Section slots.
Context `{SA : SlotAllocator St cap wf used alloc free}.

Definition slot_call (o : slot_op) (s : St) : option (option nat * St) :=
  match o with
  | Alloc => alloc s
  | Free k => s ← free k s; Some (None, s)
  end.
Definition slot_op_ok (o : slot_op) : Prop := match o with Alloc => True | Free k => (k < cap)%nat end.
Definition pool_rep (s : St) (U : gset nat) : Prop :=
  wf s ∧ ∀ k, (k < cap)%nat → used s k = bool_decide (k ∈ U).

Lemma list_find_seq_lowest (U : gset nat) k :
  (k < cap)%nat → k ∉ U → (∀ j, (j < k)%nat → j ∈ U) →
  list_find (.∉ U) (seq 0 cap) = Some (k, k).
Proof.
  intros Hk Hn Hl. apply list_find_Some. split_and!; [by rewrite lookup_seq_lt|done|].
  intros j y Hy Hj. apply lookup_seq in Hy as [-> _]. intros Hin. apply Hin, Hl. lia.
Qed.

Lemma slot_call_pool o s U :
  slot_op_ok o → pool_rep s U →
  ∃ s', slot_call o s = Some ((pool_call cap o U).1, s') ∧ pool_rep s' (pool_call cap o U).2.
Proof.
  destruct o as [|k]; cbn [slot_op_ok slot_call pool_call]; intros Hok [Hwf Hu].
  - destruct (sa_alloc s Hwf) as ([k|] & s' & -> & Hwf' & Hr); exists s'.
    + destruct Hr as (Hk & Hfree & Hlow & Hu'). rewrite (list_find_seq_lowest U k Hk).
      * split; [done|]. split; [done|]. intros j Hj. rewrite Hu', Hu by done.
        repeat case_bool_decide; set_solver.
      * rewrite Hu in Hfree by done. by apply bool_decide_eq_false in Hfree.
      * intros j Hj. specialize (Hlow j Hj). rewrite Hu in Hlow by lia. by apply bool_decide_eq_true in Hlow.
    + destruct Hr as [-> Hfull]. rewrite (proj2 (list_find_None _ _)); [done|].
      apply Forall_seq. intros j Hj Hn. apply Hn. specialize (Hfull j ltac:(lia)).
      rewrite Hu in Hfull by lia. by apply bool_decide_eq_true in Hfull.
  - destruct (sa_free s k Hwf Hok) as (s' & -> & Hwf' & Hu'). exists s'. split; [done|]. split; [done|].
    intros j Hj. rewrite Hu', Hu by done. repeat case_bool_decide; set_solver.
Qed.
End slots.

(** After [HCL_init_host_cmd_entry_queue] any sequence of get and reclaim calls
    answers as the set of the entries in use does: the lowest free entry, NULL
    when all 256 are taken, a reclaimed entry free again. *)
Theorem hcl_slots mem_base os :
  Forall (slot_op_ok (cap := 256)) os →
  let code := slot_call (alloc := HCL_get_host_cmd_entry)
                (free := λ k s, snd <$> HCL_reclaim_hcmd_entry mem_base k s) in
  ∃ s, code_calls code os (snd HCL_init_host_cmd_entry_queue)
         = Some ((spec_calls (pool_call 256) os ∅).1, s) ∧
       ∀ k, (k < 256)%nat → hcl_used s k = bool_decide (k ∈ (spec_calls (pool_call 256) os ∅).2).
Proof.
  intros Hos code.
  destruct (calls_simulate (slot_op_ok (cap := 256)) (pool_rep (cap := 256) (wf := hcl_wf) (used := hcl_used))
    code (pool_call 256) os (snd HCL_init_host_cmd_entry_queue) ∅) as (s & -> & _ & Hu);
    [|exact Hos| |eauto].
  - intros o s t. apply slot_call_pool.
  - destruct HCL_init_spec as (Hwf & Hfree & _). split; [exact Hwf|]. intros k _. by rewrite Hfree.
Qed.

(** Two entries taken, the first reclaimed and taken again. *)
Lemma hcl_slots_witness :
  (spec_calls (pool_call 256) [Alloc; Alloc; Free 0; Alloc; Alloc] ∅).1
    = [Some 0%nat; Some 1%nat; None; Some 0%nat; Some 2%nat] ∧
  ∃ s, code_calls (slot_call (alloc := HCL_get_host_cmd_entry)
                (free := λ k s, snd <$> HCL_reclaim_hcmd_entry 0 k s))
         [Alloc; Alloc; Free 0; Alloc; Alloc] (snd HCL_init_host_cmd_entry_queue)
         = Some ((spec_calls (pool_call 256) [Alloc; Alloc; Free 0; Alloc; Alloc] ∅).1, s) ∧
       ∀ k, (k < 256)%nat →
         hcl_used s k = bool_decide (k ∈ (spec_calls (pool_call 256) [Alloc; Alloc; Free 0; Alloc; Alloc] ∅).2).
Proof.
  split; [vm_compute; reflexivity|]. apply (hcl_slots 0 [Alloc; Alloc; Free 0; Alloc; Alloc]).
  repeat apply List.Forall_cons; try apply List.Forall_nil; simpl; lia.
Defined.
