(* ===== verification/FlashUse.v ===== *)
(** * What the emulator does with its flash

    FTL_handle_tosq sends every command to one page of the flash and one page
    buffer.  So the log of a run holds only records of that page, every read
    finds the newest record at once, and the back end never hangs: accepted work
    drains without exception.  And nothing ever changes the page buffer. *)
From stdpp Require Import functions.
From S2P Require Import Prelude CInt Bitmap Config ListHeap Shm Buffer Hcl TaskQueue FlashLog Fcl.
From S2P Require Import L2P Backend Ftl FtlSpec Pipeline System Emulator Scenarios Guarantees.
#[local] Open Scope Z_scope.

(** ** The log as a sequence of records of one page *)

(** [F] is the log [F0] followed by records of the page [addr], with data [P]. *)
Definition log_of (addr : list Z) (P : list Z → Prop) (F0 F : list Z) : Prop :=
  ∃ ds, Forall (λ d, length d = page_bytes ∧ P d) ds ∧
    F = F0 ++ mjoin ((λ d, print log_fmt addr ++ d) <$> ds).

Lemma log_of_refl addr P F : log_of addr P F F.
Proof. exists []. split; [constructor|]. by rewrite app_nil_r. Qed.

Lemma log_of_write addr P F0 F buf m :
  log_of addr P F0 F → P (load_bytes m buf page_bytes) → log_of addr P F0 (BE_write_log addr buf m F).
Proof.
  intros (ds & Hds & ->) Hp. exists (ds ++ [load_bytes m buf page_bytes]). split.
  - apply Forall_app. split; [exact Hds|]. apply Forall_singleton.
    split; [apply load_bytes_length|exact Hp].
  - unfold BE_write_log. rewrite fmap_app, join_app. cbn. by rewrite app_nil_r, !app_assoc.
Qed.

Lemma store_load_id m a n x : store_bytes m a (load_bytes m a n) x = m x.
Proof.
  unfold store_bytes. rewrite load_bytes_length. case_decide as Hx; [|done].
  rewrite load_bytes_lookup by lia. simpl. f_equal. lia.
Qed.

Lemma load_bytes_ext m m' a n : (∀ x, m x = m' x) → load_bytes m a n = load_bytes m' a n.
Proof.
  intros Hm. revert a. induction n as [|n IH]; intros a; [done|].
  by rewrite !load_bytes_cons, IH, Hm.
Qed.

Lemma log_of_trans addr P F0 F1 F2 : log_of addr P F0 F1 → log_of addr P F1 F2 → log_of addr P F0 F2.
Proof.
  intros (ds1 & H1 & ->) (ds2 & H2 & ->). exists (ds1 ++ ds2). split; [by apply Forall_app|].
  by rewrite fmap_app, join_app, app_assoc.
Qed.

(** Reading that page ends in the first turn, with the newest data or none. *)
Lemma read_only_page addr P F buf m fuel :
  is_page_addr addr → log_of addr P [] F →
  ∃ m', BE_read_log (S fuel) addr buf F m = Some m' ∧
    (m' = m ∨ ∃ d, P d ∧ m' = store_bytes m buf (skip_ws d)).
Proof.
  intros Ha (ds & Hds & ->). destruct (list_snoc_inv ds) as [->|(ds' & d & ->)].
  - exists m. split; [|by left]. done.
  - apply Forall_app in Hds as [_ [Hd Hp]%Forall_singleton].
    rewrite fmap_app, join_app. simpl. rewrite app_nil_r.
    set (F' := mjoin _). set (md := store_bytes m 0 d).
    assert (load_bytes md 0 page_bytes = d) as El by by apply load_store.
    assert (F' ++ print log_fmt addr ++ d = BE_write_log addr 0 md F') as ->.
    { unfold BE_write_log. by rewrite El, app_assoc. }
    rewrite read_latest, El by done. eexists. split; [done|]. right. by exists d.
Qed.

(** ** What FTL_handle_tosq sends *)
Section sent.
Context (mem_base : Z) (uninit_ppa : phy_page_addr).
Context (Hu : length (nand_flash_addr uninit_ppa) = 2%nat).

(** Channel 1, chip 0, lun, plane and block 0, page 20; page buffer 0. *)
Definition only_page : list Z := [1; 0; 0; 0; 0; 20].
Definition only_buffer : Z :=
  u32 (Z.shiftl (wrap 18 (Z.shiftr (L2P_get_buffer_addr mem_base 0) 14)) 14).

Definition sent_by_tosq (sq : EMU_sq) : Prop :=
  ∃ hid opc i en, length en = 4%nat ∧
    sq = EmuSq 1 0 i (set_SQ_fields mem_base hid 0 opc HCMD_SPACE
                        (nand_flash_addr (tosq_ppa uninit_ppa 20)) en).

Lemma only_page_ok : is_page_addr only_page.
Proof. split; [done|]. unfold only_page. repeat constructor; lia. Qed.

Lemma tosq_ppa_addr :
  be_addr (tosq_ppa uninit_ppa 20) = only_page ∧
  length (nand_flash_addr (tosq_ppa uninit_ppa 20)) = 2%nat.
Proof using Hu.
  unfold be_addr, only_page, tosq_ppa, addr_set. simpl. split.
  - repeat f_equal; bf_read Hu; reflexivity.
  - by rewrite !bf_set_length.
Qed.

(** The back end reads or writes that page and that buffer, or does nothing. *)
Lemma be_work_sent fuel sq junk F m :
  sent_by_tosq sq → length junk = 2%nat →
  be_work fuel sq junk F m =
    if decide (bf_get op (es_entry sq) = HCE_READ)
    then m' ← BE_read_log fuel only_page only_buffer F m; Some (F, m')
    else if decide (bf_get op (es_entry sq) = HCE_WRITE)
    then Some (BE_write_log only_page only_buffer m F, m) else Some (F, m).
Proof using Hu.
  intros (hid & opc & i & en & Hen & ->) Hj. unfold be_work. cbn [es_entry].
  set (addr := nand_flash_addr (tosq_ppa uninit_ppa 20)).
  destruct (set_SQ_common mem_base hid 0 opc HCMD_SPACE addr en Hen) as (Eop & _).
  assert (opc ≠ HCE_ERASE → be_addr (be_ppa (EmuSq 1 0 i (set_SQ_fields mem_base hid 0 opc
      HCMD_SPACE addr en)) junk) = only_page ∧
    be_buf_addr (set_SQ_fields mem_base hid 0 opc HCMD_SPACE addr en) = only_buffer) as Hrw.
  { intros Hne. split.
    - rewrite <- (proj1 tosq_ppa_addr).
      by apply (be_addr_sent mem_base hid 0 opc HCMD_SPACE (tosq_ppa uninit_ppa 20) en junk i).
    - unfold be_buf_addr, only_buffer.
      by destruct (set_SQ_rw mem_base hid 0 opc HCMD_SPACE addr en Hen Hne) as (-> & _). }
  destruct (decide (opc = HCE_ERASE)) as [->|Hne].
  - rewrite Eop. change (wrap 2 HCE_ERASE) with 3.
    by rewrite !(decide_False (P := 3 = _)) by discriminate.
  - destruct (Hrw Hne) as [-> ->]. done.
Qed.

(** ** Every entry in the emulator comes from there *)
Definition entries_ok (s : emu) : Prop :=
  (∀ ch i en, SQ_entry ch i (e_hw s) = Some en → length en = 4%nat) ∧
  ∀ n sq, be_sqs (e_be s) !! n = Some sq → sent_by_tosq sq.

(** An assignment to one entry: that entry changes, or nothing does. *)
Lemma SQ_upd_inv ch i f h h' :
  SQ_upd ch i f h = Some h' →
  ∃ en, SQ_entry ch i h = Some en ∧ SQ_entry ch i h' = Some (f en) ∧
    ∀ ch' i' en', SQ_entry ch' i' h' = Some en' → en' = f en ∨ SQ_entry ch' i' h = Some en'.
Proof.
  unfold SQ_upd, SQ_entry. intros E. apply bind_Some in E as (q & Eq & E).
  apply bind_Some in E as (en & Een & E). apply bind_Some in E as (q' & Eq' & E).
  apply bind_Some in E as (l & El & [= <-]). cbn [hw_SQ]. exists en. rewrite Eq. cbn [mbind option_bind].
  rewrite (zget_zset_eq _ _ _ _ El). cbn [mbind option_bind].
  split_and!; [exact Een|exact (zget_zset_eq _ _ _ _ Eq')|].
  intros ch' i' en'. destruct (decide (ch = ch')) as [<-|Hch].
  - rewrite (zget_zset_eq _ _ _ _ El), Eq. cbn [mbind option_bind].
    destruct (decide (i = i')) as [<-|Hi].
    + rewrite (zget_zset_eq _ _ _ _ Eq'). intros [= <-]. by left.
    + rewrite (zget_zset_ne _ _ _ _ _ Hi Eq'). by right.
  - rewrite (zget_zset_ne _ _ _ _ _ Hch El). by right.
Qed.

(** The parts of the state the invariant does not mention. *)
Lemma entries_frame s s' :
  (∀ ch i, SQ_entry ch i (e_hw s') = SQ_entry ch i (e_hw s)) → be_sqs (e_be s') = be_sqs (e_be s) →
  entries_ok s → entries_ok s'.
Proof. intros E1 E2 [H1 H2]. split; [intros ch i en; rewrite E1; eauto|rewrite E2; eauto]. Qed.

Lemma on_hcl_ok {A} (f : M hcl A) : preserves entries_ok (on_hcl f).
Proof. apply preserves_zoom. intros s a h _. by apply entries_frame. Qed.
Lemma on_tq_ok {A} (f : M task_queues A) : preserves entries_ok (on_tq f).
Proof. apply preserves_zoom. intros s a h _. by apply entries_frame. Qed.
Lemma on_shm_ok {A} (f : M shm A) : preserves entries_ok (on_shm f).
Proof. apply preserves_zoom. intros s a h _. by apply entries_frame. Qed.
Lemma store_ok k f : preserves entries_ok (store_hcmd k f).
Proof. apply on_hcl_ok. Qed.
Lemma load_ok k : preserves entries_ok (load_hcmd k).
Proof. apply preserves_try_get. Qed.
Lemma send_ok k n : preserves entries_ok (FTL_sendhcmd k n).
Proof. intros s a s' E. apply bind_Some in E as ([r q] & _ & [= _ <-]). by apply entries_frame. Qed.
Lemma modify_ok f :
  (∀ s, e_hw (f s) = e_hw s) → (∀ s, e_be (f s) = e_be s) → preserves entries_ok (modify f).
Proof. intros E1 E2. apply preserves_modify. intros s. apply entries_frame; by rewrite ?E1, ?E2. Qed.
Lemma get_free_ok ch : preserves entries_ok (on_hw (FCL_get_free_SQ_entry ch)).
Proof.
  apply preserves_zoom. intros s a h E. apply entries_frame; [|done]. cbn [e_hw]. intros ch' i.
  unfold FCL_get_free_SQ_entry in E. apply bind_Some in E as (bm & _ & E).
  destruct (find_word 0 bm) as [[w j]|]; [|by injection E as _ <-].
  apply bind_Some in E as (m & _ & E). by apply bind_Some in E as (l & _ & [= _ <-]).
Qed.
Lemma free_ok ch i : preserves entries_ok (on_hw (no_result (FCL_free_SQ_entry ch i))).
Proof.
  apply preserves_zoom. intros s a h E. apply entries_frame; [|done]. cbn [e_hw]. intros ch' j.
  apply bind_Some in E as (h' & E & [= _ <-]). unfold FCL_free_SQ_entry in E.
  apply bind_Some in E as (bm & _ & E). apply bind_Some in E as (m & _ & E).
  by apply bind_Some in E as (l & _ & [= <-]).
Qed.
#[local] Hint Resolve on_hcl_ok on_tq_ok on_shm_ok store_ok load_ok send_ok get_free_ok free_ok : preserves.
#[local] Hint Extern 1 (preserves entries_ok (modify _)) => apply modify_ok; intros; reflexivity : preserves.

(** ** The handlers keep it *)
Lemma checkcache_loop_ok fuel k cur req lpn : preserves entries_ok (checkcache_loop fuel k cur req lpn).
Proof. revert cur lpn. induction fuel; intros cur lpn; cbn [checkcache_loop]; preserves. Qed.
Lemma dma_loop_ok fuel k n : preserves entries_ok (dma_loop fuel k n).
Proof. induction fuel; cbn [dma_loop]; preserves. Qed.
#[local] Hint Resolve checkcache_loop_ok dma_loop_ok : preserves.

Lemma BE_send_sqs i en ch ce b b' :
  BE_send_sq i en ch ce b = Some b' → be_sqs b' = <[be_fresh b := EmuSq ch ce i en]> (be_sqs b).
Proof. unfold BE_send_sq. intros E. by apply bind_Some in E as (n & _ & [= <-]). Qed.

(** The entry is written and then sent: what arrives is what was written. *)
Lemma tosq_send_ok {A} i hid opc (rest : unit → M emu A) :
  (∀ u, preserves entries_ok (rest u)) →
  preserves entries_ok
    (on_hw (no_result (FCL_set_SQ_entry mem_base hid i 0 opc (tosq_ppa uninit_ppa 20) HCMD_SPACE))
     ≫= λ _, send_until 1 i 1 0 ≫= rest).
Proof.
  intros Hrest s a s' E [H1 H2]. apply bind_Some in E as ([[] s1] & E1 & E).
  apply bind_Some in E1 as ([[] h] & E1 & [= <-]). apply bind_Some in E1 as (h' & E1 & [= <-]).
  apply SQ_upd_inv in E1 as (en & Een & Een' & Hsq).
  assert (length en = 4%nat) as Hen by eauto.
  apply bind_Some in E as ([u s2] & E2 & E). eapply Hrest; [exact E|]. clear E.
  apply bind_Some in E2 as ([ret s3] & E2 & E3).
  apply bind_Some in E2 as ([x s4] & E4 & E2). apply bind_Some in E4 as (x' & E4 & [= -> <-]).
  apply bind_Some in E2 as ([u' s5] & E5 & [= <- <-]).
  apply bind_Some in E5 as ([u'' b] & E5 & [= _ <-]). apply bind_Some in E5 as (b' & E5 & [= _ <-]).
  change (ppa_ch (tosq_ppa uninit_ppa 20)) with 1 in Een'. cbn [e_hw] in E4. rewrite Een' in E4.
  injection E4 as <-. rewrite decide_False in E3 by done. injection E3 as _ <-.
  apply BE_send_sqs in E5. split; cbn [e_hw e_be].
  - intros ch j en' Hj. destruct (Hsq ch j en' Hj) as [->|?]; [by apply set_SQ_length|eauto].
  - rewrite E5. cbn [e_be]. intros n sq Hn. apply lookup_insert_Some in Hn as [[_ <-]|[_ Hn]]; [|eauto].
    by exists hid, opc, i, en.
Qed.

Lemma tosq_loop_ok fuel k hid opc cnt n :
  preserves entries_ok (tosq_loop mem_base uninit_ppa fuel k hid opc cnt n).
Proof.
  revert cnt. induction fuel as [|fuel IH]; intros cnt; cbn [tosq_loop]; [preserves|].
  change (ppa_ch (tosq_ppa uninit_ppa 20)) with 1. change (ppa_ce (tosq_ppa uninit_ppa 20)) with 0.
  case_decide; [|preserves]. apply preserves_bind; [preserves|]. intros sq.
  apply preserves_bind; [preserves|]. intros _. case_decide; [preserves|].
  apply tosq_send_ok. intros _. apply IH.
Qed.
#[local] Hint Resolve tosq_loop_ok : preserves.

Lemma run_task_ok n : preserves entries_ok (run_task mem_base uninit_ppa n).
Proof.
  unfold run_task, run_func, FTL_handle_checkcache, FTL_handle_tosq, FTL_handle_datamove,
    FTL_handle_fromcq, FTL_handle_finish. preserves.
Qed.

Lemma nvme_accept_ok i c : preserves entries_ok (nvme_accept i c).
Proof. unfold nvme_accept. preserves. Qed.

Lemma cq_body_ok n : preserves entries_ok (cq_body n).
Proof.
  unfold cq_body. preserves. apply preserves_zoom. intros st r b E [H1 H2].
  apply bind_Some in E as (N & _ & [= _ <-]). split; cbn [e_hw e_be be_free be_sqs]; [exact H1|].
  intros m sq' Hm. change (delete n (be_sqs (e_be st)) !! m = Some sq') in Hm.
  apply lookup_delete_Some in Hm as [_ Hm]. by eapply H2.
Qed.

(** ** In every step of the emulator *)
Abbreviation step := (sys_step mem_base uninit_ppa).

Lemma EMU_init_parts e : EMU_init = Some e → e_hw e = init_hw_queues ∧ be_sqs (e_be e) = ∅.
Proof.
  unfold EMU_init. generalize (L2P_init_buffer buffers_zero), SHM_init. intros [b|] [sh|]; try discriminate.
  intros E. cbn [mbind option_bind] in E. injection E as <-. split; reflexivity.
Qed.

Lemma init_entries_ok s : sys_initial s → entries_ok (s_emu s).
Proof.
  intros (He & _). destruct (EMU_init_parts _ He) as [Ehw Esq].
  split; [|intros n sq; by rewrite Esq, lookup_empty]. rewrite Ehw.
  intros ch i en Hen. apply bind_Some in Hen as (q & Eq & Ee). destruct init_hw_queues_wf as [_ _ Hl _ _].
  unfold zget in Eq, Ee. case_decide; [|done]. case_decide; [|done]. by eapply Hl.
Qed.

Lemma step_entries_ok s s' : step s s' → entries_ok (s_emu s) → entries_ok (s_emu s').
Proof.
  intros Hst. destruct Hst as [op lp sz i sh s Hsz E|i c e s Hn E|i c e s Hi E|n e s Hn E|
    n e s El E|n b s Hn E|n sq fuel junk fl m b s Hn Hsq Hj Ew E]; cbn [s_emu].
  - by apply entries_frame.
  - exact (on_shm_ok _ _ _ _ E).
  - exact (nvme_accept_ok _ _ _ _ _ E).
  - exact (run_task_ok _ _ _ _ E).
  - exact (cq_body_ok _ _ _ _ E).
  - apply entries_frame; [done|]. unfold be_take in E. apply bind_Some in E as (x & _ & E).
    case_decide; [done|]. apply bind_Some in E as (q & _ & E).
    destruct q as [[| |k]|]; try done. by apply bind_Some in E as (N & _ & [= _ <-]).
  - apply entries_frame; [done|]. by apply bind_Some in E as (N & _ & [= <-]).
Qed.

(** A step of the back end on an entry of the emulator; all others leave log
    and memory alone. *)
Lemma step_flash s s' :
  step s s' → entries_ok (s_emu s) →
  s_flash s' = s_flash s ∧ s_mem s' = s_mem s ∨
  s_flash s' = BE_write_log only_page only_buffer (s_mem s) (s_flash s) ∧ s_mem s' = s_mem s ∨
  s_flash s' = s_flash s ∧
    ∃ fuel, BE_read_log fuel only_page only_buffer (s_flash s) (s_mem s) = Some (s_mem s').
Proof using Hu.
  intros Hst [_ Hok]. destruct Hst as [op lp sz i sh s Hsz E|i c e s Hn E|i c e s Hi E|n e s Hn E|
    n e s El E|n b s Hn E|n sq fuel junk fl m b s Hn Hsq Hj Ew E]; try (by left).
  cbn [s_flash s_mem]. rewrite (be_work_sent fuel sq junk _ _ (Hok n sq Hsq) Hj) in Ew.
  case_decide; [|case_decide].
  - apply bind_Some in Ew as (m' & Er & [= <- <-]). right. right. eauto.
  - injection Ew as <- <-. right. by left.
  - injection Ew as <- <-. by left.
Qed.

Lemma step_log P F0 s s' :
  step s s' → (∀ m, (∀ a, m a = s_mem s a) → P (load_bytes m only_buffer page_bytes)) →
  entries_ok (s_emu s) → log_of only_page P F0 (s_flash s) → log_of only_page P F0 (s_flash s').
Proof using Hu.
  intros Hst HP Hok Hlog. destruct (step_flash s s' Hst Hok) as [[-> _]|[[-> _]|[-> _]]]; [done| |done].
  apply log_of_write; [done|]. by apply HP.
Qed.

(** A read puts back the bytes that are there. *)
Lemma step_mem s0 s s' :
  is_space (s_mem s0 only_buffer) = false → step s s' → entries_ok (s_emu s) →
  (∀ a, s_mem s a = s_mem s0 a) →
  log_of only_page (λ d, d = load_bytes (s_mem s0) only_buffer page_bytes) [] (s_flash s) →
  ∀ a, s_mem s' a = s_mem s0 a.
Proof using Hu.
  intros Hsp Hst Hok Hm Hl a.
  destruct (step_flash s s' Hst Hok) as [[_ ->]|[[_ ->]|[_ [[|fuel] Er]]]]; [done|done|done|].
  destruct (read_only_page only_page _ _ only_buffer (s_mem s) fuel only_page_ok Hl) as (m' & E & Hm').
  rewrite E in Er. injection Er as <-. destruct Hm' as [->|(d & -> & ->)]; [done|].
  rewrite skip_ws_data by done. rewrite (load_bytes_ext _ (s_mem s)) by done.
  by rewrite store_load_id.
Qed.

(** A run from an initial state: its entries, its log. *)
Lemma run_log s0 s :
  sys_initial s0 → rtc step s0 s →
  entries_ok (s_emu s) ∧ log_of only_page (λ _, True) (s_flash s0) (s_flash s).
Proof using Hu.
  intros Hi Hr. pose proof (init_entries_ok s0 Hi) as H0. clear Hi.
  assert (∀ F0, log_of only_page (λ _, True) F0 (s_flash s0) →
    entries_ok (s_emu s) ∧ log_of only_page (λ _, True) F0 (s_flash s)) as H; [|apply H, log_of_refl].
  intros F0. revert H0. induction Hr as [s|s s1 s2 Hst _ IH]; [done|]. intros Hok Hlog.
  apply IH; [by eapply step_entries_ok|]. by eapply (step_log (λ _, True)).
Qed.

(** C10. The log of a run is the log it began with and records of one page, channel 1,
    chip 0, block 0, page 20; and every entry that waits for the back end asks
    for that page and for page buffer 0, whatever page its command asked for. *)
Theorem flash_one_page s0 s :
  sys_run mem_base uninit_ppa s0 s →
  log_of only_page (λ _, True) (s_flash s0) (s_flash s) ∧
  ∀ n sq fuel junk F m, be_sqs (e_be (s_emu s)) !! n = Some sq → length junk = 2%nat →
    be_work fuel sq junk F m =
      if decide (bf_get op (es_entry sq) = HCE_READ)
      then m' ← BE_read_log fuel only_page only_buffer F m; Some (F, m')
      else if decide (bf_get op (es_entry sq) = HCE_WRITE)
      then Some (BE_write_log only_page only_buffer m F, m) else Some (F, m).
Proof using Hu.
  intros [Hi Hr]. destruct (run_log s0 s Hi Hr) as [[_ Hok] Hlog]. split; [done|].
  intros. apply be_work_sent; eauto.
Qed.

(** C2. With a log this emulator wrote, or none, accepted work ends and leaves
    nothing with the back end: every one-page command is finished and exactly
    the other commands still hold their entries. *)
Theorem work_completes s0 s s' :
  log_of only_page (λ _, True) [] (s_flash s0) → sys_run mem_base uninit_ppa s0 s →
  rtc (work_step mem_base uninit_ppa) s s' →
  (∀ s'', ¬ work_step mem_base uninit_ppa s' s'') →
  s_held s' = None ∧ ∀ k, (k < 256)%nat →
    hcl_used (e_hcl (s_emu s')) k = true ↔
    hcl_used (e_hcl (s_emu s)) k = true ∧
      ∃ e, hcmd_load k (e_hcl (s_emu s)) = Some e ∧ ¬ one_page e.
Proof using Hu.
  intros Hlog [Hi Hr] Hw Hrest. assert (sys_reachable mem_base uninit_ppa s) as Hs by by exists s0.
  pose proof (work_drains mem_base uninit_ppa s s' Hs Hw Hrest) as Hd.
  destruct (s_held s') as [n|]; [|done]. exfalso. destruct Hd as (n' & sq & _ & Hsq & Hstuck).
  assert (rtc step s0 s') as Hr'.
  { etrans; [exact Hr|]. clear -Hw. induction Hw as [|x y z Hxy _ IH]; [done|].
    eapply rtc_l; [by apply work_is_step|exact IH]. }
  destruct (run_log s0 s' Hi Hr') as [[_ Hok] Hlog'].
  specialize (Hstuck 1%nat [0; 0] eq_refl).
  rewrite (be_work_sent 1 sq [0; 0] _ _ (Hok _ _ Hsq) eq_refl) in Hstuck.
  case_decide; [|case_decide; done].
  destruct (read_only_page only_page (λ _, True) (s_flash s') only_buffer (s_mem s') 0 only_page_ok
    (log_of_trans _ _ _ _ _ Hlog Hlog')) as (m' & E & _).
  by rewrite E in Hstuck.
Qed.

(** C11. Nothing ever writes user data: from an empty log and a page buffer that does
    not begin with a blank, no step changes a byte of the buffers, and every
    record of the log is a copy of page buffer 0 as it was at the start. *)
Theorem page_buffer_constant s0 s :
  s_flash s0 = [] → is_space (s_mem s0 only_buffer) = false → sys_run mem_base uninit_ppa s0 s →
  (∀ a, s_mem s a = s_mem s0 a) ∧
  log_of only_page (λ d, d = load_bytes (s_mem s0) only_buffer page_bytes) [] (s_flash s).
Proof using Hu.
  intros Hf Hsp [Hi Hr]. pose proof (init_entries_ok s0 Hi) as H0.
  set (P := λ d, d = load_bytes (s_mem s0) only_buffer page_bytes).
  assert (log_of only_page P [] (s_flash s0)) as Hl0 by (rewrite Hf; apply log_of_refl).
  assert (∀ t, rtc step t s → entries_ok (s_emu t) → (∀ a, s_mem t a = s_mem s0 a) →
    log_of only_page P [] (s_flash t) → (∀ a, s_mem s a = s_mem s0 a) ∧ log_of only_page P [] (s_flash s))
    as H; [|by apply (H s0)].
  clear -Hu Hsp. intros t Hr. induction Hr as [|t t1 t2 Hst _ IH]; [done|]. intros Hok Hm Hl.
  apply IH; [by eapply step_entries_ok| |].
  - by apply (step_mem s0 t t1).
  - eapply (step_log P); [exact Hst| |exact Hok|exact Hl].
    intros m Em. apply load_bytes_ext. intros a. by rewrite Em, Hm.
Qed.
End sent.

(** ** Instances *)

(** One page written and read back: its record is the log. *)
Lemma flash_one_page_witness :
  ∃ s, s_flash s ≠ [] ∧ log_of only_page (λ _, True) [] (s_flash s).
Proof.
  demo_state write_read served_test. apply andb_true_iff in E as [_ E]. exists s. split.
  - intros Hf. by rewrite Hf in E.
  - destruct (flash_one_page demo_base demo_ppa eq_refl s0 s Hr0) as [Hl _].
    by rewrite Hf0 in Hl.
Defined.

Lemma work_completes_witness :
  ∃ s, used_count s = 2%nat ∧ s_held s = None ∧
    ∀ k, (k < 256)%nat → hcl_used (e_hcl (s_emu s)) k = true →
    ∃ e, hcmd_load k (e_hcl (s_emu s)) = Some e ∧ ¬ one_page e.
Proof.
  demo_state bad_commands bad_test. apply andb_true_iff in E as [[E1%Nat.eqb_eq E2]%andb_true_iff _].
  destruct (at_rest_idle demo_base demo_ppa s Hs Hh E2) as (_ & _ & _ & Hno).
  destruct (work_completes demo_base demo_ppa eq_refl s0 s s) as [Hheld Hd];
    [rewrite Hf0; apply log_of_refl|exact Hr0|apply rtc_refl|exact Hno|].
  exists s. split; [exact E1|]. split; [exact Hheld|]. intros k Hk Hu. by apply (Hd k Hk).
Defined.

Lemma page_buffer_constant_witness :
  ∃ s, s_flash s ≠ [] ∧ ∀ a, s_mem s a = 0.
Proof.
  demo_state write_read served_test. apply andb_true_iff in E as [_ E]. exists s.
  split.
  - intros Hfl. by rewrite Hfl in E.
  - destruct (page_buffer_constant demo_base demo_ppa eq_refl s0 s Hf0) as [Ha _];
      [by rewrite Hm0|exact Hr0|]. intros a. by rewrite Ha, Hm0.
Defined.
