(* ===== verification/Axmap.v ===== *)
(** * The set of blocks a random job has covered (src/fio4emu/lib/axmap.c)

    fio keeps one bit for each block of a file, and above them levels of one bit
    for each full 64-bit word of the level below, so that the next free block is
    found from the top.  Here the levels are proved to be a finite set of
    numbers: [axmap_calls_refine] compares every sequence of calls with a [gset].
    A level is a list of 64-bit words (the map of an x86-64 build); a read outside
    it, and a failed [assert], have no result. *)
From S2P Require Import Prelude CInt.
#[local] Open Scope Z_scope.

(** ** The lowest set bit (lib/ffz.h, arch/arch-x86_64.h) *)

(** [if ((word & mask) == 0) { r += k; word >>= k; }], the mask being [k] ones. *)
Definition ffs_step (k : Z) (p : Z * Z) : Z * Z :=
  let '(word, r) := p in
  if Z.land word (Z.ones k) =? 0 then (Z.shiftr word k, r + k) else (word, r).

Definition ffs64 (word : Z) : Z :=
  let '(word, r) := ffs_step 2 (ffs_step 4 (ffs_step 8 (ffs_step 16 (ffs_step 32 (word, 0))))) in
  if Z.land word 1 =? 0 then r + 1 else r.

Definition ffz (bitmask : Z) : Z := ffs64 (u64 (Z.lnot bitmask)).

(** The instruction [bsf]: the index of the lowest set bit, undefined for 0. *)
Fixpoint low_bit (n : nat) (j : Z) (w : Z) : option Z :=
  match n with
  | O => None
  | S n' => if Z.testbit w j then Some j else low_bit n' (j + 1) w
  end.
Definition bsf (w : Z) : option Z := low_bit 64 0 w.

Definition arch_ffz (bitmask : Z) : option Z := bsf (u64 (Z.lnot bitmask)).

(** ** Data *)
Definition UNIT_SHIFT : Z := 6.
Definition BLOCKS_PER_UNIT : Z := Z.shiftl 1 UNIT_SHIFT.
Definition BLOCKS_PER_UNIT_MASK : Z := BLOCKS_PER_UNIT - 1.

Definition bit_masks : list Z := [
  0x0000000000000000; 0x0000000000000001; 0x0000000000000003; 0x0000000000000007;
  0x000000000000000f; 0x000000000000001f; 0x000000000000003f; 0x000000000000007f;
  0x00000000000000ff; 0x00000000000001ff; 0x00000000000003ff; 0x00000000000007ff;
  0x0000000000000fff; 0x0000000000001fff; 0x0000000000003fff; 0x0000000000007fff;
  0x000000000000ffff; 0x000000000001ffff; 0x000000000003ffff; 0x000000000007ffff;
  0x00000000000fffff; 0x00000000001fffff; 0x00000000003fffff; 0x00000000007fffff;
  0x0000000000ffffff; 0x0000000001ffffff; 0x0000000003ffffff; 0x0000000007ffffff;
  0x000000000fffffff; 0x000000001fffffff; 0x000000003fffffff; 0x000000007fffffff;
  0x00000000ffffffff;
  0x00000001ffffffff; 0x00000003ffffffff; 0x00000007ffffffff; 0x0000000fffffffff;
  0x0000001fffffffff; 0x0000003fffffffff; 0x0000007fffffffff; 0x000000ffffffffff;
  0x000001ffffffffff; 0x000003ffffffffff; 0x000007ffffffffff; 0x00000fffffffffff;
  0x00001fffffffffff; 0x00003fffffffffff; 0x00007fffffffffff; 0x0000ffffffffffff;
  0x0001ffffffffffff; 0x0003ffffffffffff; 0x0007ffffffffffff; 0x000fffffffffffff;
  0x001fffffffffffff; 0x003fffffffffffff; 0x007fffffffffffff; 0x00ffffffffffffff;
  0x01ffffffffffffff; 0x03ffffffffffffff; 0x07ffffffffffffff; 0x0fffffffffffffff;
  0x1fffffffffffffff; 0x3fffffffffffffff; 0x7fffffffffffffff; 0xffffffffffffffff ].

Record axmap_level := AxmapLevel { level : Z; map_size : Z; map : list Z }.
#[export] Instance eta_axmap_level : Settable axmap_level :=
  λ r, AxmapLevel (level r) (map_size r) (map r).

(** The array [levels] is a list, [nr_levels] its length. *)
Record axmap := Axmap { levels : list axmap_level; nr_bits : Z }.
#[export] Instance eta_axmap : Settable axmap := λ r, Axmap (levels r) (nr_bits r).
Definition nr_levels (m : axmap) : nat := length (levels m).

(** ** Creation *)

(** [memset(al->map, 0, ...)] *)
Definition clear_level (al : axmap_level) : axmap_level :=
  al <| map := repeat 0 (Z.to_nat (map_size al)) |>.
Definition axmap_reset (m : axmap) : axmap :=
  m <| levels := clear_level <$> levels m |>.

(** [while (i > 1) { i = (i + 63) >> 6; levels++; }] on 32-bit [i]; it divides by
    64, so six turns end it. *)
Fixpoint count_levels (fuel : nat) (i : Z) : nat :=
  match fuel with
  | O => 1
  | S f => if 1 <? i then S (count_levels f (Z.shiftr (u32 (i + BLOCKS_PER_UNIT - 1)) UNIT_SHIFT)) else 1
  end.

(** The loop that fills the array; the memory [malloc] returns is unset until the
    reset, here [fresh]. *)
Fixpoint make_levels (fresh : nat → list Z) (n : nat) (i nr_bits : Z) : list axmap_level :=
  match n with
  | O => []
  | S n' =>
      let nr_bits := Z.shiftr (u64 (nr_bits + BLOCKS_PER_UNIT - 1)) UNIT_SHIFT in
      AxmapLevel i nr_bits (fresh (Z.to_nat nr_bits)) :: make_levels fresh n' (i + 1) nr_bits
  end.

(** [alloc_ok]: no allocation fails. *)
Definition axmap_new (alloc_ok : bool) (fresh : nat → list Z) (nr_bits : Z) : option axmap :=
  let i := u32 (Z.shiftr (u64 (nr_bits + BLOCKS_PER_UNIT - 1)) UNIT_SHIFT) in
  let levels := count_levels 6 i in
  if alloc_ok then Some (axmap_reset (Axmap (make_levels fresh levels 0 nr_bits) nr_bits))
  else None.

(** ** The walks over the levels *)
Section walks.
Context {D : Type} (func : axmap_level → Z → Z → D → option (bool * D * axmap_level)).

(** From the given level up, until [func] returns true. *)
Fixpoint handler_loop (ls : list axmap_level) (index : Z) (data : D) :
    option (bool * D * list axmap_level) :=
  match ls with
  | [] => Some (false, data, [])
  | al :: ls' =>
      let offset := Z.shiftr index UNIT_SHIFT in
      let bit := Z.land index BLOCKS_PER_UNIT_MASK in
      '(stop, data, al) ← func al offset bit data;
      if stop : bool then Some (true, data, al :: ls')
      else
        '(r, data, ls') ← handler_loop ls'
          (if index =? 0 then index else Z.shiftr index UNIT_SHIFT) data;
        Some (r, data, al :: ls')
  end.

Definition axmap_handler (bit_nr : Z) (data : D) : M axmap (bool * D) := λ m,
  '(r, data, ls) ← handler_loop (levels m) bit_nr data;
  Some ((r, data), m <| levels := ls |>).

(** [for (i = n - 1; i >= 0; i--)] *)
Fixpoint topdown_loop (n : nat) (bit_nr : Z) (data : D) : M axmap bool := λ m,
  match n with
  | O => Some (false, m)
  | S i =>
      let index := Z.shiftr bit_nr (UNIT_SHIFT * Z.of_nat i) in
      let offset := Z.shiftr index UNIT_SHIFT in
      let bit := Z.land index BLOCKS_PER_UNIT_MASK in
      al ← levels m !! i;
      '(stop, _, al) ← func al offset bit data;
      let m := m <| levels := <[i := al]> (levels m) |> in
      if stop : bool then Some (true, m) else topdown_loop i bit_nr data m
  end.
Definition axmap_handler_topdown (bit_nr : Z) (data : D) : M axmap bool := λ m,
  topdown_loop (nr_levels m) bit_nr data m.
End walks.

(** ** Setting bits *)
Record axmap_set_data := SetData { sd_nr_bits : Z; set_bits : Z }.

Definition axmap_set_fn (al : axmap_level) (offset bit : Z) (data : axmap_set_data) :
    option (bool * axmap_set_data * axmap_level) :=
  let nr_bits := Z.min (sd_nr_bits data) (BLOCKS_PER_UNIT - bit) in
  ones ← zget bit_masks nr_bits;
  let mask := u64 (Z.shiftl ones bit) in
  w ← zget (map al) offset;
  let overlap := Z.land w mask in
  if overlap =? mask then Some (true, SetData (sd_nr_bits data) 0, al)
  else
    free ← (if overlap =? 0 then Some nr_bits
            else f ← arch_ffz (u64 (Z.lnot overlap)); Some (f - bit));
    if (free =? 0) && negb (overlap =? 0) then Some (true, data, al)
    else
      ones ← zget bit_masks free;
      let mask := u64 (Z.shiftl ones bit) in
      if (mask =? 0) || negb (Z.land w mask =? 0) then None (* assert *)
      else
        let w' := Z.lor w mask in
        words ← zset (map al) offset w';
        let set_bits := if level al =? 0 then free else set_bits data in
        Some (negb (w' =? 2 ^ 64 - 1), SetData 1 set_bits, al <| map := words |>).

(** The local [nr_bits] is only checked; the walk takes [data] as it is. *)
Definition __axmap_set (bit_nr : Z) (data : axmap_set_data) : M axmap axmap_set_data := λ m,
  if nr_bits m <? bit_nr then Some (data, m)
  else
    let nr := if nr_bits m <? u64 (bit_nr + sd_nr_bits data)
              then u32 (nr_bits m - bit_nr) else sd_nr_bits data in
    if BLOCKS_PER_UNIT <? nr then None (* assert *)
    else '((_, data), m) ← axmap_handler axmap_set_fn bit_nr data m; Some (data, m).

Definition axmap_set (bit_nr : Z) : M axmap unit :=
  _ ← __axmap_set bit_nr (SetData 1 0); mret ().

(** The [do] loop; after the first word it goes on word by word. *)
Fixpoint set_nr_loop (fuel : nat) (bit_nr nr_bits total : Z) : M axmap Z :=
  match fuel with
  | O => undef
  | S f =>
      let max_bits := BLOCKS_PER_UNIT - Z.land bit_nr BLOCKS_PER_UNIT_MASK in
      let this_set := if max_bits <? nr_bits then max_bits else nr_bits in
      data ← __axmap_set bit_nr (SetData this_set 0);
      let total := u32 (total + set_bits data) in
      if negb (set_bits data =? this_set) then mret total
      else
        let nr_bits := u32 (nr_bits - set_bits data) in
        if nr_bits =? 0 then mret total
        else set_nr_loop f (u64 (bit_nr + set_bits data)) nr_bits total
  end.
Definition axmap_set_nr (bit_nr nr_bits : Z) : M axmap Z :=
  set_nr_loop (Z.to_nat (nr_bits / BLOCKS_PER_UNIT + 2)) bit_nr nr_bits 0.

(** ** Looking bits up *)
Definition axmap_isset_fn (al : axmap_level) (offset bit : Z) (_ : unit) :
    option (bool * unit * axmap_level) :=
  w ← zget (map al) offset;
  Some (negb (Z.land w (u64 (Z.shiftl 1 bit)) =? 0), (), al).

Definition axmap_isset (bit_nr : Z) : M axmap bool := λ m,
  if bit_nr <=? nr_bits m then axmap_handler_topdown axmap_isset_fn bit_nr () m
  else Some (false, m).

(** ** The next free bit *)
Definition NONE : Z := 2 ^ 64 - 1.

(** [for (offset++; offset < al->map_size; offset++)]: the first word with a free
    bit and its free bits. *)
Fixpoint free_word (n : nat) (words : list Z) (offset : Z) : option (option (Z * Z)) :=
  match n with
  | O => Some None
  | S n' =>
      w ← zget words offset;
      let temp := u64 (Z.lnot w) in
      if temp =? 0 then free_word n' words (offset + 1) else Some (Some (offset, temp))
  end.

(** One turn of the loop over the levels: the index found, or [NONE]. *)
Definition find_in_level (al : axmap_level) (base_index index : Z) : option (option Z) :=
  let index := u64 (Z.shiftl index UNIT_SHIFT) in
  let index := if index <? base_index then base_index else index in
  let offset := Z.shiftr index UNIT_SHIFT in
  let bit := Z.land index BLOCKS_PER_UNIT_MASK in
  if map_size al <=? offset then Some None
  else
    ones ← zget bit_masks bit;
    w ← zget (map al) offset;
    let temp := Z.land (u64 (Z.lnot ones)) (u64 (Z.lnot w)) in
    found ← (if temp =? 0
             then free_word (Z.to_nat (map_size al - (offset + 1))) (map al) (offset + 1)
             else Some (Some (offset, temp)));
    match found with
    | None => Some None
    | Some (offset, temp) =>
        f ← arch_ffz (u64 (Z.lnot temp)); Some (Some (u64 (u64 (Z.shiftl offset UNIT_SHIFT) + f)))
    end.

Fixpoint find_loop (n : nat) (bit_nr index : Z) (m : axmap) : option (option Z) :=
  match n with
  | O => Some (Some index)
  | S i =>
      al ← levels m !! i;
      r ← find_in_level al (Z.shiftr bit_nr (UNIT_SHIFT * Z.of_nat i)) index;
      match r with
      | None => Some None
      | Some index => find_loop i bit_nr index m
      end
  end.

Definition axmap_find_first_free (bit_nr : Z) (m : axmap) : option Z :=
  r ← find_loop (nr_levels m) bit_nr 0 m;
  match r with
  | None => Some NONE
  | Some index => Some (if nr_bits m <=? index then NONE else index)
  end.

Definition axmap_next_free (bit_nr : Z) : M axmap Z := λ m,
  let next_bit := u64 (bit_nr + 1) in
  if nr_bits m <=? bit_nr then Some (NONE, m)
  else
    let next_bit := if next_bit =? nr_bits m then 0 else next_bit in
    let offset := Z.shiftr next_bit UNIT_SHIFT in
    let bit := Z.land next_bit BLOCKS_PER_UNIT_MASK in
    ones ← zget bit_masks bit;
    al ← levels m !! 0%nat;
    w ← zget (map al) offset;
    let temp := Z.land (u64 (Z.lnot ones)) (u64 (Z.lnot w)) in
    ret ← (if temp =? 0 then axmap_find_first_free next_bit m
           else f ← arch_ffz (u64 (Z.lnot temp));
                let ret := u64 (u64 (Z.shiftl offset UNIT_SHIFT) + f) in
                Some (if nr_bits m <=? ret then NONE else ret));
    ret ← (if (ret =? NONE) && negb (next_bit =? 0) then axmap_find_first_free 0 m else Some ret);
    Some (ret, m).

(** ** Lowest bits *)
Definition least_bit (w i : Z) : Prop :=
  0 ≤ i ∧ Z.testbit w i = true ∧ ∀ j, 0 ≤ j < i → Z.testbit w j = false.

Lemma least_bit_unique w i j : least_bit w i → least_bit w j → i = j.
Proof.
  intros (? & Hi & Hi') (? & Hj & Hj'). destruct (Z.lt_trichotomy i j) as [|[|]]; [|done|].
  - rewrite Hj' in Hi by lia. done.
  - rewrite Hi' in Hj by lia. done.
Qed.

Lemma low_bit_spec n j w :
  0 ≤ j → match low_bit n j w with
  | Some i => j ≤ i < j + Z.of_nat n ∧ Z.testbit w i = true ∧ ∀ k, j ≤ k < i → Z.testbit w k = false
  | None => ∀ k, j ≤ k < j + Z.of_nat n → Z.testbit w k = false
  end.
Proof.
  revert j. induction n as [|n IH]; intros j Hj; simpl; [intros; lia|].
  destruct (Z.testbit w j) eqn:E; [split_and!; [lia|lia|done|intros; lia]|].
  specialize (IH (j + 1) ltac:(lia)). destruct (low_bit n (j + 1) w) as [i|].
  - destruct IH as (? & ? & Hk). split_and!; [lia|lia|done|]. intros k ?.
    destruct (decide (k = j)) as [->|]; [done|]. apply Hk. lia.
  - intros k ?. destruct (decide (k = j)) as [->|]; [done|]. apply IH. lia.
Qed.

Lemma nonzero_bit n w : 0 ≤ n → is_u n w → w ≠ 0 → ∃ i, 0 ≤ i < n ∧ Z.testbit w i = true.
Proof.
  intros Hn Hw Hne. exists (Z.log2 w). destruct Hw. split; [|apply Z.bit_log2; lia].
  split; [apply Z.log2_nonneg|]. apply Z.log2_lt_pow2; lia.
Qed.

Lemma bsf_spec w : is_u 64 w → w ≠ 0 → ∃ i, bsf w = Some i ∧ least_bit w i ∧ i < 64.
Proof.
  intros Hw Hne. pose proof (low_bit_spec 64 0 w ltac:(lia)) as H. unfold bsf.
  destruct (low_bit 64 0 w) as [i|].
  - exists i. unfold least_bit. destruct H as (? & ? & ?). split_and!; try done; try lia.
  - destruct (nonzero_bit 64 w) as (i & ? & Hb); [lia|done..|]. rewrite H in Hb by lia. done.
Qed.

(** A step keeps a word that is the original shifted by [r] clear bits. *)
Lemma ffs_step_spec word k w r :
  0 ≤ k → 0 ≤ r → w = Z.shiftr word r → (∀ i, 0 ≤ i < r → Z.testbit word i = false) →
  Z.land w (Z.ones (k + k)) ≠ 0 →
  ∃ w' r', ffs_step k (w, r) = (w', r') ∧ 0 ≤ r' ∧ w' = Z.shiftr word r' ∧
    (∀ i, 0 ≤ i < r' → Z.testbit word i = false) ∧ Z.land w' (Z.ones k) ≠ 0.
Proof.
  intros Hk Hr -> Hlow Hne. unfold ffs_step. destruct (Z.eqb_spec (Z.land (Z.shiftr word r) (Z.ones k)) 0) as [E|E].
  - eexists _, _. split_and!; [done|lia|by rewrite Z.shiftr_shiftr by lia| |].
    + intros i Hi. destruct (decide (i < r)); [apply Hlow; lia|].
      apply (f_equal (λ x, Z.testbit x (i - r))) in E.
      rewrite Z.land_spec, Z.shiftr_spec, testbit_ones, bool_decide_true, Z.bits_0, andb_true_r in E by lia.
      rewrite <- E. f_equal. lia.
    + intros E'. apply Hne, Z.bits_inj'. intros i Hi. rewrite Z.bits_0.
      destruct (decide (i < k)).
      * rewrite <- (Z.bits_0 i), <- E, !Z.land_spec. f_equal.
        rewrite !testbit_ones by lia. apply bool_decide_ext. lia.
      * apply (f_equal (λ x, Z.testbit x (i - k))) in E'. rewrite Z.bits_0 in E'. rewrite <- E'.
        rewrite !Z.land_spec, !Z.shiftr_spec, !testbit_ones by lia. f_equal; [f_equal; lia|].
        apply bool_decide_ext. lia.
  - eexists _, _. split_and!; try done.
Qed.

Lemma ffs64_spec word : is_u 64 word → word ≠ 0 → least_bit word (ffs64 word).
Proof.
  intros Hw Hne. unfold ffs64.
  destruct (ffs_step_spec word 32 word 0) as (w1 & r1 & -> & ? & ? & ? & ?);
    [lia|lia|by rewrite Z.shiftr_0_r|intros; lia|by rewrite Z.land_ones, Z.mod_small by (destruct Hw; lia)|].
  destruct (ffs_step_spec word 16 w1 r1) as (w2 & r2 & -> & ? & ? & ? & ?); try done.
  destruct (ffs_step_spec word 8 w2 r2) as (w3 & r3 & -> & ? & ? & ? & ?); try done.
  destruct (ffs_step_spec word 4 w3 r3) as (w4 & r4 & -> & ? & ? & ? & ?); try done.
  destruct (ffs_step_spec word 2 w4 r4) as (w5 & r5 & -> & Hr & -> & Hlow & Hb); try done.
  destruct (ffs_step_spec word 1 (Z.shiftr word r5) r5) as (w6 & r6 & E & Hr6 & -> & Hlow6 & Hb6); try done.
  unfold ffs_step in E. change (Z.ones 1) with 1 in *.
  destruct (Z.land (Z.shiftr word r5) 1 =? 0); simplify_eq; (split; [lia|]); split; try done;
    apply Bool.not_false_iff_true; intros Hz; apply Hb6, Z.bits_inj'; intros i Hi;
    rewrite Z.bits_0, Z.land_spec, Z.shiftr_spec by lia;
    change (Z.testbit 1 i) with (Z.testbit (Z.ones 1) i); rewrite testbit_ones by lia;
    (case_bool_decide; [|by rewrite andb_false_r]); replace i with 0 by lia; by rewrite Z.add_0_l, Hz.
Qed.

(** ** A level as a sequence of bits *)
Definition wbit (ws : list Z) (k : Z) : bool :=
  match zget ws (k / 64) with Some w => Z.testbit w (k mod 64) | None => false end.
Definition wfull (ws : list Z) (j : Z) : bool :=
  match zget ws j with Some w => w =? 2 ^ 64 - 1 | None => false end.

Lemma bit_masks_ones n : 0 ≤ n ≤ 64 → zget bit_masks n = Some (Z.ones n).
Proof.
  intros. assert (Forall (λ k, zget bit_masks (Z.of_nat k) = Some (Z.ones (Z.of_nat k))) (seq 0 65))
    as Hall by (by vm_compute; repeat constructor).
  rewrite Forall_forall in Hall. specialize (Hall (Z.to_nat n)). rewrite Z2Nat.id in Hall by lia.
  apply Hall, elem_of_seq. lia.
Qed.

Lemma land_mask k : Z.land k BLOCKS_PER_UNIT_MASK = k mod 64.
Proof. change BLOCKS_PER_UNIT_MASK with (Z.ones 6). by rewrite Z.land_ones by lia. Qed.
Lemma shift_unit k : Z.shiftr k UNIT_SHIFT = k / 64.
Proof. by rewrite Z.shiftr_div_pow2 by done. Qed.
Lemma shift_units k (i : nat) : Z.shiftr k (UNIT_SHIFT * Z.of_nat i) = k / 64 ^ Z.of_nat i.
Proof.
  rewrite Z.shiftr_div_pow2 by (unfold UNIT_SHIFT; lia). unfold UNIT_SHIFT.
  by rewrite Z.pow_mul_r by lia.
Qed.
Create Rewrite HintDb axmap.
#[local] Hint Rewrite land_mask shift_unit shift_units : axmap.

Lemma u64_lnot_bit w i : is_u 64 w → 0 ≤ i → Z.testbit (u64 (Z.lnot w)) i = bool_decide (i < 64) && negb (Z.testbit w i).
Proof.
  intros Hw Hi. unfold u64, wrap. rewrite <- Z.land_ones, Z.land_spec, Z.lnot_spec, testbit_ones by lia.
  rewrite andb_comm. f_equal. apply bool_decide_ext. lia.
Qed.

(** [ones << bit] within a word. *)
Lemma mask_bit r b i :
  0 ≤ b → 0 ≤ r → r + b ≤ 64 → 0 ≤ i →
  Z.testbit (u64 (Z.shiftl (Z.ones r) b)) i = bool_decide (b ≤ i < b + r).
Proof.
  intros. unfold u64, wrap. rewrite <- Z.land_ones, Z.land_spec, Z.shiftl_spec, !testbit_ones by lia.
  repeat case_bool_decide; simpl; try done; lia.
Qed.

Lemma is_u_u64 x : is_u 64 (u64 x).
Proof. by apply wrap_is_u. Qed.
#[local] Hint Resolve is_u_u64 : core.

Lemma word_eq w v :
  is_u 64 w → is_u 64 v → (∀ i, 0 ≤ i < 64 → Z.testbit w i = Z.testbit v i) → w = v.
Proof.
  intros Hw Hv H. apply Z.bits_inj'. intros i Hi. destruct (decide (i < 64)); [by apply H|].
  rewrite !(testbit_high 64) by (done || lia). done.
Qed.

Lemma word_full w : is_u 64 w → (w =? 2 ^ 64 - 1) = true ↔ ∀ i, 0 ≤ i < 64 → Z.testbit w i = true.
Proof.
  intros Hw. rewrite Z.eqb_eq. split.
  - intros -> i Hi. change (2 ^ 64 - 1) with (Z.ones 64). rewrite testbit_ones by lia.
    by apply bool_decide_true.
  - intros H. apply word_eq; [done|by split|]. intros i Hi. rewrite H by done.
    change (2 ^ 64 - 1) with (Z.ones 64). rewrite testbit_ones by lia. by rewrite bool_decide_true.
Qed.

Section words.
Context (ws : list Z) (Hws : Forall (is_u 64) ws).

Lemma zget_is_u o w : zget ws o = Some w → is_u 64 w.
Proof.
  unfold zget. case_decide; [|done]. intros ?. by eapply (proj1 (Forall_lookup _ _) Hws).
Qed.

Lemma wbit_word o w i : zget ws o = Some w → 0 ≤ i < 64 → wbit ws (64 * o + i) = Z.testbit w i.
Proof.
  intros Ho Hi. unfold wbit. replace ((64 * o + i) / 64) with o by dlia. rewrite Ho. f_equal. dlia.
Qed.

Lemma wfull_spec o : wfull ws o = true ↔ (∃ w, zget ws o = Some w) ∧ ∀ i, 0 ≤ i < 64 → wbit ws (64 * o + i) = true.
Proof.
  unfold wfull. destruct (zget ws o) as [w|] eqn:E.
  - rewrite word_full by (by eapply zget_is_u). split.
    + intros H. split; [by eexists|]. intros i Hi. by rewrite (wbit_word o w) by done || lia; apply H.
    + intros [_ H] i Hi. rewrite <- (wbit_word o w) by done || lia. by apply H.
  - split; [done|]. intros [[w ?] _]. done.
Qed.

Lemma wbit_out k : 64 * Z.of_nat (length ws) ≤ k → wbit ws k = false.
Proof.
  intros. unfold wbit. destruct (zget ws (k / 64)) eqn:E; [|done].
  apply zget_Some_range in E. dlia.
Qed.

Lemma wbit_zset o w' ws' k :
  zset ws o w' = Some ws' → wbit ws' k = if decide (k / 64 = o) then Z.testbit w' (k mod 64) else wbit ws k.
Proof.
  intros H. unfold wbit. case_decide as E.
  - subst. by rewrite (zget_zset_eq _ _ _ _ H).
  - by rewrite (zget_zset_ne _ _ _ _ _ (not_eq_sym E) H).
Qed.
Lemma wfull_zset o w' ws' j :
  zset ws o w' = Some ws' → wfull ws' j = if decide (j = o) then w' =? 2 ^ 64 - 1 else wfull ws j.
Proof.
  intros H. unfold wfull. case_decide as E.
  - subst. by rewrite (zget_zset_eq _ _ _ _ H).
  - by rewrite (zget_zset_ne _ _ _ _ _ (not_eq_sym E) H).
Qed.
End words.

Lemma u64_lnot_lnot w : is_u 64 w → u64 (Z.lnot (u64 (Z.lnot w))) = w.
Proof.
  intros Hw. apply word_eq; [auto|done|]. intros i Hi.
  rewrite !u64_lnot_bit by (auto || lia). rewrite bool_decide_true by lia. by rewrite !andb_true_l, negb_involutive.
Qed.

(** The index of the first free bit that [ffz(~temp)] computes. *)
Lemma arch_ffz_lnot temp :
  is_u 64 temp → temp ≠ 0 → ∃ f, arch_ffz (u64 (Z.lnot temp)) = Some f ∧ least_bit temp f ∧ f < 64.
Proof. intros. unfold arch_ffz. rewrite u64_lnot_lnot by done. by apply bsf_spec. Qed.

Lemma bits_zero w : is_u 64 w → (w =? 0) = true ↔ ∀ i, 0 ≤ i < 64 → Z.testbit w i = false.
Proof.
  intros Hw. rewrite Z.eqb_eq. split; [intros -> i _; apply Z.bits_0|].
  intros H. apply word_eq; [done|by split|]. intros i Hi. rewrite H by done. by rewrite Z.bits_0.
Qed.

#[local] Hint Extern 1 (is_u 64 (Z.land _ _)) => apply land_is_u; [lia| |] : core.
#[local] Hint Extern 1 (is_u 64 (Z.lor _ _)) => apply lor_is_u; [lia| |] : core.

(** Setting [r] clear bits of word [o] from bit [b] on. *)
Lemma set_run ws o b r w :
  Forall (is_u 64) ws → zget ws o = Some w → 0 ≤ b → 1 ≤ r → r + b ≤ 64 →
  (∀ i, 0 ≤ i < r → wbit ws (64 * o + (b + i)) = false) →
  let mask := u64 (Z.shiftl (Z.ones r) b) in
  (mask =? 0) || negb (Z.land w mask =? 0) = false ∧
  ∃ ws', zset ws o (Z.lor w mask) = Some ws' ∧ length ws' = length ws ∧ Forall (is_u 64) ws' ∧
    wfull ws' o = (Z.lor w mask =? 2 ^ 64 - 1) ∧
    (∀ j, wbit ws' j = bool_decide (64 * o + b ≤ j < 64 * o + b + r) || wbit ws j) ∧
    (∀ j, j ≠ o → wfull ws' j = wfull ws j).
Proof.
  intros Hws Hw Hb Hr Hrb Hclear mask. pose proof (zget_is_u ws Hws _ _ Hw) as Hwu.
  assert (is_u 64 mask) as Hm by apply is_u_u64.
  assert (∀ i, 0 ≤ i < 64 → Z.testbit mask i = bool_decide (b ≤ i < b + r)) as Hbit
    by (intros; unfold mask; rewrite mask_bit by lia; done).
  split.
  - apply orb_false_iff. split.
    + apply Bool.not_true_iff_false. rewrite bits_zero by done. intros H.
      specialize (H b ltac:(lia)). rewrite Hbit, bool_decide_true in H by lia. done.
    + apply negb_false_iff. rewrite bits_zero by auto. intros i Hi. rewrite Z.land_spec, Hbit by done.
      case_bool_decide; [|by rewrite andb_false_r]. rewrite <- (wbit_word ws o w i) by done.
      replace i with (b + (i - b)) by lia. rewrite Hclear by lia. done.
  - pose proof (zget_Some_range _ _ _ Hw). rewrite zset_is_Some by done. eexists. split; [done|].
    pose proof (zset_is_Some ws o (Z.lor w mask) ltac:(done)) as Hset. split_and!.
    + by apply zset_length in Hset.
    + apply Forall_insert; auto.
    + by rewrite (wfull_zset _ _ _ _ _ Hset), decide_True.
    + intros j. rewrite (wbit_zset _ _ _ _ _ Hset). case_decide as Hj.
      * rewrite Z.lor_spec, Hbit, orb_comm by dlia. f_equal; [apply bool_decide_ext; dlia|].
        rewrite <- (wbit_word ws o w) by (done || dlia). f_equal. dlia.
      * rewrite bool_decide_false by dlia. done.
    + intros j Hj. by rewrite (wfull_zset _ _ _ _ _ Hset), decide_False.
Qed.

(** Bits [k], ... of which the first [r] of [n] are clear, and no more. *)
Definition clear_run (bits : Z → bool) (k n r : Z) : Prop :=
  0 ≤ r ≤ n ∧ (∀ i, k ≤ i < k + r → bits i = false) ∧ (r < n → bits (k + r) = true).

Definition set_result (al : axmap_level) (k n s r : Z) (res : bool * axmap_set_data * axmap_level) : Prop :=
  if decide (r = 0) then s = 0 → res = (true, SetData n 0, al)
  else ∃ ws', res = (negb (wfull ws' (k / 64)), SetData 1 (if level al =? 0 then r else s), al <| map := ws' |>) ∧
    length ws' = length (map al) ∧ Forall (is_u 64) ws' ∧
    (∀ j, wbit ws' j = bool_decide (k ≤ j < k + r) || wbit (map al) j) ∧
    (∀ j, j ≠ k / 64 → wfull ws' j = wfull (map al) j).

Lemma set_run_result al k n s r o w :
  Forall (is_u 64) (map al) → o = k / 64 → zget (map al) o = Some w → 1 ≤ r → r + k mod 64 ≤ 64 →
  clear_run (wbit (map al)) k n r →
  ∃ res, (if (r =? 0) && negb (Z.land w (u64 (Z.shiftl (Z.ones n) (k mod 64))) =? 0)
          then Some (true, SetData n s, al)
          else
      ones ← zget bit_masks r;
      let mask := u64 (Z.shiftl ones (k mod 64)) in
      if (mask =? 0) || negb (Z.land w mask =? 0) then None
      else
        let w' := Z.lor w mask in
        words ← zset (map al) o w';
        Some (negb (w' =? 2 ^ 64 - 1), SetData 1 (if level al =? 0 then r else s), al <| map := words |>)) = Some res ∧
    set_result al k n s r res.
Proof.
  intros Hws -> Hw Hr Hb (_ & Hclear & _).
  rewrite (proj2 (Z.eqb_neq r 0)) by lia. rewrite bit_masks_ones by dlia. cbn.
  destruct (set_run (map al) (k / 64) (k mod 64) r w) as (-> & ws' & -> & Hl & Hu & Hf & Hbits & Hfull);
    [done|done|dlia..| |].
  { intros i Hi. rewrite <- (Hclear (k + i)) by lia. f_equal. dlia. }
  cbn. eexists. split; [done|]. unfold set_result. rewrite decide_False by lia. exists ws'.
  split_and!; try done; [by rewrite Hf|].
  intros j. rewrite Hbits. f_equal. apply bool_decide_ext. dlia.
Qed.

Lemma axmap_set_fn_spec al k n s :
  Forall (is_u 64) (map al) → 0 ≤ k → k / 64 < Z.of_nat (length (map al)) → 1 ≤ n → n + k mod 64 ≤ 64 →
  ∃ r res, clear_run (wbit (map al)) k n r ∧
    axmap_set_fn al (k / 64) (k mod 64) (SetData n s) = Some res ∧ set_result al k n s r res.
Proof.
  intros Hws Hk Hlen Hn Hb.
  destruct (zget_is_Some (map al) (k / 64)) as [w Hw]; [dlia|]. pose proof (zget_is_u _ Hws _ _ Hw) as Hwu.
  unfold axmap_set_fn. change BLOCKS_PER_UNIT with 64. cbn [sd_nr_bits set_bits].
  rewrite Z.min_l, bit_masks_ones by dlia. cbn [mbind option_bind]. rewrite Hw. cbn [mbind option_bind].
  set (mask := u64 (Z.shiftl (Z.ones n) (k mod 64))).
  assert (∀ i, 0 ≤ i < 64 → Z.testbit mask i = bool_decide (k mod 64 ≤ i < k mod 64 + n)) as Hm
    by (intros; unfold mask; rewrite mask_bit by dlia; done).
  assert (∀ i, 0 ≤ i < n → wbit (map al) (k + i) = Z.testbit w (k mod 64 + i)) as Hbit.
  { intros i Hi. rewrite <- (wbit_word (map al) (k / 64) w) by (done || dlia). f_equal. dlia. }
  assert (is_u 64 (Z.land w mask)) as Hov by (apply land_is_u; [done|done|apply is_u_u64]).
  destruct (Z.eqb_spec (Z.land w mask) mask) as [E|E].
  - exists 0, (true, SetData n 0, al). split; [|split; [done|by unfold set_result; rewrite decide_True]].
    split; [lia|split; [intros; lia|intros _]]. rewrite Hbit by lia.
    apply (f_equal (λ x, Z.testbit x (k mod 64 + 0))) in E.
    rewrite Z.land_spec, Hm, bool_decide_true, andb_true_r in E by dlia. done.
  - destruct (Z.eqb_spec (Z.land w mask) 0) as [E0|E0].
    + assert (clear_run (wbit (map al)) k n n) as Hr.
      { split; [lia|split; [|lia]]. intros i Hi. replace i with (k + (i - k)) by lia. rewrite Hbit by lia.
        apply (f_equal (λ x, Z.testbit x (k mod 64 + (i - k)))) in E0.
        rewrite Z.land_spec, Hm, bool_decide_true, andb_true_r, Z.bits_0 in E0 by dlia. done. }
      destruct (set_run_result al k n s n (k / 64) w) as (res & Hres & Hspec); try done.
      exists n, res. split_and!; try done. fold mask in Hres. rewrite (proj2 (Z.eqb_eq _ _) E0) in Hres.
      exact Hres.
    + destruct (arch_ffz_lnot (Z.land w mask)) as (f & -> & (Hf & Hfb & Hlow) & Hf64); try done.
      rewrite Z.land_spec, Hm in Hfb by lia. apply andb_prop in Hfb as [Hwf Hfr%bool_decide_eq_true].
      assert (clear_run (wbit (map al)) k n (f - k mod 64)) as Hr.
      { split; [lia|split].
        - intros i Hi. replace i with (k + (i - k)) by lia. rewrite Hbit by lia.
          specialize (Hlow (k mod 64 + (i - k)) ltac:(dlia)).
          rewrite Z.land_spec, Hm, bool_decide_true, andb_true_r in Hlow by dlia. done.
        - intros _. rewrite Hbit by lia. rewrite <- Hwf. f_equal. lia. }
      cbn [mbind option_bind]. destruct (decide (f - k mod 64 = 0)) as [Hz|Hz].
      * exists 0. rewrite Hz in *. eexists. split_and!; [done|done|]. unfold set_result.
        rewrite decide_True by done. by intros ->.
      * destruct (set_run_result al k n s (f - k mod 64) (k / 64) w) as (res & Hres & Hspec); try done; [lia..|].
        exists (f - k mod 64), res. split_and!; try done. fold mask in Hres.
        rewrite (proj2 (Z.eqb_neq _ _) E0) in Hres. exact Hres.
Qed.

(** ** The invariant

    Level [i] holds the bits [below]: the members of the set at level 0, the full
    words of the level beneath above it. *)
Fixpoint wf_from (below : Z → bool) (i n : Z) (ls : list axmap_level) : Prop :=
  match ls with
  | [] => True
  | al :: ls' =>
      level al = i ∧ map_size al = (n + 63) / 64 ∧ map_size al = Z.of_nat (length (map al)) ∧
      Forall (is_u 64) (map al) ∧ (∀ k, 0 ≤ k → wbit (map al) k = below k) ∧
      wf_from (wfull (map al)) (i + 1) (map_size al) ls'
  end.

(** The map stores the set [X] of numbers below [nr_bits]. *)
Definition is_set (m : axmap) (X : gset Z) : Prop :=
  wf_from (λ k, bool_decide (k ∈ X)) 0 (nr_bits m) (levels m) ∧
  (1 ≤ length (levels m) ≤ 7)%nat ∧ 0 ≤ nr_bits m ≤ 2 ^ 63 ∧ ∀ k, k ∈ X → 0 ≤ k < nr_bits m.

Lemma wf_from_ext below below' i n ls :
  (∀ k, 0 ≤ k → below k = below' k) → wf_from below i n ls → wf_from below' i n ls.
Proof.
  intros He. destruct ls as [|al ls]; [done|]. simpl. intros (? & ? & ? & ? & Hb & ?).
  split_and!; try done. intros k Hk. rewrite <- He by done. by apply Hb.
Qed.

Lemma next_index index : (if index =? 0 then index else index / 64) = index / 64.
Proof. by destruct (Z.eqb_spec index 0) as [->|]. Qed.
#[local] Hint Rewrite next_index : axmap.

(** Setting a clear bit of the levels [ls], and of those above as words fill. *)
Definition sets_up (ls : list axmap_level) : Prop :=
  ∀ below i n k s, wf_from below i n ls → 1 ≤ i → 0 ≤ k < n → below k = false →
  ∃ r ls', handler_loop axmap_set_fn ls k (SetData 1 s) = Some (r, SetData 1 s, ls') ∧
    wf_from (λ j, bool_decide (j = k) || below j) i n ls' ∧ length ls' = length ls.

(** The rest of the walk after a word of [al] has changed. *)
Lemma carry_up al ls ws' i n k s :
  sets_up ls → wf_from (wfull (map al)) i n ls → 1 ≤ i → 0 ≤ k < n →
  wfull (map al) k = false → (∀ j, j ≠ k → wfull ws' j = wfull (map al) j) →
  ∃ r ls', (if negb (wfull ws' k) then Some (true, SetData 1 s, al <| map := ws' |> :: ls)
            else '(r, data, ls') ← handler_loop axmap_set_fn ls k (SetData 1 s);
                 Some (r, data, al <| map := ws' |> :: ls')) =
           Some (r, SetData 1 s, al <| map := ws' |> :: ls') ∧
    wf_from (wfull ws') i n ls' ∧ length ls' = length ls.
Proof.
  intros Hup Hwf Hi Hk Hnf Hfull. destruct (wfull ws' k) eqn:Ef; simpl.
  - destruct (Hup (wfull (map al)) i n k s) as (r & ls' & -> & Hwf' & Hl'); [done..|].
    exists r, ls'. split_and!; try done. eapply wf_from_ext; [|exact Hwf'].
    intros j Hj. simpl. case_bool_decide as Ej; [by subst|by rewrite Hfull].
  - exists true, ls. split_and!; try done. eapply wf_from_ext; [|exact Hwf].
    intros j Hj. destruct (decide (j = k)) as [->|]; [congruence|by rewrite Hfull].
Qed.

(** The word of a clear bit is not full. *)
Lemma not_full ws k : Forall (is_u 64) ws → 0 ≤ k → wbit ws k = false → wfull ws (k / 64) = false.
Proof.
  intros Hws Hk Hb. apply Bool.not_true_iff_false. rewrite wfull_spec by done. intros [_ H].
  specialize (H (k mod 64) ltac:(dlia)). replace (64 * (k / 64) + k mod 64) with k in H by dlia. congruence.
Qed.

Lemma handler_up ls : sets_up ls.
Proof.
  induction ls as [|al ls IH]; intros below i n k s Hwf Hi Hk Hb; simpl; [by exists false, []|].
  destruct Hwf as (Hlv & Hsz & Hlen & Hws & Hbits & Hwf). autorewrite with axmap.
  destruct (axmap_set_fn_spec al k 1 s) as (r & res & (Hr & _ & Hrun) & -> & Hres); [done|lia|dlia|lia|dlia|].
  assert (r = 1) as ->.
  { destruct (decide (r = 1)); [done|]. exfalso. rewrite <- (Hbits k), <- (Z.add_0_r k) in Hb by lia.
    replace r with 0 in Hrun by lia. rewrite Hrun in Hb by lia. done. }
  unfold set_result in Hres. rewrite decide_False in Hres by done.
  destruct Hres as (ws' & -> & Hl & Hu & Hbits' & Hfull). rewrite (proj2 (Z.eqb_neq (level al) 0)) by lia.
  cbn [mbind option_bind].
  destruct (carry_up al ls ws' (i + 1) (map_size al) (k / 64) s) as (t & ls' & Hc & Hwf' & Hl');
    [done|done|lia|dlia|apply not_full; [done|lia|by rewrite Hbits by lia]|done|].
  exists t. eexists. split; [exact Hc|]. simpl. split; [|by rewrite Hl'].
  split_and!; try done; [by rewrite Hl|].
  intros j Hj. rewrite Hbits', Hbits by done. f_equal. apply bool_decide_ext. lia.
Qed.

(** A set with the numbers from [k] up to [k + r] added. *)
Definition add_range (X : gset Z) (k r : Z) : gset Z := X ∪ list_to_set (seqZ k r).

Lemma elem_of_add_range X k r j : 0 ≤ r → j ∈ add_range X k r ↔ k ≤ j < k + r ∨ j ∈ X.
Proof. intros. unfold add_range. rewrite elem_of_union, elem_of_list_to_set, elem_of_seqZ. naive_solver lia. Qed.

Definition run_of (X : gset Z) := clear_run (λ k, bool_decide (k ∈ X)).

Lemma member_add X k r j :
  0 ≤ r → bool_decide (j ∈ add_range X k r) = bool_decide (k ≤ j < k + r) || bool_decide (j ∈ X).
Proof. intros. rewrite <- bool_decide_or. by apply bool_decide_ext, elem_of_add_range. Qed.

Lemma handler_set X size ls k n :
  wf_from (λ j, bool_decide (j ∈ X)) 0 size ls → ls ≠ [] → 0 ≤ k < size → 1 ≤ n → n + k mod 64 ≤ 64 →
  ∃ r d t ls', handler_loop axmap_set_fn ls k (SetData n 0) = Some (t, SetData d r, ls') ∧ run_of X k n r ∧
    wf_from (λ j, bool_decide (j ∈ add_range X k r)) 0 size ls' ∧ length ls' = length ls.
Proof.
  intros Hwf Hne Hk Hn Hmod. destruct ls as [|al ls]; [done|]. simpl in Hwf |- *.
  destruct Hwf as (Hl0 & Hsz & Hlen & Hws & Hbits & Hwf). autorewrite with axmap.
  destruct (axmap_set_fn_spec al k n 0) as (r & res & (Hr & Hclr & Hrun) & -> & Hres); [done|lia|dlia|lia|lia|].
  assert (run_of X k n r) as HrX.
  { split; [done|split].
    - intros i Hi. rewrite <- Hbits by lia. by apply Hclr.
    - intros Hrn. rewrite <- Hbits by lia. by apply Hrun. }
  exists r. unfold set_result in Hres. case_decide as Hr0.
  - rewrite Hres by done. subst r. eexists n, true, _. split_and!; [done|done| |done]. simpl. split_and!; try done.
    intros j Hj. rewrite Hbits, member_add by done. by rewrite (bool_decide_false (k ≤ j < _)) by lia.
  - destruct Hres as (ws' & -> & Hl & Hu & Hbits' & Hfull). rewrite Hl0.
    destruct (carry_up al ls ws' 1 (map_size al) (k / 64) r) as (t & ls' & Hc & Hwf' & Hl');
      [apply handler_up|done|lia|dlia|apply not_full; [done|lia|apply Hclr; lia]|done|].
    eexists 1, t, _. split; [exact Hc|]. split; [done|]. simpl. split; [|by rewrite Hl'].
    split_and!; try done; [by rewrite Hl|]. intros j Hj. by rewrite Hbits', Hbits, member_add by lia.
Qed.

Lemma set_word_spec m X k n :
  is_set m X → 0 ≤ k → 1 ≤ n → k + n ≤ nr_bits m → n + k mod 64 ≤ 64 →
  ∃ r d m', __axmap_set k (SetData n 0) m = Some (SetData d r, m') ∧ run_of X k n r ∧
    is_set m' (add_range X k r) ∧ nr_bits m' = nr_bits m.
Proof.
  intros (Hwf & Hlv & Hn & HX) Hk Hn1 Hkn Hmod. unfold __axmap_set, axmap_handler. cbn [sd_nr_bits].
  rewrite (proj2 (Z.ltb_ge _ _)) by lia.
  unfold u64. rewrite wrap_small, (proj2 (Z.ltb_ge (nr_bits m) (k + n))) by (unfold is_u; lia).
  change BLOCKS_PER_UNIT with 64. rewrite (proj2 (Z.ltb_ge _ _)) by dlia.
  destruct (handler_set X (nr_bits m) (levels m) k n) as (r & d & t & ls' & -> & Hr & Hwf' & Hl); try done; [|lia|].
  { intros E. rewrite E in Hlv. simpl in Hlv. lia. }
  exists r, d, (m <| levels := ls' |>). split_and!; [done|done| |done]. split_and!; simpl; [done|lia..|].
  intros j. destruct Hr as [Hr _]. rewrite elem_of_add_range by lia. intros [|]; [lia|by apply HX].
Qed.

(** ** What each operation does to the set *)
Lemma run_unique bits k n r r' : clear_run bits k n r → clear_run bits k n r' → r = r'.
Proof.
  intros (? & Hc & Hs) (? & Hc' & Hs'). destruct (Z.lt_trichotomy r r') as [|[|]]; [|done|].
  - specialize (Hs ltac:(lia)). rewrite Hc' in Hs by lia. done.
  - specialize (Hs' ltac:(lia)). rewrite Hc in Hs' by lia. done.
Qed.

(** The number of blocks from [k] on, at most [n], that are not in [X]. *)
Fixpoint run_len (n : nat) (X : gset Z) (k : Z) : Z :=
  match n with
  | O => 0
  | S n' => if decide (k ∈ X) then 0 else 1 + run_len n' X (k + 1)
  end.

Lemma run_len_spec n X k : run_of X k (Z.of_nat n) (run_len n X k).
Proof.
  revert k. induction n as [|n IH]; intros k; simpl; [split; [lia|split; intros; lia]|].
  unfold run_of, clear_run. case_decide as Hk.
  - split; [lia|split; [intros; lia|]]. intros _. rewrite Z.add_0_r. by apply bool_decide_true.
  - destruct (IH (k + 1)) as (? & Hc & Hs). split; [lia|split].
    + intros i Hi. destruct (decide (i = k)) as [->|]; [by apply bool_decide_eq_false|]. apply Hc. lia.
    + intros ?. rewrite Z.add_assoc. apply Hs. lia.
Qed.

Lemma run_app X k n t r :
  0 ≤ t ≤ n → run_of X k t t → run_of (add_range X k t) (k + t) (n - t) r → run_of X k n (t + r).
Proof.
  intros Ht (_ & Hc & _) (Hr & Hc' & Hs'). split; [lia|split].
  - intros i Hi. destruct (decide (i < k + t)); [apply Hc; lia|].
    specialize (Hc' i ltac:(lia)). rewrite member_add in Hc' by lia. by apply orb_false_iff in Hc' as [_ Hc'].
  - intros ?. specialize (Hs' ltac:(lia)). rewrite member_add, (bool_decide_false (k ≤ k + t + r < k + t)) in Hs' by lia.
    by rewrite Z.add_assoc.
Qed.
Lemma add_range_app X k t r :
  0 ≤ t → 0 ≤ r → add_range (add_range X k t) (k + t) r = add_range X k (t + r).
Proof. intros. apply set_eq. intros j. rewrite !elem_of_add_range by lia. naive_solver lia. Qed.
Lemma run_of_less X k n t r : t ≤ n → run_of X k t r → r ≠ t → run_of X k n r.
Proof. intros Ht (? & Hc & Hs) Hr. split; [lia|]. split; [done|]. intros _. apply Hs. lia. Qed.

Lemma set_nr_loop_spec fuel m X k n total :
  is_set m X → 0 ≤ k → 1 ≤ n → k + n ≤ nr_bits m → n + k mod 64 ≤ 64 * Z.of_nat fuel →
  0 ≤ total → total + n < 2 ^ 32 →
  ∃ r m', set_nr_loop fuel k n total m = Some (total + r, m') ∧ run_of X k n r ∧
    is_set m' (add_range X k r) ∧ nr_bits m' = nr_bits m.
Proof.
  revert m X k n total. induction fuel as [|fuel IH]; intros m X k n total Hm Hk Hn Hkn Hfuel Ht Htn; [dlia|].
  pose proof Hm as (_ & _ & Hsz & _). cbn [set_nr_loop]. change BLOCKS_PER_UNIT with 64. autorewrite with axmap.
  set (this := if 64 - k mod 64 <? n then 64 - k mod 64 else n).
  assert (1 ≤ this ≤ n ∧ this + k mod 64 ≤ 64 ∧ (this = n ∨ this + k mod 64 = 64)) as (? & ? & Hthis)
    by (unfold this; destruct (Z.ltb_spec (64 - k mod 64) n); dlia).
  destruct (set_word_spec m X k this) as (r & d & m' & E & Hr & Hm' & Hsz'); [done|lia..|].
  rewrite (bind_run _ _ _ _ _ E). cbn [set_bits]. pose proof Hr as [Hrange _].
  rewrite u32_small by lia. destruct (Z.eqb_spec r this) as [->|Hne]; simpl.
  - rewrite u32_small by lia. destruct (Z.eqb_spec (n - this) 0) as [Hz|Hz].
    + exists this, m'. replace n with this by lia. done.
    + unfold u64. rewrite wrap_small by (unfold is_u; lia).
      destruct (IH m' (add_range X k this) (k + this) (n - this) (total + this)) as (r' & m2 & -> & Hr' & Hm2 & Hsz2);
        [done|lia|lia|lia|dlia|lia|lia|].
      exists (this + r'), m2. split_and!; [do 2 f_equal; lia|eapply run_app; eauto; lia| |lia].
      rewrite <- add_range_app by (lia || apply Hr'). done.
  - exists r, m'. split_and!; try done. eapply run_of_less; [|exact Hr|done]. lia.
Qed.

(** [axmap_set_nr] adds the blocks from [bit_nr] up to the first one that is in the
    set, at most [nr_bits] of them, and returns how many. *)
Lemma axmap_set_nr_spec m X k n :
  is_set m X → 0 ≤ k → 1 ≤ n < 2 ^ 32 → k + n ≤ nr_bits m →
  ∃ m', axmap_set_nr k n m = Some (run_len (Z.to_nat n) X k, m') ∧
    is_set m' (add_range X k (run_len (Z.to_nat n) X k)) ∧ nr_bits m' = nr_bits m.
Proof.
  intros Hm Hk Hn Hkn.
  destruct (set_nr_loop_spec (Z.to_nat (n / BLOCKS_PER_UNIT + 2)) m X k n 0) as (r & m' & E & Hr & Hm' & Hsz);
    [done|lia..| |lia|lia|]; [change BLOCKS_PER_UNIT with 64; dlia|].
  pose proof (run_len_spec (Z.to_nat n) X k) as Hl. rewrite Z2Nat.id in Hl by lia.
  rewrite (run_unique _ _ _ _ _ Hl Hr). exists m'. done.
Qed.

Lemma axmap_set_spec m X k :
  is_set m X → 0 ≤ k < nr_bits m →
  ∃ m', axmap_set k m = Some ((), m') ∧ is_set m' ({[k]} ∪ X) ∧ nr_bits m' = nr_bits m.
Proof.
  intros Hm Hk. destruct (set_word_spec m X k 1) as (r & d & m' & E & Hr & Hm' & Hsz); [done|lia|lia|lia|dlia|].
  unfold axmap_set. rewrite (bind_run _ _ _ _ _ E). exists m'. split_and!; try done.
  replace ({[k]} ∪ X) with (add_range X k r); [done|]. apply set_eq. intros j.
  destruct Hr as (? & _ & Hs). rewrite elem_of_add_range, elem_of_union, elem_of_singleton by lia.
  destruct (decide (r = 1)) as [->|]; [naive_solver lia|]. replace r with 0 in * by lia.
  specialize (Hs ltac:(lia)). apply bool_decide_eq_true in Hs. rewrite Z.add_0_r in Hs. naive_solver lia.
Qed.

(** ** Creation and reset *)
Fixpoint sized (i n : Z) (ls : list axmap_level) : Prop :=
  match ls with
  | [] => True
  | al :: ls' => level al = i ∧ map_size al = (n + 63) / 64 ∧ sized (i + 1) (map_size al) ls'
  end.

Lemma wf_sized below i n ls : wf_from below i n ls → sized i n ls.
Proof. revert below i n. induction ls as [|al ls IH]; simpl; [done|]. naive_solver. Qed.

Lemma wbit_clear n k : wbit (repeat 0 n) k = false.
Proof.
  unfold wbit. destruct (zget (repeat 0 n) (k / 64)) as [w|] eqn:E; [|done].
  pose proof (zget_Some_range _ _ _ E) as Hr. rewrite repeat_length in Hr.
  rewrite zget_repeat in E by done. simplify_eq. apply Z.bits_0.
Qed.
Lemma wfull_clear n k : wfull (repeat 0 n) k = false.
Proof.
  unfold wfull. destruct (zget (repeat 0 n) k) as [w|] eqn:E; [|done].
  pose proof (zget_Some_range _ _ _ E) as Hr. rewrite repeat_length in Hr.
  by rewrite zget_repeat in E by done; simplify_eq.
Qed.

Lemma clear_wf i n ls : 0 ≤ n → sized i n ls → wf_from (λ _, false) i n (clear_level <$> ls).
Proof.
  revert i n. induction ls as [|al ls IH]; simpl; [done|]. intros i n Hn (Hl & Hsz & Hls).
  split_and!; [done|done|rewrite repeat_length; dlia| | |].
  - apply Forall_repeat_intro. by split.
  - intros k _. apply wbit_clear.
  - eapply wf_from_ext; [|apply IH; [dlia|done]]. intros k _. by rewrite wfull_clear.
Qed.

Lemma reset_is_set size ls :
  sized 0 size ls → (1 ≤ length ls ≤ 7)%nat → 0 ≤ size ≤ 2 ^ 63 → is_set (axmap_reset (Axmap ls size)) ∅.
Proof.
  intros Hls Hl Hsz. split_and!; simpl; [|rewrite length_fmap; lia|rewrite length_fmap; lia|lia|lia|set_solver].
  eapply wf_from_ext; [|apply clear_wf; [lia|done]]. intros k _. by rewrite bool_decide_false by set_solver.
Qed.

Lemma axmap_reset_spec m X : is_set m X → is_set (axmap_reset m) ∅ ∧ nr_bits (axmap_reset m) = nr_bits m.
Proof.
  intros (Hwf & Hl & Hsz & _). split; [|done]. destruct m as [ls size]. apply reset_is_set; try done.
  by eapply wf_sized.
Qed.

Lemma make_levels_sized fresh n i size :
  0 ≤ size ≤ 2 ^ 63 → sized i size (make_levels fresh n i size) ∧ length (make_levels fresh n i size) = n.
Proof.
  revert i size. induction n as [|n IH]; intros i size Hsz; simpl; [done|].
  unfold u64. change BLOCKS_PER_UNIT with 64. autorewrite with axmap.
  rewrite wrap_small by (unfold is_u; lia). replace (size + 64 - 1) with (size + 63) by lia.
  destruct (IH (i + 1) ((size + 63) / 64)) as [? ->]; [dlia|]. done.
Qed.

Lemma count_levels_bound n i : (1 ≤ count_levels n i ≤ S n)%nat.
Proof.
  revert i. induction n as [|n IH]; intros i; simpl; [lia|]. destruct (1 <? i); [|lia].
  specialize (IH (Z.shiftr (u32 (i + BLOCKS_PER_UNIT - 1)) UNIT_SHIFT)). lia.
Qed.

(** Six turns end the loop that counts the levels. *)
Lemma count_levels_enough n e i :
  i ≤ 2 ^ (6 * Z.of_nat n) → i < 2 ^ 32 → count_levels (n + e) i = count_levels n i.
Proof.
  revert i. induction n as [|n IH]; intros i Hi Hu.
  - simpl. destruct e; simpl; [done|]. change (2 ^ (6 * Z.of_nat 0)) with 1 in Hi.
    by rewrite (proj2 (Z.ltb_ge 1 i)) by lia.
  - simpl. destruct (Z.ltb_spec 1 i); [|done]. f_equal. change BLOCKS_PER_UNIT with 64. autorewrite with axmap.
    pose proof (u32_range (i + 64 - 1)). apply IH; [|dlia].
    assert (2 ^ (6 * Z.of_nat (S n)) = 64 * 2 ^ (6 * Z.of_nat n)) as E.
    { replace (6 * Z.of_nat (S n)) with (6 + 6 * Z.of_nat n) by lia. by rewrite Z.pow_add_r by lia. }
    assert (0 < 2 ^ (6 * Z.of_nat n)) by (apply Z.pow_pos_nonneg; lia).
    transitivity ((i + 63) / 64); [|dlia].
    unfold u32, wrap in *. apply Z.div_le_mono; [lia|]. replace (i + 64 - 1) with (i + 63) by lia.
    apply Z.mod_le; lia.
Qed.

Lemma axmap_new_spec fresh size :
  0 ≤ size ≤ 2 ^ 63 → ∃ m, axmap_new true fresh size = Some m ∧ is_set m ∅ ∧ nr_bits m = size.
Proof.
  intros Hsz. eexists. split; [done|]. set (n := count_levels 6 _).
  destruct (make_levels_sized fresh n 0 size) as [? Hl]; [done|]. split; [|done].
  apply reset_is_set; [done| |done]. rewrite Hl. apply count_levels_bound.
Qed.

(** ** Reading the levels *)

(** The numbers under bit [j] of level [i]. *)
Definition under (i : nat) (j b : Z) : Prop := j * 64 ^ Z.of_nat i ≤ b < (j + 1) * 64 ^ Z.of_nat i.

Lemma pow64_S i : 64 ^ Z.of_nat (S i) = 64 * 64 ^ Z.of_nat i.
Proof. by rewrite Nat2Z.inj_succ, Z.pow_succ_r by lia. Qed.
Lemma pow64_pos i : 0 < 64 ^ Z.of_nat i.
Proof. apply Z.pow_pos_nonneg; lia. Qed.

Lemma under_S i j b : 0 ≤ b → under (S i) j b → under i j (b / 64).
Proof.
  unfold under. rewrite pow64_S. pose proof (pow64_pos i). intros ? [H1 H2]. split.
  - apply Z.div_le_lower_bound; lia.
  - apply Z.div_lt_upper_bound; lia.
Qed.

(** A set bit of any level stands for numbers that are all in the set. *)
Lemma wf_bit below i0 n ls i al j b :
  wf_from below i0 n ls → ls !! i = Some al → 0 ≤ j → 0 ≤ b → wbit (map al) j = true → under i j b →
  below b = true.
Proof.
  revert below i0 n ls al b. induction i as [|i IH]; intros below i0 n [|a ls] al b Hwf Hal Hj Hb Hbit Hu; try done;
    simpl in Hwf; destruct Hwf as (_ & _ & _ & Hws & Hbits & Hwf); simpl in Hal.
  - simplify_eq. unfold under in Hu. simpl in Hu. replace b with j by lia. by rewrite <- Hbits.
  - assert (wfull (map a) (b / 64) = true) as Hf.
    { eapply (IH (wfull (map a))); [exact Hwf|exact Hal|done|apply Z.div_pos; lia|done|by apply under_S]. }
    rewrite wfull_spec in Hf by done. rewrite <- Hbits by done.
    replace b with (64 * (b / 64) + b mod 64) by dlia. apply Hf. dlia.
Qed.

Lemma wf_size below i0 n ls i al :
  wf_from below i0 n ls → 0 ≤ n → ls !! i = Some al →
  map_size al = Z.of_nat (length (map al)) ∧ Forall (is_u 64) (map al) ∧
  n ≤ 64 ^ Z.of_nat i * (64 * map_size al) ∧ map_size al ≤ (n + 63) / 64.
Proof.
  revert below i0 n ls. induction i as [|i IH]; intros below i0 n [|a ls] Hwf Hn Hal; try done;
    simpl in Hwf; destruct Hwf as (_ & Hsz & Hlen & Hws & _ & Hwf); simpl in Hal.
  - simplify_eq. split_and!; [done|done|simpl; dlia|lia].
  - destruct (IH _ _ _ _ Hwf) as (? & ? & ? & ?); [dlia|done|]. split_and!; [done|done| |dlia].
    rewrite pow64_S. assert (n ≤ 64 * map_size a) by dlia. lia.
Qed.

Lemma wf_size_up below i0 n ls i al :
  wf_from below i0 n ls → 0 ≤ n → ls !! i = Some al → i ≠ 0%nat → map_size al ≤ ((n + 63) / 64 + 63) / 64.
Proof.
  destruct ls as [|a ls]; [done|]. simpl. intros (_ & Hsz & _ & _ & _ & Hwf) Hn Hal Hi.
  destruct i as [|i]; [done|]. simpl in Hal. rewrite <- Hsz. eapply wf_size; [exact Hwf|dlia|exact Hal].
Qed.

Lemma bit0 (X : gset Z) i0 n ls al j :
  wf_from (λ k, bool_decide (k ∈ X)) i0 n ls → ls !! 0%nat = Some al → 0 ≤ j →
  wbit (map al) j = bool_decide (j ∈ X).
Proof. destruct ls as [|a ls]; [done|]. simpl. intros (_ & _ & _ & _ & Hb & _) [= ->]. apply Hb. Qed.

Lemma isset_bit w b : is_u 64 w → 0 ≤ b < 64 → negb (Z.land w (u64 (Z.shiftl 1 b)) =? 0) = Z.testbit w b.
Proof.
  intros Hw Hb. assert (∀ i, 0 ≤ i < 64 → Z.testbit (u64 (Z.shiftl 1 b)) i = bool_decide (b ≤ i < b + 1)) as Hm.
  { intros i Hi. rewrite <- (mask_bit 1 b i) by lia. done. }
  destruct (Z.testbit w b) eqn:E.
  - apply negb_true_iff, Bool.not_true_iff_false. rewrite bits_zero by auto. intros H.
    specialize (H b Hb). by rewrite Z.land_spec, E, Hm, bool_decide_true in H by lia.
  - apply negb_false_iff. rewrite bits_zero by auto. intros i Hi. rewrite Z.land_spec, Hm by done.
    case_bool_decide; [|by rewrite andb_false_r]. replace i with b by lia. by rewrite E.
Qed.

(** The parent of a number below the size lies in the map of its level. *)
Lemma parent_in_level below i0 n ls i al k :
  wf_from below i0 n ls → ls !! i = Some al → 0 ≤ k < n →
  0 ≤ k / 64 ^ Z.of_nat i < 64 * map_size al ∧ under i (k / 64 ^ Z.of_nat i) k.
Proof.
  intros Hwf Hal Hk. destruct (wf_size _ _ _ _ _ _ Hwf ltac:(lia) Hal) as (_ & _ & Hn & _).
  pose proof (pow64_pos i). split; [split|].
  - apply Z.div_pos; lia.
  - apply Z.div_lt_upper_bound; lia.
  - unfold under. pose proof (Z.div_mod k (64 ^ Z.of_nat i) ltac:(lia)).
    pose proof (Z.mod_pos_bound k (64 ^ Z.of_nat i) ltac:(lia)). lia.
Qed.

Lemma axmap_eta m : Axmap (levels m) (nr_bits m) = m.
Proof. by destruct m. Qed.

Lemma topdown_isset m X n k :
  is_set m X → 0 ≤ k < nr_bits m → (n ≤ length (levels m))%nat →
  ∃ r, topdown_loop axmap_isset_fn n k () m = Some (r, m) ∧
    (r = true → k ∈ X) ∧ ((1 ≤ n)%nat → k ∈ X → r = true).
Proof.
  intros (Hwf & Hl & Hsz & HX) Hk. induction n as [|n IH]; intros Hn; simpl; [exists false; naive_solver lia|].
  destruct (lookup_lt_is_Some_2 (levels m) n) as [al Hal]; [lia|]. rewrite Hal. simpl.
  destruct (wf_size _ _ _ _ _ _ Hwf ltac:(lia) Hal) as (Hlen & Hws & _ & _).
  destruct (parent_in_level _ _ _ _ _ _ _ Hwf Hal Hk) as [Hin Hu]. autorewrite with axmap.
  set (p := k / 64 ^ Z.of_nat n) in *.
  destruct (zget_is_Some (map al) (p / 64)) as [w Hw]; [dlia|]. unfold axmap_isset_fn at 2. rewrite Hw.
  cbn [mbind option_bind]. rewrite isset_bit by (by eapply zget_is_u || dlia).
  rewrite <- (wbit_word (map al) (p / 64) w) by (done || dlia). replace (64 * (p / 64) + p mod 64) with p by dlia.
  rewrite list_insert_id, axmap_eta by done.
  destruct (wbit (map al) p) eqn:Eb.
  - exists true. split_and!; [done| |done]. intros _.
    by eapply bool_decide_eq_true, (wf_bit _ _ _ _ _ _ p k Hwf Hal); [lia|lia| |].
  - destruct (IH ltac:(lia)) as (r & -> & Hr & Hr'). exists r. split_and!; try done. intros _ HkX.
    destruct n as [|n]; [|apply Hr'; [lia|done]].
    rewrite (bit0 X _ _ _ _ _ Hwf Hal) in Eb by lia. apply bool_decide_eq_false in Eb.
    exfalso. apply Eb. unfold p. by rewrite Z.div_1_r.
Qed.

Lemma axmap_isset_spec m X k :
  is_set m X → 0 ≤ k < nr_bits m → axmap_isset k m = Some (bool_decide (k ∈ X), m).
Proof.
  intros Hm Hk. unfold axmap_isset, axmap_handler_topdown. rewrite (proj2 (Z.leb_le _ _)) by lia.
  destruct (topdown_isset m X (nr_levels m) k) as (r & -> & Hr & Hr'); [done|done|done|].
  enough (r = bool_decide (k ∈ X)) as -> by done. destruct Hm as (_ & Hl & _).
  case_bool_decide; [apply Hr'; [unfold nr_levels; lia|done]|]. destruct r; [naive_solver|done].
Qed.

(** ** The search *)
Definition free_from (ws : list Z) (start p : Z) : Prop :=
  start ≤ p < 64 * Z.of_nat (length ws) ∧ wbit ws p = false ∧ ∀ q, start ≤ q < p → wbit ws q = true.
Definition none_from (ws : list Z) (start : Z) : Prop :=
  ∀ q, start ≤ q < 64 * Z.of_nat (length ws) → wbit ws q = true.

Lemma free_word_spec n ws o :
  Forall (is_u 64) ws → 0 ≤ o → o + Z.of_nat n ≤ Z.of_nat (length ws) →
  ∃ r, free_word n ws o = Some r ∧
    match r with
    | Some (a, temp) => o ≤ a < o + Z.of_nat n ∧ temp ≠ 0 ∧ is_u 64 temp ∧
        (∀ i, 0 ≤ i < 64 → Z.testbit temp i = negb (wbit ws (64 * a + i))) ∧
        ∀ q, 64 * o ≤ q < 64 * a → wbit ws q = true
    | None => ∀ q, 64 * o ≤ q < 64 * (o + Z.of_nat n) → wbit ws q = true
    end.
Proof.
  intros Hws. revert o. induction n as [|n IH]; intros o Ho Hn; simpl; [exists None; split; [done|intros; lia]|].
  destruct (zget_is_Some ws o) as [w Hw]; [lia|]. rewrite Hw. cbn [mbind option_bind].
  pose proof (zget_is_u ws Hws _ _ Hw) as Hwu.
  assert (∀ i, 0 ≤ i < 64 → Z.testbit (u64 (Z.lnot w)) i = negb (wbit ws (64 * o + i))) as Hbit.
  { intros i Hi. rewrite u64_lnot_bit, bool_decide_true by (done || lia). by rewrite (wbit_word ws o w) by done. }
  destruct (Z.eqb_spec (u64 (Z.lnot w)) 0) as [E|E].
  - assert (∀ q, 64 * o ≤ q < 64 * (o + 1) → wbit ws q = true) as Hfull.
    { intros q Hq. apply negb_false_iff. replace q with (64 * o + (q - 64 * o)) by lia.
      rewrite <- Hbit, E by lia. apply Z.bits_0. }
    destruct (IH (o + 1)) as (r & -> & Hr); [lia..|]. exists r. split; [done|]. destruct r as [[a temp]|].
    + destruct Hr as (? & ? & ? & ? & Hq). split_and!; [lia|lia|done..|]. intros q ?.
      destruct (decide (q < 64 * (o + 1))); [apply Hfull|apply Hq]; lia.
    + intros q ?. destruct (decide (q < 64 * (o + 1))); [apply Hfull|apply Hr]; lia.
  - exists (Some (o, u64 (Z.lnot w))). split; [done|]. split_and!; [lia|lia|done|apply is_u_u64|done|intros; lia].
Qed.

(** The free bits of one word from [start] on, and what [ffz] makes of them. *)
Lemma found_bit ws start o temp :
  is_u 64 temp → temp ≠ 0 → 0 ≤ o < Z.of_nat (length ws) → Z.of_nat (length ws) ≤ 2 ^ 57 + 1 →
  start < 64 * (o + 1) →
  (∀ i, 0 ≤ i < 64 → Z.testbit temp i = bool_decide (start ≤ 64 * o + i) && negb (wbit ws (64 * o + i))) →
  (∀ q, start ≤ q < 64 * o → wbit ws q = true) →
  ∃ f, arch_ffz (u64 (Z.lnot temp)) = Some f ∧ u64 (u64 (Z.shiftl o UNIT_SHIFT) + f) = 64 * o + f ∧
    free_from ws start (64 * o + f).
Proof.
  intros Hu Hne Ho Hlen Hstart Hbit Hlow.
  destruct (arch_ffz_lnot temp) as (f & -> & (Hf & Hfb & Hleast) & Hf64); [done..|]. exists f. split; [done|].
  rewrite Hbit in Hfb by lia. apply andb_prop in Hfb as [Hs%bool_decide_eq_true Hfree%negb_true_iff].
  rewrite Z.shiftl_mul_pow2 by done. change (2 ^ UNIT_SHIFT) with 64. unfold u64.
  rewrite !wrap_small by (unfold is_u; rewrite ?wrap_small by (unfold is_u; lia); lia).
  split; [lia|]. split; [lia|split; [done|]]. intros q Hq.
  destruct (decide (q < 64 * o)); [apply Hlow; lia|]. specialize (Hleast (q - 64 * o) ltac:(lia)).
  rewrite Hbit, bool_decide_true, andb_true_l in Hleast by lia. apply negb_false_iff in Hleast.
  by replace (64 * o + (q - 64 * o)) with q in Hleast by lia.
Qed.

(** [~bit_masks[bit] & ~map[offset]] *)
Lemma temp_bit ws w start i :
  Forall (is_u 64) ws → zget ws (start / 64) = Some w → 0 ≤ i < 64 →
  Z.testbit (Z.land (u64 (Z.lnot (Z.ones (start mod 64)))) (u64 (Z.lnot w))) i =
    bool_decide (start ≤ 64 * (start / 64) + i) && negb (wbit ws (64 * (start / 64) + i)).
Proof.
  intros Hws Hw Hi. pose proof (zget_is_u ws Hws _ _ Hw).
  assert (is_u 64 (Z.ones (start mod 64))) by (apply ones_is_u; [done|dlia]).
  rewrite Z.land_spec, !u64_lnot_bit, testbit_ones by (done || dlia).
  rewrite (wbit_word ws _ w) by done. rewrite (bool_decide_true (i < 64)) by lia. simpl. f_equal.
  rewrite <- bool_decide_not. apply bool_decide_ext. dlia.
Qed.

Lemma temp_is_u x y : is_u 64 (Z.land (u64 x) (u64 y)).
Proof. apply land_is_u; [done|apply is_u_u64..]. Qed.

Lemma temp_zero ws w start :
  Forall (is_u 64) ws → zget ws (start / 64) = Some w →
  Z.land (u64 (Z.lnot (Z.ones (start mod 64)))) (u64 (Z.lnot w)) = 0 →
  ∀ q, start ≤ q < 64 * (start / 64 + 1) → wbit ws q = true.
Proof.
  intros Hws Hw E q Hq. pose proof (temp_bit ws w start (q - 64 * (start / 64)) Hws Hw ltac:(dlia)) as H.
  rewrite E, Z.bits_0, bool_decide_true in H by lia. symmetry in H. apply negb_false_iff in H.
  by replace (64 * (start / 64) + (q - 64 * (start / 64))) with q in H by lia.
Qed.

Lemma find_in_level_spec al base index :
  map_size al = Z.of_nat (length (map al)) → Forall (is_u 64) (map al) → map_size al ≤ 2 ^ 57 + 1 →
  0 ≤ base → 0 ≤ index < 2 ^ 58 →
  ∃ r, find_in_level al base index = Some r ∧
    match r with
    | Some p => free_from (map al) (Z.max base (64 * index)) p
    | None => none_from (map al) (Z.max base (64 * index))
    end.
Proof.
  intros Hlen Hws Hsz Hbase Hidx. unfold find_in_level.
  rewrite Z.shiftl_mul_pow2 by done. change (2 ^ UNIT_SHIFT) with 64.
  assert (u64 (index * 64) = index * 64) as -> by (apply wrap_small; unfold is_u; lia).
  assert ((if index * 64 <? base then base else index * 64) = Z.max base (64 * index)) as ->
    by (destruct (Z.ltb_spec (index * 64) base); lia).
  set (start := Z.max base (64 * index)). autorewrite with axmap.
  destruct (Z.leb_spec (map_size al) (start / 64)) as [Hout|Hin].
  { exists None. split; [done|]. intros q Hq. dlia. }
  rewrite bit_masks_ones by dlia. cbn [mbind option_bind].
  destruct (zget_is_Some (map al) (start / 64)) as [w Hw]; [dlia|]. rewrite Hw. cbn [mbind option_bind].
  destruct (Z.eqb_spec (Z.land (u64 (Z.lnot (Z.ones (start mod 64)))) (u64 (Z.lnot w))) 0) as [E|E].
  - pose proof (temp_zero _ _ _ Hws Hw E) as Hfull.
    destruct (free_word_spec (Z.to_nat (map_size al - (start / 64 + 1))) (map al) (start / 64 + 1)) as (r & -> & Hr);
      [done|dlia|dlia|]. cbn [mbind option_bind]. destruct r as [[a temp]|].
    + destruct Hr as (Ha & Hne & Hu & Hbit & Hq).
      assert (∀ q, start ≤ q < 64 * a → wbit (map al) q = true) as Hq'.
      { intros q ?. destruct (decide (q < 64 * (start / 64 + 1))); [apply Hfull|apply Hq]; lia. }
      destruct (found_bit (map al) start a temp) as (f & -> & Ef & Hf); [done|done|dlia|lia|dlia| |done|].
      { intros i Hi. by rewrite Hbit, bool_decide_true by dlia. }
      cbn [mbind option_bind]. rewrite Ef. eauto.
    + exists None. split; [done|]. intros q ?.
      destruct (decide (q < 64 * (start / 64 + 1))); [apply Hfull|apply Hr]; lia.
  - destruct (found_bit (map al) start (start / 64) _ (temp_is_u _ _) E) as (f & Ef & Ef' & Hf);
      [dlia|lia|dlia|intros; by apply temp_bit|intros; dlia|].
    cbn [mbind option_bind]. rewrite Ef. cbn [mbind option_bind]. rewrite Ef'. eauto.
Qed.

(** The first number from [k] on, below the size, that is not in [X]. *)
Fixpoint scan (n : nat) (X : gset Z) (k : Z) : option Z :=
  match n with
  | O => None
  | S n' => if decide (k ∈ X) then scan n' X (k + 1) else Some k
  end.
Definition first_free (size : Z) (X : gset Z) (k : Z) : option Z := scan (Z.to_nat (size - k)) X k.

Lemma scan_found n X k p :
  k ≤ p < k + Z.of_nat n → p ∉ X → (∀ q, k ≤ q < p → q ∈ X) → scan n X k = Some p.
Proof.
  revert k. induction n as [|n IH]; intros k Hp Hfree Hq; [lia|]. simpl. case_decide as Hk.
  - apply IH; [|done|intros; apply Hq; lia]. destruct (decide (k = p)) as [->|]; [done|lia].
  - f_equal. destruct (decide (k = p)) as [->|]; [done|]. destruct Hk. apply Hq. lia.
Qed.
Lemma scan_free_none n X k : (∀ q, k ≤ q < k + Z.of_nat n → q ∈ X) → scan n X k = None.
Proof.
  revert k. induction n as [|n IH]; intros k Hq; [done|]. simpl. rewrite decide_True by (apply Hq; lia).
  apply IH. intros. apply Hq. lia.
Qed.

(** A search result: the index found at level 0, or none. *)
Definition search_ok (m : axmap) (X : gset Z) (k : Z) (r : option Z) : Prop :=
  match r with
  | Some p => k ≤ p ∧ (p ∉ X) ∧ (∀ q, k ≤ q < p → q ∈ X)
  | None => ∀ q, k ≤ q < nr_bits m → q ∈ X
  end.

Lemma find_loop_spec m X k n index :
  is_set m X → 0 ≤ k → (n ≤ length (levels m))%nat → 0 ≤ index → (n ≠ 0%nat → index < 2 ^ 58) →
  (∀ q, k ≤ q < index * 64 ^ Z.of_nat n → q ∈ X) → (n = 0%nat → k ≤ index ∧ index ∉ X) →
  ∃ r, find_loop n k index m = Some r ∧ search_ok m X k r.
Proof.
  intros (Hwf & Hl & Hsz & HX) Hk. revert index. induction n as [|n IH]; intros index Hn Hidx Hidx' Hinv Hend; simpl.
  - exists (Some index). split; [done|]. simpl in Hinv. destruct (Hend eq_refl). split_and!; [done..|].
    intros. apply Hinv. lia.
  - destruct (lookup_lt_is_Some_2 (levels m) n) as [al Hal]; [lia|]. rewrite Hal. cbn [mbind option_bind].
    destruct (wf_size _ _ _ _ _ _ Hwf ltac:(lia) Hal) as (Hlen & Hws & Hcov & Hmax). autorewrite with axmap.
    pose proof (pow64_pos n) as Hpow. rewrite pow64_S in Hinv.
    destruct (find_in_level_spec al (k / 64 ^ Z.of_nat n) index) as (r & -> & Hr);
      [done|done|dlia|apply Z.div_pos; lia|lia|].
    assert (∀ q p, k ≤ q < p * 64 ^ Z.of_nat n → p ≤ 64 * map_size al →
        (∀ j, Z.max (k / 64 ^ Z.of_nat n) (64 * index) ≤ j < p → wbit (map al) j = true) → q ∈ X) as Hskip.
    { intros q p Hq Hp Hbits. destruct (decide (q < 64 * index * 64 ^ Z.of_nat n)); [apply Hinv; lia|].
      assert (64 * index ≤ q / 64 ^ Z.of_nat n) by (apply Z.div_le_lower_bound; lia).
      assert (q / 64 ^ Z.of_nat n < p) by (apply Z.div_lt_upper_bound; lia).
      assert (k / 64 ^ Z.of_nat n ≤ q / 64 ^ Z.of_nat n) by (apply Z.div_le_mono; lia).
      eapply bool_decide_eq_true, (wf_bit _ _ _ _ _ _ (q / 64 ^ Z.of_nat n) q Hwf Hal); [lia|lia|apply Hbits; lia|].
      unfold under. pose proof (Z.div_mod q (64 ^ Z.of_nat n) ltac:(lia)).
      pose proof (Z.mod_pos_bound q (64 ^ Z.of_nat n) ltac:(lia)). lia. }
    destruct r as [p|]; cbn [mbind option_bind].
    + destruct Hr as (Hp & Hfree & Hq). apply IH; [lia|lia| | |].
      * intros Hn0. pose proof (wf_size_up _ _ _ _ _ _ Hwf ltac:(lia) Hal Hn0). dlia.
      * intros q ?. eapply Hskip; [done|lia|done].
      * intros ->. simpl in Hp. rewrite Z.div_1_r in Hp. split; [lia|].
        rewrite (bit0 X _ _ _ _ _ Hwf Hal) in Hfree by lia. by apply bool_decide_eq_false in Hfree.
    + exists None. split; [done|]. intros q Hq. apply (Hskip q (64 * map_size al)); [lia|lia|].
      intros j Hj. apply Hr. lia.
Qed.

Lemma search_first_free m X k r :
  search_ok m X k r → 0 ≤ nr_bits m ≤ 2 ^ 63 → 0 ≤ k ≤ nr_bits m →
  match r with Some p => if nr_bits m <=? p then NONE else p | None => NONE end =
  default NONE (first_free (nr_bits m) X k).
Proof.
  intros Hr Hsz Hk. unfold first_free. destruct r as [p|].
  - destruct Hr as (Hp & Hfree & Hq). destruct (Z.leb_spec (nr_bits m) p).
    + rewrite scan_free_none; [done|]. intros. apply Hq. lia.
    + by rewrite (scan_found _ _ _ p) by (done || lia).
  - rewrite scan_free_none; [done|]. intros. apply Hr. lia.
Qed.

Lemma axmap_find_first_free_spec m X k :
  is_set m X → 0 ≤ k ≤ nr_bits m →
  axmap_find_first_free k m = Some (default NONE (first_free (nr_bits m) X k)).
Proof.
  intros Hm Hk. pose proof Hm as (_ & Hl & Hsz & _). unfold axmap_find_first_free.
  destruct (find_loop_spec m X k (nr_levels m) 0) as (r & -> & Hr); [done|lia|done|lia|lia|intros; lia|unfold nr_levels; lia|].
  cbn [mbind option_bind]. rewrite <- (search_first_free m X k r Hr) by lia. by destruct r.
Qed.

(** The block after [k] in cyclic order, and the first free one from there. *)
Definition cyclic_next (size k : Z) : Z := if k + 1 =? size then 0 else k + 1.
Definition next_free_ref (size : Z) (X : gset Z) (k : Z) : Z :=
  match first_free size X (cyclic_next size k) with
  | Some p => p
  | None => default NONE (first_free size X 0)
  end.

Lemma first_free_range size X k p : first_free size X k = Some p → k ≤ p < size ∧ p ∉ X.
Proof.
  unfold first_free. remember (Z.to_nat (size - k)) as n eqn:En. revert k En.
  induction n as [|n IH]; intros k En; simpl; [done|]. case_decide; [|intros; simplify_eq; split; [lia|done]].
  intros [? ?]%IH; [split; [lia|done]|lia].
Qed.

Lemma first_free_none size X k : first_free size X k = None → ∀ q, k ≤ q < size → q ∈ X.
Proof.
  unfold first_free. remember (Z.to_nat (size - k)) as n eqn:En. revert k En.
  induction n as [|n IH]; intros k En E q Hq; [lia|]. simpl in E. case_decide; [|done].
  destruct (decide (q = k)) as [->|]; [done|]. apply (IH (k + 1)); [lia|done|lia].
Qed.

(** A search finds a free number, or there is none. *)
Lemma next_free_ref_spec size X k :
  0 ≤ k < size → (next_free_ref size X k = NONE ∧ ∀ q, 0 ≤ q < size → q ∈ X) ∨
               (0 ≤ next_free_ref size X k < size ∧ next_free_ref size X k ∉ X).
Proof.
  intros Hk. assert (0 ≤ cyclic_next size k) by (unfold cyclic_next; destruct (k + 1 =? size); lia).
  unfold next_free_ref. destruct (first_free size X (cyclic_next size k)) as [p|] eqn:E1.
  - apply first_free_range in E1 as [? ?]. right. split; [lia|done].
  - destruct (first_free size X 0) as [p|] eqn:E2; simpl.
    + apply first_free_range in E2 as [? ?]. right. split; [lia|done].
    + left. split; [done|]. by apply first_free_none.
Qed.

Lemma axmap_next_free_spec m X k :
  is_set m X → 0 ≤ k < nr_bits m → axmap_next_free k m = Some (next_free_ref (nr_bits m) X k, m).
Proof.
  intros Hm Hk. pose proof Hm as (Hwf & Hl & Hsz & _). unfold axmap_next_free.
  assert (u64 (k + 1) = k + 1) as -> by (apply wrap_small; unfold is_u; lia).
  rewrite (proj2 (Z.leb_gt _ _)) by lia. fold (cyclic_next (nr_bits m) k). set (next := cyclic_next (nr_bits m) k).
  assert (0 ≤ next < nr_bits m) as Hnext by (unfold next, cyclic_next; destruct (Z.eqb_spec (k + 1) (nr_bits m)); lia).
  autorewrite with axmap. rewrite bit_masks_ones by dlia. cbn [mbind option_bind].
  destruct (lookup_lt_is_Some_2 (levels m) 0%nat) as [al Hal]; [lia|]. rewrite Hal. cbn [mbind option_bind].
  destruct (wf_size _ _ _ _ _ _ Hwf ltac:(lia) Hal) as (Hlen & Hws & Hcov & Hmax). simpl in Hcov.
  destruct (zget_is_Some (map al) (next / 64)) as [w Hw]; [dlia|]. rewrite Hw. cbn [mbind option_bind].
  match goal with |- (?first ≫= _) = _ =>
    assert (first = Some (default NONE (first_free (nr_bits m) X next))) as -> end.
  - destruct (Z.eqb_spec (Z.land (u64 (Z.lnot (Z.ones (next mod 64)))) (u64 (Z.lnot w))) 0) as [E|E];
      [apply axmap_find_first_free_spec; [done|lia]|].
    destruct (found_bit (map al) next (next / 64) _ (temp_is_u _ _) E) as (f & Ef & Ef' & (Hp & Hfree & Hq));
      [dlia|dlia|dlia|intros; by apply temp_bit|intros; dlia|].
    rewrite Ef. cbn [mbind option_bind]. rewrite Ef'. f_equal.
    apply (search_first_free m X next (Some (64 * (next / 64) + f))); [|lia|lia].
    rewrite (bit0 X _ _ _ _ _ Hwf Hal) in Hfree by lia. apply bool_decide_eq_false in Hfree.
    split_and!; [lia|done|]. intros q ?. specialize (Hq q ltac:(lia)).
    rewrite (bit0 X _ _ _ _ _ Hwf Hal) in Hq by lia. by apply bool_decide_eq_true in Hq.
  - cbn [mbind option_bind]. unfold next_free_ref. fold next.
    destruct (first_free (nr_bits m) X next) as [p|] eqn:Ef; simpl.
    + apply first_free_range in Ef as [? _]. by rewrite (proj2 (Z.eqb_neq p NONE)) by (unfold NONE; lia).
    + destruct (Z.eqb_spec next 0) as [E|E]; simpl; [by rewrite <- E, Ef|].
      by rewrite (axmap_find_first_free_spec m X 0) by (done || lia).
Qed.

(** ** Any sequence of calls *)
Inductive axmap_op := Set_bit (k : Z) | Set_nr (k n : Z) | Is_set (k : Z) | Next_free (k : Z) | Reset_all.

Definition axmap_call (o : axmap_op) : M axmap Z :=
  match o with
  | Set_bit k => _ ← axmap_set k; mret 0
  | Set_nr k n => axmap_set_nr k n
  | Is_set k => b ← axmap_isset k; mret (c_bool b)
  | Next_free k => axmap_next_free k
  | Reset_all => _ ← modify axmap_reset; mret 0
  end.

(** The same call on a set of numbers below [size]. *)
Definition set_call (size : Z) (o : axmap_op) (X : gset Z) : Z * gset Z :=
  match o with
  | Set_bit k => (0, {[k]} ∪ X)
  | Set_nr k n => let r := run_len (Z.to_nat n) X k in (r, add_range X k r)
  | Is_set k => (c_bool (bool_decide (k ∈ X)), X)
  | Next_free k => (next_free_ref size X k, X)
  | Reset_all => (0, ∅)
  end.

(** The arguments stay inside the map. *)
Definition op_ok (size : Z) (o : axmap_op) : Prop :=
  match o with
  | Set_bit k | Is_set k | Next_free k => 0 ≤ k < size
  | Set_nr k n => 0 ≤ k ∧ 1 ≤ n < 2 ^ 32 ∧ k + n ≤ size
  | Reset_all => True
  end.
#[export] Instance op_ok_dec size o : Decision (op_ok size o).
Proof. destruct o; apply _. Defined.

Definition axmap_rep (size : Z) (m : axmap) (X : gset Z) : Prop := is_set m X ∧ nr_bits m = size.

Lemma axmap_call_sim size o m X :
  op_ok size o → axmap_rep size m X →
  ∃ m', axmap_call o m = Some ((set_call size o X).1, m') ∧ axmap_rep size m' (set_call size o X).2.
Proof.
  intros Ho [Hm <-]. destruct o as [k|k n|k|k|]; simpl in *.
  - destruct (axmap_set_spec m X k Hm Ho) as (m' & E & ? & ?). rewrite (bind_run _ _ _ _ _ E). by eexists.
  - destruct Ho as (? & ? & ?). by apply axmap_set_nr_spec.
  - rewrite (bind_run _ _ _ _ _ (axmap_isset_spec m X k Hm Ho)). by eexists.
  - rewrite (axmap_next_free_spec m X k Hm Ho). by eexists.
  - eexists. split; [done|]. by apply (axmap_reset_spec m X).
Qed.

(** C24. From an empty map on, any sequence of set, range-set, test, search and reset calls
    with arguments inside the map answers as a finite set of numbers does: a range stops
    at the first member, a search goes round cyclically and says -1 when all are members. *)
Theorem axmap_calls_refine fresh size os :
  0 ≤ size ≤ 2 ^ 63 → Forall (op_ok size) os →
  ∃ m0 m, axmap_new true fresh size = Some m0 ∧
    code_calls axmap_call os m0 = Some ((spec_calls (set_call size) os ∅).1, m) ∧
    is_set m (spec_calls (set_call size) os ∅).2.
Proof.
  intros Hsz Hos. destruct (axmap_new_spec fresh size Hsz) as (m0 & -> & Hm0).
  destruct (calls_simulate (op_ok size) (axmap_rep size) axmap_call (set_call size) os m0 ∅) as (m & E & Hm & _);
    [intros; by apply axmap_call_sim|done|done|].
  exists m0, m. done.
Qed.

(** 200 blocks in two levels: two ranges, the second cut short by the first, tests,
    searches that skip the blocks taken and go round the end. *)
Lemma axmap_calls_refine_witness :
  let os := [Set_nr 60 100; Set_nr 10 190; Is_set 159; Is_set 160; Next_free 30; Set_nr 160 40; Next_free 199;
             Set_nr 0 10; Next_free 5; Reset_all; Next_free 199] in
  (spec_calls (set_call 200) os ∅).1 = [100; 50; 1; 0; 160; 40; 0; 10; NONE; 0; 0] ∧
  ∃ m0 m, axmap_new true (λ n, repeat 7 n) 200 = Some m0 ∧
    code_calls axmap_call os m0 = Some ((spec_calls (set_call 200) os ∅).1, m) ∧
    is_set m (spec_calls (set_call 200) os ∅).2.
Proof.
  split; [vm_compute; reflexivity|]. apply axmap_calls_refine; [lia|].
  repeat (apply Forall_cons; split; [simpl; lia|]). by apply Forall_nil.
Defined.

(** ** The number after the last one

    [axmap_isset] and [__axmap_set] let [bit_nr = nr_bits] through; in a map whose
    last word is in full use they then read past its end. *)
Lemma axmap_end_overrun :
  (m ← axmap_new true (λ n, repeat 0 n) 64; axmap_isset 64 m) = None ∧
  (m ← axmap_new true (λ n, repeat 0 n) 64; axmap_set 64 m) = None ∧
  (m ← axmap_new true (λ n, repeat 0 n) 64; '(r, m) ← axmap_set_nr 60 8 m; Some r) = None.
Proof. vm_compute. repeat split. Qed.

(** ** The two versions of [ffz] *)

(** The assembly version that an x86-64 build uses and the portable one of lib/ffz.h
    give the lowest clear bit of every word that has one. *)
Theorem ffz_builds_agree w :
  is_u 64 w → w ≠ 2 ^ 64 - 1 →
  arch_ffz w = Some (ffz w) ∧ 0 ≤ ffz w < 64 ∧ Z.testbit w (ffz w) = false ∧
  ∀ i, 0 ≤ i < ffz w → Z.testbit w i = true.
Proof.
  intros Hw Hne. assert (u64 (Z.lnot w) ≠ 0) as Hz.
  { intros E. apply Hne. rewrite <- (u64_lnot_lnot w), E by done. done. }
  destruct (bsf_spec (u64 (Z.lnot w))) as (f & Ef & Hf & ?); [auto|done|].
  assert (ffz w = f) as -> by (eapply least_bit_unique; [apply ffs64_spec; auto|done]).
  destruct Hf as (? & Hb & Hlow). rewrite u64_lnot_bit, bool_decide_true in Hb by (done || lia).
  split_and!; [done|done|done|by apply negb_true_iff|]. intros i Hi. specialize (Hlow i Hi).
  rewrite u64_lnot_bit, bool_decide_true in Hlow by (done || lia). by apply negb_false_iff.
Qed.

(** Five ones below a clear bit. *)
Lemma ffz_builds_agree_witness :
  arch_ffz 31 = Some (ffz 31) ∧ 0 ≤ ffz 31 < 64 ∧ Z.testbit 31 (ffz 31) = false ∧
  ∀ i, 0 ≤ i < ffz 31 → Z.testbit 31 i = true.
Proof. apply (ffz_builds_agree 31); [split; lia|lia]. Defined.
