(* ===== verification/Rand.v ===== *)
(** * Random numbers (src/fio4emu/lib/rand.h, lib/rand.c)

    The combined Tausworthe generators that choose the blocks of a random job,
    their seeding, and the scaling of a number into a range.  The scaling is in
    double precision; its operands here are non-negative integers and its divisors
    powers of two, so a double is an integer and the only rounding that matters is
    [round53], to 53 significant bits. *)
From S2P Require Import Prelude CInt.
#[local] Open Scope Z_scope.

(** ** The generators *)

(** [TAUSWORTHE(s,a,b,c,d)]: the constant [c] is an [unsigned long], so the left
    part is computed in 64 bits and cut when it is stored. *)
Definition TAUSWORTHE (s a b c d : Z) : Z :=
  u32 (Z.lxor (u64 (Z.shiftl (Z.land s c) d)) (Z.shiftr (Z.lxor (u32 (Z.shiftl s a)) s) b)).

(** The two lines of [__rand64] for one component. *)
Definition taus64 (s a b c d : Z) : Z :=
  let xval := Z.shiftr (Z.lxor (u64 (Z.shiftl s a)) s) b in
  Z.lxor (u64 (Z.shiftl (Z.land s c) d)) xval.

Record taus88_state := Taus88 { s1 : Z; s2 : Z; s3 : Z }.
Record taus258_state := Taus258 { t1 : Z; t2 : Z; t3 : Z; t4 : Z; t5 : Z }.

(** The union [frand_state]; [use64] says which state it holds. *)
Inductive frand_state := State32 (st : taus88_state) | State64 (st : taus258_state).
Definition use64 (fs : frand_state) : bool :=
  match fs with State32 _ => false | State64 _ => true end.

Definition FRAND32_MAX : Z := 2 ^ 32 - 1.
Definition FRAND64_MAX : Z := 2 ^ 64 - 1.
Definition rand_max (fs : frand_state) : Z := if use64 fs then FRAND64_MAX else FRAND32_MAX.

Definition __rand32 (st : taus88_state) : Z * taus88_state :=
  let st := Taus88 (TAUSWORTHE (s1 st) 13 19 4294967294 12)
                   (TAUSWORTHE (s2 st) 2 25 4294967288 4)
                   (TAUSWORTHE (s3 st) 3 11 4294967280 17) in
  (Z.lxor (Z.lxor (s1 st) (s2 st)) (s3 st), st).

Definition __rand64 (st : taus258_state) : Z * taus258_state :=
  let st := Taus258 (taus64 (t1 st) 1 53 18446744073709551614 10)
                    (taus64 (t2 st) 24 50 18446744073709551104 5)
                    (taus64 (t3 st) 3 23 18446744073709547520 29)
                    (taus64 (t4 st) 5 24 18446744073709420544 23)
                    (taus64 (t5 st) 3 33 18446744073701163008 8) in
  (Z.lxor (Z.lxor (Z.lxor (Z.lxor (t1 st) (t2 st)) (t3 st)) (t4 st)) (t5 st), st).

Definition __rand (fs : frand_state) : Z * frand_state :=
  match fs with
  | State64 st => let '(r, st) := __rand64 st in (r, State64 st)
  | State32 st => let '(r, st) := __rand32 st in (r, State32 st)
  end.

(** ** Seeding *)
Definition __seed (x m : Z) : Z := if x <? m then u64 (x + m) else x.

(** [x * 69069 ^ seed] *)
Definition LCG (x seed : Z) : Z := Z.lxor (u32 (x * 69069)) seed.
Definition LCG64 (x seed : Z) : Z := Z.lxor (u64 (x * 6906969069)) seed.

(** The first argument, [(2^31) + (2^17) + (2^7)]: the operator is exclusive or. *)
Definition seed_start : Z := Z.lxor 2 31 + Z.lxor 2 17 + Z.lxor 2 7.

Definition cranks : nat := 6.

Definition __init_rand32 (seed : Z) : taus88_state :=
  let s1 := u32 (__seed (LCG seed_start seed) 1) in
  let s2 := u32 (__seed (LCG s1 seed) 7) in
  let s3 := u32 (__seed (LCG s2 seed) 15) in
  Nat.iter cranks (λ st, (__rand32 st).2) (Taus88 s1 s2 s3).

Definition __init_rand64 (seed : Z) : taus258_state :=
  let s1 := __seed (LCG64 seed_start seed) 1 in
  let s2 := __seed (LCG64 s1 seed) 7 in
  let s3 := __seed (LCG64 s2 seed) 15 in
  let s4 := __seed (LCG64 s3 seed) 33 in
  let s5 := __seed (LCG64 s4 seed) 49 in
  Nat.iter cranks (λ st, (__rand64 st).2) (Taus258 s1 s2 s3 s4 s5).

Definition init_rand (use64 : bool) : frand_state :=
  if use64 then State64 (__init_rand64 1) else State32 (__init_rand32 1).
Definition init_rand_seed (seed : Z) (use64 : bool) : frand_state :=
  if use64 then State64 (__init_rand64 seed) else State32 (__init_rand32 (u32 seed)).

(** [sizeof(int) != sizeof(long * )] on a 64-bit machine. *)
Definition __get_next_seed (fs : frand_state) : Z * frand_state :=
  let '(r, fs) := __rand fs in
  let '(r', fs) := __rand fs in
  (u64 (r * r'), fs).

(** ** Doubles *)

(** Round to the nearest number of 53 significant bits, ties to even. *)
Definition round53 (x : Z) : Z :=
  let k := Z.log2 x - 52 in
  if k <=? 0 then x
  else
    let q := x / 2 ^ k in
    let r := x mod 2 ^ k in
    if (2 * r <? 2 ^ k) || ((2 * r =? 2 ^ k) && Z.even q) then q * 2 ^ k else (q + 1) * 2 ^ k.

(** [(uint64_t) (n * (r / 2^w))] for unsigned [n] and [r] *)
Definition scaled (w n r : Z) : Z := round53 (round53 n * round53 r) / 2 ^ w.

(** The result is converted to [int], which is undefined from 2^31 on. *)
Definition rand32_upto (fs : frand_state) (end_ : Z) : option (Z * frand_state) :=
  match fs with
  | State64 _ => None (* assert *)
  | State32 st =>
      let '(r, st) := __rand32 st in
      let end_ := u32 (end_ + 1) in
      let v := scaled 32 end_ r in
      if v <? 2 ^ 31 then Some (v, State32 st) else None
  end.

Definition rand64_upto (fs : frand_state) (end_ : Z) : option (Z * frand_state) :=
  match fs with
  | State32 _ => None (* assert *)
  | State64 st =>
      let '(r, st) := __rand64 st in
      let end_ := u64 (end_ + 1) in
      Some (scaled 64 end_ r, State64 st)
  end.

Definition rand_between (start end_ : Z) : M frand_state Z := λ fs,
  '(v, fs) ← (if use64 fs then rand64_upto fs (u64 (end_ - start)) else rand32_upto fs (u32 (end_ - start)));
  Some (u64 (start + v), fs).

(** ** Random buffers *)
Definition GOLDEN_RATIO_PRIME : Z := 0x9e37fffffffc0001.

(** The bytes an assignment of [n] bytes stores. *)
Fixpoint le_bytes (n : nat) (x : Z) : list Z :=
  match n with O => [] | S n' => u8 x :: le_bytes n' (Z.shiftr x 8) end.

(** The contents after [__fill_random_buf]; each turn fills at least a byte. *)
Fixpoint fill_words (fuel : nat) (len : nat) (seed : Z) : list Z :=
  match fuel with
  | O => []
  | S f =>
      if decide (len = 0%nat) then []
      else
        let this_len := (if decide (8 ≤ len) then 8 else if decide (4 ≤ len) then 4
                         else if decide (2 ≤ len) then 2 else 1)%nat in
        le_bytes this_len seed ++
        fill_words f (len - this_len) (Z.shiftr (u64 (seed * GOLDEN_RATIO_PRIME)) 3)
  end.
Definition __fill_random_buf (len : nat) (seed : Z) : list Z := fill_words len len seed.

Definition fill_random_buf (fs : frand_state) (len : nat) : Z * list Z * frand_state :=
  let '(r, fs) := __get_next_seed fs in (r, __fill_random_buf len r, fs).

(** ** The steps as linear maps of bits

    A component has [w] bits, of which the lowest [k] do not matter; a step
    moves and combines the others. *)
Definition step_bit (w k a b d : Z) (f : Z → bool) (i : Z) : bool :=
  xorb (bool_decide (d + k ≤ i) && f (i - d))
       (bool_decide (i + b < w) && xorb (bool_decide (a ≤ i + b) && f (i + b - a)) (f (i + b))).

(** What the bits above [k] become determines what they were. *)
Lemma step_bit_inj w k a b d f g :
  0 < a → 0 ≤ k → 0 ≤ b → 0 ≤ d → k + b + d = w → a + k ≤ w - d →
  (∀ i, k ≤ i < w → step_bit w k a b d f i = step_bit w k a b d g i) →
  ∀ i, k ≤ i < w → f i = g i.
Proof.
  intros Ha Hk Hb Hd Hw Haw Hstep i Hi. assert (0 ≤ i) as Hi0 by lia. revert Hi.
  apply (Zlt_0_ind (λ i, k ≤ i < w → f i = g i)); [|done]. clear i Hi0. intros i IH Hi0 Hi.
  destruct (decide (i < w - d)).
  - specialize (Hstep (i + d) ltac:(lia)). unfold step_bit in Hstep.
    rewrite bool_decide_true, (bool_decide_false (i + d + b < w)) in Hstep by lia.
    rewrite !andb_true_l, !andb_false_l, !xorb_false_r in Hstep. by replace (i + d - d) with i in Hstep by lia.
  - specialize (Hstep (i - b) ltac:(lia)). unfold step_bit in Hstep.
    replace (i - b + b) with i in Hstep by lia.
    rewrite (bool_decide_false (d + k ≤ _)), !bool_decide_true in Hstep by lia.
    rewrite !andb_true_l, !andb_false_l, !xorb_false_l, (IH (i - a)) in Hstep by lia.
    by destruct (f i), (g i), (g (i - a)).
Qed.

(** The mask of the constants: the bits from [k] up. *)
Lemma mask_high w k s i :
  0 ≤ k ≤ w → is_u w s → 0 ≤ i → Z.testbit (Z.land s (2 ^ w - 2 ^ k)) i = bool_decide (k ≤ i) && Z.testbit s i.
Proof.
  intros Hk Hs Hi. replace (2 ^ w - 2 ^ k) with (Z.shiftl (Z.ones (w - k)) k).
  - rewrite Z.land_spec, Z.shiftl_spec, testbit_ones, andb_comm by lia. case_bool_decide as E.
    + by rewrite bool_decide_true by lia.
    + destruct (decide (k ≤ i)); [|by rewrite bool_decide_false by lia].
      by rewrite (testbit_high w s i), !andb_false_r by (done || lia).
  - rewrite Z.shiftl_mul_pow2, Z.ones_equiv by lia. rewrite Z.mul_pred_l, <- Z.pow_add_r by lia. do 2 f_equal; lia.
Qed.

Lemma step_bits w k a b d s i :
  0 ≤ k ≤ w → 0 ≤ a → 0 ≤ b → 0 ≤ d → w ≤ 64 → is_u w s → 0 ≤ i < w →
  Z.testbit (Z.lxor (u64 (Z.shiftl (Z.land s (2 ^ w - 2 ^ k)) d)) (Z.shiftr (Z.lxor (wrap w (Z.shiftl s a)) s) b)) i =
  step_bit w k a b d (Z.testbit s) i.
Proof.
  intros Hk Ha Hb Hd Hw Hs Hi. unfold u64, step_bit.
  rewrite Z.lxor_spec, wrap_bit, Z.shiftl_spec, bool_decide_true, Z.shiftr_spec, Z.lxor_spec, wrap_bit, Z.shiftl_spec by lia.
  rewrite andb_true_l. f_equal.
  - destruct (decide (i < d)); [rewrite Z.testbit_neg_r, bool_decide_false by lia; done|].
    rewrite mask_high by (done || lia). f_equal. apply bool_decide_ext. lia.
  - destruct (decide (i + b < w)).
    + rewrite bool_decide_true by lia. rewrite !andb_true_l. f_equal.
      case_bool_decide; [done|]. by rewrite Z.testbit_neg_r by lia.
    + rewrite bool_decide_false by lia. by rewrite (testbit_high w s (i + b)) by (done || lia).
Qed.

(** A component: its step, its width and the number of its idle bits. *)
Definition step_ok (w k : Z) (step : Z → Z) : Prop :=
  (∀ s, is_u w s → is_u w (step s)) ∧
  ∀ s t, is_u w s → is_u w t → Z.shiftr (step s) k = Z.shiftr (step t) k → Z.shiftr s k = Z.shiftr t k.

Lemma shiftr_eq w k s t :
  0 ≤ k ≤ w → is_u w s → is_u w t →
  Z.shiftr s k = Z.shiftr t k ↔ ∀ i, k ≤ i < w → Z.testbit s i = Z.testbit t i.
Proof.
  intros Hk Hs Ht. split.
  - intros E i Hi. apply (f_equal (λ x, Z.testbit x (i - k))) in E.
    rewrite !Z.shiftr_spec in E by lia. by replace (i - k + k) with i in E by lia.
  - intros H. apply Z.bits_inj'. intros i Hi. rewrite !Z.shiftr_spec by done.
    destruct (decide (i + k < w)); [apply H; lia|]. by rewrite !(testbit_high w) by (done || lia).
Qed.

Lemma step_is_ok w k a b d step :
  0 < a → 0 ≤ k ≤ w → 0 ≤ b → 0 ≤ d → w ≤ 64 → k + b + d = w → a + k ≤ w - d →
  (∀ s, is_u w s → is_u w (step s)) →
  (∀ s i, is_u w s → 0 ≤ i < w → Z.testbit (step s) i = step_bit w k a b d (Z.testbit s) i) →
  step_ok w k step.
Proof.
  intros Ha Hk Hb Hd Hw64 Hw Haw Hu Hbits. split; [done|]. intros s t Hs Ht.
  rewrite (shiftr_eq w k (step s)), (shiftr_eq w k s) by auto. intros E.
  apply (step_bit_inj w k a b d); [lia..|]. intros i Hi. rewrite <- !Hbits by (done || lia). by apply E.
Qed.

Lemma TAUSWORTHE_ok k a b d :
  0 < a → 0 ≤ k ≤ 32 → 0 ≤ b → 0 ≤ d → k + b + d = 32 → a + k ≤ 32 - d →
  step_ok 32 k (λ s, TAUSWORTHE s a b (2 ^ 32 - 2 ^ k) d).
Proof.
  intros. apply (step_is_ok 32 k a b d); try lia.
  - intros s _. by apply wrap_is_u.
  - intros s i Hs Hi. unfold TAUSWORTHE, u32 at 1. rewrite wrap_bit, bool_decide_true by lia.
    apply (step_bits 32); done || lia.
Qed.

Lemma taus64_ok k a b d :
  0 < a → 0 ≤ k ≤ 64 → 0 ≤ b → 0 ≤ d → k + b + d = 64 → a + k ≤ 64 - d →
  step_ok 64 k (λ s, taus64 s a b (2 ^ 64 - 2 ^ k) d).
Proof.
  intros. apply (step_is_ok 64 k a b d); try lia.
  - intros s Hs. unfold taus64. repeat (apply lxor_is_u || apply shiftr_is_u || apply (wrap_is_u 64)); done.
  - intros s i Hs Hi. apply (step_bits 64); done || lia.
Qed.

Lemma rand32_steps :
  step_ok 32 1 (λ s, TAUSWORTHE s 13 19 4294967294 12) ∧
  step_ok 32 3 (λ s, TAUSWORTHE s 2 25 4294967288 4) ∧
  step_ok 32 4 (λ s, TAUSWORTHE s 3 11 4294967280 17).
Proof.
  split_and!; [apply (TAUSWORTHE_ok 1)|apply (TAUSWORTHE_ok 3)|apply (TAUSWORTHE_ok 4)]; lia.
Qed.
Lemma rand64_steps :
  step_ok 64 1 (λ s, taus64 s 1 53 18446744073709551614 10) ∧
  step_ok 64 9 (λ s, taus64 s 24 50 18446744073709551104 5) ∧
  step_ok 64 12 (λ s, taus64 s 3 23 18446744073709547520 29) ∧
  step_ok 64 17 (λ s, taus64 s 5 24 18446744073709420544 23) ∧
  step_ok 64 23 (λ s, taus64 s 3 33 18446744073701163008 8).
Proof.
  split_and!; [apply (taus64_ok 1)|apply (taus64_ok 9)|apply (taus64_ok 12)|apply (taus64_ok 17)|apply (taus64_ok 23)]; lia.
Qed.

(** The seeding conditions of the paper, and the states that meet them. *)
Definition live (w k s : Z) : Prop := is_u w s ∧ 2 ^ k ≤ s.
Definition live_state (fs : frand_state) : Prop :=
  match fs with
  | State32 st => live 32 1 (s1 st) ∧ live 32 3 (s2 st) ∧ live 32 4 (s3 st)
  | State64 st => live 64 1 (t1 st) ∧ live 64 9 (t2 st) ∧ live 64 12 (t3 st) ∧ live 64 17 (t4 st) ∧ live 64 23 (t5 st)
  end.

(** The bits of a state that later numbers depend on. *)
Definition live_bits (fs : frand_state) : list Z :=
  match fs with
  | State32 st => [Z.shiftr (s1 st) 1; Z.shiftr (s2 st) 3; Z.shiftr (s3 st) 4]
  | State64 st => [Z.shiftr (t1 st) 1; Z.shiftr (t2 st) 9; Z.shiftr (t3 st) 12; Z.shiftr (t4 st) 17; Z.shiftr (t5 st) 23]
  end.

Lemma live_step w k step s :
  step_ok w k step → step 0 = 0 → live w k s → 0 ≤ k ≤ w → live w k (step s).
Proof.
  intros [Hu Hinj] H0 [Hs Hl] Hk. split; [by apply Hu|].
  destruct (decide (2 ^ k ≤ step s)) as [|Hlt]; [done|]. exfalso.
  assert (Z.shiftr s k = Z.shiftr 0 k) as E.
  { apply Hinj; [done|split; [lia|apply Z.pow_pos_nonneg; lia]|]. pose proof (Hu s Hs) as [? _].
    rewrite H0, Z.shiftr_0_l, Z.shiftr_div_pow2 by lia. apply Z.div_small. lia. }
  rewrite Z.shiftr_0_l, Z.shiftr_div_pow2 in E by lia.
  assert (0 < 2 ^ k) by (apply Z.pow_pos_nonneg; lia). assert (1 ≤ s / 2 ^ k) by (apply Z.div_le_lower_bound; lia). lia.
Qed.

Lemma rand32_range st : is_u 32 (__rand32 st).1.
Proof. unfold __rand32. simpl. repeat (apply lxor_is_u; [done| |]); by apply wrap_is_u. Qed.

Lemma rand64_range st :
  is_u 64 (t1 st) → is_u 64 (t2 st) → is_u 64 (t3 st) → is_u 64 (t4 st) → is_u 64 (t5 st) → is_u 64 (__rand64 st).1.
Proof.
  intros ? ? ? ? ?. destruct rand64_steps as ([E1 _] & [E2 _] & [E3 _] & [E4 _] & [E5 _]). unfold __rand64. simpl.
  apply lxor_is_u; [done| |by apply E5]. apply lxor_is_u; [done| |by apply E4].
  apply lxor_is_u; [done| |by apply E3]. apply lxor_is_u; [done|by apply E1|by apply E2].
Qed.

(** A generator whose components meet the seeding conditions keeps them for ever, its
    numbers stay within [rand_max], and two states that differ in a bit that matters
    never meet. *)
Theorem rand_stays_live fs :
  live_state fs →
  live_state (__rand fs).2 ∧ 0 ≤ (__rand fs).1 ≤ rand_max fs ∧ use64 (__rand fs).2 = use64 fs ∧
  ∀ fs', live_state fs' → use64 fs' = use64 fs →
    live_bits (__rand fs').2 = live_bits (__rand fs).2 → live_bits fs' = live_bits fs.
Proof.
  unfold rand_max, FRAND32_MAX, FRAND64_MAX.
  destruct fs as [st|st]; simpl; intros Hl; (split; [|split; [|split; [done|]]]).
  - destruct rand32_steps as (O1 & O2 & O3), Hl as (L1 & L2 & L3).
    pose proof (live_step _ _ _ _ O1 eq_refl L1). pose proof (live_step _ _ _ _ O2 eq_refl L2).
    pose proof (live_step _ _ _ _ O3 eq_refl L3). split_and!; auto with lia.
  - pose proof (rand32_range st) as [? ?]. simpl in *. lia.
  - intros [st'|st']; [|done]. simpl. intros ([??] & [??] & [??]) _ [= E1 E2 E3].
    destruct rand32_steps as ([_ J1] & [_ J2] & [_ J3]), Hl as ([??] & [??] & [??]).
    by rewrite (J1 (s1 st') (s1 st)), (J2 (s2 st') (s2 st)), (J3 (s3 st') (s3 st)).
  - destruct rand64_steps as (O1 & O2 & O3 & O4 & O5), Hl as (L1 & L2 & L3 & L4 & L5).
    pose proof (live_step _ _ _ _ O1 eq_refl L1). pose proof (live_step _ _ _ _ O2 eq_refl L2).
    pose proof (live_step _ _ _ _ O3 eq_refl L3). pose proof (live_step _ _ _ _ O4 eq_refl L4).
    pose proof (live_step _ _ _ _ O5 eq_refl L5). split_and!; auto with lia.
  - destruct Hl as ([??] & [??] & [??] & [??] & [??]). pose proof (rand64_range st) as [? ?]; [done..|]. simpl in *. lia.
  - intros [st'|st']; [done|]. simpl. intros ([??] & [??] & [??] & [??] & [??]) _ [= E1 E2 E3 E4 E5].
    destruct rand64_steps as ([_ J1] & [_ J2] & [_ J3] & [_ J4] & [_ J5]), Hl as ([??] & [??] & [??] & [??] & [??]).
    by rewrite (J1 (t1 st') (t1 st)), (J2 (t2 st') (t2 st)), (J3 (t3 st') (t3 st)), (J4 (t4 st') (t4 st)),
      (J5 (t5 st') (t5 st)).
Qed.

(** The generators fio seeds with 1. *)
Lemma rand_stays_live_witness :
  live_state (__rand (init_rand false)).2 ∧ (__rand (init_rand false)).1 = 2634262343 ∧
  live_state (__rand (init_rand true)).2.
Proof.
  split; [|split].
  - apply (rand_stays_live (init_rand false)). vm_compute. repeat split; discriminate.
  - vm_compute. reflexivity.
  - apply (rand_stays_live (init_rand true)). vm_compute. repeat split; discriminate.
Defined.

(** ** Seeds that do not meet the conditions

    lib/rand.c quotes the conditions s1 > 1, s2 > 7 and s3 > 15, but [__seed] lifts
    a component to 1, 7 or 15 only. *)
Lemma dead_component n st : s1 st = 0 → s1 (Nat.iter n (λ st, (__rand32 st).2) st) = 0.
Proof.
  intros H0. induction n as [|n IH]; [done|]. rewrite Nat.iter_succ.
  unfold __rand32 at 1. cbn [s1 snd]. by rewrite IH.
Qed.

(** With the seed 3660656 the first component is 0 from the first number on, and the
    period of the generator collapses to that of the two others. *)
Lemma seed_kills_component n : s1 (Nat.iter n (λ st, (__rand32 st).2) (__init_rand32 3660656)) = 0.
Proof. apply dead_component. vm_compute. reflexivity. Qed.

(** ** Rounding and ranges *)
Lemma round53_error x : 0 ≤ x → 2 ^ 53 * Z.abs (round53 x - x) ≤ x.
Proof.
  intros Hx. unfold round53. set (k := Z.log2 x - 52). destruct (Z.leb_spec k 0); [lia|].
  assert (x ≠ 0) by (intros ->; unfold k in *; simpl in *; lia).
  pose proof (Z.log2_spec x ltac:(lia)) as [Hlog _].
  replace (Z.log2 x) with (52 + k) in Hlog by lia. rewrite Z.pow_add_r in Hlog by lia.
  assert (0 < 2 ^ k) by (apply Z.pow_pos_nonneg; lia).
  pose proof (Z.div_mod x (2 ^ k) ltac:(lia)). pose proof (Z.mod_pos_bound x (2 ^ k) ltac:(lia)).
  destruct ((2 * (x mod 2 ^ k) <? 2 ^ k) || ((2 * (x mod 2 ^ k) =? 2 ^ k) && Z.even (x / 2 ^ k))) eqn:E; lia.
Qed.

Lemma round53_exact x : 0 ≤ x < 2 ^ 53 → round53 x = x.
Proof.
  intros Hx. unfold round53. destruct (Z.leb_spec (Z.log2 x - 52) 0) as [|Hk]; [done|].
  destruct (decide (x = 0)) as [->|]; [simpl in Hk; lia|].
  assert (Z.log2 x < 53) by (apply Z.log2_lt_pow2; lia). lia.
Qed.

(** A 32-bit random number scales below its bound, whatever the rounding. *)
Lemma scaled32_range n r : 0 < n ≤ 2 ^ 64 → 0 ≤ r < 2 ^ 32 → 0 ≤ scaled 32 n r < n.
Proof.
  intros Hn Hr. unfold scaled. rewrite (round53_exact r) by lia.
  pose proof (round53_error n ltac:(lia)). set (d := round53 n) in *.
  assert (0 ≤ d * r) by nia. pose proof (round53_error (d * r) ltac:(lia)). set (p := round53 (d * r)) in *.
  split; [apply Z.div_pos; lia|]. apply Z.div_lt_upper_bound; [lia|]. nia.
Qed.

(** [rand_between] on a 32-bit generator returns a value between its bounds, both
    inclusive, for every state and every range of at most 2^31 values: the arithmetic in
    double precision never rounds up to the end. *)
Theorem rand_between_inside start end_ st :
  0 ≤ start ≤ end_ → end_ < 2 ^ 64 → end_ - start < 2 ^ 31 →
  ∃ v, rand_between start end_ (State32 st) = Some (v, State32 (__rand32 st).2) ∧ start ≤ v ≤ end_.
Proof.
  intros Hs He Hr. unfold rand_between, rand32_upto. cbn [use64].
  rewrite !u32_small by (rewrite ?u32_small by lia; lia).
  pose proof (rand32_range st) as Hrange. destruct (__rand32 st) as [r st']. simpl in Hrange |- *.
  pose proof (scaled32_range (end_ - start + 1) r ltac:(lia) Hrange) as Hv.
  rewrite (proj2 (Z.ltb_lt _ _)) by lia. simpl. eexists. split; [done|].
  unfold u64. rewrite wrap_small by (unfold is_u; lia). lia.
Qed.

(** The percentage that chooses a zone. *)
Lemma rand_between_inside_witness :
  ∃ v, rand_between 1 100 (State32 (__init_rand32 1)) = Some (v, State32 (__rand32 (__init_rand32 1)).2) ∧ 1 ≤ v ≤ 100.
Proof. apply (rand_between_inside 1 100); lia. Defined.

(** With 64 bits the largest numbers round up to 2^64: a live state from which a value
    between 1 and 100 is 101. *)
Lemma rand_between_64_outside :
  let st := Taus258 2692308152237388606 1048576 1073741824 1099511627776 1125899906842624 in
  live_state (State64 st) ∧ fst <$> rand_between 1 100 (State64 st) = Some 101.
Proof. split; [vm_compute; repeat split; discriminate|vm_compute; reflexivity]. Qed.

(** ** Random buffers *)
Lemma le_bytes_length n x : length (le_bytes n x) = n.
Proof. revert x. induction n as [|n IH]; intros x; simpl; [done|]. by rewrite IH. Qed.

Lemma fill_words_length fuel len seed : (len ≤ fuel)%nat → length (fill_words fuel len seed) = len.
Proof.
  revert len seed. induction fuel as [|f IH]; intros len seed Hl; simpl; [lia|].
  case_decide; [done|]. repeat case_decide; rewrite length_app, le_bytes_length, IH by lia; lia.
Qed.

(** [__fill_random_buf] fills exactly the buffer, whatever its length. *)
Lemma fill_random_buf_length len seed : length (__fill_random_buf len seed) = len.
Proof. by apply fill_words_length. Qed.

(** The word at offset [8 * i] holds the seed after [i] multiplications. *)
Definition next_fill (seed : Z) : Z := Z.shiftr (u64 (seed * GOLDEN_RATIO_PRIME)) 3.
Lemma fill_words_nth i fuel len seed :
  (8 * i + 8 ≤ len)%nat → (len ≤ fuel)%nat →
  take 8 (drop (8 * i) (fill_words fuel len seed)) = le_bytes 8 (Nat.iter i next_fill seed).
Proof.
  revert fuel len seed. induction i as [|i IH]; intros [|f] len seed Hi Hl; try lia; cbn [fill_words].
  - rewrite decide_False, decide_True by lia. rewrite Nat.mul_0_r. rewrite drop_0.
    by rewrite take_app_length' by (by rewrite le_bytes_length).
  - rewrite decide_False, decide_True by lia. replace (8 * S i)%nat with (8 + 8 * i)%nat by lia.
    rewrite <- drop_drop, drop_app_length' by (by rewrite le_bytes_length).
    rewrite IH by lia. by rewrite Nat.iter_succ_r.
Qed.
