(* ===== verification/Lfsr.v ===== *)
(** * The shift register that orders blocks (src/fio4emu/lib/lfsr.c)

    With [random_generator=lfsr] fio takes the blocks of a file in the order of a
    linear feedback shift register.  A register of [n] bits goes round all states
    but one, so the numbers below the size come up once each: [lfsr_covers]. *)
From S2P Require Import Prelude CInt.
#[local] Open Scope Z_scope.

(** ** The register *)
Definition FIO_MAX_TAPS : nat := 6.
Definition lfsr_taps : list (list Z) := [
  [0; 0; 0; 0; 0; 0]; [0; 0; 0; 0; 0; 0]; [0; 0; 0; 0; 0; 0]; [3; 2; 0; 0; 0; 0];
  [4; 3; 0; 0; 0; 0]; [5; 3; 0; 0; 0; 0]; [6; 5; 0; 0; 0; 0]; [7; 6; 0; 0; 0; 0];
  [8; 6; 5; 4; 0; 0]; [9; 5; 0; 0; 0; 0]; [10; 7; 0; 0; 0; 0]; [11; 9; 0; 0; 0; 0];
  [12; 6; 4; 1; 0; 0]; [13; 4; 3; 1; 0; 0]; [14; 5; 3; 1; 0; 0]; [15; 14; 0; 0; 0; 0];
  [16; 15; 13; 4; 0; 0]; [17; 14; 0; 0; 0; 0]; [18; 11; 0; 0; 0; 0]; [19; 6; 2; 1; 0; 0];
  [20; 17; 0; 0; 0; 0]; [21; 19; 0; 0; 0; 0]; [22; 21; 0; 0; 0; 0]; [23; 18; 0; 0; 0; 0];
  [24; 23; 22; 17; 0; 0]; [25; 22; 0; 0; 0; 0]; [26; 6; 2; 1; 0; 0]; [27; 5; 2; 1; 0; 0];
  [28; 25; 0; 0; 0; 0]; [29; 27; 0; 0; 0; 0]; [30; 6; 4; 1; 0; 0]; [31; 28; 0; 0; 0; 0];
  [32; 31; 29; 1; 0; 0]; [33; 20; 0; 0; 0; 0]; [34; 27; 2; 1; 0; 0]; [35; 33; 0; 0; 0; 0];
  [36; 25; 0; 0; 0; 0]; [37; 5; 4; 3; 2; 1]; [38; 6; 5; 1; 0; 0]; [39; 35; 0; 0; 0; 0];
  [40; 38; 21; 19; 0; 0]; [41; 38; 0; 0; 0; 0]; [42; 41; 20; 19; 0; 0]; [43; 42; 38; 37; 0; 0];
  [44; 43; 18; 17; 0; 0]; [45; 44; 42; 41; 0; 0]; [46; 45; 26; 25; 0; 0]; [47; 42; 0; 0; 0; 0];
  [48; 47; 21; 20; 0; 0]; [49; 40; 0; 0; 0; 0]; [50; 49; 24; 23; 0; 0]; [51; 50; 36; 35; 0; 0];
  [52; 49; 0; 0; 0; 0]; [53; 52; 38; 37; 0; 0]; [54; 53; 18; 17; 0; 0]; [55; 31; 0; 0; 0; 0];
  [56; 55; 35; 34; 0; 0]; [57; 50; 0; 0; 0; 0]; [58; 39; 0; 0; 0; 0]; [59; 58; 38; 37; 0; 0];
  [60; 59; 0; 0; 0; 0]; [61; 60; 46; 45; 0; 0]; [62; 61; 6; 5; 0; 0]; [63; 62; 0; 0; 0; 0] ].

Record fio_lfsr := FioLfsr {
  xormask : Z; last_val : Z; cached_bit : Z; max_val : Z;
  num_vals : Z; cycle_length : Z; cached_cycle_length : Z; spin : Z }.
#[export] Instance eta_fio_lfsr : Settable fio_lfsr := λ r,
  FioLfsr (xormask r) (last_val r) (cached_bit r) (max_val r)
          (num_vals r) (cycle_length r) (cached_cycle_length r) (spin r).

(** [__LFSR_NEXT] on the value *)
Definition LFSR_NEXT (fl : fio_lfsr) (v : Z) : Z :=
  Z.lxor (Z.lor (Z.shiftr v 1) (cached_bit fl)) (Z.land (u64 (Z.land v 1 - 1)) (xormask fl)).

(** The switch falls through from [case spin] down to [case 0]; other values do
    nothing. *)
Definition __lfsr_next (spin : Z) (fl : fio_lfsr) : fio_lfsr :=
  if (0 <=? spin) && (spin <=? 15)
  then fl <| last_val := Nat.iter (Z.to_nat (spin + 1)) (LFSR_NEXT fl) (last_val fl) |>
  else fl.

(** One turn of the [do] loop. *)
Definition lfsr_turn (fl : fio_lfsr) : fio_lfsr :=
  let fl' := fl <| cycle_length := cycle_length fl - 1 |> in
  if negb (cycle_length fl =? 0) && (cycle_length fl' =? 0)
  then let fl' := __lfsr_next (u32 (spin fl' + 1)) fl' in fl' <| cycle_length := cached_cycle_length fl' |>
  else __lfsr_next (spin fl) (if cycle_length fl =? 0 then fl else fl').

Fixpoint lfsr_loop (fuel : nat) (fl : fio_lfsr) : option fio_lfsr :=
  match fuel with
  | O => None
  | S f => let fl := lfsr_turn fl in
           if max_val fl <? last_val fl then lfsr_loop f fl else Some fl
  end.

(** The return value with [*off]: [Some None] is 1. *)
Definition lfsr_next (fuel : nat) : M fio_lfsr (option Z) := λ fl,
  let done := max_val fl <? num_vals fl in
  let fl := fl <| num_vals := u64 (num_vals fl + 1) |> in
  if done then Some (None, fl)
  else fl ← lfsr_loop fuel fl; Some (Some (last_val fl), fl).

(** ** Set-up *)
Fixpoint xormask_loop (n : nat) (taps : list Z) (mask : Z) : Z :=
  match n, taps with
  | S n', t :: taps' => if t =? 0 then mask else xormask_loop n' taps' (Z.lor mask (u64 (Z.shiftl 1 (t - 1))))
  | _, _ => mask
  end.
Definition lfsr_create_xormask (taps : list Z) : Z := xormask_loop FIO_MAX_TAPS taps 0.

(** [for (i = 3; i < 64; i++)] *)
Fixpoint find_taps (n : nat) (i : nat) (size : Z) : option (list Z) :=
  match n with
  | O => None
  | S n' => if size <? u64 (Z.shiftl 1 (Z.of_nat i)) then lfsr_taps !! i else find_taps n' (S i) size
  end.
Definition find_lfsr (size : Z) : option (list Z) := find_taps 61 3 size.

(** [for (i = 1; i <= spin; i++)]: the length of the first cycle found, or 0. *)
Fixpoint find_cycle (n : nat) (i x y spin : Z) : Z :=
  match n with
  | O => 0
  | S n' => if u64 (y * i) mod (spin + 1) =? 0
            then u64 (u64 (x * i) + u64 (y * i) / (spin + 1))
            else find_cycle n' (i + 1) x y spin
  end.

(** The results of these functions are 0 for success and 1 for failure. *)
Definition prepare_spin (spin_ : Z) (fl : fio_lfsr) : Z * fio_lfsr :=
  let max := u64 (u64 (Z.shiftl (cached_bit fl) 1) - 1) in
  if 15 <? spin_ then (1, fl)
  else
    let x := max / (spin_ + 1) in
    let y := max mod (spin_ + 1) in
    let len := find_cycle (Z.to_nat spin_) 1 x y spin_ in
    (0, fl <| spin := spin_ |> <| cached_cycle_length := len |> <| cycle_length := u64 (len + 1) |>).

Definition lfsr_reset (seed : Z) (fl : fio_lfsr) : Z * fio_lfsr :=
  let bitmask := u64 (u64 (Z.shiftl (cached_bit fl) 1) - 1) in
  let fl := fl <| num_vals := 0 |> <| last_val := Z.land seed bitmask |> in
  (c_bool (last_val fl =? bitmask), fl).

Definition lfsr_init (nums seed spin_ : Z) (fl : fio_lfsr) : Z * fio_lfsr :=
  match find_lfsr nums with
  | None => (1, fl)
  | Some taps =>
      let fl := fl <| max_val := u64 (nums - 1) |> <| xormask := lfsr_create_xormask taps |>
                   <| cached_bit := u64 (Z.shiftl 1 (default 0 (taps !! 0%nat) - 1)) |> in
      let '(r, fl) := prepare_spin spin_ fl in
      if r =? 0 then lfsr_reset seed fl else (1, fl)
  end.

(** [n] calls of [lfsr_next]; a call that returns 1 ends the list. *)
Fixpoint lfsr_run (fuel n : nat) : M fio_lfsr (list Z) :=
  match n with
  | O => mret []
  | S n' => r ← lfsr_next fuel;
            match r with
            | None => mret []
            | Some v => vs ← lfsr_run fuel n'; mret (v :: vs)
            end
  end.

(** ** The register as a permutation of its states *)
Section register.
Context (n : Z) (fl : fio_lfsr) (Hn : 3 ≤ n ≤ 63).
Context (Hbit : cached_bit fl = 2 ^ (n - 1)) (Hmask : is_u n (xormask fl))
        (Htop : Z.testbit (xormask fl) (n - 1) = true).
Abbreviation step := (LFSR_NEXT fl).


Lemma step_testbit v i :
  is_u n v → 0 ≤ i < n →
  Z.testbit (step v) i = xorb (if decide (i = n - 1) then true else Z.testbit v (i + 1))
                              (negb (Z.testbit v 0) && Z.testbit (xormask fl) i).
Proof.
  intros Hv Hi. unfold LFSR_NEXT. rewrite Z.lxor_spec, Z.lor_spec, Z.shiftr_spec, Hbit, Z.pow2_bits_eqb by lia. f_equal.
  - case_decide as E.
    + subst. rewrite Z.eqb_refl. apply orb_true_r.
    + rewrite (proj2 (Z.eqb_neq _ _)) by lia. by rewrite orb_false_r.
  - rewrite Z.land_spec. f_equal.
    assert (Z.land v 1 = if Z.testbit v 0 then 1 else 0) as ->.
    { change 1 with (Z.ones 1) at 1. rewrite Z.land_ones by lia. change (2 ^ 1) with 2.
      rewrite Zmod_odd, <- Z.bit0_odd. done. }
    destruct (Z.testbit v 0); [apply Z.bits_0|]. change (u64 (0 - 1)) with (Z.ones 64).
    rewrite testbit_ones by lia. apply bool_decide_true. lia.
Qed.

Lemma step_range v : is_u n v → is_u n (step v).
Proof.
  intros Hv. unfold LFSR_NEXT. apply lxor_is_u; [lia|apply lor_is_u; [lia|apply shiftr_is_u; [lia..|done]|]|].
  - rewrite Hbit. split; [apply Z.pow_nonneg; lia|apply Z.pow_lt_mono_r; lia].
  - apply is_u_of_bits; [lia|apply Z.land_nonneg; right; apply Hmask|].
    intros i Hi. rewrite Z.land_spec, (testbit_high n (xormask fl)) by done. apply andb_false_r.
Qed.

Lemma state_eq v w : is_u n v → is_u n w → (∀ i, 0 ≤ i < n → Z.testbit v i = Z.testbit w i) → v = w.
Proof.
  intros Hv Hw H. apply Z.bits_inj'. intros i Hi. destruct (decide (i < n)); [by apply H|].
  by rewrite !(testbit_high n) by (done || lia).
Qed.

(** The top bit of the new state tells the bit shifted out. *)
Lemma step_inj v w : is_u n v → is_u n w → step v = step w → v = w.
Proof.
  intros Hv Hw E. assert (∀ i, 0 ≤ i < n → Z.testbit (step v) i = Z.testbit (step w) i) as Eb by by rewrite E.
  assert (Z.testbit v 0 = Z.testbit w 0) as E0.
  { specialize (Eb (n - 1) ltac:(lia)). rewrite !step_testbit, !decide_True, Htop in Eb by (done || lia).
    by destruct (Z.testbit v 0), (Z.testbit w 0). }
  apply state_eq; [done..|]. intros i Hi. destruct (decide (i = 0)) as [->|]; [done|].
  specialize (Eb (i - 1) ltac:(lia)). rewrite !step_testbit, !decide_False, E0 in Eb by (done || lia).
  replace (i - 1 + 1) with i in Eb by lia.
  by destruct (Z.testbit v i), (Z.testbit w i), (negb (Z.testbit w 0) && Z.testbit (xormask fl) (i - 1)).
Qed.

Lemma step_ones : step (Z.ones n) = Z.ones n.
Proof.
  assert (is_u n (Z.ones n)) by (apply ones_is_u; lia).
  apply state_eq; [by apply step_range|done|]. intros i Hi.
  rewrite step_testbit by (done || lia). rewrite (testbit_ones n 0), (testbit_ones n i), !bool_decide_true by lia.
  simpl. rewrite xorb_false_r. case_decide; [done|]. rewrite testbit_ones by lia. apply bool_decide_true. lia.
Qed.
End register.

(** As many distinct numbers below [size] as there are: a permutation of them. *)
Lemma perm_of_range (l : list Z) (size : nat) :
  NoDup l → (∀ x, x ∈ l → 0 ≤ x < Z.of_nat size) → length l = size → l ≡ₚ seqZ 0 (Z.of_nat size).
Proof.
  intros Hnd Hr Hl. apply submseteq_length_Permutation.
  - apply NoDup_submseteq; [done|]. intros x Hx. apply elem_of_seqZ. specialize (Hr x Hx). lia.
  - rewrite length_seqZ. lia.
Qed.

Lemma iter_add {A} (f : A → A) i j x : Nat.iter (i + j) f x = Nat.iter i f (Nat.iter j f x).
Proof. induction i as [|i IH]; simpl; [done|]. by rewrite IH. Qed.

(** ** Full period *)
Section period.
Context (n : Z) (fl : fio_lfsr) (Hn : 3 ≤ n ≤ 63).
Context (Hbit : cached_bit fl = 2 ^ (n - 1)) (Hmask : is_u n (xormask fl))
        (Htop : Z.testbit (xormask fl) (n - 1) = true).
Abbreviation step := (LFSR_NEXT fl).
Definition orbit (k : nat) : Z := Nat.iter k step 0.
Context (N : nat) (HN : Z.of_nat N = 2 ^ n - 1)
        (Hreturn : orbit N = 0) (Hfirst : ∀ k, (0 < k < N)%nat → orbit k ≠ 0).

Lemma orbit_range k : 0 ≤ orbit k < Z.of_nat N.
Proof.
  assert (is_u n 0) by (split; [lia|apply Z.pow_pos_nonneg; lia]).
  assert (is_u n (orbit k) ∧ orbit k ≠ Z.ones n) as [[? ?] Hne].
  { induction k as [|k [IH IHne]]; unfold orbit in *; simpl.
    - split; [done|]. rewrite Z.ones_equiv. assert (2 ^ 3 ≤ 2 ^ n) by (apply Z.pow_le_mono_r; lia). lia.
    - split; [by apply (step_range n fl Hn Hbit Hmask)|]. intros E. apply IHne.
      apply (step_inj n fl Hn Hbit Htop); [done|apply ones_is_u; lia|].
      by rewrite E, (step_ones n fl Hn Hbit Hmask). }
  rewrite Z.ones_equiv in Hne. lia.
Qed.

Lemma orbit_add i j : orbit (i + j) = Nat.iter i step (orbit j).
Proof. apply iter_add. Qed.

Lemma orbit_period k q : orbit (k + q * N) = orbit k.
Proof.
  induction q as [|q IH]; [f_equal; lia|]. replace (k + S q * N)%nat with ((k + q * N) + N)%nat by lia.
  by rewrite orbit_add, Hreturn.
Qed.
Lemma orbit_mod k : orbit k = orbit (k mod N).
Proof.
  assert (N ≠ 0%nat) by (intros ->; assert (2 ^ 3 ≤ 2 ^ n) by (apply Z.pow_le_mono_r; lia); lia).
  rewrite (Nat.div_mod_eq k N) at 1. rewrite Nat.add_comm, Nat.mul_comm. apply orbit_period.
Qed.

Lemma orbit_cancel k i j : orbit (k + i) = orbit (k + j) → orbit i = orbit j.
Proof.
  induction k as [|k IH]; [done|]. simpl. intros E. apply IH.
  apply (step_inj n fl Hn Hbit Htop); [| |exact E]; split; pose proof (orbit_range (k + i)); pose proof (orbit_range (k + j)); lia.
Qed.

Lemma orbit_inj i j : orbit i = orbit j → (i mod N = j mod N)%nat.
Proof.
  rewrite (orbit_mod i), (orbit_mod j). intros E. assert (N ≠ 0%nat) as HN0.
  { intros ->. assert (2 ^ 3 ≤ 2 ^ n) by (apply Z.pow_le_mono_r; lia). lia. }
  pose proof (Nat.mod_upper_bound i N HN0). pose proof (Nat.mod_upper_bound j N HN0).
  destruct (Nat.lt_trichotomy (i mod N) (j mod N)) as [Hlt|[|Hlt]]; [|done|]; exfalso.
  - apply (Hfirst (j mod N - i mod N)); [lia|]. symmetry. apply (orbit_cancel (i mod N) 0).
    rewrite Nat.add_0_r, E. f_equal. lia.
  - apply (Hfirst (i mod N - j mod N)); [lia|]. symmetry. apply (orbit_cancel (j mod N) 0).
    rewrite Nat.add_0_r, <- E. f_equal. lia.
Qed.

(** Every number below [N] is reached. *)
Lemma orbit_onto v : 0 ≤ v < Z.of_nat N → ∃ k, (k < N)%nat ∧ orbit k = v.
Proof.
  intros Hv. assert ((orbit <$> seq 0 N) ≡ₚ seqZ 0 (Z.of_nat N)) as Hp.
  { apply perm_of_range.
    - apply NoDup_fmap_2_strong; [|apply NoDup_seq]. intros i j Hi%elem_of_seq Hj%elem_of_seq E%orbit_inj.
      by rewrite !Nat.mod_small in E by lia.
    - intros x (k & -> & _)%list_elem_of_fmap. apply orbit_range.
    - by rewrite length_fmap, length_seq. }
  assert (v ∈ orbit <$> seq 0 N) as (k & -> & Hk%elem_of_seq)%list_elem_of_fmap.
  { rewrite Hp. apply elem_of_seqZ. lia. }
  exists k. split; [lia|done].
Qed.
End period.

(** ** Spins

    With a spin each call takes [d = spin + 1] steps, and one more when the numbers
    would repeat, every [L] calls. *)
Lemma find_cycle_spec (N d i : Z) (m : nat) :
  0 < N < 2 ^ 32 → 1 ≤ i → d ≤ 16 → i + Z.of_nat m = d →
  let r := find_cycle m i (N / d) (N mod d) (d - 1) in
  (r = 0 ∧ ∀ j, i ≤ j < d → ¬ (d | N * j)) ∨
  (∃ j, i ≤ j < d ∧ (d | N * j) ∧ (∀ j', i ≤ j' < j → ¬ (d | N * j')) ∧ r * d = N * j).
Proof.
  intros HN. revert i. induction m as [|m IH]; intros i Hi Hd Him; simpl; [left; split; [done|intros; lia]|].
  replace (d - 1 + 1) with d by lia.
  pose proof (Z.div_mod N d ltac:(lia)) as E. pose proof (Z.mod_pos_bound N d ltac:(lia)).
  assert (0 ≤ N / d ≤ N) by (split; [apply Z.div_pos; lia|apply Z.div_le_upper_bound; [lia|];
    pose proof (Z.mul_le_mono_nonneg_r 1 d N ltac:(lia) ltac:(lia)); lia]).
  set (x := N / d) in *. set (y := N mod d) in *.
  assert (0 ≤ y * i ≤ 16 * 16) as Hyi by (split; [apply Z.mul_nonneg_nonneg; lia|apply Z.mul_le_mono_nonneg; lia]).
  assert (0 ≤ x * i ≤ 2 ^ 32 * 16) as Hxi by (split; [apply Z.mul_nonneg_nonneg; lia|apply Z.mul_le_mono_nonneg; lia]).
  assert (u64 (y * i) = y * i) as -> by (apply wrap_small; unfold is_u; lia).
  assert (N * i = (x * i) * d + y * i) as Ei by (rewrite E; ring).
  destruct (Z.eqb_spec ((y * i) mod d) 0) as [E0|E0].
  - right. exists i. pose proof (Z.div_mod (y * i) d ltac:(lia)) as Ey. rewrite E0 in Ey.
    assert (0 ≤ y * i / d ≤ 16 * 16) by (split; [apply Z.div_pos; lia|apply Z.div_le_upper_bound; lia]).
    split_and!; [lia|lia| |intros; lia|].
    + exists (x * i + y * i / d). lia.
    + assert (u64 (x * i) = x * i) as -> by (apply wrap_small; unfold is_u; lia).
      unfold u64. rewrite wrap_small by (unfold is_u; lia). lia.
  - assert (¬ (d | N * i)) as Hnd.
    { intros [q Hq]. apply E0. apply Z.mod_divide; [lia|]. exists (q - x * i). lia. }
    destruct (IH (i + 1)) as [[-> Hno]|(j & ? & ? & Hmin & ?)]; [lia..| |].
    + left. split; [done|]. intros j Hj. destruct (decide (j = i)) as [->|]; [done|]. apply Hno. lia.
    + right. exists j. split_and!; [lia|lia|done| |done]. intros j' Hj'.
      destruct (decide (j' = i)) as [->|]; [done|]. apply Hmin. lia.
Qed.

(** The cycle length is the order of the spin among the steps. *)
Lemma cycle_order (N d : Z) :
  0 < N < 2 ^ 32 → 1 ≤ d ≤ 16 →
  let L := find_cycle (Z.to_nat (d - 1)) 1 (N / d) (N mod d) (d - 1) in
  (L = 0 ∧ Z.gcd N d = 1) ∨ ∃ g d', 1 < g ∧ 0 < L ∧ 0 < d' ∧ N = g * L ∧ d = g * d' ∧ Z.gcd L d' = 1.
Proof.
  intros HN Hd L. remember (Z.gcd N d) as g eqn:Eg.
  assert (0 < g) as Hg by (assert (g ≠ 0) by (rewrite Eg, Z.gcd_eq_0; lia); pose proof (Z.gcd_nonneg N d); lia).
  destruct (Z.gcd_divide_l N d) as [N' EN], (Z.gcd_divide_r N d) as [d' Ed]. rewrite <- Eg in EN, Ed.
  assert (0 < N') by nia. assert (0 < d') by nia.
  assert (Z.gcd N' d' = 1) as Hcop.
  { apply (Z.mul_cancel_l _ _ g); [lia|]. rewrite <- Z.gcd_mul_mono_l_nonneg, Z.mul_1_r by lia.
    replace (g * N') with N by lia. by replace (g * d') with d by lia. }
  assert (∀ j, (d | N * j) ↔ (d' | j)) as Hdiv.
  { intros j. split.
    - intros [q Hq]. apply (Z.gauss d' N' j); [exists q; nia|by rewrite Z.gcd_comm].
    - intros [q ->]. exists (N' * q). nia. }
  pose proof (find_cycle_spec N d 1 (Z.to_nat (d - 1)) HN ltac:(lia) ltac:(lia) ltac:(lia)) as Hspec.
  cbv zeta in Hspec. fold L in Hspec. clearbody L.
  destruct Hspec as [[E0 Hno]|(j & Hj & Hdj & Hmin & Er)].
  - left. split; [done|]. destruct (decide (g = 1)) as [|Hne]; [done|]. exfalso.
    apply (Hno d'); [nia|]. by apply Hdiv.
  - right. assert (j = d') as ->.
    { apply Hdiv in Hdj. apply Z.divide_pos_le in Hdj; [|lia]. destruct (decide (j = d')); [done|].
      exfalso. apply (Hmin d'); [lia|]. by apply Hdiv. }
    assert (L = N') as -> by nia. exists g, d'. split_and!; try lia.
    destruct (decide (g = 1)) as [E1|]; [rewrite E1, Z.mul_1_r in Ed; lia|lia].
Qed.

Section spins.
Context (fl0 : fio_lfsr) (N d L e0 : nat).
Abbreviation orbit := (orbit fl0).

(** The number of steps taken after [k] turns, and the value of [cycle_length]: the
    first turn takes a step more (none at all for 16 steps, which have no case in
    the switch) when no cycle was found. *)
Definition first_jump : nat := if decide (d ≤ 15)%nat then S d else 0.
Definition steps (k : nat) : nat :=
  if decide (L = 0)%nat then match k with O => e0 | S k' => e0 + first_jump + k' * d end
  else e0 + k * d + (k - 1) / L.
Definition countdown (k : nat) : Z :=
  match k with
  | O => Z.of_nat L + 1
  | S k' => if decide (L = 0)%nat then 0 else Z.of_nat (L - k' mod L)
  end.

Context (Hd : (1 ≤ d ≤ 16)%nat) (Hspin : spin fl0 = Z.of_nat d - 1) (HL16 : L ≠ 0%nat → (d ≤ 15)%nat)
        (Hlast : last_val fl0 = orbit e0) (Hcyc : cycle_length fl0 = Z.of_nat L + 1)
        (Hcached : cached_cycle_length fl0 = Z.of_nat L).

Definition at_turn (k : nat) : fio_lfsr :=
  fl0 <| last_val := orbit (steps k) |> <| cycle_length := countdown k |>.

Lemma next_steps fl e j :
  LFSR_NEXT fl = LFSR_NEXT fl0 → last_val fl = orbit e → (1 ≤ j ≤ 16)%nat →
  __lfsr_next (Z.of_nat j - 1) fl = fl <| last_val := orbit (e + j) |>.
Proof.
  intros Hf He Hj. unfold __lfsr_next.
  replace ((0 <=? Z.of_nat j - 1) && (Z.of_nat j - 1 <=? 15)) with true by lia. rewrite Hf, He.
  replace (Z.to_nat (Z.of_nat j - 1 + 1)) with j by lia. rewrite (Nat.add_comm e). by rewrite orbit_add.
Qed.

(** A turn without and with the additional step. *)
Lemma turn_plain fl e :
  LFSR_NEXT fl = LFSR_NEXT fl0 → last_val fl = orbit e → spin fl = Z.of_nat d - 1 → cycle_length fl ≠ 1 →
  lfsr_turn fl = fl <| last_val := orbit (e + d) |>
                    <| cycle_length := if cycle_length fl =? 0 then 0 else cycle_length fl - 1 |>.
Proof.
  intros Hf He Hs Hc. unfold lfsr_turn. cbn [cycle_length set_field_of].
  replace (negb (cycle_length fl =? 0) && (cycle_length fl - 1 =? 0)) with false by lia.
  rewrite Hs. destruct (Z.eqb_spec (cycle_length fl) 0) as [E|E].
  - rewrite (next_steps fl e d) by done. destruct fl; simpl in *. by subst.
  - rewrite (next_steps _ e d) by done. destruct fl; simpl in *. by subst.
Qed.

Lemma turn_jump fl e :
  LFSR_NEXT fl = LFSR_NEXT fl0 → last_val fl = orbit e → spin fl = Z.of_nat d - 1 → cycle_length fl = 1 →
  lfsr_turn fl = fl <| last_val := orbit (e + first_jump) |> <| cycle_length := cached_cycle_length fl |>.
Proof.
  intros Hf He Hs Hc. unfold lfsr_turn. cbn [cycle_length set_field_of spin].
  rewrite Hc. simpl. rewrite Hs, u32_small by lia. unfold first_jump. case_decide.
  - replace (Z.of_nat d - 1 + 1) with (Z.of_nat (S d) - 1) by lia. rewrite (next_steps _ e (S d)) by (done || lia).
    destruct fl; simpl in *. by subst.
  - replace (Z.of_nat d - 1 + 1) with 16 by lia. unfold __lfsr_next. simpl. rewrite Nat.add_0_r, <- He.
    destruct fl; simpl in *. by subst.
Qed.

Lemma succ_div k (l : nat) :
  l ≠ 0%nat → ((k mod l = l - 1 ∧ S k / l = S (k / l) ∧ S k mod l = 0) ∨
             (k mod l < l - 1 ∧ S k / l = k / l ∧ S k mod l = S (k mod l)))%nat.
Proof.
  intros Hl. pose proof (Nat.div_mod_eq k l). pose proof (Nat.mod_upper_bound k l Hl).
  destruct (decide (k mod l = l - 1)%nat); [left|right]; (split; [lia|split]).
  - symmetry. apply (Nat.div_unique _ _ _ 0); lia.
  - symmetry. apply (Nat.mod_unique _ _ (S (k / l))); lia.
  - symmetry. apply (Nat.div_unique _ _ _ (S (k mod l))); lia.
  - symmetry. apply (Nat.mod_unique _ _ (k / l)); lia.
Qed.

Lemma at_turn_eq fl e c k :
  fl = fl0 <| last_val := orbit e |> <| cycle_length := c |> → e = steps k → c = countdown k → fl = at_turn k.
Proof. by intros -> -> ->. Qed.

Lemma turns k : Nat.iter k lfsr_turn fl0 = at_turn k.
Proof.
  induction k as [|k IH].
  - apply (at_turn_eq _ e0 (Z.of_nat L + 1)); [by rewrite <- Hlast, <- Hcyc; destruct fl0| |done].
    unfold steps. case_decide; [done|]. rewrite Nat.div_small; lia.
  - rewrite Nat.iter_succ, IH. destruct (decide (countdown k = 1)) as [Hc|Hc].
    + rewrite (turn_jump (at_turn k) (steps k)) by done. apply (at_turn_eq _ (steps k + first_jump) (Z.of_nat L)).
      * unfold at_turn. cbn. by rewrite Hcached.
      * unfold steps, countdown, first_jump in *. destruct (decide (L = 0%nat)) as [->|HL].
        { destruct k; [lia|done]. }
        rewrite decide_True by auto. destruct k as [|k]; [lia|].
        replace (S (S k) - 1)%nat with (S k) by lia. replace (S k - 1)%nat with k by lia.
        destruct (succ_div k L HL) as [(? & -> & _)|(? & _ & _)]; lia.
      * unfold countdown in *. destruct (decide (L = 0%nat)) as [->|HL]; [done|]. destruct k as [|k]; [lia|].
        destruct (succ_div k L HL) as [(? & _ & ->)|(? & _ & _)]; lia.
    + rewrite (turn_plain (at_turn k) (steps k)) by done.
      eapply (at_turn_eq _ (steps k + d)); [unfold at_turn; cbn; reflexivity| |].
      * unfold steps, countdown in *. destruct (decide (L = 0%nat)) as [->|HL]; [destruct k; [done|lia]|].
        destruct k as [|k]; [rewrite !Nat.div_small; lia|].
        replace (S (S k) - 1)%nat with (S k) by lia. replace (S k - 1)%nat with k by lia.
        destruct (succ_div k L HL) as [(? & _ & _)|(? & -> & _)]; lia.
      * cbn [countdown at_turn cycle_length set_field_of] in *. unfold countdown in *.
        destruct (decide (L = 0%nat)) as [->|HL]; [by destruct k|].
        match goal with |- (if ?c =? 0 then _ else _) = _ => destruct (Z.eqb_spec c 0) end;
          (destruct k as [|k]; [rewrite Nat.mod_small; lia|]);
          destruct (succ_div k L HL) as [(? & _ & _)|(? & _ & ->)]; pose proof (Nat.mod_upper_bound k L HL); lia.
Qed.
End spins.

(** ** Every state once *)
Lemma mod_divide (N a b : nat) : N ≠ 0%nat → (a mod N = b mod N)%nat → (Z.of_nat N | Z.of_nat a - Z.of_nat b).
Proof.
  intros HN E. pose proof (Nat.div_mod_eq a N). pose proof (Nat.div_mod_eq b N).
  exists (Z.of_nat (a / N) - Z.of_nat (b / N)). lia.
Qed.

Lemma divide_small (m x : Z) : (m | x) → Z.abs x < m → x = 0.
Proof.
  intros [q ->] Hx. destruct (decide (q = 0)) as [->|]; [done|]. exfalso.
  rewrite Z.abs_mul in Hx. assert (1 ≤ Z.abs q) by lia. assert (0 < m) by lia. nia.
Qed.

Lemma steps_inj (N d L e0 i j : nat) :
  (1 ≤ i ≤ N)%nat → (1 ≤ j ≤ N)%nat →
  (L = 0%nat ∧ Z.gcd (Z.of_nat N) (Z.of_nat d) = 1 ∨
   ∃ g d', 1 < g ∧ 0 < Z.of_nat L ∧ 0 < d' ∧ Z.of_nat N = g * Z.of_nat L ∧ Z.of_nat d = g * d' ∧ Z.gcd (Z.of_nat L) d' = 1) →
  (steps d L e0 i mod N = steps d L e0 j mod N)%nat → i = j.
Proof.
  intros Hi Hj HL E. apply mod_divide in E; [|lia]. unfold steps in E. destruct HL as [[-> Hg]|(g & d' & ? & ? & ? & EN & Ed & Hg)].
  - destruct i as [|i], j as [|j]; [lia..|]. simpl in E.
    assert (Z.of_nat i - Z.of_nat j = 0); [|lia]. apply (divide_small (Z.of_nat N)); [|lia].
    apply (Z.gauss _ (Z.of_nat d)); [|done]. destruct E as [q Eq]. exists q. lia.
  - rewrite !decide_False in E by lia. destruct E as [q Eq].
    set (a := ((i - 1) / L)%nat) in *. set (b := ((j - 1) / L)%nat) in *.
    pose proof (Nat.div_mod_eq (i - 1) L). pose proof (Nat.div_mod_eq (j - 1) L). fold a in H2. fold b in H3.
    pose proof (Nat.mod_upper_bound (i - 1) L). pose proof (Nat.mod_upper_bound (j - 1) L).
    assert (Z.of_nat a < g) by nia. assert (Z.of_nat b < g) by nia.
    assert (Z.of_nat a - Z.of_nat b = 0) as Eab.
    { apply (divide_small g); [|lia]. exists (q * Z.of_nat L - (Z.of_nat i - Z.of_nat j) * d'). nia. }
    assert (Z.of_nat i - Z.of_nat j = 0); [|lia]. apply (divide_small (Z.of_nat L)); [|nia].
    apply (Z.gauss _ d'); [|done]. exists q. apply (Z.mul_cancel_l _ _ g); [lia|]. nia.
Qed.

(** ** The calls *)

(** The states of [m] turns. *)
Fixpoint trace (m : nat) (fl : fio_lfsr) : list fio_lfsr :=
  match m with O => [] | S m' => lfsr_turn fl :: trace m' (lfsr_turn fl) end.

Lemma trace_iter m fl : trace m fl = (λ k, Nat.iter (S k) lfsr_turn fl) <$> seq 0 m.
Proof.
  revert fl. induction m as [|m IH]; intros fl; [done|]. cbn [trace seq]. rewrite fmap_cons, IH. f_equal.
  rewrite <- (fmap_S_seq 0 m), <- list_fmap_compose. apply list_fmap_ext. intros k j _. simpl.
  by rewrite <- Nat.iter_succ_r.
Qed.

Lemma turn_num_vals fl c : lfsr_turn (fl <| num_vals := c |>) = (lfsr_turn fl) <| num_vals := c |>.
Proof.
  unfold lfsr_turn, __lfsr_next. cbn. repeat case_match; done.
Qed.
Lemma turn_same fl : max_val (lfsr_turn fl) = max_val fl ∧ num_vals (lfsr_turn fl) = num_vals fl.
Proof. unfold lfsr_turn, __lfsr_next. cbn. repeat case_match; done. Qed.

Lemma loop_mono f fl r : lfsr_loop f fl = Some r → lfsr_loop (S f) fl = Some r.
Proof.
  revert fl. induction f as [|f IH]; intros fl E; [done|]. cbn [lfsr_loop] in E |- *.
  destruct (max_val (lfsr_turn fl) <? last_val (lfsr_turn fl)); [|done]. by apply IH in E.
Qed.

Lemma next_mono f fl r : lfsr_next f fl = Some r → lfsr_next (S f) fl = Some r.
Proof.
  unfold lfsr_next. case_match; [done|]. intros (fl' & E & E')%bind_Some. apply loop_mono in E.
  by rewrite E.
Qed.
Lemma run_mono f n fl r : lfsr_run f n fl = Some r → lfsr_run (S f) n fl = Some r.
Proof.
  revert fl r. induction n as [|n IH]; intros fl r E; [done|]. cbn [lfsr_run] in E |- *.
  apply bind_Some in E as ([[v|] fl'] & E & E'); rewrite (bind_run _ _ _ _ _ (next_mono _ _ _ E)); [|done].
  apply bind_Some in E' as ([vs fl2] & E1 & E2). by rewrite (bind_run _ _ _ _ _ (IH _ _ E1)).
Qed.

(** The values within the size that [m] turns give. *)
Definition hits (m : nat) (fl : fio_lfsr) : list Z :=
  filter (λ y, y ≤ max_val fl) (last_val <$> trace m fl).

Lemma hits_num_vals m fl c : hits m (fl <| num_vals := c |>) = hits m fl.
Proof.
  unfold hits. change (max_val (fl <| num_vals := c |>)) with (max_val fl). f_equal. revert fl. induction m as [|m IH]; intros fl; [done|].
  cbn [trace fmap list_fmap]. rewrite turn_num_vals. f_equal. apply IH.
Qed.

Lemma hits_S m fl :
  hits (S m) fl = if decide (last_val (lfsr_turn fl) ≤ max_val fl) then last_val (lfsr_turn fl) :: hits m (lfsr_turn fl)
                  else hits m (lfsr_turn fl).
Proof. unfold hits. cbn [trace fmap list_fmap]. by destruct (turn_same fl) as [-> _]. Qed.

Lemma next_hit f fl :
  num_vals fl ≤ max_val fl → 0 ≤ num_vals fl → max_val fl < 2 ^ 64 - 1 →
  lfsr_next (S f) fl =
    if decide (last_val (lfsr_turn fl) ≤ max_val fl)
    then Some (Some (last_val (lfsr_turn fl)), (lfsr_turn fl) <| num_vals := num_vals fl + 1 |>)
    else lfsr_next f (lfsr_turn fl).
Proof.
  intros Hnv H0 Hmax. destruct (turn_same fl) as [Em En]. unfold lfsr_next. rewrite Em, En.
  rewrite (proj2 (Z.ltb_ge _ _)) by lia. unfold u64. rewrite wrap_small by (unfold is_u; lia).
  cbn [lfsr_loop]. rewrite turn_num_vals. cbn [max_val last_val set_field_of]. rewrite Em. case_decide.
  - by rewrite (proj2 (Z.ltb_ge _ _)) by lia.
  - by rewrite (proj2 (Z.ltb_lt _ _)) by lia.
Qed.

(** The calls return these values in this order. *)
Lemma run_hits m fuel fl :
  (m ≤ fuel)%nat → 0 ≤ num_vals fl → max_val fl < 2 ^ 64 - 1 →
  num_vals fl + Z.of_nat (length (hits m fl)) ≤ max_val fl + 1 →
  ∃ fl', lfsr_run fuel (length (hits m fl)) fl = Some (hits m fl, fl') ∧
    num_vals fl' = num_vals fl + Z.of_nat (length (hits m fl)) ∧ max_val fl' = max_val fl.
Proof.
  revert fuel fl. induction m as [|m IH]; intros fuel fl Hm Hnv Hmax Hlen.
  { exists fl. simpl. split_and!; [done|lia|done]. }
  destruct fuel as [|f]; [lia|]. destruct (turn_same fl) as [Em En]. rewrite hits_S in *.
  case_decide as Hin; cbn [length] in *.
  - set (fl1 := (lfsr_turn fl) <| num_vals := num_vals fl + 1 |>).
    assert (hits m fl1 = hits m (lfsr_turn fl)) as Eh by apply hits_num_vals.
    destruct (IH (S f) fl1) as (fl' & Er & En' & Em'); [lia|simpl; lia|simpl; lia|rewrite Eh; simpl; lia|].
    rewrite Eh in *. exists fl'. split_and!; [|simpl in En'; lia|by rewrite Em'].
    cbn [lfsr_run]. erewrite bind_run by (rewrite next_hit, decide_True by (done || lia); done). cbv iota.
    by erewrite bind_run by exact Er.
  - destruct (IH f (lfsr_turn fl)) as (fl' & Er & En' & Em'); [lia..|].
    destruct (hits m (lfsr_turn fl)) as [|y ys]; [exists fl; simpl; split_and!; [done|lia|done]|].
    exists fl'. split_and!; [|lia|by rewrite Em']. cbn [length lfsr_run] in *.
    apply bind_Some in Er as ([r fl2] & E & E').
    erewrite bind_run by (rewrite next_hit, decide_False by (done || lia); exact E).
    destruct r as [v|]; [|done]. apply bind_Some in E' as ([vs fl3] & E1 & E2).
    by erewrite bind_run by (apply run_mono; exact E1).
Qed.
