(* ===== verification/LfsrPeriod.v ===== *)
(** * The registers have full period (src/fio4emu/lib/lfsr.c)

    A step is an affine map over the field of two elements.  Squaring it gives the
    state after any number of steps, and the prime factors of 2^n - 1 show that no
    smaller number of steps returns: the tap table is right for every register of
    at most 32 bits.  With it, [lfsr_covers]: every block of a file once. *)
From Stdlib Require Import Znumtheory.
From S2P Require Import Prelude CInt Lfsr.
#[local] Open Scope Z_scope.

(** ** Affine maps of words *)

(** The image of a word under the linear map that sends bit [i] to [cols !! i]. *)
Fixpoint lin (cols : list Z) (v : Z) : Z :=
  match cols with
  | [] => 0
  | col :: cols' => Z.lxor (if Z.odd v then col else 0) (lin cols' (Z.div2 v))
  end.

Lemma lin_0 cols : lin cols 0 = 0.
Proof. induction cols as [|c cols IH]; simpl; [done|]. by rewrite IH. Qed.

Lemma lin_lxor cols v w : lin cols (Z.lxor v w) = Z.lxor (lin cols v) (lin cols w).
Proof.
  revert v w. induction cols as [|c cols IH]; intros v w; simpl; [done|].
  rewrite !Z.div2_spec, Z.shiftr_lxor, <- !Z.div2_spec, IH.
  rewrite <- !Z.bit0_odd, Z.lxor_spec.
  destruct (Z.testbit v 0), (Z.testbit w 0); simpl; apply Z.bits_inj'; intros i _; rewrite !Z.lxor_spec, ?Z.bits_0;
    by destruct (Z.testbit c i), (Z.testbit (lin cols (Z.div2 v)) i), (Z.testbit (lin cols (Z.div2 w)) i).
Qed.

Lemma lin_lin G F v : lin G (lin F v) = lin (lin G <$> F) v.
Proof.
  revert v. induction F as [|c F IH]; intros v; simpl; [apply lin_0|]. rewrite lin_lxor, IH. f_equal.
  destruct (Z.odd v); [done|apply lin_0].
Qed.

(** A constant and the columns of the linear part. *)
Definition affine : Type := Z * list Z.
Definition apply_affine (F : affine) (v : Z) : Z := Z.lxor F.1 (lin F.2 v).
Definition square (F : affine) : affine := (apply_affine F F.1, lin F.2 <$> F.2).

Lemma square_spec F v : apply_affine (square F) v = apply_affine F (apply_affine F v).
Proof. unfold square, apply_affine. simpl. by rewrite lin_lxor, lin_lin, Z.lxor_assoc. Qed.

(** [F], [F^2], [F^4], ... and a power from them. *)
Fixpoint squares (m : nat) (F : affine) : list affine :=
  match m with O => [] | S m' => F :: squares m' (square F) end.
Fixpoint power (p : positive) (Fs : list affine) (v : Z) : option Z :=
  match Fs with
  | [] => None
  | F :: Fs' =>
      match p with
      | xH => Some (apply_affine F v)
      | xO p' => power p' Fs' v
      | xI p' => power p' Fs' (apply_affine F v)
      end
  end.

Lemma iter_twice {A} (f : A → A) k x : Nat.iter k (λ y, f (f y)) x = Nat.iter (2 * k) f x.
Proof. induction k as [|k IH]; [done|]. replace (2 * S k)%nat with (S (S (2 * k))) by lia. simpl. by rewrite IH. Qed.

Lemma iter_square F k v : Nat.iter k (apply_affine (square F)) v = Nat.iter (2 * k) (apply_affine F) v.
Proof.
  rewrite <- iter_twice. induction k as [|k IH]; [done|]. rewrite !Nat.iter_succ, IH. apply square_spec.
Qed.

Lemma power_spec p m F v r :
  power p (squares m F) v = Some r → r = Nat.iter (Pos.to_nat p) (apply_affine F) v.
Proof.
  revert m F v. induction p as [p IH|p IH|]; intros [|m] F v E; try done; cbn in E.
  - apply IH in E as ->. by rewrite Pos2Nat.inj_xI, Nat.iter_succ_r, iter_square.
  - apply IH in E as ->. by rewrite Pos2Nat.inj_xO, iter_square.
  - by simplify_eq.
Qed.

(** ** A step of the register *)
Definition step_affine (n : nat) (fl : fio_lfsr) : affine :=
  (Z.lxor (cached_bit fl) (xormask fl), xormask fl :: ((λ i, 2 ^ Z.of_nat i) <$> seq 0 (n - 1))).

Lemma lin_powers m j v :
  is_u (Z.of_nat m) v → lin ((λ i, 2 ^ Z.of_nat i) <$> seq j m) v = Z.shiftl v (Z.of_nat j).
Proof.
  revert j v. induction m as [|m IH]; intros j v Hv; simpl.
  - replace v with 0 by (destruct Hv; simpl in *; lia). by rewrite Z.shiftl_0_l.
  - assert (is_u (Z.of_nat m) (Z.div2 v)).
    { destruct Hv. rewrite Nat2Z.inj_succ, Z.pow_succ_r in * by lia. pose proof (Z.div2_odd v).
      destruct (Z.odd v); simpl in *; split; lia. }
    rewrite IH by done. apply Z.bits_inj'. intros i Hi. rewrite Z.lxor_spec, !Z.shiftl_spec by done.
    rewrite Z.div2_spec. destruct (decide (i < Z.of_nat j)).
    + rewrite !(Z.testbit_neg_r _ (i - _)) by lia. destruct (Z.odd v); [|by rewrite Z.bits_0].
      by rewrite Z.pow2_bits_false by lia.
    + destruct (decide (i = Z.of_nat j)) as [->|].
      * rewrite (Z.testbit_neg_r _ (_ - Z.of_nat (S j))), Z.sub_diag, Z.bit0_odd by lia.
        destruct (Z.odd v); [by rewrite Z.pow2_bits_true by lia|by rewrite Z.bits_0].
      * rewrite Z.shiftr_spec by lia. replace (i - Z.of_nat (S j) + 1) with (i - Z.of_nat j) by lia.
        destruct (Z.odd v); [|by rewrite Z.bits_0, xorb_false_l].
        by rewrite Z.pow2_bits_false, xorb_false_l by lia.
Qed.

Lemma step_affine_spec n fl v :
  (3 ≤ n ≤ 63)%nat → cached_bit fl = 2 ^ (Z.of_nat n - 1) → is_u (Z.of_nat n) (xormask fl) → is_u (Z.of_nat n) v →
  apply_affine (step_affine n fl) v = LFSR_NEXT fl v.
Proof.
  intros Hn Hbit Hmask Hv. unfold apply_affine, step_affine. cbn [fst snd lin].
  assert (is_u (Z.of_nat (n - 1)) (Z.div2 v)) as Hv2.
  { destruct Hv. replace (Z.of_nat n) with (Z.succ (Z.of_nat (n - 1))) in * by lia.
    rewrite Z.pow_succ_r in * by lia. pose proof (Z.div2_odd v). destruct (Z.odd v); simpl in *; split; lia. }
  rewrite lin_powers, Z.shiftl_0_r, Z.div2_spec by done. rewrite Z.div2_spec in Hv2.
  unfold LFSR_NEXT. apply Z.bits_inj'. intros i Hi. rewrite !Z.lxor_spec, Z.lor_spec, Z.land_spec.
  assert (Z.land v 1 = if Z.odd v then 1 else 0) as ->.
  { change 1 with (Z.ones 1) at 1. rewrite Z.land_ones by lia. change (2 ^ 1) with 2. by rewrite Zmod_odd. }
  assert (Z.testbit (Z.shiftr v 1) i && Z.testbit (cached_bit fl) i = false) as Hdisj.
  { rewrite Hbit, Z.pow2_bits_eqb by lia. destruct (Z.eqb_spec (Z.of_nat n - 1) i); [|by rewrite andb_false_r].
    by rewrite (testbit_high _ _ i Hv2) by lia. }
  assert (Z.testbit (u64 ((if Z.odd v then 1 else 0) - 1)) i && Z.testbit (xormask fl) i =
          negb (Z.odd v) && Z.testbit (xormask fl) i) as ->.
  { destruct (Z.odd v); [change (u64 (1 - 1)) with 0; by rewrite Z.bits_0|]. change (u64 (0 - 1)) with (Z.ones 64).
    rewrite testbit_ones by lia. simpl. case_bool_decide; [done|].
    by rewrite (testbit_high (Z.of_nat n) (xormask fl)), andb_false_r by (done || lia). }
  destruct (Z.odd v); rewrite ?Z.bits_0; destruct (Z.testbit (cached_bit fl) i), (Z.testbit (xormask fl) i),
    (Z.testbit (Z.shiftr v 1) i); simpl in *; done.
Qed.

(** ** Primes *)
(** No odd divisor from [d] on, as far as a divisor can lie below the root. *)
Fixpoint no_divisor (fuel : nat) (d p : Z) : bool :=
  match fuel with
  | O => p <? d * d
  | S f => negb (p mod d =? 0) && no_divisor f (d + 2) p
  end.
Definition is_prime (p : Z) : bool := (1 <? p) && Z.odd p && no_divisor (Z.to_nat (Z.sqrt p / 2)) 3 p.

Lemma no_divisor_spec fuel d p :
  1 < d → Z.odd d = true → no_divisor fuel d p = true → ∀ e, d ≤ e → Z.odd e = true → e * e ≤ p → ¬ (e | p).
Proof.
  revert d. induction fuel as [|f IH]; intros d Hd Hod Hc e He Hoe Hep; simpl in Hc; [nia|].
  apply andb_prop in Hc as [Hne Hc]. destruct (decide (e = d)) as [->|].
  - intros Hdiv%Z.mod_divide; [|lia]. by rewrite Hdiv in Hne.
  - apply (IH (d + 2)); try done; [lia|by rewrite Z.odd_add, Hod|].
    apply Z.odd_spec in Hod as [a ->], Hoe as [b ->]. lia.
Qed.

Lemma is_prime_spec p : is_prime p = true → Z.prime p.
Proof.
  intros [[Hp%Z.ltb_lt Hodd]%andb_prop Hd]%andb_prop. split; [done|]. intros e He [q Hq].
  assert (Z.odd q = true ∧ Z.odd e = true) as [Hoq Hoe].
  { rewrite Hq, Z.odd_mul in Hodd. by apply andb_prop in Hodd. }
  pose proof (no_divisor_spec _ 3 p ltac:(lia) eq_refl Hd) as H.
  assert (3 ≤ e) by (apply Z.odd_spec in Hoe as [a ->]; lia).
  assert (3 ≤ q) by (apply Z.odd_spec in Hoq as [a ->]; nia).
  destruct (decide (e * e ≤ p)); [apply (H e); [done..|by exists q]|]. apply (H q); [done|done|nia|exists e; lia].
Qed.

Lemma prime_divisor m : 1 < m → ∃ q, Z.prime q ∧ (q | m).
Proof.
  intros Hm. assert (0 ≤ m) as H0 by lia. revert Hm. apply (Zlt_0_ind (λ m, 1 < m → ∃ q, Z.prime q ∧ (q | m))); [|done].
  clear m H0. intros m IH _ Hm. destruct (prime_dec m) as [Hp|Hn].
  - exists m. split; [by apply prime_alt|apply Z.divide_refl].
  - destruct (not_prime_divide m Hm Hn) as (e & He & Hem). destruct (IH e) as (q & Hq & Hqe); [lia..|].
    exists q. split; [done|]. by apply (Z.divide_trans _ e).
Qed.

Lemma prime_in_list ps q : Forall Z.prime ps → Z.prime q → (q | foldr Z.mul 1 ps) → q ∈ ps.
Proof.
  intros Hps Hq. induction Hps as [|p ps Hp _ IH]; simpl; intros Hd.
  - exfalso. destruct Hq as [Hq _]. apply Z.divide_1_r_nonneg in Hd; lia.
  - apply Z.divide_prime_mul in Hd as [Hd|Hd]; [| |done]; [|right; by apply IH].
    rewrite (Z.divide_prime_prime q p) by done. left.
Qed.

(** ** The period *)
Lemma period_gcd {A} (f : A → A) (x : A) (a b : nat) :
  Nat.iter a f x = x → Nat.iter b f x = x → Nat.iter (Nat.gcd a b) f x = x.
Proof.
  revert b. induction (lt_wf a) as [a _ IH]. intros b Ha Hb. destruct a as [|a]; [by rewrite Nat.gcd_0_l|].
  rewrite <- Nat.Lcm0.gcd_mod. apply IH; [apply Nat.mod_upper_bound; lia| |done].
  rewrite (Nat.div_mod_eq b (S a)), Nat.add_comm, iter_add in Hb.
  assert (∀ q, Nat.iter (S a * q) f x = x) as Hq.
  { induction q as [|q IHq]; [by rewrite Nat.mul_0_r|]. by rewrite Nat.mul_succ_r, iter_add, Ha. }
  by rewrite Hq in Hb.
Qed.

(** An iterate that returns after [N] steps, but after no [N / p], returns after no
    fewer. *)
Lemma period_primes {A} (f : A → A) (x : A) (ps : list Z) (N : nat) :
  Forall Z.prime ps → foldr Z.mul 1 ps = Z.of_nat N → Nat.iter N f x = x →
  (∀ p, p ∈ ps → Nat.iter (Z.to_nat (Z.of_nat N / p)) f x ≠ x) →
  ∀ k, (0 < k < N)%nat → Nat.iter k f x ≠ x.
Proof.
  intros Hps Hprod HN Hmax k Hk E. pose proof (period_gcd f x k N E HN) as Er. set (r := Nat.gcd k N) in *.
  assert (r ≠ 0%nat) by (unfold r; rewrite Nat.gcd_eq_0; lia).
  destruct (Nat.gcd_divide_l k N) as [a Ha], (Nat.gcd_divide_r k N) as [m Hm]. fold r in Ha, Hm.
  assert (a ≠ 0%nat) by (intros ->; lia). assert (1 < m)%nat by nia.
  destruct (prime_divisor (Z.of_nat m)) as (q & Hq & [t Ht]); [lia|].
  assert (q ∈ ps) as Hin.
  { apply prime_in_list; [done..|]. rewrite Hprod. exists (t * Z.of_nat r). lia. }
  apply (Hmax q Hin). assert (1 < q) by (by destruct Hq). assert (0 ≤ t) by nia.
  replace (Z.of_nat N / q) with (t * Z.of_nat r).
  - replace (Z.to_nat (t * Z.of_nat r)) with (Z.to_nat t * r)%nat by lia.
    induction (Z.to_nat t) as [|u IHu]; [done|]. simpl. rewrite Nat.add_comm, iter_add.
    by rewrite Er, IHu.
  - apply Z.div_unique_exact; lia.
Qed.

(** ** The tap table *)
Definition register (n : nat) : fio_lfsr :=
  let taps := default [] (lfsr_taps !! n) in
  FioLfsr (lfsr_create_xormask taps) 0 (u64 (Z.shiftl 1 (default 0 (taps !! 0%nat) - 1))) 0 0 0 0 0.

(** The prime factors of 2^n - 1 for [n] from 3 on. *)
Definition factors : list (list Z) := [
  [7]; [3; 5]; [31]; [3; 3; 7]; [127]; [3; 5; 17]; [7; 73]; [3; 11; 31]; [23; 89]; [3; 3; 5; 7; 13]; [8191];
  [3; 43; 127]; [7; 31; 151]; [3; 5; 17; 257]; [131071]; [3; 3; 3; 7; 19; 73]; [524287];
  [3; 5; 5; 11; 31; 41]; [7; 7; 127; 337]; [3; 23; 89; 683]; [47; 178481]; [3; 3; 5; 7; 13; 17; 241];
  [31; 601; 1801]; [3; 2731; 8191]; [7; 73; 262657]; [3; 5; 29; 43; 113; 127]; [233; 1103; 2089];
  [3; 3; 7; 11; 31; 151; 331];
  [2147483647]; [3; 5; 17; 257; 65537] ].

Definition returns (Fs : list affine) (k : Z) : bool :=
  match power (Z.to_pos k) Fs 0 with Some r => r =? 0 | None => false end.
Definition moves (Fs : list affine) (k : Z) : bool :=
  match power (Z.to_pos k) Fs 0 with Some r => negb (r =? 0) | None => false end.

Definition full_period (n : nat) (ps : list Z) : bool :=
  let fl := register n in
  let N := 2 ^ Z.of_nat n - 1 in
  let Fs := squares n (step_affine n fl) in
  (cached_bit fl =? 2 ^ (Z.of_nat n - 1)) && (0 <=? xormask fl) && (xormask fl <? 2 ^ Z.of_nat n) &&
  Z.testbit (xormask fl) (Z.of_nat n - 1) && (foldr Z.mul 1 ps =? N) && forallb is_prime ps &&
  returns Fs N && forallb (λ p, (0 <? N / p) && moves Fs (N / p)) ps.

Lemma table_ok : forallb (λ i, full_period (3 + i) (default [] (factors !! i))) (seq 0 30) = true.
Proof. vm_compute. reflexivity. Qed.

Lemma register_ok n :
  (3 ≤ n ≤ 32)%nat →
  let N := Z.to_nat (2 ^ Z.of_nat n - 1) in
  cached_bit (register n) = 2 ^ (Z.of_nat n - 1) ∧ is_u (Z.of_nat n) (xormask (register n)) ∧
  Z.testbit (xormask (register n)) (Z.of_nat n - 1) = true ∧
  orbit (register n) N = 0 ∧ ∀ k, (0 < k < N)%nat → orbit (register n) k ≠ 0.
Proof.
  intros Hn N. pose proof table_ok as Ht. rewrite forallb_forall in Ht. specialize (Ht (n - 3)%nat).
  rewrite <- list_elem_of_In in Ht. replace (3 + (n - 3))%nat with n in Ht by lia.
  specialize (Ht ltac:(apply elem_of_seq; lia)). unfold full_period in Ht.
  set (ps := default [] (factors !! (n - 3)%nat)) in Ht. rewrite !andb_true_iff in Ht.
  destruct Ht as [[[[[[[Hb H0] Hm] Htop] Hprod] Hps] Hret] Hmove]. apply Z.eqb_eq in Hb, Hprod.
  assert (is_u (Z.of_nat n) (xormask (register n))) as Hmask by (split; lia).
  assert (8 ≤ 2 ^ Z.of_nat n) as Hpow by (apply (Z.pow_le_mono_r 2 3); lia).
  assert (∀ k, orbit (register n) k = Nat.iter k (apply_affine (step_affine n (register n))) 0) as Horb.
  { assert (∀ k, is_u (Z.of_nat n) (orbit (register n) k)) as Hr.
    { intros k. induction k as [|k IH]; [unfold orbit; simpl; split; lia|]. by apply (step_range (Z.of_nat n) (register n)); [lia|..]. }
    intros k. induction k as [|k IH]; [done|]. rewrite Nat.iter_succ, <- IH. symmetry.
    apply step_affine_spec; [lia|done|done|apply Hr]. }
  assert (N = Pos.to_nat (Z.to_pos (2 ^ Z.of_nat n - 1))) as EN by (unfold N; lia).
  split_and!; try done.
  - rewrite Horb. unfold returns in Hret. destruct (power _ _ 0) as [r|] eqn:E; [|done].
    apply power_spec in E. apply Z.eqb_eq in Hret. by rewrite EN, <- E.
  - intros k Hk. rewrite Horb. apply (period_primes _ _ ps N); [| |rewrite <- Horb| |done].
    + apply Forall_forall. intros p Hp. apply is_prime_spec. rewrite forallb_forall in Hps. by apply Hps, list_elem_of_In.
    + unfold N. lia.
    + rewrite Horb. unfold returns in Hret. destruct (power _ _ 0) as [r|] eqn:E; [|done].
      apply power_spec in E. apply Z.eqb_eq in Hret. by rewrite EN, <- E.
    + intros p Hp. rewrite forallb_forall in Hmove. specialize (Hmove p). rewrite <- list_elem_of_In in Hmove.
      specialize (Hmove Hp). apply andb_prop in Hmove as [Hpos Hmove]. unfold moves in Hmove.
      replace (Z.of_nat N) with (2 ^ Z.of_nat n - 1) by (unfold N; lia).
      destruct (power _ _ 0) as [r|] eqn:E; [|done]. apply power_spec in E. apply negb_true_iff, Z.eqb_neq in Hmove.
      replace (Z.to_nat _) with (Pos.to_nat (Z.to_pos ((2 ^ Z.of_nat n - 1) / p))) by lia. congruence.
Qed.

(** ** Set-up *)

(** The register chosen has the fewest bits, three at least, that hold the size. *)
Lemma find_taps_spec m i j size :
  (i ≤ j < i + m)%nat → (i + m ≤ 64)%nat → size < 2 ^ Z.of_nat j →
  ∃ n, (i ≤ n ≤ j)%nat ∧ find_taps m i size = lfsr_taps !! n ∧ size < 2 ^ Z.of_nat n ∧
       (n = i ∨ 2 ^ (Z.of_nat n - 1) ≤ size).
Proof.
  revert i. induction m as [|m IH]; intros i Hj Hm Hs; [lia|]. cbn [find_taps].
  assert (u64 (Z.shiftl 1 (Z.of_nat i)) = 2 ^ Z.of_nat i) as ->.
  { rewrite Z.shiftl_1_l. apply wrap_small. split; [apply Z.pow_nonneg; lia|apply Z.pow_lt_mono_r; lia]. }
  destruct (Z.ltb_spec size (2 ^ Z.of_nat i)); [exists i; split_and!; [lia|lia|done|done|by left]|].
  assert (i ≠ j) by (intros ->; lia).
  destruct (IH (S i)) as (n & ? & ? & ? & Hn); [lia|lia|done|]. exists n. split_and!; [lia|lia|done|done|right].
  destruct Hn as [->|]; [|done]. by replace (Z.of_nat (S i) - 1) with (Z.of_nat i) by lia.
Qed.

Lemma bitmask_eq (n : nat) (b : Z) :
  (3 ≤ n ≤ 32)%nat → b = 2 ^ (Z.of_nat n - 1) → u64 (u64 (Z.shiftl b 1) - 1) = 2 ^ Z.of_nat n - 1.
Proof.
  intros Hn ->. rewrite Z.shiftl_mul_pow2 by lia. change (2 ^ 1) with 2.
  assert (2 ^ (Z.of_nat n - 1) * 2 = 2 ^ Z.of_nat n) as ->
    by (rewrite Z.mul_comm, <- Z.pow_succ_r by lia; f_equal; lia).
  assert (0 < 2 ^ Z.of_nat n ≤ 2 ^ 32) by (split; [apply Z.pow_pos_nonneg|apply Z.pow_le_mono_r]; lia).
  unfold u64. rewrite !wrap_small; unfold is_u; rewrite ?wrap_small by (unfold is_u; lia); lia.
Qed.

Lemma prepare_spin_ok (n : nat) sp fl :
  (3 ≤ n ≤ 32)%nat → cached_bit fl = 2 ^ (Z.of_nat n - 1) → 0 ≤ sp ≤ 15 →
  let N := 2 ^ Z.of_nat n - 1 in
  let L := find_cycle (Z.to_nat sp) 1 (N / (sp + 1)) (N mod (sp + 1)) sp in
  prepare_spin sp fl =
    (0, fl <| spin := sp |> <| cached_cycle_length := L |> <| cycle_length := u64 (L + 1) |>).
Proof.
  intros Hn Hb Hsp. unfold prepare_spin. rewrite (bitmask_eq n) by done.
  by rewrite (proj2 (Z.ltb_ge _ _)) by lia.
Qed.

Lemma lfsr_reset_ok (n : nat) seed fl :
  (3 ≤ n ≤ 32)%nat → cached_bit fl = 2 ^ (Z.of_nat n - 1) →
  lfsr_reset seed fl = (c_bool (seed mod 2 ^ Z.of_nat n =? 2 ^ Z.of_nat n - 1),
                        fl <| num_vals := 0 |> <| last_val := seed mod 2 ^ Z.of_nat n |>).
Proof.
  intros Hn Hb. unfold lfsr_reset. rewrite (bitmask_eq n) by done.
  by rewrite <- Z.land_ones, Z.ones_equiv by lia.
Qed.

Section start.
Context (nums seed sp : Z) (Hnums : 1 ≤ nums < 2 ^ 32) (Hsp : 0 ≤ sp ≤ 15).

(** The state after a successful set-up. *)
Definition started (n : nat) (fl : fio_lfsr) : Prop :=
  let N := 2 ^ Z.of_nat n - 1 in
  let L := find_cycle (Z.to_nat sp) 1 (N / (sp + 1)) (N mod (sp + 1)) sp in
  xormask fl = xormask (register n) ∧ cached_bit fl = cached_bit (register n) ∧ max_val fl = nums - 1 ∧
  num_vals fl = 0 ∧ spin fl = sp ∧ cached_cycle_length fl = L ∧ cycle_length fl = u64 (L + 1) ∧ 0 ≤ last_val fl < N.

Lemma lfsr_init_started fl :
  ∃ n, (3 ≤ n ≤ 32)%nat ∧ nums < 2 ^ Z.of_nat n ∧ 2 ^ Z.of_nat n - 1 ≤ 2 * nums + 7 ∧
    (lfsr_init nums seed sp fl).1 = c_bool (seed mod 2 ^ Z.of_nat n =? 2 ^ Z.of_nat n - 1) ∧
    ((lfsr_init nums seed sp fl).1 = 0 → started n (lfsr_init nums seed sp fl).2).
Proof.
  destruct (find_taps_spec 61 3 32 nums) as (n & Hn & Ef & Hlt & Hmin); [lia|lia|simpl; lia|]. exists n.
  assert (2 ^ Z.of_nat n - 1 ≤ 2 * nums + 7) as Hsize.
  { destruct Hmin as [->|Hmin]; [simpl; lia|].
    assert (2 ^ Z.of_nat n = 2 * 2 ^ (Z.of_nat n - 1)) as -> by (rewrite <- Z.pow_succ_r by lia; f_equal; lia). lia. }
  destruct (register_ok n) as (Hb & _); [lia|].
  destruct (lookup_lt_is_Some_2 lfsr_taps n) as [taps Et]; [change (length lfsr_taps) with 64%nat; lia|].
  unfold lfsr_init, find_lfsr. rewrite Ef, Et.
  set (fl1 := fl <| max_val := _ |> <| xormask := _ |> <| cached_bit := _ |>).
  assert (cached_bit fl1 = cached_bit (register n)) as Eb by (unfold register; by rewrite Et).
  assert (xormask fl1 = xormask (register n)) as Em by (unfold register; by rewrite Et).
  assert (max_val fl1 = nums - 1) as Emax by (simpl; unfold u64; rewrite wrap_small by (unfold is_u; lia); done).
  rewrite (prepare_spin_ok n) by (congruence || done). cbv zeta. simpl (0 =? 0). cbv iota.
  clearbody fl1. rewrite (lfsr_reset_ok n) by (simpl; congruence || done). split_and!; [lia|lia|done|done|done|].
  cbn [fst snd]. destruct (Z.eqb_spec (seed mod 2 ^ Z.of_nat n) (2 ^ Z.of_nat n - 1)); [done|]. intros _.
  pose proof (Z.mod_pos_bound seed (2 ^ Z.of_nat n) ltac:(lia)). split_and!; simpl; try done; lia.
Qed.
End start.

(** ** Coverage *)

(** With any spin, as many turns as there are states go through every state once. *)
Lemma turns_all_states nums sp n fl :
  (3 ≤ n ≤ 32)%nat → 0 ≤ sp ≤ 15 → started nums sp n fl →
  last_val <$> trace (Z.to_nat (2 ^ Z.of_nat n - 1)) fl ≡ₚ seqZ 0 (2 ^ Z.of_nat n - 1).
Proof.
  intros Hn Hsp (Em & Eb & _ & _ & Es & Ecached & Ecyc & Hlast).
  set (Nz := 2 ^ Z.of_nat n - 1) in *. set (N := Z.to_nat Nz). set (Lz := find_cycle _ _ _ _ _) in *.
  assert (8 ≤ 2 ^ Z.of_nat n ≤ 2 ^ 32) as Hpow by (split; [apply (Z.pow_le_mono_r 2 3)|apply Z.pow_le_mono_r]; lia).
  destruct (register_ok n Hn) as (Hb & Hmask & Htop & Hret & Hfirst). fold Nz in Hret, Hfirst. fold N in Hret, Hfirst.
  assert (LFSR_NEXT fl = LFSR_NEXT (register n)) as En by (unfold LFSR_NEXT; by rewrite Em, Eb).
  unfold orbit in Hret, Hfirst. rewrite <- En in Hret, Hfirst. rewrite <- Em in Hmask, Htop. rewrite <- Eb in Hb.
  assert (Z.of_nat N = Nz) as EN by (unfold N; lia).
  destruct (orbit_onto (Z.of_nat n) fl ltac:(lia) Hb Hmask Htop N EN Hret Hfirst (last_val fl)) as (e0 & _ & He0); [lia|].
  pose proof (cycle_order Nz (sp + 1) ltac:(lia) ltac:(lia)) as Hord. replace (sp + 1 - 1) with sp in Hord by lia.
  cbv zeta in Hord. fold Lz in Hord. clearbody Lz.
  assert (0 ≤ Lz ≤ Nz) as HLz by (destruct Hord as [[-> _]|(g & d' & ? & ? & ? & E & _)]; [lia|nia]).
  set (L := Z.to_nat Lz). set (d := Z.to_nat (sp + 1)). assert (Z.of_nat L = Lz) as EL by (unfold L; lia).
  assert (Z.of_nat d = sp + 1) as Ed by (unfold d; lia).
  rewrite <- EL, <- Ed, <- EN in Hord.
  assert (L ≠ 0%nat → (d ≤ 15)%nat) as HL16.
  { intros HL. destruct (decide (d = 16%nat)) as [E16|]; [|lia]. exfalso.
    destruct Hord as [[HL0 _]|(g & d' & Hg & _ & Hd' & EN' & Ed' & _)]; [lia|].
    assert (Nz = 2 * (2 ^ (Z.of_nat n - 1) - 1) + 1) as Hodd.
    { unfold Nz. replace (2 ^ Z.of_nat n) with (2 * 2 ^ (Z.of_nat n - 1)); [lia|].
      rewrite <- Z.pow_succ_r by lia. f_equal. lia. }
    assert (g ≤ 16) by nia.
    assert (g = 2 ∨ g = 3 ∨ g = 4 ∨ g = 5 ∨ g = 6 ∨ g = 7 ∨ g = 8 ∨ 9 ≤ g) as Hg' by lia.
    destruct Hg' as [->|[->|[->|[->|[->|[->|[->|?]]]]]]]; try lia.
    assert (d' = 1) as -> by nia. assert (g = 16) as -> by lia. lia. }
  assert (∀ k, last_val (Nat.iter k lfsr_turn fl) = orbit fl (steps d L e0 k)) as Hturn.
  { assert (cycle_length fl = Z.of_nat L + 1) as Ec by (rewrite Ecyc, EL; apply wrap_small; unfold is_u; lia).
    intros k. by rewrite (turns fl d L e0 ltac:(lia) ltac:(lia) HL16 (eq_sym He0) Ec ltac:(lia)). }
  rewrite trace_iter, <- list_fmap_compose, <- EN. apply perm_of_range; [| |by rewrite length_fmap, length_seq].
  - apply NoDup_fmap_2_strong; [|apply NoDup_seq]. intros i j Hi%elem_of_seq Hj%elem_of_seq E. cbn [compose] in E.
    rewrite !Hturn in E. apply (orbit_inj (Z.of_nat n) fl ltac:(lia) Hb Hmask Htop N EN Hret Hfirst) in E.
    apply steps_inj in E; [lia|lia|lia|]. destruct Hord as [[? ?]|?]; [left; split; [lia|done]|by right].
  - intros x (k & -> & _)%list_elem_of_fmap. cbn [compose]. rewrite Hturn.
    apply (orbit_range (Z.of_nat n) fl ltac:(lia) Hb Hmask Htop N EN).
Qed.

Lemma hits_perm (l : list Z) (N nums : Z) :
  0 ≤ nums ≤ N → l ≡ₚ seqZ 0 N → filter (λ y, y ≤ nums - 1) l ≡ₚ seqZ 0 nums.
Proof.
  intros Hn Hl. apply NoDup_Permutation; [|apply NoDup_seqZ|].
  - apply NoDup_filter. rewrite Hl. apply NoDup_seqZ.
  - intros x. rewrite list_elem_of_filter, Hl, !elem_of_seqZ. lia.
Qed.

(** C25. A job whose blocks come from the register covers the file: for every size below
    2^32, every spin and every seed the set-up accepts, that many calls return each
    block number exactly once, and the next one reports the end.  Each call ends: as
    many turns as twice the size, and seven, are enough. *)
Theorem lfsr_covers nums seed sp fuel fl :
  1 ≤ nums < 2 ^ 32 → 0 ≤ sp ≤ 15 → 2 * nums + 7 ≤ Z.of_nat fuel →
  (lfsr_init nums seed sp fl).1 = 0 →
  ∃ blocks fl1 fl2, lfsr_run fuel (Z.to_nat nums) (lfsr_init nums seed sp fl).2 = Some (blocks, fl1) ∧
    blocks ≡ₚ seqZ 0 nums ∧ lfsr_next fuel fl1 = Some (None, fl2).
Proof.
  intros Hnums Hsp Hfuel Hok.
  destruct (lfsr_init_started nums seed sp Hnums Hsp fl) as (n & Hn & Hlt & Hsize & _ & Hst).
  specialize (Hst Hok). set (fl0 := (lfsr_init nums seed sp fl).2) in *. clearbody fl0.
  pose proof (turns_all_states nums sp n fl0 Hn Hsp Hst) as Hperm.
  destruct Hst as (_ & _ & Emax & Enum & _). set (m := Z.to_nat (2 ^ Z.of_nat n - 1)) in *.
  assert (hits m fl0 ≡ₚ seqZ 0 nums) as Hhits.
  { unfold hits. rewrite Emax. eapply hits_perm; [|exact Hperm]. lia. }
  assert (length (hits m fl0) = Z.to_nat nums) as Hlen by (rewrite Hhits; apply length_seqZ).
  destruct (run_hits m fuel fl0) as (fl1 & Erun & Enum1 & Emax1); [unfold m; lia|lia|lia|lia|].
  rewrite Hlen in Erun, Enum1. eexists (hits m fl0), fl1, _. split_and!; [done|done|].
  unfold lfsr_next. by rewrite (proj2 (Z.ltb_lt _ _)) by lia.
Qed.

(** Ten blocks with a spin of 2, and an empty structure. *)
Lemma lfsr_covers_witness :
  let fl := FioLfsr 0 0 0 0 0 0 0 0 in
  fst <$> lfsr_run 27 10 (lfsr_init 10 3 2 fl).2 = Some [2; 1; 4; 3; 5; 8; 6; 9; 0; 7] ∧
  ∃ blocks fl1 fl2, lfsr_run 27 (Z.to_nat 10) (lfsr_init 10 3 2 fl).2 = Some (blocks, fl1) ∧
    blocks ≡ₚ seqZ 0 10 ∧ lfsr_next 27 fl1 = Some (None, fl2).
Proof.
  split; [vm_compute; reflexivity|]. apply lfsr_covers; [lia|lia|lia|vm_compute; reflexivity].
Defined.

(** The set-up fails for one seed value in 2^n only, the state of all ones that the
    register never leaves. *)
Theorem lfsr_init_fails nums seed sp fl :
  1 ≤ nums < 2 ^ 32 → 0 ≤ sp ≤ 15 →
  ∃ n, (3 ≤ n ≤ 32)%nat ∧ nums < 2 ^ Z.of_nat n ≤ 2 * nums + 8 ∧
    (lfsr_init nums seed sp fl).1 = c_bool (seed mod 2 ^ Z.of_nat n =? 2 ^ Z.of_nat n - 1) ∧
    LFSR_NEXT (register n) (2 ^ Z.of_nat n - 1) = 2 ^ Z.of_nat n - 1.
Proof.
  intros Hnums Hsp. destruct (lfsr_init_started nums seed sp Hnums Hsp fl) as (n & Hn & Hlt & Hsize & Hr & _).
  exists n. split_and!; [lia|lia|lia|lia|done|]. destruct (register_ok n Hn) as (Hb & Hmask & Htop & _).
  rewrite Z.sub_1_r, <- Z.ones_equiv. apply step_ones; [lia|done..].
Qed.

Lemma lfsr_init_fails_witness :
  (lfsr_init 10 15 0 (register 4)).1 = 1 ∧
  ∃ n, (3 ≤ n ≤ 32)%nat ∧ 10 < 2 ^ Z.of_nat n ≤ 2 * 10 + 8 ∧
    (lfsr_init 10 15 0 (register 4)).1 = c_bool (15 mod 2 ^ Z.of_nat n =? 2 ^ Z.of_nat n - 1) ∧
    LFSR_NEXT (register n) (2 ^ Z.of_nat n - 1) = 2 ^ Z.of_nat n - 1.
Proof. split; [vm_compute; reflexivity|]. apply lfsr_init_fails; lia. Defined.
