(* ===== verification/IoBlocks.v ===== *)
(** * Which block comes next (src/fio4emu/io_u.c, filesetup.c)

    The part of fio that gives every I/O its offset and length: sequential
    positions, random blocks by generator, zones, and the map of blocks already
    done.  The state is what these functions change of a thread and of its file;
    the distributions modelled are [random], [zoned] and [zoned_abs].  A failed
    [assert] and a division by zero have no result. *)
From stdpp Require Import functions.
From S2P Require Import Prelude CInt Axmap Rand Lfsr.
#[local] Open Scope Z_scope.

(** ** Options and state *)
Inductive fio_ddir := DDIR_READ | DDIR_WRITE | DDIR_TRIM.
#[export] Instance fio_ddir_eq_dec : EqDecision fio_ddir.
Proof. solve_decision. Defined.

Inductive random_generator := FIO_RAND_GEN_TAUSWORTHE | FIO_RAND_GEN_LFSR | FIO_RAND_GEN_TAUSWORTHE64.
Inductive random_distribution := FIO_RAND_DIST_RANDOM | FIO_RAND_DIST_ZONED | FIO_RAND_DIST_ZONED_ABS.
Inductive fio_zone_mode := ZONE_MODE_NOT_SPECIFIED | ZONE_MODE_NONE | ZONE_MODE_STRIDED | ZONE_MODE_ZBD.
#[export] Instance random_generator_eq_dec : EqDecision random_generator.
Proof. solve_decision. Defined.
#[export] Instance fio_zone_mode_eq_dec : EqDecision fio_zone_mode.
Proof. solve_decision. Defined.

Definition RW_SEQ_SEQ : Z := 0.
Definition RW_SEQ_IDENT : Z := 1.

Record zone_split_index := ZoneSplit { size_perc : Z; size_perc_prev : Z; size : Z; size_prev : Z }.

(** Options of a thread, those of its [td_ddir] and file service type as booleans. *)
Record thread_options := ThreadOptions {
  td_random : bool; min_bs : fio_ddir → Z; max_bs : fio_ddir → Z; ba : fio_ddir → Z;
  bssplit : fio_ddir → list (Z * Z); bs_unaligned : bool; bs_is_seq_rand : bool;
  perc_rand : fio_ddir → Z; o_random_generator : random_generator; o_random_distribution : random_distribution;
  zone_mode : fio_zone_mode; zone_range : Z; zone_state_index : fio_ddir → list zone_split_index;
  norandommap : bool; softrandommap : bool; time_based : bool; fservice_nonuniform : bool;
  o_ddir_seq_nr : Z; ddir_seq_add : Z; rw_seq : Z; rw_min_bs : Z; block_seed : Z }.

Record fio_file := FioFile {
  file_offset : Z; real_file_size : Z; io_size : Z;
  last_pos : fio_ddir → Z; last_start : fio_ddir → Z;
  io_axmap : option axmap; (* with the flag FIO_FILE_axmap *)
  lfsr : option fio_lfsr (* with the flag FIO_FILE_lfsr *) }.
#[export] Instance eta_fio_file : Settable fio_file := λ r,
  FioFile (file_offset r) (real_file_size r) (io_size r) (last_pos r) (last_start r) (io_axmap r) (lfsr r).

Record thread_data := ThreadData {
  random_state : frand_state; zone_state : frand_state;
  seq_rand_state : fio_ddir → frand_state; bsrange_state : fio_ddir → frand_state;
  ddir_seq_nr : Z; td_file : fio_file }.
#[export] Instance eta_thread_data : Settable thread_data := λ r,
  ThreadData (random_state r) (zone_state r) (seq_rand_state r) (bsrange_state r) (ddir_seq_nr r) (td_file r).

Definition set_file (f : fio_file) (td : thread_data) : thread_data := td <| td_file := f |>.
Definition on_file {A} (m : M fio_file A) : M thread_data A := zoom td_file set_file m.
Definition the_file : M thread_data fio_file := gets td_file.

(** Run a computation on the block map, which must exist. *)
Definition on_axmap {A} (m : M axmap A) : M fio_file A := λ f,
  am ← io_axmap f; '(a, am) ← m am; Some (a, f <| io_axmap := Some am |>).

(** ** Set-up (filesetup.c) *)

(** The options [get_start_offset] reads; a percentage of 0 is an option not set. *)
Record start_options := StartOptions {
  append_file : bool; (* file_append on a regular file *)
  offset_increment_percent : Z; offset_increment : Z; start_offset_percent : Z; o_start_offset : Z;
  subjob_number : Z; start_offset_align : option Z; td_min_bs : Z }.

Definition get_start_offset (o : start_options) (f : fio_file) : option Z :=
  if append_file o then Some (real_file_size f)
  else if negb (offset_increment_percent o =? 0) && negb (offset_increment o =? 0) then None (* assert *)
  else
    let increment := if negb (offset_increment_percent o =? 0)
                     then u64 (offset_increment_percent o * real_file_size f) / 100 else offset_increment o in
    let base := if 0 <? start_offset_percent o
                then u64 (real_file_size f * start_offset_percent o) / 100 else o_start_offset o in
    let offset := u64 (base + u64 (subjob_number o * increment)) in
    if negb (offset_increment_percent o =? 0) || (0 <? start_offset_percent o) then
      let align_bs := default (td_min_bs o) (start_offset_align o) in
      if align_bs =? 0 then None
      else Some (u64 (u64 (offset / align_bs + c_bool (negb (offset mod align_bs =? 0))) * align_bs))
    else Some offset.

(** Tausworthe numbers have 32 bits: a larger file switches the generator, unless the
    option was given. *)
Definition check_rand_gen_limits (given : bool) (blocks : Z) (gen : random_generator) : random_generator :=
  if blocks <=? FRAND32_MAX then gen
  else match gen with
       | FIO_RAND_GEN_TAUSWORTHE => if given then gen else FIO_RAND_GEN_TAUSWORTHE64
       | _ => gen
       end.

(** The body of the loop of [init_random_map] for one file: the generator then in use
    and the file, or no file for a failure. *)
Definition init_file_map (alloc_ok : bool) (fresh : nat → list Z) (given : bool) (o : thread_options) (f : fio_file) :
    option (random_generator * option fio_file) :=
  let fsize := Z.min (real_file_size f) (io_size f) in
  let fsize := if decide (zone_mode o = ZONE_MODE_STRIDED) then zone_range o else fsize in
  if rw_min_bs o =? 0 then None
  else
    let blocks := fsize / rw_min_bs o in
    let gen := check_rand_gen_limits given blocks (o_random_generator o) in
    if decide (gen = FIO_RAND_GEN_LFSR) then
      let '(r, l) := lfsr_init blocks (block_seed o) 0 (default (FioLfsr 0 0 0 0 0 0 0 0) (lfsr f)) in
      Some (gen, if r =? 0 then Some (f <| lfsr := Some l |>) else None)
    else if negb (norandommap o) then
      match axmap_new alloc_ok fresh blocks with
      | Some am => Some (gen, Some (f <| io_axmap := Some am |>))
      | None => Some (gen, if softrandommap o then Some f else None)
      end
    else Some (gen, Some f).

Section options.
Context (o : thread_options).

(** The number of turns a call of [lfsr_next] gets, and [get_start_offset]. *)
Context (fuel : nat) (start_offset : Z).

Definition file_randommap (f : fio_file) : bool := negb (norandommap o) && bool_decide (is_Some (io_axmap f)).

(** ** The random map *)
Definition random_map_free (block : Z) : M fio_file bool :=
  b ← on_axmap (axmap_isset block); mret (negb b).

(** [assert(b)] *)
Definition assert {St} (b : bool) : M St unit := if b then mret () else undef.

Definition mark_random_map (ddir : fio_ddir) (busy_ok : bool) (offset buflen : Z) : M fio_file Z :=
  f ← gets id;
  _ ← assert (negb (min_bs o ddir =? 0));
  let block := u64 (offset - file_offset f) / min_bs o ddir in
  let nr_blocks := u64 (buflen + min_bs o ddir - 1) / min_bs o ddir in
  _ ← assert (0 <? nr_blocks);
  nr_blocks ← (if busy_ok then mret nr_blocks
               else n ← on_axmap (axmap_set_nr block (u32 nr_blocks)); _ ← assert (0 <? n); mret n);
  mret (if u64 (nr_blocks * min_bs o ddir) <? buflen then u64 (nr_blocks * min_bs o ddir) else buflen).

Definition last_block (f : fio_file) (ddir : fio_ddir) : option Z :=
  let max_size := io_size f in
  let max_size := if real_file_size f <? max_size then real_file_size f else max_size in
  let max_size := if bool_decide (zone_mode o = ZONE_MODE_STRIDED) && negb (zone_range o =? 0)
                  then zone_range o else max_size in
  let max_size := if ba o ddir <? min_bs o ddir then u64 (max_size - u64 (min_bs o ddir - ba o ddir)) else max_size in
  if ba o ddir =? 0 then None else Some (max_size / ba o ddir).

(** ** Random offsets: [None] is the return value 1 *)
Definition on_random {A} (m : M frand_state A) : M thread_data A :=
  zoom random_state (λ s td, td <| random_state := s |>) m.
Definition on_zone {A} (m : M frand_state A) : M thread_data A :=
  zoom zone_state (λ s td, td <| zone_state := s |>) m.

(** [lastb * (r / (rand_max + 1.0))] *)
Definition rand_block (lastb : Z) : M frand_state Z := λ fs,
  let '(r, fs') := __rand fs in Some (scaled (if use64 fs then 64 else 32) lastb r, fs').

Definition lfsr_block : M fio_file (option Z) := λ f,
  l ← lfsr f; '(r, l) ← lfsr_next fuel l; Some (r, f <| lfsr := Some l |>).

Definition __get_next_rand_offset (lastb : Z) : M thread_data (option Z) :=
  b ← (match o_random_generator o with
       | FIO_RAND_GEN_LFSR => on_file lfsr_block
       | _ => b ← on_random (rand_block lastb); mret (Some b)
       end);
  match b with
  | None => mret None
  | Some b =>
      f ← the_file;
      if negb (file_randommap f) then mret (Some b)
      else
        free ← on_file (random_map_free b);
        if free : bool then mret (Some b)
        else b ← on_file (on_axmap (axmap_next_free b));
             mret (if b =? NONE then None else Some b)
  end.

Definition __get_next_rand_offset_zoned_abs (ddir : fio_ddir) : M thread_data (option Z) :=
  f ← the_file; lastb ← try_get (λ _, last_block f ddir);
  if lastb =? 0 then mret None
  else if bool_decide (zone_state_index o ddir = []) then __get_next_rand_offset lastb
  else
    v ← on_zone (rand_between 1 100);
    zsi ← try_get (λ _, zget (zone_state_index o ddir) (v - 1));
    let stotal := size_prev zsi / ba o ddir in
    let send := size zsi / ba o ddir in
    if send =? 2 ^ 32 - 1 then __get_next_rand_offset lastb
    else if lastb <? send then mret None
    else
      b ← __get_next_rand_offset (u64 (send - stotal));
      mret (match b with None => None | Some b => Some (u64 (b + stotal)) end).

Definition __get_next_rand_offset_zoned (ddir : fio_ddir) : M thread_data (option Z) :=
  f ← the_file; lastb ← try_get (λ _, last_block f ddir);
  if lastb =? 0 then mret None
  else if bool_decide (zone_state_index o ddir = []) then __get_next_rand_offset lastb
  else
    v ← on_zone (rand_between 1 100);
    zsi ← try_get (λ _, zget (zone_state_index o ddir) (v - 1));
    let stotal := size_perc_prev zsi in
    let send := size_perc zsi in
    if send =? 2 ^ 32 - 1 then __get_next_rand_offset lastb
    else
      let offset := if negb (stotal =? 0) then u64 (stotal * lastb) / 100 else 0 in
      b ← __get_next_rand_offset (u64 (lastb * u32 (send - stotal)) / 100);
      mret (match b with None => None | Some b => Some (if negb (offset =? 0) then u64 (b + offset) else b) end).

Definition get_next_rand_offset (ddir : fio_ddir) : M thread_data (option Z) :=
  match o_random_distribution o with
  | FIO_RAND_DIST_RANDOM =>
      f ← the_file; lastb ← try_get (λ _, last_block f ddir);
      if lastb =? 0 then mret None else __get_next_rand_offset lastb
  | FIO_RAND_DIST_ZONED => __get_next_rand_offset_zoned ddir
  | FIO_RAND_DIST_ZONED_ABS => __get_next_rand_offset_zoned_abs ddir
  end.

Definition should_do_random (ddir : fio_ddir) : M thread_data bool :=
  if perc_rand o ddir =? 100 then mret true
  else
    v ← zoom (λ td, seq_rand_state td ddir)
             (λ s td, td <| seq_rand_state := <[ddir := s]> (seq_rand_state td) |>) (rand_between 1 100);
    mret (u32 v <=? perc_rand o ddir).

Definition fio_file_reset : M fio_file unit := λ f,
  let f := f <| last_pos := λ _, file_offset f |> <| last_start := λ _, NONE |> in
  match io_axmap f, lfsr f with
  | Some am, _ => Some ((), f <| io_axmap := Some (axmap_reset am) |>)
  | None, Some l => Some ((), f <| lfsr := Some (lfsr_reset (block_seed o) l).2 |>)
  | None, None => Some ((), f)
  end.

Definition get_next_rand_block (ddir : fio_ddir) : M thread_data (option Z) :=
  b ← get_next_rand_offset ddir;
  match b with
  | Some b => mret (Some b)
  | None =>
      if time_based o || fservice_nonuniform o
      then _ ← on_file fio_file_reset; get_next_rand_offset ddir
      else mret None
  end.

(** ** Sequential offsets *)
Definition seq_last_pos (ddir : fio_ddir) (f : fio_file) : fio_file :=
  if (u64 (io_size f + start_offset) <=? last_pos f ddir) && time_based o
  then f <| last_pos := <[ddir := file_offset f]> (last_pos f) |> else f.
(** Only rewind if we already hit the end. *)
Definition seq_rewind (ddir : fio_ddir) (f : fio_file) : fio_file :=
  if (last_pos f ddir =? file_offset f) && negb (file_offset f =? 0) && (ddir_seq_add o <? 0)
  then f <| last_pos := <[ddir := Z.min (real_file_size f) (io_size f)]> (last_pos f) |> else f.

Definition get_next_seq_offset (ddir : fio_ddir) : M fio_file (option Z) := λ f,
  let f := seq_last_pos ddir f in
  if last_pos f ddir <? real_file_size f then
    let f := seq_rewind ddir f in
    let pos := u64 (last_pos f ddir - file_offset f) in
    let pos :=
      if negb (pos =? 0) && negb (ddir_seq_add o =? 0) then
        let pos := u64 (pos + ddir_seq_add o) in
        if real_file_size f <=? pos then
          if 0 <? ddir_seq_add o then file_offset f
          else u64 (Z.min (real_file_size f) (io_size f) + ddir_seq_add o)
        else pos
      else pos in
    Some (Some pos, f)
  else Some (None, f).

(** ** The next block

    The result holds the offset in the file, whether it is random, and the flag
    [IO_U_F_BUSY_OK]. *)
Record io_unit := IoUnit { io_offset : Z; is_random : bool; busy_ok : bool }.

(** [offset] where it is set, else [b] blocks: the end of [get_next_block]. *)
Definition block_offset (ddir : fio_ddir) (offset b : Z) : option Z :=
  if negb (offset =? NONE) then Some offset
  else if negb (b =? NONE) then Some (u64 (b * ba o ddir)) else None.

Definition random_unit (ddir : fio_ddir) (rnd busy : bool) (b : option Z) : option io_unit :=
  b ← b; off ← block_offset ddir NONE b; Some (IoUnit off rnd busy).
Definition seq_unit (ddir : fio_ddir) (busy : bool) (offset : Z) : option io_unit :=
  off ← block_offset ddir offset NONE; Some (IoUnit off false busy).

Definition get_next_block (ddir : fio_ddir) (seq_hit : bool) : M thread_data (option io_unit) :=
  if seq_hit then
    if td_random o then
      rnd ← should_do_random ddir;
      if rnd : bool then b ← get_next_rand_block ddir; mret (random_unit ddir true false b)
      else
        offset ← on_file (get_next_seq_offset ddir);
        match offset with
        | Some offset => mret (seq_unit ddir true offset)
        | None => b ← get_next_rand_block ddir; mret (random_unit ddir false true b)
        end
    else
      offset ← on_file (get_next_seq_offset ddir);
      mret (offset ← offset; seq_unit ddir false offset)
  else if rw_seq o =? RW_SEQ_SEQ then
    offset ← on_file (get_next_seq_offset ddir);
    match offset with
    | Some offset => mret (seq_unit ddir true offset)
    | None => b ← get_next_rand_block ddir; mret (random_unit ddir false true b)
    end
  else if rw_seq o =? RW_SEQ_IDENT then
    f ← the_file;
    mret (seq_unit ddir true (if negb (last_start f ddir =? NONE)
                              then u64 (last_start f ddir - file_offset f) else 0))
  else mret None.

(** [if (td->o.ddir_seq_nr && !--td->ddir_seq_nr)] *)
Definition count_seq : M thread_data bool := λ td,
  if o_ddir_seq_nr o =? 0 then Some (false, td)
  else
    let nr := u32 (ddir_seq_nr td - 1) in
    if nr =? 0 then Some (true, td <| ddir_seq_nr := o_ddir_seq_nr o |>)
    else Some (false, td <| ddir_seq_nr := nr |>).

Definition get_next_offset (ddir : fio_ddir) : M thread_data (option io_unit) :=
  hit ← count_seq;
  u ← get_next_block ddir hit;
  f ← the_file;
  mret (u ← u;
        if io_size f <=? io_offset u then None
        else
          let offset := u64 (io_offset u + file_offset f) in
          if real_file_size f <=? offset then None
          else Some (IoUnit offset (is_random u) (busy_ok u))).

(** ** The length *)
Definition io_u_fits (f : fio_file) (offset buflen : Z) : bool :=
  u64 (offset + buflen) <=? u64 (io_size f + start_offset).

(** The first split whose share [r] falls in, and that fits; the last one otherwise. *)
Fixpoint bssplit_loop (splits : list (Z * Z)) (f : fio_file) (offset r frand_max perc buflen : Z) : Z :=
  match splits with
  | [] => buflen
  | (bs, p) :: splits' =>
      if p =? 0 then bssplit_loop splits' f offset r frand_max perc buflen
      else
        let perc := perc + p in
        if (r / perc <=? frand_max / 100) && io_u_fits f offset bs then bs
        else bssplit_loop splits' f offset r frand_max perc bs
  end.

(** A length as a multiple of [minbs], by mask or by remainder, and at most [maxbs]. *)
Definition is_power_of_2 (v : Z) : bool := negb (v =? 0) && (Z.land v (v - 1) =? 0).
Definition round_buflen (minbs maxbs buflen : Z) : Z :=
  let buflen := if bs_unaligned o then buflen
                else if is_power_of_2 minbs then Z.land buflen (u64 (Z.lnot (minbs - 1)))
                else buflen - buflen mod minbs in
  if maxbs <? buflen then maxbs else buflen.

(** The [do] loop, one random number a turn. *)
Fixpoint buflen_loop (turns : nat) (ddir : fio_ddir) (minbs maxbs offset : Z) : M thread_data Z :=
  match turns with
  | O => undef
  | S t =>
      f ← the_file;
      buflen ← zoom (λ td, bsrange_state td ddir)
                    (λ s td, td <| bsrange_state := <[ddir := s]> (bsrange_state td) |>)
                    (λ fs, let '(r, fs') := __rand fs in
                           Some (if bool_decide (bssplit o ddir = [])
                                 then u64 (minbs + scaled (if use64 fs then 64 else 32) maxbs r)
                                 else bssplit_loop (bssplit o ddir) f offset r (rand_max fs) 0 0, fs'));
      let buflen := round_buflen minbs maxbs buflen in
      if io_u_fits f offset buflen then mret buflen else buflen_loop t ddir minbs maxbs offset
  end.

Definition get_next_buflen (turns : nat) (ddir : fio_ddir) (offset : Z) (rnd : bool) : M thread_data Z :=
  let ddir := if bs_is_seq_rand o then (if rnd then DDIR_WRITE else DDIR_READ) else ddir in
  let minbs := min_bs o ddir in
  let maxbs := max_bs o ddir in
  if minbs =? maxbs then mret minbs
  else
    f ← the_file;
    if negb (io_u_fits f offset minbs) then mret 0
    else _ ← assert (bs_unaligned o || negb (minbs =? 0)); buflen_loop turns ddir minbs maxbs offset.

(** The offset and the length of a read, write or trim: the middle of [fill_io_u], for
    the zone modes without zones. *)
Definition fill_rw (turns : nat) (ddir : fio_ddir) : M thread_data (option (Z * Z)) :=
  u ← get_next_offset ddir;
  match u with
  | None => mret None
  | Some u =>
      buflen ← get_next_buflen turns ddir (io_offset u) (is_random u);
      f ← the_file;
      if buflen =? 0 then mret None
      else if real_file_size f <? u64 (io_offset u + buflen) then mret None
      else if td_random o && file_randommap f
      then buflen ← on_file (mark_random_map ddir (busy_ok u) (io_offset u) buflen);
           mret (Some (io_offset u, buflen))
      else mret (Some (io_offset u, buflen))
  end.
End options.

(** ** The random map marks what it hands out *)
Definition blocks_of (bs len : Z) : Z := (len + bs - 1) / bs.

Lemma mark_random_map_run o ddir f am X off buflen :
  let bs := min_bs o ddir in
  let k := (off - file_offset f) / bs in
  io_axmap f = Some am → is_set am X → 0 < bs → 0 ≤ file_offset f ≤ off → off < 2 ^ 63 → 0 < buflen →
  buflen + bs ≤ 2 ^ 63 → blocks_of bs buflen < 2 ^ 32 → k + blocks_of bs buflen ≤ nr_bits am → k ∉ X →
  ∃ r am', mark_random_map o ddir false off buflen f = Some (Z.min (r * bs) buflen, f <| io_axmap := Some am' |>) ∧
    1 ≤ r ∧ run_of X k (blocks_of bs buflen) r ∧ is_set am' (add_range X k r) ∧ nr_bits am' = nr_bits am.
Proof.
  intros bs k Ham Hset Hbs Hoff Hoff' Hlen Hlen' Hn Hin Hk.
  assert (0 ≤ k) as Hk0 by (apply Z.div_pos; lia).
  assert (1 ≤ blocks_of bs buflen) as Hn1 by (apply Z.div_le_lower_bound; lia).
  assert (blocks_of bs buflen * bs ≤ buflen + bs - 1) as Hnbs by (rewrite Z.mul_comm; apply Z.mul_div_le; lia).
  destruct (axmap_set_nr_spec am X k (blocks_of bs buflen)) as (am' & E & Hset' & Hsz); [done|lia|lia|lia|].
  set (r := run_len (Z.to_nat (blocks_of bs buflen)) X k) in *.
  pose proof (run_len_spec (Z.to_nat (blocks_of bs buflen)) X k) as Hr. rewrite Z2Nat.id in Hr by lia. fold r in Hr.
  assert (1 ≤ r) as Hr1.
  { destruct Hr as (? & _ & Hs). destruct (decide (r = 0)) as [E0|]; [|lia]. exfalso. apply Hk.
    rewrite E0, Z.add_0_r in Hs. specialize (Hs ltac:(lia)). by apply bool_decide_eq_true in Hs. }
  exists r, am'. split; [|done]. unfold mark_random_map. fold bs.
  replace (negb (bs =? 0)) with true by lia.
  assert (u64 (off - file_offset f) = off - file_offset f) as E1 by (apply wrap_small; unfold is_u; lia).
  assert (u64 (buflen + bs - 1) = buflen + bs - 1) as E2 by (apply wrap_small; unfold is_u; lia).
  unfold gets, assert. cbv [mbind M_bind option_bind mret M_ret id]. rewrite E1, E2.
  fold (blocks_of bs buflen). fold k. rewrite (proj2 (Z.ltb_lt 0 (blocks_of bs buflen))), u32_small by lia.
  unfold on_axmap. cbv [mbind M_bind option_bind]. rewrite Ham, E, (proj2 (Z.ltb_lt 0 r)) by lia.
  assert (u64 (r * bs) = r * bs) as ->.
  { apply wrap_small. destruct Hr as [? _]. split; [lia|]. assert (r * bs ≤ blocks_of bs buflen * bs); [|lia].
    apply Z.mul_le_mono_nonneg_r; lia. }
  destruct (Z.ltb_spec (r * bs) buflen); do 2 f_equal; lia.
Qed.

Lemma blocks_of_trim bs n r buflen :
  0 < bs → 0 < buflen → n = blocks_of bs buflen → 1 ≤ r ≤ n → blocks_of bs (Z.min (r * bs) buflen) = r.
Proof.
  intros Hbs Hlen -> Hr. unfold blocks_of in *. pose proof (Z.mul_div_le (buflen + bs - 1) bs Hbs).
  symmetry. destruct (Z.le_gt_cases (r * bs) buflen).
  - rewrite Z.min_l by done. apply (Z.div_unique _ _ r (bs - 1)); lia.
  - rewrite Z.min_r by lia. assert ((buflen + bs - 1) / bs ≤ r); [|lia].
    apply Z.lt_succ_r, Z.div_lt_upper_bound; [done|]. lia.
Qed.

(** [mark_random_map] cuts an I/O that starts at a free block down to the free blocks
    that follow, and records exactly the blocks it leaves in the I/O: none of them was
    in the map, all are now, and a shorter length means that the next one was. *)
Theorem mark_random_map_marks o ddir f am X off buflen :
  let bs := min_bs o ddir in
  let k := (off - file_offset f) / bs in
  io_axmap f = Some am → is_set am X → 0 < bs → 0 ≤ file_offset f ≤ off → off < 2 ^ 63 → 0 < buflen →
  buflen + bs ≤ 2 ^ 63 → blocks_of bs buflen < 2 ^ 32 → k + blocks_of bs buflen ≤ nr_bits am → k ∉ X →
  ∃ len am', mark_random_map o ddir false off buflen f = Some (len, f <| io_axmap := Some am' |>) ∧
    0 < len ≤ buflen ∧ (∀ q, k ≤ q < k + blocks_of bs len → q ∉ X) ∧
    is_set am' (add_range X k (blocks_of bs len)) ∧ (len = buflen ∨ k + blocks_of bs len ∈ X).
Proof.
  intros bs k Ham Hset Hbs Hoff Hoff' Hlen Hlen' Hn Hin Hk.
  pose proof (mark_random_map_run o ddir f am X off buflen) as H. cbv zeta in H. fold bs in H. fold k in H.
  destruct H as (r & am' & E & Hr1 & (Hr & Hclear & Hstop) & Hset' & _); [done..|].
  pose proof (blocks_of_trim bs _ r buflen Hbs Hlen eq_refl ltac:(lia)) as Eb.
  exists (Z.min (r * bs) buflen), am'. rewrite Eb. split_and!; [done|lia|lia| |done|].
  - intros q Hq. specialize (Hclear q Hq). by apply bool_decide_eq_false in Hclear.
  - destruct (decide (r = blocks_of bs buflen)) as [Er|Hne].
    + left. apply Z.min_r. unfold blocks_of in Er. pose proof (Z.mul_succ_div_gt (buflen + bs - 1) bs Hbs). nia.
    + right. specialize (Hstop ltac:(lia)). by apply bool_decide_eq_true in Hstop.
Qed.

(** ** A random job covers its file *)
Section job.
Context (o : thread_options) (ddir : fio_ddir) (fuel : nat) (start : Z) (turns : nat) (bs nblocks fo : Z).

(** Fixed blocks, a 32-bit Tausworthe generator and a random map. *)
Record random_job : Prop := {
  rj_random : td_random o = true; rj_dist : o_random_distribution o = FIO_RAND_DIST_RANDOM;
  rj_gen : o_random_generator o = FIO_RAND_GEN_TAUSWORTHE; rj_map : norandommap o = false;
  rj_perc : perc_rand o ddir = 100; rj_time : time_based o = false; rj_service : fservice_nonuniform o = false;
  rj_seq : o_ddir_seq_nr o = 1; rj_zone : zone_mode o ≠ ZONE_MODE_STRIDED; rj_seqrand : bs_is_seq_rand o = false;
  rj_min : min_bs o ddir = bs; rj_max : max_bs o ddir = bs; rj_ba : ba o ddir = bs;
  rj_size : 0 < bs ∧ 1 ≤ nblocks ∧ 0 ≤ fo ∧ fo + (nblocks + 1) * bs ≤ 2 ^ 63 }.

(** The state of such a job when the blocks [X] are done. *)
Definition job_at (X : gset Z) (td : thread_data) : Prop :=
  ∃ am st, random_state td = State32 st ∧ ddir_seq_nr td = 1 ∧ io_axmap (td_file td) = Some am ∧ is_set am X ∧
    nr_bits am = nblocks ∧ file_offset (td_file td) = fo ∧
    Z.min (real_file_size (td_file td)) (io_size (td_file td)) / bs = nblocks ∧
    fo + nblocks * bs ≤ real_file_size (td_file td) ∧ nblocks * bs ≤ io_size (td_file td).

Context (Ho : random_job).

Lemma on_axmap_read {A} (m : M axmap A) am a td :
  io_axmap (td_file td) = Some am → m am = Some (a, am) → on_file (on_axmap m) td = Some (a, td).
Proof.
  intros Ham E. unfold on_file, zoom, on_axmap. rewrite Ham. simpl. rewrite E. simpl.
  destruct td as [? ? ? ? ? f]. simpl in *. do 2 f_equal. unfold set_file. simpl. f_equal. destruct f. simpl in *. by rewrite Ham.
Qed.

Lemma free_read b td am X :
  io_axmap (td_file td) = Some am → is_set am X → 0 ≤ b < nr_bits am →
  on_file (random_map_free b) td = Some (bool_decide (b ∉ X), td).
Proof.
  intros Ham Hset Hb. pose proof (on_axmap_read (axmap_isset b) am _ td Ham (axmap_isset_spec am X b Hset Hb)) as E.
  unfold on_file, zoom in *. cbv [mbind M_bind option_bind] in *. unfold random_map_free. cbv [mbind M_bind option_bind].
  destruct (on_axmap (axmap_isset b) (td_file td)) as [[r f]|]; simplify_eq. unfold mret, M_ret.
  by rewrite H0, bool_decide_not.
Qed.

Definition draw (td : thread_data) : thread_data := td <| random_state := (__rand (random_state td)).2 |>.

Lemma draw_job X td : job_at X td → job_at X (draw td).
Proof.
  intros (am & st & Hst & H). exists am, (__rand32 st).2. split; [|done]. unfold draw. simpl. by rewrite Hst.
Qed.

(** A random block outside [X], if there is one. *)
Lemma rand_offset_job X td :
  job_at X td →
  ∃ r, get_next_rand_offset o fuel ddir td = Some (r, draw td) ∧
    match r with
    | Some b => 0 ≤ b < nblocks ∧ b ∉ X
    | None => ∀ q, 0 ≤ q < nblocks → q ∈ X
    end.
Proof.
  intros Hj. pose proof (draw_job X td Hj) as (am & _ & _ & _ & Ham & Hset & Hnr & _).
  destruct Hj as (am0 & st & Hst & _ & Ham0 & _ & _ & _ & Hnb & _).
  destruct Ho as [? Hd Hg Hm ? ? ? ? Hz ? Hmin ? Hba (Hbs & Hn1 & Hfo & Hmax)].
  assert (last_block o (td_file td) ddir = Some nblocks) as Hlast.
  { unfold last_block. rewrite bool_decide_false by done. cbn [andb]. rewrite Hba, Hmin, Z.ltb_irrefl.
    rewrite (proj2 (Z.eqb_neq bs 0)) by lia. rewrite <- Hnb. do 2 f_equal.
    destruct (Z.ltb_spec (real_file_size (td_file td)) (io_size (td_file td))); lia. }
  set (b := scaled 32 nblocks (__rand32 st).1).
  assert (0 ≤ b < nblocks) as Hb by (apply scaled32_range; [lia|apply rand32_range]).
  unfold get_next_rand_offset. rewrite Hd. unfold the_file, gets, try_get. cbv [mbind M_bind option_bind]. rewrite Hlast.
  rewrite (proj2 (Z.eqb_neq nblocks 0)) by lia. unfold __get_next_rand_offset. rewrite Hg.
  assert ((b ← on_random (rand_block nblocks); mret (Some b)) td = Some (Some b, draw td)) as Er.
  { unfold on_random, zoom, rand_block, draw. cbv [mbind M_bind option_bind mret M_ret]. rewrite Hst.
    unfold b. simpl. by destruct (__rand32 st). }
  rewrite (bind_run _ _ _ _ _ Er). unfold the_file at 1, gets at 1. cbv [mbind M_bind option_bind].
  unfold file_randommap. rewrite Hm, Ham, bool_decide_true by (by eexists). cbn [negb andb].
  rewrite (free_read b (draw td) am X) by (done || lia). case_bool_decide as Hfree; [by exists (Some b)|].
  rewrite (on_axmap_read _ am (next_free_ref nblocks X b)) by (done || (rewrite <- Hnr; apply axmap_next_free_spec; [done|lia])).
  unfold mret, M_ret. destruct (next_free_ref_spec nblocks X b Hb) as [[-> Hall]|[Hr Hout]].
  - exists None. done.
  - exists (Some (next_free_ref nblocks X b)). rewrite (proj2 (Z.eqb_neq _ NONE)) by (unfold NONE; lia). done.
Qed.

Lemma next_offset_job X td :
  job_at X td →
  ∃ r td', get_next_offset o fuel start ddir td = Some (r, td') ∧ job_at X td' ∧
    match r with
    | Some u => ∃ b, 0 ≤ b < nblocks ∧ (b ∉ X) ∧ u = IoUnit (fo + b * bs) true false
    | None => ∀ q, 0 ≤ q < nblocks → q ∈ X
    end.
Proof.
  intros Hj. assert (count_seq o td = Some (true, td <| ddir_seq_nr := 1 |>)) as Ec.
  { destruct Hj as (am & st & _ & Hnr & _). unfold count_seq. by rewrite (rj_seq Ho), Hnr. }
  assert (job_at X (td <| ddir_seq_nr := 1 |>)) as Hj1.
  { destruct Hj as (am & st & ? & ? & H). by exists am, st. }
  set (td1 := td <| ddir_seq_nr := 1 |>) in *. destruct (rand_offset_job X td1 Hj1) as (r & Er & Hr).
  pose proof (draw_job X td1 Hj1) as Hj2. set (td2 := draw td1) in *.
  assert (get_next_block o fuel start ddir true td1 = Some (random_unit o ddir true false r, td2)) as Eb.
  { assert (should_do_random o ddir td1 = Some (true, td1)) as E1 by (unfold should_do_random; by rewrite (rj_perc Ho)).
    assert (get_next_rand_block o fuel ddir td1 = Some (r, td2)) as E2.
    { unfold get_next_rand_block. rewrite (bind_run _ _ _ _ _ Er). destruct r; [done|].
      by rewrite (rj_time Ho), (rj_service Ho). }
    unfold get_next_block. rewrite (rj_random Ho), (bind_run _ _ _ _ _ E1). by rewrite (bind_run _ _ _ _ _ E2). }
  exists (match r with Some b => Some (IoUnit (fo + b * bs) true false) | None => None end), td2.
  split; [|split; [done|by destruct r as [b|]; [exists b; destruct Hr|]]].
  unfold get_next_offset. rewrite (bind_run _ _ _ _ _ Ec), (bind_run _ _ _ _ _ Eb).
  unfold the_file, gets. cbv [mbind M_bind option_bind mret M_ret].
  destruct r as [b|]; [|done]. destruct Hr as [Hb _]. destruct (rj_size Ho) as (Hbs & Hn1 & Hfo & Hmax).
  destruct Hj2 as (am & st & _ & _ & _ & _ & _ & Hfile & _ & Hreal & Hio). rewrite Hfile.
  assert (b * bs ≤ (nblocks - 1) * bs) as Hbb by (apply Z.mul_le_mono_nonneg_r; lia).
  assert (0 ≤ b * bs) by (apply Z.mul_nonneg_nonneg; lia).
  unfold random_unit, block_offset. cbv [mbind option_bind]. change (negb (NONE =? NONE)) with false. cbv iota.
  rewrite (proj2 (Z.eqb_neq b NONE)), (rj_ba Ho) by (unfold NONE; nia).
  assert (u64 (b * bs) = b * bs) as E1 by (apply wrap_small; unfold is_u; lia).
  assert (u64 (b * bs + fo) = b * bs + fo) as E2 by (apply wrap_small; unfold is_u; lia).
  cbn [negb io_offset is_random busy_ok]. rewrite E1, E2, !(proj2 (Z.leb_gt _ _)) by lia. do 4 f_equal. lia.
Qed.

Lemma fill_job X td :
  job_at X td →
  ∃ r td', fill_rw o fuel start turns ddir td = Some (r, td') ∧
    match r with
    | Some (off, len) => ∃ b, 0 ≤ b < nblocks ∧ (b ∉ X) ∧ off = fo + b * bs ∧ len = bs ∧ job_at ({[b]} ∪ X) td'
    | None => (∀ q, 0 ≤ q < nblocks → q ∈ X) ∧ job_at X td'
    end.
Proof.
  intros Hj. destruct (next_offset_job X td Hj) as (r & td1 & Er & Hj1 & Hr). unfold fill_rw.
  rewrite (bind_run _ _ _ _ _ Er). destruct r as [u|]; [|by exists None, td1].
  destruct Hr as (b & Hb & HbX & ->). cbn [io_offset is_random busy_ok].
  destruct (rj_size Ho) as (Hbs & Hn1 & Hfo & Hmax).
  destruct Hj1 as (am & st & Hst & Hnr & Ham & Hset & Hsz & Hfile & Hnb & Hreal & Hio).
  assert (b * bs ≤ (nblocks - 1) * bs) as Hbb by (apply Z.mul_le_mono_nonneg_r; lia).
  assert (0 ≤ b * bs) by (apply Z.mul_nonneg_nonneg; lia).
  assert (blocks_of bs bs = 1) as E1 by (symmetry; apply (Z.div_unique _ _ 1 (bs - 1)); lia).
  assert ((fo + b * bs - fo) / bs = b) as Ek by (replace (fo + b * bs - fo) with (b * bs) by lia; apply Z.div_mul; lia).
  pose proof (mark_random_map_run o ddir (td_file td1) am X (fo + b * bs) bs) as Hm. cbv zeta in Hm.
  rewrite (rj_min Ho), Hfile, Ek, E1 in Hm.
  destruct Hm as (r & am' & Em & Hr1 & (Hr & _) & Hset' & Hsz'); [done|done|lia|lia|lia|lia|lia|lia|lia|done|].
  assert (r = 1) as -> by lia.
  assert (get_next_buflen o start turns ddir (fo + b * bs) true td1 = Some (bs, td1)) as El.
  { unfold get_next_buflen. rewrite (rj_seqrand Ho), (rj_min Ho), (rj_max Ho), Z.eqb_refl. done. }
  rewrite (bind_run _ _ _ _ _ El). unfold the_file at 1, gets at 1. cbv [mbind M_bind option_bind].
  rewrite (proj2 (Z.eqb_neq bs 0)) by lia.
  assert (u64 (fo + b * bs + bs) = fo + b * bs + bs) as -> by (apply wrap_small; unfold is_u; lia).
  rewrite (proj2 (Z.ltb_ge _ _)) by lia. unfold file_randommap.
  rewrite (rj_random Ho), (rj_map Ho), Ham, bool_decide_true by (by eexists). cbn [andb negb].
  unfold on_file, zoom. rewrite Em. cbv [mbind option_bind mret M_ret].
  eexists _, _. split; [done|]. exists b. split_and!; [lia|lia|done|lia|lia|].
  exists am', st. unfold set_file. simpl. split_and!; try done; [|lia].
  replace ({[b]} ∪ X) with (add_range X b 1); [done|]. apply set_eq. intros j.
  rewrite elem_of_add_range, elem_of_union, elem_of_singleton by lia. naive_solver lia.
Qed.

(** I/Os until one fails. *)
Fixpoint fill_run (n : nat) : M thread_data (list (Z * Z)) :=
  match n with
  | O => mret []
  | S n' => r ← fill_rw o fuel start turns ddir;
            match r with
            | None => mret []
            | Some io => ios ← fill_run n'; mret (io :: ios)
            end
  end.
Definition block_io (b : Z) : Z * Z := (fo + b * bs, bs).

Lemma all_members (l : list Z) : (∀ q, 0 ≤ q < nblocks → q ∈ l) → nblocks ≤ Z.of_nat (length l).
Proof.
  intros H. assert (seqZ 0 nblocks ⊆+ l) as Hs%submseteq_length.
  { apply NoDup_submseteq; [apply NoDup_seqZ|]. intros q Hq%elem_of_seqZ. apply H. lia. }
  rewrite length_seqZ in Hs. lia.
Qed.

Lemma fill_run_job n td (l : list Z) :
  NoDup l → job_at (list_to_set l) td → Z.of_nat (length l) + Z.of_nat n = nblocks →
  ∃ bl td', fill_run n td = Some (block_io <$> bl, td') ∧ NoDup (l ++ bl) ∧ (∀ b, b ∈ bl → 0 ≤ b < nblocks) ∧
    length bl = n ∧ job_at (list_to_set (l ++ bl)) td'.
Proof.
  revert td l. induction n as [|n IH]; intros td l Hnd Hj Hn; simpl.
  - exists [], td. rewrite app_nil_r. split_and!; try done. intros b []%elem_of_nil.
  - destruct (fill_job (list_to_set l) td Hj) as (r & td1 & Er & Hr). rewrite (bind_run _ _ _ _ _ Er).
    destruct r as [[off len]|].
    + destruct Hr as (b & Hb & HbX & -> & -> & Hj1). rewrite elem_of_list_to_set in HbX.
      destruct (IH td1 (l ++ [b])) as (bl & td2 & E2 & Hnd2 & Hr2 & Hl2 & Hj2).
      * by apply NoDup_snoc.
      * replace (list_to_set (l ++ [b])) with ({[b]} ∪ list_to_set (C:=gset Z) l); [done|]. set_solver.
      * rewrite length_app. simpl. lia.
      * rewrite (bind_run _ _ _ _ _ E2). exists (b :: bl), td2. rewrite <- app_assoc in Hnd2, Hj2.
        split_and!; [done|done| |simpl; lia|done]. intros q [->|Hq]%elem_of_cons; [done|by apply Hr2].
    + destruct Hr as [Hall _]. exfalso. assert (nblocks ≤ Z.of_nat (length l)); [|lia].
      apply all_members. intros q Hq. specialize (Hall q Hq). by rewrite elem_of_list_to_set in Hall.
Qed.

(** The map that [init_random_map] makes, before the first I/O. *)
Lemma init_job fresh given f g td st :
  init_file_map true fresh given o f = Some (g, Some (td_file td)) →
  rw_min_bs o = bs → Z.min (real_file_size f) (io_size f) / bs = nblocks → file_offset f = fo →
  fo + nblocks * bs ≤ real_file_size f → random_state td = State32 st → ddir_seq_nr td = 1 →
  nblocks ≤ FRAND32_MAX → job_at ∅ td.
Proof.
  intros Hi Hrw Hnb Hfo Hreal Hst Hnr Hmax. destruct (rj_size Ho) as (Hbs & Hn1 & _).
  unfold init_file_map in Hi. rewrite Hrw, (proj2 (Z.eqb_neq bs 0)) in Hi by lia.
  rewrite (decide_False (P := zone_mode o = ZONE_MODE_STRIDED)) in Hi by apply (rj_zone Ho). rewrite Hnb in Hi.
  unfold check_rand_gen_limits in Hi. rewrite (proj2 (Z.leb_le _ _)) in Hi by done.
  rewrite decide_False in Hi by (by rewrite (rj_gen Ho)). rewrite (rj_map Ho) in Hi. cbn [negb] in Hi.
  destruct (axmap_new_spec fresh nblocks) as (am & Ea & Hset & Hsz); [unfold FRAND32_MAX in Hmax; lia|].
  rewrite Ea in Hi. injection Hi as _ Hf. exists am, st. rewrite <- Hf. simpl.
  pose proof (Z.mul_div_le (Z.min (real_file_size f) (io_size f)) bs Hbs). split_and!; try done; lia.
Qed.
End job.

(** C23. A random job covers its file: with fixed blocks, a random map and the default
    generator, from whatever seed, the first I/Os after the set-up are one for each block
    of the file, each at its offset and of full length, and the next one fails. *)
Theorem random_job_covers o ddir fuel start turns bs nblocks fo fresh given f g td st :
  random_job o ddir bs nblocks fo →
  init_file_map true fresh given o f = Some (g, Some (td_file td)) →
  rw_min_bs o = bs → Z.min (real_file_size f) (io_size f) / bs = nblocks → file_offset f = fo →
  fo + nblocks * bs ≤ real_file_size f → random_state td = State32 st → ddir_seq_nr td = 1 →
  nblocks ≤ FRAND32_MAX →
  ∃ ios td1 td2, fill_run o ddir fuel start turns (Z.to_nat nblocks) td = Some (ios, td1) ∧
    ios ≡ₚ (λ b, (fo + b * bs, bs)) <$> seqZ 0 nblocks ∧
    fill_rw o fuel start turns ddir td1 = Some (None, td2).
Proof.
  intros Ho Hi Hrw Hnb Hfo Hreal Hst Hnr Hmax. destruct (rj_size _ _ _ _ _ Ho) as (Hbs & Hn1 & _).
  pose proof (init_job _ _ _ _ _ Ho fresh given f g td st Hi Hrw Hnb Hfo Hreal Hst Hnr Hmax) as Hj.
  destruct (fill_run_job o ddir fuel start turns bs nblocks fo Ho (Z.to_nat nblocks) td [])
    as (bl & td1 & E & Hnd & Hr & Hl & Hj1); [apply NoDup_nil_2|done|simpl; lia|]. simpl in Hnd, Hj1.
  assert (bl ≡ₚ seqZ 0 nblocks) as Hp.
  { rewrite <- (Z2Nat.id nblocks) by lia. apply perm_of_range; [done| |done]. intros b Hb. specialize (Hr b Hb). lia. }
  destruct (fill_job o ddir fuel start turns bs nblocks fo Ho _ td1 Hj1) as (r & td2 & Er & Hr2).
  exists (block_io bs fo <$> bl), td1, td2. split_and!; [done|by rewrite Hp|].
  destruct r as [[off len]|]; [|done]. exfalso. destruct Hr2 as (b & Hb & HbX & _).
  apply HbX, elem_of_list_to_set. rewrite Hp. apply elem_of_seqZ. lia.
Qed.

(** ** Instances *)

(** Random writes of 4 KiB over ten blocks of a file, and its thread, seeded with 1. *)
Definition demo_options (gen : random_generator) (blocks : Z) : thread_options := {|
  td_random := true; min_bs := λ _, 4096; max_bs := λ _, 4096; ba := λ _, 4096; bssplit := λ _, [];
  bs_unaligned := false; bs_is_seq_rand := false; perc_rand := λ _, 100; o_random_generator := gen;
  o_random_distribution := FIO_RAND_DIST_RANDOM; zone_mode := ZONE_MODE_NONE; zone_range := 0;
  zone_state_index := λ _, []; norandommap := false; softrandommap := false; time_based := false;
  fservice_nonuniform := false; o_ddir_seq_nr := 1; ddir_seq_add := 0; rw_seq := RW_SEQ_SEQ; rw_min_bs := 4096;
  block_seed := 1 |}.
Definition demo_file (blocks : Z) : fio_file := FioFile 0 (blocks * 4096) (blocks * 4096) (λ _, 0) (λ _, NONE) None None.
Definition demo_thread (rs : frand_state) (f : fio_file) : thread_data :=
  ThreadData rs (init_rand false) (λ _, init_rand false) (λ _, init_rand false) 1 f.
Definition demo_set_up (gen : random_generator) (rs : frand_state) (blocks : Z) : option thread_data :=
  '(_, f) ← init_file_map true (λ n, repeat 0 n) true (demo_options gen blocks) (demo_file blocks);
  f ← f; Some (demo_thread rs f).

Lemma random_job_covers_witness :
  let o := demo_options FIO_RAND_GEN_TAUSWORTHE 10 in
  ∃ td, demo_set_up FIO_RAND_GEN_TAUSWORTHE (init_rand false) 10 = Some td ∧
    fst <$> fill_run o DDIR_WRITE 0 0 0 10 td =
      Some ((λ b, (b * 4096, 4096)) <$> [6; 9; 5; 8; 0; 7; 1; 3; 2; 4]) ∧
    ∃ ios td1 td2, fill_run o DDIR_WRITE 0 0 0 (Z.to_nat 10) td = Some (ios, td1) ∧
      ios ≡ₚ (λ b, (0 + b * 4096, 4096)) <$> seqZ 0 10 ∧ fill_rw o 0 0 0 DDIR_WRITE td1 = Some (None, td2).
Proof.
  intros o. eexists. split; [vm_compute; reflexivity|]. split; [vm_compute; reflexivity|].
  eapply (random_job_covers o DDIR_WRITE 0 0 0 4096 10 0 (λ n, repeat 0 n) true (demo_file 10) _ _ (__init_rand32 1));
    try (vm_compute; reflexivity).
  - constructor; try (vm_compute; reflexivity); [discriminate|lia].
  - simpl. lia.
  - unfold FRAND32_MAX. lia.
Defined.

Lemma mark_random_map_marks_witness :
  ∃ am, axmap_new true (λ n, repeat 0 n) 10 = Some am ∧
  let f := (demo_file 10) <| io_axmap := Some am |> in
  let o := demo_options FIO_RAND_GEN_TAUSWORTHE 10 in
  ∃ len am', mark_random_map o DDIR_WRITE false 8192 10000 f = Some (len, f <| io_axmap := Some am' |>) ∧
    0 < len ≤ 10000 ∧ (∀ q, 2 ≤ q < 2 + blocks_of 4096 len → q ∉ (∅ : gset Z)) ∧
    is_set am' (add_range ∅ 2 (blocks_of 4096 len)) ∧ (len = 10000 ∨ 2 + blocks_of 4096 len ∈ (∅ : gset Z)).
Proof.
  destruct (axmap_new_spec (λ n, repeat 0 n) 10) as (am & E & Hset & Hsz); [lia|]. exists am. split; [done|]. intros f o.
  pose proof (mark_random_map_marks o DDIR_WRITE f am ∅ 8192 10000) as H. cbv zeta in H.
  change (min_bs o DDIR_WRITE) with 4096 in H. change (file_offset f) with 0 in H. change ((8192 - 0) / 4096) with 2 in H.
  apply H; [reflexivity|exact Hset|lia..| | |set_solver]; [by vm_compute|]. rewrite Hsz. by vm_compute.
Defined.

(** With the 64-bit generator a number can round up to the number of blocks: the block
    is outside the file, and here the test of the map reads past its end. *)
Lemma rand64_overrun :
  let st := State64 (Taus258 2692308152237388606 1048576 1073741824 1099511627776 1125899906842624) in
  fst <$> rand_block 64 st = Some 64 ∧
  (td ← demo_set_up FIO_RAND_GEN_TAUSWORTHE64 st 64;
   get_next_rand_offset (demo_options FIO_RAND_GEN_TAUSWORTHE64 64) 0 DDIR_WRITE td) = None.
Proof. split; vm_compute; reflexivity. Qed.
