(* ===== verification/Crc.v ===== *)
(** * Cyclic checksums (src/fio4emu/crc)

    The checksums of crc7.c, crc16.c, crc32.c, crc32c.c and crc64.c, with their
    tables.  A buffer is a list of bytes.  The reference takes one bit at a time:
    the register of a division by the polynomial over GF(2). *)
From S2P Require Import Prelude CInt.
#[local] Open Scope Z_scope.

(** ** The code *)

(** A read of a table of 256 entries; the index is masked to a byte, except in
    [crc7_byte]. *)
Definition tab (table : list Z) (i : Z) : Z := table !!! Z.to_nat i.

(** Polynomial x^7 + x^3 + 1. *)
Definition crc7_syndrome_table : list Z := [
  0x00; 0x09; 0x12; 0x1b; 0x24; 0x2d; 0x36; 0x3f; 0x48; 0x41; 0x5a; 0x53; 0x6c; 0x65; 0x7e; 0x77; 0x19; 0x10;
  0x0b; 0x02; 0x3d; 0x34; 0x2f; 0x26; 0x51; 0x58; 0x43; 0x4a; 0x75; 0x7c; 0x67; 0x6e; 0x32; 0x3b; 0x20; 0x29;
  0x16; 0x1f; 0x04; 0x0d; 0x7a; 0x73; 0x68; 0x61; 0x5e; 0x57; 0x4c; 0x45; 0x2b; 0x22; 0x39; 0x30; 0x0f; 0x06;
  0x1d; 0x14; 0x63; 0x6a; 0x71; 0x78; 0x47; 0x4e; 0x55; 0x5c; 0x64; 0x6d; 0x76; 0x7f; 0x40; 0x49; 0x52; 0x5b;
  0x2c; 0x25; 0x3e; 0x37; 0x08; 0x01; 0x1a; 0x13; 0x7d; 0x74; 0x6f; 0x66; 0x59; 0x50; 0x4b; 0x42; 0x35; 0x3c;
  0x27; 0x2e; 0x11; 0x18; 0x03; 0x0a; 0x56; 0x5f; 0x44; 0x4d; 0x72; 0x7b; 0x60; 0x69; 0x1e; 0x17; 0x0c; 0x05;
  0x3a; 0x33; 0x28; 0x21; 0x4f; 0x46; 0x5d; 0x54; 0x6b; 0x62; 0x79; 0x70; 0x07; 0x0e; 0x15; 0x1c; 0x23; 0x2a;
  0x31; 0x38; 0x41; 0x48; 0x53; 0x5a; 0x65; 0x6c; 0x77; 0x7e; 0x09; 0x00; 0x1b; 0x12; 0x2d; 0x24; 0x3f; 0x36;
  0x58; 0x51; 0x4a; 0x43; 0x7c; 0x75; 0x6e; 0x67; 0x10; 0x19; 0x02; 0x0b; 0x34; 0x3d; 0x26; 0x2f; 0x73; 0x7a;
  0x61; 0x68; 0x57; 0x5e; 0x45; 0x4c; 0x3b; 0x32; 0x29; 0x20; 0x1f; 0x16; 0x0d; 0x04; 0x6a; 0x63; 0x78; 0x71;
  0x4e; 0x47; 0x5c; 0x55; 0x22; 0x2b; 0x30; 0x39; 0x06; 0x0f; 0x14; 0x1d; 0x25; 0x2c; 0x37; 0x3e; 0x01; 0x08;
  0x13; 0x1a; 0x6d; 0x64; 0x7f; 0x76; 0x49; 0x40; 0x5b; 0x52; 0x3c; 0x35; 0x2e; 0x27; 0x18; 0x11; 0x0a; 0x03;
  0x74; 0x7d; 0x66; 0x6f; 0x50; 0x59; 0x42; 0x4b; 0x17; 0x1e; 0x05; 0x0c; 0x33; 0x3a; 0x21; 0x28; 0x5f; 0x56;
  0x4d; 0x44; 0x7b; 0x72; 0x69; 0x60; 0x0e; 0x07; 0x1c; 0x15; 0x2a; 0x23; 0x38; 0x31; 0x46; 0x4f; 0x54; 0x5d;
  0x62; 0x6b; 0x70; 0x79].

Definition crc7_byte (crc data : Z) : option Z := zget crc7_syndrome_table (Z.lxor (Z.shiftl crc 1) data).
Definition fio_crc7 (buffer : list Z) : option Z :=
  foldl (λ crc data, crc ← crc; crc7_byte crc data) (Some 0) buffer.

Definition crc16_table : list Z := [
  0x0000; 0xC0C1; 0xC181; 0x0140; 0xC301; 0x03C0; 0x0280; 0xC241; 0xC601; 0x06C0; 0x0780; 0xC741; 0x0500;
  0xC5C1; 0xC481; 0x0440; 0xCC01; 0x0CC0; 0x0D80; 0xCD41; 0x0F00; 0xCFC1; 0xCE81; 0x0E40; 0x0A00; 0xCAC1;
  0xCB81; 0x0B40; 0xC901; 0x09C0; 0x0880; 0xC841; 0xD801; 0x18C0; 0x1980; 0xD941; 0x1B00; 0xDBC1; 0xDA81;
  0x1A40; 0x1E00; 0xDEC1; 0xDF81; 0x1F40; 0xDD01; 0x1DC0; 0x1C80; 0xDC41; 0x1400; 0xD4C1; 0xD581; 0x1540;
  0xD701; 0x17C0; 0x1680; 0xD641; 0xD201; 0x12C0; 0x1380; 0xD341; 0x1100; 0xD1C1; 0xD081; 0x1040; 0xF001;
  0x30C0; 0x3180; 0xF141; 0x3300; 0xF3C1; 0xF281; 0x3240; 0x3600; 0xF6C1; 0xF781; 0x3740; 0xF501; 0x35C0;
  0x3480; 0xF441; 0x3C00; 0xFCC1; 0xFD81; 0x3D40; 0xFF01; 0x3FC0; 0x3E80; 0xFE41; 0xFA01; 0x3AC0; 0x3B80;
  0xFB41; 0x3900; 0xF9C1; 0xF881; 0x3840; 0x2800; 0xE8C1; 0xE981; 0x2940; 0xEB01; 0x2BC0; 0x2A80; 0xEA41;
  0xEE01; 0x2EC0; 0x2F80; 0xEF41; 0x2D00; 0xEDC1; 0xEC81; 0x2C40; 0xE401; 0x24C0; 0x2580; 0xE541; 0x2700;
  0xE7C1; 0xE681; 0x2640; 0x2200; 0xE2C1; 0xE381; 0x2340; 0xE101; 0x21C0; 0x2080; 0xE041; 0xA001; 0x60C0;
  0x6180; 0xA141; 0x6300; 0xA3C1; 0xA281; 0x6240; 0x6600; 0xA6C1; 0xA781; 0x6740; 0xA501; 0x65C0; 0x6480;
  0xA441; 0x6C00; 0xACC1; 0xAD81; 0x6D40; 0xAF01; 0x6FC0; 0x6E80; 0xAE41; 0xAA01; 0x6AC0; 0x6B80; 0xAB41;
  0x6900; 0xA9C1; 0xA881; 0x6840; 0x7800; 0xB8C1; 0xB981; 0x7940; 0xBB01; 0x7BC0; 0x7A80; 0xBA41; 0xBE01;
  0x7EC0; 0x7F80; 0xBF41; 0x7D00; 0xBDC1; 0xBC81; 0x7C40; 0xB401; 0x74C0; 0x7580; 0xB541; 0x7700; 0xB7C1;
  0xB681; 0x7640; 0x7200; 0xB2C1; 0xB381; 0x7340; 0xB101; 0x71C0; 0x7080; 0xB041; 0x5000; 0x90C1; 0x9181;
  0x5140; 0x9301; 0x53C0; 0x5280; 0x9241; 0x9601; 0x56C0; 0x5780; 0x9741; 0x5500; 0x95C1; 0x9481; 0x5440;
  0x9C01; 0x5CC0; 0x5D80; 0x9D41; 0x5F00; 0x9FC1; 0x9E81; 0x5E40; 0x5A00; 0x9AC1; 0x9B81; 0x5B40; 0x9901;
  0x59C0; 0x5880; 0x9841; 0x8801; 0x48C0; 0x4980; 0x8941; 0x4B00; 0x8BC1; 0x8A81; 0x4A40; 0x4E00; 0x8EC1;
  0x8F81; 0x4F40; 0x8D01; 0x4DC0; 0x4C80; 0x8C41; 0x4400; 0x84C1; 0x8581; 0x4540; 0x8701; 0x47C0; 0x4680;
  0x8641; 0x8201; 0x42C0; 0x4380; 0x8341; 0x4100; 0x81C1; 0x8081; 0x4040].

Definition crc16_byte (crc data : Z) : Z := Z.lxor (Z.shiftr crc 8) (tab crc16_table (Z.land (Z.lxor crc data) 0xff)).
Definition fio_crc16 (buffer : list Z) : Z := foldl crc16_byte 0 buffer.

Definition crctab : list Z := [
  0x0; 0x04C11DB7; 0x09823B6E; 0x0D4326D9; 0x130476DC; 0x17C56B6B; 0x1A864DB2; 0x1E475005; 0x2608EDB8;
  0x22C9F00F; 0x2F8AD6D6; 0x2B4BCB61; 0x350C9B64; 0x31CD86D3; 0x3C8EA00A; 0x384FBDBD; 0x4C11DB70; 0x48D0C6C7;
  0x4593E01E; 0x4152FDA9; 0x5F15ADAC; 0x5BD4B01B; 0x569796C2; 0x52568B75; 0x6A1936C8; 0x6ED82B7F; 0x639B0DA6;
  0x675A1011; 0x791D4014; 0x7DDC5DA3; 0x709F7B7A; 0x745E66CD; 0x9823B6E0; 0x9CE2AB57; 0x91A18D8E; 0x95609039;
  0x8B27C03C; 0x8FE6DD8B; 0x82A5FB52; 0x8664E6E5; 0xBE2B5B58; 0xBAEA46EF; 0xB7A96036; 0xB3687D81; 0xAD2F2D84;
  0xA9EE3033; 0xA4AD16EA; 0xA06C0B5D; 0xD4326D90; 0xD0F37027; 0xDDB056FE; 0xD9714B49; 0xC7361B4C; 0xC3F706FB;
  0xCEB42022; 0xCA753D95; 0xF23A8028; 0xF6FB9D9F; 0xFBB8BB46; 0xFF79A6F1; 0xE13EF6F4; 0xE5FFEB43; 0xE8BCCD9A;
  0xEC7DD02D; 0x34867077; 0x30476DC0; 0x3D044B19; 0x39C556AE; 0x278206AB; 0x23431B1C; 0x2E003DC5; 0x2AC12072;
  0x128E9DCF; 0x164F8078; 0x1B0CA6A1; 0x1FCDBB16; 0x018AEB13; 0x054BF6A4; 0x0808D07D; 0x0CC9CDCA; 0x7897AB07;
  0x7C56B6B0; 0x71159069; 0x75D48DDE; 0x6B93DDDB; 0x6F52C06C; 0x6211E6B5; 0x66D0FB02; 0x5E9F46BF; 0x5A5E5B08;
  0x571D7DD1; 0x53DC6066; 0x4D9B3063; 0x495A2DD4; 0x44190B0D; 0x40D816BA; 0xACA5C697; 0xA864DB20; 0xA527FDF9;
  0xA1E6E04E; 0xBFA1B04B; 0xBB60ADFC; 0xB6238B25; 0xB2E29692; 0x8AAD2B2F; 0x8E6C3698; 0x832F1041; 0x87EE0DF6;
  0x99A95DF3; 0x9D684044; 0x902B669D; 0x94EA7B2A; 0xE0B41DE7; 0xE4750050; 0xE9362689; 0xEDF73B3E; 0xF3B06B3B;
  0xF771768C; 0xFA325055; 0xFEF34DE2; 0xC6BCF05F; 0xC27DEDE8; 0xCF3ECB31; 0xCBFFD686; 0xD5B88683; 0xD1799B34;
  0xDC3ABDED; 0xD8FBA05A; 0x690CE0EE; 0x6DCDFD59; 0x608EDB80; 0x644FC637; 0x7A089632; 0x7EC98B85; 0x738AAD5C;
  0x774BB0EB; 0x4F040D56; 0x4BC510E1; 0x46863638; 0x42472B8F; 0x5C007B8A; 0x58C1663D; 0x558240E4; 0x51435D53;
  0x251D3B9E; 0x21DC2629; 0x2C9F00F0; 0x285E1D47; 0x36194D42; 0x32D850F5; 0x3F9B762C; 0x3B5A6B9B; 0x0315D626;
  0x07D4CB91; 0x0A97ED48; 0x0E56F0FF; 0x1011A0FA; 0x14D0BD4D; 0x19939B94; 0x1D528623; 0xF12F560E; 0xF5EE4BB9;
  0xF8AD6D60; 0xFC6C70D7; 0xE22B20D2; 0xE6EA3D65; 0xEBA91BBC; 0xEF68060B; 0xD727BBB6; 0xD3E6A601; 0xDEA580D8;
  0xDA649D6F; 0xC423CD6A; 0xC0E2D0DD; 0xCDA1F604; 0xC960EBB3; 0xBD3E8D7E; 0xB9FF90C9; 0xB4BCB610; 0xB07DABA7;
  0xAE3AFBA2; 0xAAFBE615; 0xA7B8C0CC; 0xA379DD7B; 0x9B3660C6; 0x9FF77D71; 0x92B45BA8; 0x9675461F; 0x8832161A;
  0x8CF30BAD; 0x81B02D74; 0x857130C3; 0x5D8A9099; 0x594B8D2E; 0x5408ABF7; 0x50C9B640; 0x4E8EE645; 0x4A4FFBF2;
  0x470CDD2B; 0x43CDC09C; 0x7B827D21; 0x7F436096; 0x7200464F; 0x76C15BF8; 0x68860BFD; 0x6C47164A; 0x61043093;
  0x65C52D24; 0x119B4BE9; 0x155A565E; 0x18197087; 0x1CD86D30; 0x029F3D35; 0x065E2082; 0x0B1D065B; 0x0FDC1BEC;
  0x3793A651; 0x3352BBE6; 0x3E119D3F; 0x3AD08088; 0x2497D08D; 0x2056CD3A; 0x2D15EBE3; 0x29D4F654; 0xC5A92679;
  0xC1683BCE; 0xCC2B1D17; 0xC8EA00A0; 0xD6AD50A5; 0xD26C4D12; 0xDF2F6BCB; 0xDBEE767C; 0xE3A1CBC1; 0xE760D676;
  0xEA23F0AF; 0xEEE2ED18; 0xF0A5BD1D; 0xF464A0AA; 0xF9278673; 0xFDE69BC4; 0x89B8FD09; 0x8D79E0BE; 0x803AC667;
  0x84FBDBD0; 0x9ABC8BD5; 0x9E7D9662; 0x933EB0BB; 0x97FFAD0C; 0xAFB010B1; 0xAB710D06; 0xA6322BDF; 0xA2F33668;
  0xBCB4666D; 0xB8757BDA; 0xB5365D03; 0xB1F740B4].

Definition crc32_byte (crc data : Z) : Z :=
  Z.lxor (u32 (Z.shiftl crc 8)) (tab crctab (Z.land (Z.lxor (Z.shiftr crc 24) data) 0xff)).
Definition fio_crc32 (buffer : list Z) : Z := foldl crc32_byte 0 buffer.

Definition crc32c_table : list Z := [
  0x00000000; 0xF26B8303; 0xE13B70F7; 0x1350F3F4; 0xC79A971F; 0x35F1141C; 0x26A1E7E8; 0xD4CA64EB; 0x8AD958CF;
  0x78B2DBCC; 0x6BE22838; 0x9989AB3B; 0x4D43CFD0; 0xBF284CD3; 0xAC78BF27; 0x5E133C24; 0x105EC76F; 0xE235446C;
  0xF165B798; 0x030E349B; 0xD7C45070; 0x25AFD373; 0x36FF2087; 0xC494A384; 0x9A879FA0; 0x68EC1CA3; 0x7BBCEF57;
  0x89D76C54; 0x5D1D08BF; 0xAF768BBC; 0xBC267848; 0x4E4DFB4B; 0x20BD8EDE; 0xD2D60DDD; 0xC186FE29; 0x33ED7D2A;
  0xE72719C1; 0x154C9AC2; 0x061C6936; 0xF477EA35; 0xAA64D611; 0x580F5512; 0x4B5FA6E6; 0xB93425E5; 0x6DFE410E;
  0x9F95C20D; 0x8CC531F9; 0x7EAEB2FA; 0x30E349B1; 0xC288CAB2; 0xD1D83946; 0x23B3BA45; 0xF779DEAE; 0x05125DAD;
  0x1642AE59; 0xE4292D5A; 0xBA3A117E; 0x4851927D; 0x5B016189; 0xA96AE28A; 0x7DA08661; 0x8FCB0562; 0x9C9BF696;
  0x6EF07595; 0x417B1DBC; 0xB3109EBF; 0xA0406D4B; 0x522BEE48; 0x86E18AA3; 0x748A09A0; 0x67DAFA54; 0x95B17957;
  0xCBA24573; 0x39C9C670; 0x2A993584; 0xD8F2B687; 0x0C38D26C; 0xFE53516F; 0xED03A29B; 0x1F682198; 0x5125DAD3;
  0xA34E59D0; 0xB01EAA24; 0x42752927; 0x96BF4DCC; 0x64D4CECF; 0x77843D3B; 0x85EFBE38; 0xDBFC821C; 0x2997011F;
  0x3AC7F2EB; 0xC8AC71E8; 0x1C661503; 0xEE0D9600; 0xFD5D65F4; 0x0F36E6F7; 0x61C69362; 0x93AD1061; 0x80FDE395;
  0x72966096; 0xA65C047D; 0x5437877E; 0x4767748A; 0xB50CF789; 0xEB1FCBAD; 0x197448AE; 0x0A24BB5A; 0xF84F3859;
  0x2C855CB2; 0xDEEEDFB1; 0xCDBE2C45; 0x3FD5AF46; 0x7198540D; 0x83F3D70E; 0x90A324FA; 0x62C8A7F9; 0xB602C312;
  0x44694011; 0x5739B3E5; 0xA55230E6; 0xFB410CC2; 0x092A8FC1; 0x1A7A7C35; 0xE811FF36; 0x3CDB9BDD; 0xCEB018DE;
  0xDDE0EB2A; 0x2F8B6829; 0x82F63B78; 0x709DB87B; 0x63CD4B8F; 0x91A6C88C; 0x456CAC67; 0xB7072F64; 0xA457DC90;
  0x563C5F93; 0x082F63B7; 0xFA44E0B4; 0xE9141340; 0x1B7F9043; 0xCFB5F4A8; 0x3DDE77AB; 0x2E8E845F; 0xDCE5075C;
  0x92A8FC17; 0x60C37F14; 0x73938CE0; 0x81F80FE3; 0x55326B08; 0xA759E80B; 0xB4091BFF; 0x466298FC; 0x1871A4D8;
  0xEA1A27DB; 0xF94AD42F; 0x0B21572C; 0xDFEB33C7; 0x2D80B0C4; 0x3ED04330; 0xCCBBC033; 0xA24BB5A6; 0x502036A5;
  0x4370C551; 0xB11B4652; 0x65D122B9; 0x97BAA1BA; 0x84EA524E; 0x7681D14D; 0x2892ED69; 0xDAF96E6A; 0xC9A99D9E;
  0x3BC21E9D; 0xEF087A76; 0x1D63F975; 0x0E330A81; 0xFC588982; 0xB21572C9; 0x407EF1CA; 0x532E023E; 0xA145813D;
  0x758FE5D6; 0x87E466D5; 0x94B49521; 0x66DF1622; 0x38CC2A06; 0xCAA7A905; 0xD9F75AF1; 0x2B9CD9F2; 0xFF56BD19;
  0x0D3D3E1A; 0x1E6DCDEE; 0xEC064EED; 0xC38D26C4; 0x31E6A5C7; 0x22B65633; 0xD0DDD530; 0x0417B1DB; 0xF67C32D8;
  0xE52CC12C; 0x1747422F; 0x49547E0B; 0xBB3FFD08; 0xA86F0EFC; 0x5A048DFF; 0x8ECEE914; 0x7CA56A17; 0x6FF599E3;
  0x9D9E1AE0; 0xD3D3E1AB; 0x21B862A8; 0x32E8915C; 0xC083125F; 0x144976B4; 0xE622F5B7; 0xF5720643; 0x07198540;
  0x590AB964; 0xAB613A67; 0xB831C993; 0x4A5A4A90; 0x9E902E7B; 0x6CFBAD78; 0x7FAB5E8C; 0x8DC0DD8F; 0xE330A81A;
  0x115B2B19; 0x020BD8ED; 0xF0605BEE; 0x24AA3F05; 0xD6C1BC06; 0xC5914FF2; 0x37FACCF1; 0x69E9F0D5; 0x9B8273D6;
  0x88D28022; 0x7AB90321; 0xAE7367CA; 0x5C18E4C9; 0x4F48173D; 0xBD23943E; 0xF36E6F75; 0x0105EC76; 0x12551F82;
  0xE03E9C81; 0x34F4F86A; 0xC69F7B69; 0xD5CF889D; 0x27A40B9E; 0x79B737BA; 0x8BDCB4B9; 0x988C474D; 0x6AE7C44E;
  0xBE2DA0A5; 0x4C4623A6; 0x5F16D052; 0xAD7D5351].

Definition crc32c_byte (crc data : Z) : Z := Z.lxor (tab crc32c_table (Z.land (Z.lxor crc data) 0xff)) (Z.shiftr crc 8).
Definition crc32c_sw (data : list Z) : Z := foldl crc32c_byte (u32 (Z.lnot 0)) data.

Definition crctab64 : list Z := [
  0x0000000000000000; 0x7ad870c830358979; 0xf5b0e190606b12f2; 0x8f689158505e9b8b; 0xc038e5739841b68f;
  0xbae095bba8743ff6; 0x358804e3f82aa47d; 0x4f50742bc81f2d04; 0xab28ecb46814fe75; 0xd1f09c7c5821770c;
  0x5e980d24087fec87; 0x24407dec384a65fe; 0x6b1009c7f05548fa; 0x11c8790fc060c183; 0x9ea0e857903e5a08;
  0xe478989fa00bd371; 0x7d08ff3b88be6f81; 0x07d08ff3b88be6f8; 0x88b81eabe8d57d73; 0xf2606e63d8e0f40a;
  0xbd301a4810ffd90e; 0xc7e86a8020ca5077; 0x4880fbd87094cbfc; 0x32588b1040a14285; 0xd620138fe0aa91f4;
  0xacf86347d09f188d; 0x2390f21f80c18306; 0x594882d7b0f40a7f; 0x1618f6fc78eb277b; 0x6cc0863448deae02;
  0xe3a8176c18803589; 0x997067a428b5bcf0; 0xfa11fe77117cdf02; 0x80c98ebf2149567b; 0x0fa11fe77117cdf0;
  0x75796f2f41224489; 0x3a291b04893d698d; 0x40f16bccb908e0f4; 0xcf99fa94e9567b7f; 0xb5418a5cd963f206;
  0x513912c379682177; 0x2be1620b495da80e; 0xa489f35319033385; 0xde51839b2936bafc; 0x9101f7b0e12997f8;
  0xebd98778d11c1e81; 0x64b116208142850a; 0x1e6966e8b1770c73; 0x8719014c99c2b083; 0xfdc17184a9f739fa;
  0x72a9e0dcf9a9a271; 0x08719014c99c2b08; 0x4721e43f0183060c; 0x3df994f731b68f75; 0xb29105af61e814fe;
  0xc849756751dd9d87; 0x2c31edf8f1d64ef6; 0x56e99d30c1e3c78f; 0xd9810c6891bd5c04; 0xa3597ca0a188d57d;
  0xec09088b6997f879; 0x96d1784359a27100; 0x19b9e91b09fcea8b; 0x636199d339c963f2; 0xdf7adabd7a6e2d6f;
  0xa5a2aa754a5ba416; 0x2aca3b2d1a053f9d; 0x50124be52a30b6e4; 0x1f423fcee22f9be0; 0x659a4f06d21a1299;
  0xeaf2de5e82448912; 0x902aae96b271006b; 0x74523609127ad31a; 0x0e8a46c1224f5a63; 0x81e2d7997211c1e8;
  0xfb3aa75142244891; 0xb46ad37a8a3b6595; 0xceb2a3b2ba0eecec; 0x41da32eaea507767; 0x3b024222da65fe1e;
  0xa2722586f2d042ee; 0xd8aa554ec2e5cb97; 0x57c2c41692bb501c; 0x2d1ab4dea28ed965; 0x624ac0f56a91f461;
  0x1892b03d5aa47d18; 0x97fa21650afae693; 0xed2251ad3acf6fea; 0x095ac9329ac4bc9b; 0x7382b9faaaf135e2;
  0xfcea28a2faafae69; 0x8632586aca9a2710; 0xc9622c4102850a14; 0xb3ba5c8932b0836d; 0x3cd2cdd162ee18e6;
  0x460abd1952db919f; 0x256b24ca6b12f26d; 0x5fb354025b277b14; 0xd0dbc55a0b79e09f; 0xaa03b5923b4c69e6;
  0xe553c1b9f35344e2; 0x9f8bb171c366cd9b; 0x10e3202993385610; 0x6a3b50e1a30ddf69; 0x8e43c87e03060c18;
  0xf49bb8b633338561; 0x7bf329ee636d1eea; 0x012b592653589793; 0x4e7b2d0d9b47ba97; 0x34a35dc5ab7233ee;
  0xbbcbcc9dfb2ca865; 0xc113bc55cb19211c; 0x5863dbf1e3ac9dec; 0x22bbab39d3991495; 0xadd33a6183c78f1e;
  0xd70b4aa9b3f20667; 0x985b3e827bed2b63; 0xe2834e4a4bd8a21a; 0x6debdf121b863991; 0x1733afda2bb3b0e8;
  0xf34b37458bb86399; 0x8993478dbb8deae0; 0x06fbd6d5ebd3716b; 0x7c23a61ddbe6f812; 0x3373d23613f9d516;
  0x49aba2fe23cc5c6f; 0xc6c333a67392c7e4; 0xbc1b436e43a74e9d; 0x95ac9329ac4bc9b5; 0xef74e3e19c7e40cc;
  0x601c72b9cc20db47; 0x1ac40271fc15523e; 0x5594765a340a7f3a; 0x2f4c0692043ff643; 0xa02497ca54616dc8;
  0xdafce7026454e4b1; 0x3e847f9dc45f37c0; 0x445c0f55f46abeb9; 0xcb349e0da4342532; 0xb1eceec59401ac4b;
  0xfebc9aee5c1e814f; 0x8464ea266c2b0836; 0x0b0c7b7e3c7593bd; 0x71d40bb60c401ac4; 0xe8a46c1224f5a634;
  0x927c1cda14c02f4d; 0x1d148d82449eb4c6; 0x67ccfd4a74ab3dbf; 0x289c8961bcb410bb; 0x5244f9a98c8199c2;
  0xdd2c68f1dcdf0249; 0xa7f41839ecea8b30; 0x438c80a64ce15841; 0x3954f06e7cd4d138; 0xb63c61362c8a4ab3;
  0xcce411fe1cbfc3ca; 0x83b465d5d4a0eece; 0xf96c151de49567b7; 0x76048445b4cbfc3c; 0x0cdcf48d84fe7545;
  0x6fbd6d5ebd3716b7; 0x15651d968d029fce; 0x9a0d8ccedd5c0445; 0xe0d5fc06ed698d3c; 0xaf85882d2576a038;
  0xd55df8e515432941; 0x5a3569bd451db2ca; 0x20ed197575283bb3; 0xc49581ead523e8c2; 0xbe4df122e51661bb;
  0x3125607ab548fa30; 0x4bfd10b2857d7349; 0x04ad64994d625e4d; 0x7e7514517d57d734; 0xf11d85092d094cbf;
  0x8bc5f5c11d3cc5c6; 0x12b5926535897936; 0x686de2ad05bcf04f; 0xe70573f555e26bc4; 0x9ddd033d65d7e2bd;
  0xd28d7716adc8cfb9; 0xa85507de9dfd46c0; 0x273d9686cda3dd4b; 0x5de5e64efd965432; 0xb99d7ed15d9d8743;
  0xc3450e196da80e3a; 0x4c2d9f413df695b1; 0x36f5ef890dc31cc8; 0x79a59ba2c5dc31cc; 0x037deb6af5e9b8b5;
  0x8c157a32a5b7233e; 0xf6cd0afa9582aa47; 0x4ad64994d625e4da; 0x300e395ce6106da3; 0xbf66a804b64ef628;
  0xc5bed8cc867b7f51; 0x8aeeace74e645255; 0xf036dc2f7e51db2c; 0x7f5e4d772e0f40a7; 0x05863dbf1e3ac9de;
  0xe1fea520be311aaf; 0x9b26d5e88e0493d6; 0x144e44b0de5a085d; 0x6e963478ee6f8124; 0x21c640532670ac20;
  0x5b1e309b16452559; 0xd476a1c3461bbed2; 0xaeaed10b762e37ab; 0x37deb6af5e9b8b5b; 0x4d06c6676eae0222;
  0xc26e573f3ef099a9; 0xb8b627f70ec510d0; 0xf7e653dcc6da3dd4; 0x8d3e2314f6efb4ad; 0x0256b24ca6b12f26;
  0x788ec2849684a65f; 0x9cf65a1b368f752e; 0xe62e2ad306bafc57; 0x6946bb8b56e467dc; 0x139ecb4366d1eea5;
  0x5ccebf68aecec3a1; 0x2616cfa09efb4ad8; 0xa97e5ef8cea5d153; 0xd3a62e30fe90582a; 0xb0c7b7e3c7593bd8;
  0xca1fc72bf76cb2a1; 0x45775673a732292a; 0x3faf26bb9707a053; 0x70ff52905f188d57; 0x0a2722586f2d042e;
  0x854fb3003f739fa5; 0xff97c3c80f4616dc; 0x1bef5b57af4dc5ad; 0x61372b9f9f784cd4; 0xee5fbac7cf26d75f;
  0x9487ca0fff135e26; 0xdbd7be24370c7322; 0xa10fceec0739fa5b; 0x2e675fb4576761d0; 0x54bf2f7c6752e8a9;
  0xcdcf48d84fe75459; 0xb71738107fd2dd20; 0x387fa9482f8c46ab; 0x42a7d9801fb9cfd2; 0x0df7adabd7a6e2d6;
  0x772fdd63e7936baf; 0xf8474c3bb7cdf024; 0x829f3cf387f8795d; 0x66e7a46c27f3aa2c; 0x1c3fd4a417c62355;
  0x935745fc4798b8de; 0xe98f353477ad31a7; 0xa6df411fbfb21ca3; 0xdc0731d78f8795da; 0x536fa08fdfd90e51;
  0x29b7d047efec8728].

Definition crc64_byte (crc data : Z) : Z := Z.lxor (tab crctab64 (Z.land (Z.lxor crc data) 0xff)) (Z.shiftr crc 8).
Definition fio_crc64 (buffer : list Z) : Z := foldl crc64_byte 0 buffer.

(** ** One bit at a time

    The low bit leaves first ([div_low]) or the high bit does ([div_high]); in a
    reflected polynomial the highest power is the lowest bit. *)
Definition div_low (poly v : Z) : Z := Z.lxor (Z.shiftr v 1) (if Z.testbit v 0 then poly else 0).
Definition div_high (w poly v : Z) : Z := Z.lxor (wrap w (Z.shiftl v 1)) (if Z.testbit v (w - 1) then poly else 0).

(** The register after a byte, the byte being xored in at bit [at_]. *)
Definition div_byte (div : Z → Z) (at_ crc data : Z) : Z := Nat.iter 8 div (Z.lxor crc (Z.shiftl data at_)).
Definition crc_ref (div : Z → Z) (at_ init : Z) (buffer : list Z) : Z := foldl (div_byte div at_) init buffer.

Abbreviation byte := (is_u 8).
Abbreviation bytes := (Forall byte).

(** ** The theory of one register *)
Lemma lxor_cancel_l a x y : Z.lxor a x = Z.lxor a y → x = y.
Proof. intros E. by rewrite <- (Z.lxor_0_l x), <- (Z.lxor_nilpotent a), Z.lxor_assoc, E, <- Z.lxor_assoc, Z.lxor_nilpotent, Z.lxor_0_l. Qed.
Lemma shiftl_is_u w b n : 0 ≤ n → 0 ≤ w → is_u w b → is_u (w + n) (Z.shiftl b n).
Proof. intros ? ? [? ?]. unfold is_u. rewrite Z.shiftl_mul_pow2, Z.pow_add_r by lia. split; [lia|]. apply Z.mul_lt_mono_pos_r; lia. Qed.

Section register.
(** The bytes of a word of [k] bytes, by the order in which they leave. *)
Context (w : Z) (div : Z → Z) (pos : nat → Z) (k : nat).
Context (Hw : 0 ≤ w) (Hk : (0 < k)%nat)
  (Hdiv_u : ∀ x, is_u w x → is_u w (div x))
  (Hdiv_xor : ∀ x y, is_u w x → is_u w y → div (Z.lxor x y) = Z.lxor (div x) (div y))
  (Hdiv_0 : ∀ x, is_u w x → div x = 0 → x = 0)
  (Hpos : ∀ j, (j < k)%nat → 0 ≤ pos j ∧ pos j + 8 ≤ w)
  (Hpos_ne : ∀ i j, (i < j < k)%nat → pos i + 8 ≤ pos j ∨ pos j + 8 ≤ pos i)
  (Hnext : ∀ j b, (S j < k)%nat → byte b → Nat.iter 8 div (Z.shiftl b (pos (S j))) = Z.shiftl b (pos j)).

Abbreviation upd := (div_byte div (pos 0)).

Lemma iter_u n x : is_u w x → is_u w (Nat.iter n div x).
Proof. induction n; simpl; auto. Qed.
Lemma iter_xor n x y : is_u w x → is_u w y → Nat.iter n div (Z.lxor x y) = Z.lxor (Nat.iter n div x) (Nat.iter n div y).
Proof. intros. induction n as [|n IH]; simpl; [done|]. rewrite IH. by apply Hdiv_xor; apply iter_u. Qed.
Lemma iter_0 n x : is_u w x → Nat.iter n div x = 0 → x = 0.
Proof. intros Hx. induction n as [|n IH]; simpl; [done|]. intros ?%Hdiv_0; [auto|by apply iter_u]. Qed.
Lemma iter_inj n x y : is_u w x → is_u w y → Nat.iter n div x = Nat.iter n div y → x = y.
Proof.
  intros Hx Hy E. apply Z.lxor_eq, (iter_0 n); [by apply lxor_is_u|]. by rewrite iter_xor, E, Z.lxor_nilpotent.
Qed.

Lemma emb_u j b : (j < k)%nat → byte b → is_u w (Z.shiftl b (pos j)).
Proof.
  intros Hj Hb. destruct (Hpos j Hj). destruct (shiftl_is_u 8 b (pos j)) as [? Hlt]; [lia|lia|done|]. split; [done|].
  eapply Z.lt_le_trans; [exact Hlt|]. apply Z.pow_le_mono_r; lia.
Qed.
Hint Resolve emb_u iter_u lxor_is_u : core.

Lemma upd_u s b : is_u w s → byte b → is_u w (upd s b).
Proof. intros. unfold div_byte. eauto. Qed.
Lemma foldl_u ds s : is_u w s → bytes ds → is_u w (foldl upd s ds).
Proof. intros Hs Hds. revert s Hs. induction Hds; intros s Hs; simpl; [done|]. auto using upd_u. Qed.

(** The bytes [ds] as a word, the first one at [pos j]. *)
Fixpoint word (j : nat) (ds : list Z) : Z :=
  match ds with [] => 0 | d :: ds' => Z.lxor (Z.shiftl d (pos j)) (word (S j) ds') end.

Lemma word_u ds j : bytes ds → (j + length ds ≤ k)%nat → is_u w (word j ds).
Proof.
  intros Hds. revert j. induction Hds as [|d ds Hd _ IH]; intros j Hj; simpl in *.
  - unfold is_u. lia.
  - apply lxor_is_u; [done|apply emb_u; [lia|done]|apply IH; lia].
Qed.
Lemma word_next ds j : bytes ds → (S j + length ds ≤ k)%nat → Nat.iter 8 div (word (S j) ds) = word j ds.
Proof.
  intros Hds. revert j. induction Hds as [|d ds Hd Hds IH]; intros j Hj; cbn [word length] in *.
  - assert (div 0 = 0) as H0; [|simpl; by rewrite !H0].
    assert (is_u w 0) as Hu by (unfold is_u; lia). pose proof (Hdiv_xor 0 0 Hu Hu) as E.
    change (Z.lxor 0 0) with 0 in E. by rewrite E, Z.lxor_nilpotent.
  - rewrite iter_xor; [|apply emb_u; [lia|done]|apply word_u; [done|lia]].
    by rewrite Hnext, IH by (done || lia).
Qed.

(** Up to [k] bytes at once. *)
Lemma foldl_word ds s : is_u w s → bytes ds → (length ds ≤ k)%nat →
  foldl upd s ds = Nat.iter (8 * length ds) div (Z.lxor s (word 0 ds)).
Proof.
  intros Hs Hds. revert s Hs. induction Hds as [|d ds Hd Hds IH]; intros s Hs Hl; simpl length in *.
  - simpl. by rewrite Z.lxor_0_r.
  - cbn [foldl word]. rewrite IH by (auto using upd_u || lia).
    rewrite <- (word_next ds 0) by (done || lia). unfold div_byte.
    rewrite <- iter_xor; [|apply lxor_is_u; auto|apply word_u; [done|lia]].
    rewrite <- Nat.iter_add, Z.lxor_assoc. f_equal. lia.
Qed.

Lemma emb_get j b i : (j < k)%nat → (i < k)%nat → byte b →
  get_bits (Z.shiftl b (pos j)) (pos i) 8 = if decide (i = j) then b else 0.
Proof.
  intros Hj Hi Hb. destruct (Hpos j Hj), (Hpos i Hi). apply Z.bits_inj'. intros n Hn.
  rewrite get_bits_spec, Z.shiftl_spec by lia. case_decide as E; [subst i|].
  - case_bool_decide; [rewrite andb_true_r; f_equal; lia|]. rewrite andb_false_r. symmetry. apply (testbit_high 8); [done|lia].
  - rewrite Z.testbit_0_l. case_bool_decide; [|by rewrite andb_false_r]. rewrite andb_true_r.
    assert (pos i + 8 ≤ pos j ∨ pos j + 8 ≤ pos i) as [?|?].
    { destruct (decide (i < j)%nat); [apply Hpos_ne; lia|]. assert (j < i)%nat by lia. destruct (Hpos_ne j i); [lia|lia|lia]. }
    + apply Z.testbit_neg_r. lia.
    + apply (testbit_high 8); [done|lia].
Qed.
Lemma get_bits_lxor x y lo n : 0 ≤ lo → 0 ≤ n → get_bits (Z.lxor x y) lo n = Z.lxor (get_bits x lo n) (get_bits y lo n).
Proof.
  intros. apply Z.bits_inj'. intros i Hi. rewrite Z.lxor_spec, !get_bits_spec, Z.lxor_spec by lia.
  by destruct (bool_decide _), (Z.testbit x _), (Z.testbit y _).
Qed.
Lemma word_get ds j i : bytes ds → (j + length ds ≤ k)%nat → (i < k)%nat →
  get_bits (word j ds) (pos i) 8 = if decide (j ≤ i)%nat then default 0 (ds !! (i - j)%nat) else 0.
Proof.
  intros Hds. revert j. induction Hds as [|d ds Hd Hds IH]; intros j Hj Hi; cbn [word length] in *.
  - unfold get_bits. rewrite Z.shiftr_0_l, Z.land_0_l. by case_decide.
  - destruct (Hpos i Hi). rewrite get_bits_lxor, emb_get, IH by (done || lia). repeat case_decide; try lia; subst.
    + by rewrite Nat.sub_diag, Z.lxor_0_r.
    + destruct (i - j)%nat as [|n] eqn:E; [lia|]. simpl. rewrite Z.lxor_0_l. do 2 f_equal. lia.
    + done.
Qed.
Lemma word_inj ds es : bytes ds → bytes es → length ds = length es → (length ds ≤ k)%nat → word 0 ds = word 0 es → ds = es.
Proof.
  intros Hds Hes Hl Hk' E. apply list_eq. intros i. destruct (decide (i < length ds)%nat) as [Hi|Hi].
  - pose proof (word_get ds 0 i Hds ltac:(lia) ltac:(lia)) as H1.
    pose proof (word_get es 0 i Hes ltac:(lia) ltac:(lia)) as H2.
    rewrite E in H1. rewrite H1, Nat.sub_0_r, decide_True in H2 by lia.
    destruct (lookup_lt_is_Some_2 ds i) as [a Ea]; [lia|]. destruct (lookup_lt_is_Some_2 es i) as [b Eb]; [lia|].
    rewrite Ea, Eb in H2 |- *. simpl in H2. by subst.
  - rewrite !lookup_ge_None_2 by lia. done.
Qed.

(** A change within [k] bytes changes the register, whatever follows. *)
Lemma upd_inj s s' b : is_u w s → is_u w s' → byte b → upd s b = upd s' b → s = s'.
Proof.
  intros Hs Hs' Hb E. unfold div_byte in E. apply iter_inj in E; [|by auto..].
  by apply (lxor_cancel_l (Z.shiftl b (pos 0))); rewrite !(Z.lxor_comm (Z.shiftl _ _)).
Qed.
Lemma foldl_inj ds s s' : is_u w s → is_u w s' → bytes ds → foldl upd s ds = foldl upd s' ds → s = s'.
Proof.
  intros Hs Hs' Hds. revert s s' Hs Hs'. induction Hds as [|d ds Hd Hds IH]; intros s s' Hs Hs' E; simpl in *; [done|].
  apply IH in E; [|by apply upd_u..]. by apply upd_inj in E.
Qed.
Lemma burst s m1 ds es m2 : is_u w s → bytes m1 → bytes ds → bytes es → bytes m2 → length ds = length es →
  (length ds ≤ k)%nat → ds ≠ es → foldl upd s (m1 ++ ds ++ m2) ≠ foldl upd s (m1 ++ es ++ m2).
Proof.
  intros Hs H1 Hds Hes H2 Hl Hk' Hne E. rewrite !foldl_app in E.
  assert (is_u w (foldl upd s m1)) as Hs1 by by apply foldl_u.
  apply foldl_inj in E; [|by apply foldl_u..|done]. rewrite (foldl_word ds), (foldl_word es), Hl in E by (done || lia).
  apply iter_inj in E; [|by apply lxor_is_u; [|done|apply word_u; [done|lia]]..].
  apply lxor_cancel_l, word_inj in E; done.
Qed.
End register.

(** ** The two kinds of division *)
Lemma div_low_shift poly x : div_low poly (Z.shiftl x 1) = x.
Proof.
  unfold div_low. rewrite Z.shiftl_spec_low, Z.lxor_0_r by lia. rewrite Z.shiftr_shiftl_l by lia. apply Z.shiftl_0_r.
Qed.
Lemma iter_div_low_shift poly n x : Nat.iter n (div_low poly) (Z.shiftl x (Z.of_nat n)) = x.
Proof.
  induction n as [|n IH]; [apply Z.shiftl_0_r|].
  rewrite Nat.iter_succ_r, Nat2Z.inj_succ, <- Z.add_1_r, <- Z.shiftl_shiftl, div_low_shift by lia. done.
Qed.

Section low.
Context (w poly : Z) (k : nat) (Hw : w = 8 * Z.of_nat k) (Hk : (0 < k)%nat) (Hpoly : is_u w poly)
  (Htop : Z.testbit poly (w - 1) = true).

Lemma low_u x : is_u w x → is_u w (div_low poly x).
Proof.
  intros Hx. unfold div_low. apply lxor_is_u; [lia|apply shiftr_is_u; [lia|lia|done]|].
  case_match; [done|]. unfold is_u. lia.
Qed.
Lemma low_xor x y : div_low poly (Z.lxor x y) = Z.lxor (div_low poly x) (div_low poly y).
Proof.
  unfold div_low. apply Z.bits_inj'. intros i Hi. autorewrite with emu_bits.
  destruct (Z.testbit x 0), (Z.testbit y 0); simpl; rewrite ?Z.testbit_0_l;
    destruct (Z.testbit x (i + 1)), (Z.testbit y (i + 1)), (Z.testbit poly i); done.
Qed.
Lemma low_0 x : is_u w x → div_low poly x = 0 → x = 0.
Proof.
  intros Hx E. assert (Z.testbit x 0 = false) as H0.
  { apply (f_equal (λ z, Z.testbit z (w - 1))) in E. unfold div_low in E. autorewrite with emu_bits in E.
    rewrite (testbit_high w x) in E by (done || lia). by destruct (Z.testbit x 0); [rewrite Htop in E|]. }
  unfold div_low in E. rewrite H0, Z.lxor_0_r in E. apply Z.bits_inj'. intros i Hi. rewrite Z.testbit_0_l.
  destruct (decide (i = 0)) as [->|]; [done|]. replace i with ((i - 1) + 1) by lia.
  by rewrite <- Z.shiftr_spec, E, Z.testbit_0_l by lia.
Qed.
Definition pos_low (j : nat) : Z := 8 * Z.of_nat j.
Lemma low_next j b : (S j < k)%nat → byte b → Nat.iter 8 (div_low poly) (Z.shiftl b (pos_low (S j))) = Z.shiftl b (pos_low j).
Proof.
  intros _ _. replace (pos_low (S j)) with (pos_low j + Z.of_nat 8) by (unfold pos_low; lia).
  rewrite <- Z.shiftl_shiftl by (unfold pos_low; lia). apply iter_div_low_shift.
Qed.

Lemma low_burst s m1 ds es m2 : is_u w s → bytes m1 → bytes ds → bytes es → bytes m2 → length ds = length es →
  (length ds ≤ k)%nat → ds ≠ es → crc_ref (div_low poly) 0 s (m1 ++ ds ++ m2) ≠ crc_ref (div_low poly) 0 s (m1 ++ es ++ m2).
Proof.
  apply (burst w (div_low poly) pos_low k); eauto using low_u, low_xor, low_0, low_next; unfold pos_low; lia.
Qed.

(** A table that holds the register after each byte gives the division. *)
Lemma low_table table crc data :
  (∀ i, 0 ≤ i < 256 → tab table i = Nat.iter 8 (div_low poly) i) → 8 ≤ w → is_u w crc → byte data →
  Z.lxor (tab table (Z.land (Z.lxor crc data) 0xff)) (Z.shiftr crc 8) = div_byte (div_low poly) 0 crc data.
Proof.
  intros Htab H8 Hcrc Hd. change 0xff with (Z.ones 8). rewrite Htab by (rewrite Z.land_ones by lia; apply Z.mod_pos_bound; lia).
  rewrite <- (iter_div_low_shift poly 8 (Z.shiftr crc 8)). unfold div_byte. rewrite Z.shiftl_0_r.
  assert (∀ n x y, Nat.iter n (div_low poly) (Z.lxor x y) = Z.lxor (Nat.iter n (div_low poly) x) (Nat.iter n (div_low poly) y)) as Hit.
  { intros n x y. induction n as [|n IH]; simpl; [done|]. by rewrite IH, low_xor. }
  rewrite <- Hit. f_equal. apply Z.bits_inj'. intros i Hi. autorewrite with emu_bits. rewrite testbit_ones by lia.
  destruct (decide (i < 8)).
  - rewrite bool_decide_true, (Z.testbit_neg_r _ (i - _)) by lia. by rewrite andb_true_r, xorb_false_r.
  - rewrite bool_decide_false, andb_false_r, xorb_false_l by lia.
    rewrite Z.shiftr_spec, (testbit_high 8 data), xorb_false_r by (done || lia). f_equal. lia.
Qed.
End low.

Section high.
Context (w poly : Z) (k : nat) (Hw : w = 8 * Z.of_nat k) (Hk : (0 < k)%nat) (Hpoly : is_u w poly)
  (Hodd : Z.testbit poly 0 = true).

Lemma high_bit x i : 0 ≤ i → Z.testbit (div_high w poly x) i =
  xorb (bool_decide (i < w) && Z.testbit x (i - 1)) (Z.testbit x (w - 1) && Z.testbit poly i).
Proof.
  intros. unfold div_high. rewrite Z.lxor_spec, wrap_bit, Z.shiftl_spec by lia. f_equal. by destruct (Z.testbit x (w - 1)); [|apply Z.testbit_0_l].
Qed.
Lemma high_u x : is_u w x → is_u w (div_high w poly x).
Proof.
  intros Hx. unfold div_high. apply lxor_is_u; [lia|apply wrap_is_u; lia|]. case_match; [done|]. unfold is_u. lia.
Qed.
Lemma high_xor x y : div_high w poly (Z.lxor x y) = Z.lxor (div_high w poly x) (div_high w poly y).
Proof.
  apply Z.bits_inj'. intros i Hi. rewrite Z.lxor_spec, !high_bit, !Z.lxor_spec by done.
  destruct (Z.testbit x (w - 1)), (Z.testbit y (w - 1)), (Z.testbit x (i - 1)), (Z.testbit y (i - 1)),
    (Z.testbit poly i), (bool_decide _); done.
Qed.
Lemma high_0 x : is_u w x → div_high w poly x = 0 → x = 0.
Proof.
  intros Hx E. assert (∀ i, 0 ≤ i → Z.testbit (div_high w poly x) i = false) as Hb by (intros; by rewrite E, Z.testbit_0_l).
  assert (Z.testbit x (w - 1) = false) as H0.
  { specialize (Hb 0). rewrite high_bit, Hodd, andb_true_r, (Z.testbit_neg_r x), andb_false_r in Hb by lia. by apply Hb. }
  apply Z.bits_inj'. intros i Hi. rewrite Z.testbit_0_l. destruct (decide (w - 1 ≤ i)).
  - destruct (decide (i = w - 1)) as [->|]; [done|]. apply (testbit_high w); [done|lia].
  - specialize (Hb (i + 1)). rewrite high_bit, H0, bool_decide_true, xorb_false_r in Hb by lia. simpl in Hb.
    rewrite <- Hb by lia. f_equal. lia.
Qed.

(** A word whose top bits are clear moves up. *)
Lemma iter_high_shift n x : 0 ≤ x → is_u (w - Z.of_nat n) x → Z.of_nat n ≤ w → Nat.iter n (div_high w poly) x = Z.shiftl x (Z.of_nat n).
Proof.
  induction n as [|n IH]; intros Hx Hu Hn; [by rewrite Z.shiftl_0_r|]. simpl Nat.iter. rewrite IH; [|done| |lia].
  - apply Z.bits_inj'. intros i Hi. rewrite high_bit by done. destruct (decide (i = 0)) as [->|].
    { rewrite (Z.testbit_neg_r _ (0 - 1)), andb_false_r, !Z.shiftl_spec, (Z.testbit_neg_r _ (0 - _)) by lia.
      by rewrite (testbit_high _ x (w - 1 - _) Hu) by lia. }
    rewrite !Z.shiftl_spec by lia. rewrite (testbit_high _ x (w - 1 - _)) by (exact Hu || lia). rewrite xorb_false_r. case_bool_decide; [simpl; f_equal; lia|].
    symmetry. apply (testbit_high _ x _ Hu). lia.
  - destruct Hu as [? Hlt]. split; [done|]. eapply Z.lt_le_trans; [exact Hlt|]. apply Z.pow_le_mono_r; lia.
Qed.
Definition pos_high (j : nat) : Z := w - 8 - 8 * Z.of_nat j.
Lemma high_next j b : (S j < k)%nat → byte b →
  Nat.iter 8 (div_high w poly) (Z.shiftl b (pos_high (S j))) = Z.shiftl b (pos_high j).
Proof.
  intros Hj Hb. rewrite iter_high_shift; [|apply Z.shiftl_nonneg, Hb| |lia].
  - rewrite Z.shiftl_shiftl by (unfold pos_high; lia). f_equal. unfold pos_high. lia.
  - destruct (shiftl_is_u 8 b (pos_high (S j))) as [? Hlt]; [unfold pos_high; lia|lia|done|]. split; [done|].
    eapply Z.lt_le_trans; [exact Hlt|]. apply Z.pow_le_mono_r; unfold pos_high; lia.
Qed.

Lemma high_burst s m1 ds es m2 : is_u w s → bytes m1 → bytes ds → bytes es → bytes m2 → length ds = length es →
  (length ds ≤ k)%nat → ds ≠ es →
  crc_ref (div_high w poly) (w - 8) s (m1 ++ ds ++ m2) ≠ crc_ref (div_high w poly) (w - 8) s (m1 ++ es ++ m2).
Proof.
  replace (w - 8) with (pos_high 0) by (unfold pos_high; lia).
  apply (burst w (div_high w poly) pos_high k); eauto using high_u, high_xor, high_0, high_next; unfold pos_high; lia.
Qed.

Lemma high_table table crc data :
  (∀ i, 0 ≤ i < 256 → tab table i = Nat.iter 8 (div_high w poly) (Z.shiftl i (w - 8))) → is_u w crc → byte data →
  Z.lxor (wrap w (Z.shiftl crc 8)) (tab table (Z.land (Z.lxor (Z.shiftr crc (w - 8)) data) 0xff)) =
  div_byte (div_high w poly) (w - 8) crc data.
Proof.
  intros Htab Hcrc Hd. change 0xff with (Z.ones 8). rewrite Htab by (rewrite Z.land_ones by lia; apply Z.mod_pos_bound; lia).
  assert (is_u (w - 8) (wrap (w - 8) crc)) as Hlow by (apply wrap_is_u; lia).
  replace (wrap w (Z.shiftl crc 8)) with (Z.shiftl (wrap (w - 8) crc) 8).
  2:{ apply Z.bits_inj'. intros i Hi. rewrite wrap_bit, !Z.shiftl_spec by lia. destruct (decide (8 ≤ i)).
      - rewrite wrap_bit by lia. f_equal. apply bool_decide_ext. lia.
      - rewrite !Z.testbit_neg_r by lia. by rewrite andb_false_r. }
  change 8 with (Z.of_nat 8) at 2. rewrite <- iter_high_shift by (try apply Hlow; simpl; lia || done).
  assert (∀ n x y, Nat.iter n (div_high w poly) (Z.lxor x y) = Z.lxor (Nat.iter n (div_high w poly) x) (Nat.iter n (div_high w poly) y)) as Hit.
  { intros n x y. induction n as [|n IH]; simpl; [done|]. by rewrite IH, high_xor. }
  unfold div_byte. rewrite <- Hit. f_equal. apply Z.bits_inj'. intros i Hi.
  rewrite !Z.lxor_spec, !Z.shiftl_spec, wrap_bit by lia. destruct (decide (i < w - 8)).
  - rewrite bool_decide_true, !(Z.testbit_neg_r _ (i - _)) by lia. done.
  - rewrite bool_decide_false, Z.land_spec, testbit_ones, Z.lxor_spec, Z.shiftr_spec by lia. simpl.
    case_bool_decide.
    + rewrite andb_true_r. do 2 f_equal. lia.
    + rewrite andb_false_r, (testbit_high w crc), (testbit_high 8 data) by (done || lia). done.
Qed.
End high.

(** ** The tables of the code *)
Definition poly16 : Z := 0xA001.
Definition poly32 : Z := 0x04C11DB7.
Definition poly32c : Z := 0x82F63B78.
Definition poly64 : Z := 0x95AC9329AC4BC9B5.
(** The seven bits of the polynomial of [crc7], in the upper part of a byte. *)
Definition poly7 : Z := 0x12.

Definition table_ok (table : list Z) (f : Z → Z) : bool := forallb (λ i, tab table i =? f i) (seqZ 0 256).
Lemma table_ok_spec table f : table_ok table f = true → ∀ i, 0 ≤ i < 256 → tab table i = f i.
Proof.
  unfold table_ok. rewrite forallb_forall. intros H i Hi. apply Z.eqb_eq, H, list_elem_of_In, elem_of_seqZ. lia.
Qed.

Lemma crc16_byte_div crc data : is_u 16 crc → byte data → crc16_byte crc data = div_byte (div_low poly16) 0 crc data.
Proof.
  intros. unfold crc16_byte. rewrite Z.lxor_comm. apply (low_table 16 poly16 2); try done; [lia|]. apply table_ok_spec. by vm_compute.
Qed.
Lemma crc32c_byte_div crc data : is_u 32 crc → byte data → crc32c_byte crc data = div_byte (div_low poly32c) 0 crc data.
Proof. intros. apply (low_table 32 poly32c 4); try done; [lia|]. apply table_ok_spec. by vm_compute. Qed.
Lemma crc64_byte_div crc data : is_u 64 crc → byte data → crc64_byte crc data = div_byte (div_low poly64) 0 crc data.
Proof. intros. apply (low_table 64 poly64 8); try done; [lia|]. apply table_ok_spec. by vm_compute. Qed.
Lemma crc32_byte_div crc data : is_u 32 crc → byte data → crc32_byte crc data = div_byte (div_high 32 poly32) 24 crc data.
Proof. intros. apply (high_table 32 poly32 4); try done; [lia|]. apply table_ok_spec. by vm_compute. Qed.

(** The index of [crc7_byte] stays in its table, and the division goes on in the
    seven upper bits of a byte. *)
Lemma crc7_byte_div v data : 0 ≤ v < 128 → byte data →
  ∃ v', crc7_byte v data = Some v' ∧ 0 ≤ v' < 128 ∧ Z.shiftl v' 1 = div_byte (div_high 8 poly7) 0 (Z.shiftl v 1) data.
Proof.
  intros Hv Hd. unfold crc7_byte, div_byte. rewrite Z.shiftl_0_r.
  assert (is_u 8 (Z.lxor (Z.shiftl v 1) data)) as Hi.
  { apply lxor_is_u; [lia| |done]. by apply (shiftl_is_u 7). }
  set (i := Z.lxor (Z.shiftl v 1) data) in *. clearbody i.
  assert (table_ok crc7_syndrome_table (λ i, tab crc7_syndrome_table i mod 128) = true) as H7 by by vm_compute.
  assert (table_ok (map (λ t, Z.shiftl t 1) crc7_syndrome_table) (Nat.iter 8 (div_high 8 poly7)) = true) as Ht by by vm_compute.
  pose proof (table_ok_spec _ _ H7 i Hi) as E7. pose proof (table_ok_spec _ _ Ht i Hi) as E.
  destruct Hi as [Hi1 Hi2]. change (2 ^ 8) with 256 in Hi2.
  destruct (zget_is_Some crc7_syndrome_table i) as [v' Ev]; [simpl; lia|]. exists v'.
  unfold zget in Ev. rewrite decide_True in Ev by lia. assert (tab crc7_syndrome_table i = v') as Et by by apply list_lookup_total_correct.
  rewrite Et in E7. assert (0 ≤ v' < 128) as Hv' by (rewrite E7; apply Z.mod_pos_bound; lia).
  split; [unfold zget; by rewrite decide_True by lia|]. split; [done|].
  rewrite <- E. unfold tab. symmetry. apply list_lookup_total_correct. rewrite list_lookup_fmap. by rewrite Ev.
Qed.

(** A byte step that is a division step makes a checksum that is a division. *)
Lemma fold_divides w step div at_ s buffer :
  (∀ crc data, is_u w crc → byte data → step crc data = div_byte div at_ crc data) →
  (∀ crc data, is_u w crc → byte data → is_u w (div_byte div at_ crc data)) →
  is_u w s → bytes buffer → foldl step s buffer = crc_ref div at_ s buffer.
Proof.
  intros Hstep Hu Hs Hb. unfold crc_ref. revert s Hs. induction Hb as [|d ds Hd _ IH]; intros s Hs; simpl; [done|].
  rewrite Hstep by done. apply IH. by apply Hu.
Qed.
Lemma low_byte_u w poly crc data : 8 ≤ w → is_u w poly → is_u w crc → byte data → is_u w (div_byte (div_low poly) 0 crc data).
Proof.
  intros Hw Hp Hc [? Hd]. unfold div_byte. rewrite Z.shiftl_0_r.
  assert (∀ n x, is_u w x → is_u w (Nat.iter n (div_low poly) x)) as Hit.
  { intros n x Hx. induction n as [|n IH]; simpl; [done|]. unfold div_low at 1. apply lxor_is_u; [lia|apply shiftr_is_u; [lia|lia|done]|].
    case_match; [done|]. unfold is_u. lia. }
  apply Hit, lxor_is_u; [lia|done|]. split; [done|]. eapply Z.lt_le_trans; [exact Hd|]. apply Z.pow_le_mono_r; lia.
Qed.
Lemma high_byte_u crc data : is_u 32 crc → byte data → is_u 32 (div_byte (div_high 32 poly32) 24 crc data).
Proof.
  intros Hc Hd. unfold div_byte.
  assert (∀ n x, is_u 32 x → is_u 32 (Nat.iter n (div_high 32 poly32) x)) as Hit.
  { intros n x Hx. induction n as [|n IH]; simpl; [done|]. apply (high_u 32 poly32 4); done || lia. }
  apply Hit, lxor_is_u; [lia|done|]. by apply (shiftl_is_u 8 data 24).
Qed.

Lemma crc16_ref buffer : bytes buffer → fio_crc16 buffer = crc_ref (div_low poly16) 0 0 buffer.
Proof. apply (fold_divides 16); [apply crc16_byte_div|intros; apply low_byte_u; [lia|done..]|done]. Qed.
Lemma crc32_ref buffer : bytes buffer → fio_crc32 buffer = crc_ref (div_high 32 poly32) 24 0 buffer.
Proof. apply (fold_divides 32); [apply crc32_byte_div|apply high_byte_u|done]. Qed.
Lemma crc32c_ref buffer : bytes buffer → crc32c_sw buffer = crc_ref (div_low poly32c) 0 (2 ^ 32 - 1) buffer.
Proof. apply (fold_divides 32); [apply crc32c_byte_div|intros; apply low_byte_u; [lia|done..]|done]. Qed.
Lemma crc64_ref buffer : bytes buffer → fio_crc64 buffer = crc_ref (div_low poly64) 0 0 buffer.
Proof. apply (fold_divides 64); [apply crc64_byte_div|intros; apply low_byte_u; [lia|done..]|done]. Qed.
Lemma fold_u w step div at_ s buffer :
  (∀ crc data, is_u w crc → byte data → step crc data = div_byte div at_ crc data) →
  (∀ crc data, is_u w crc → byte data → is_u w (div_byte div at_ crc data)) →
  is_u w s → bytes buffer → is_u w (foldl step s buffer).
Proof.
  intros Hstep Hu Hs Hb. revert s Hs. induction Hb as [|d ds Hd _ IH]; intros s Hs; simpl; [done|]. rewrite Hstep by done. apply IH. by apply Hu.
Qed.
Lemma fio_crc16_u buffer : bytes buffer → is_u 16 (fio_crc16 buffer).
Proof. eapply fold_u; [apply crc16_byte_div|intros; apply low_byte_u; [lia|done..]|done]. Qed.
Lemma fio_crc32_u buffer : bytes buffer → is_u 32 (fio_crc32 buffer).
Proof. eapply fold_u; [apply crc32_byte_div|apply high_byte_u|done]. Qed.
Lemma crc32c_sw_u buffer : bytes buffer → is_u 32 (crc32c_sw buffer).
Proof. eapply fold_u; [apply crc32c_byte_div|intros; apply low_byte_u; [lia|done..]|done]. Qed.
Lemma fio_crc64_u buffer : bytes buffer → is_u 64 (fio_crc64 buffer).
Proof. eapply fold_u; [apply crc64_byte_div|intros; apply low_byte_u; [lia|done..]|done]. Qed.
Lemma crc7_fold buffer s : bytes buffer → 0 ≤ s < 128 →
  ∃ v, foldl (λ crc data, crc ← crc; crc7_byte crc data) (Some s) buffer = Some v ∧ 0 ≤ v < 128 ∧
    Z.shiftl v 1 = crc_ref (div_high 8 poly7) 0 (Z.shiftl s 1) buffer.
Proof.
  unfold crc_ref. intros Hb. revert s. induction Hb as [|d ds Hd _ IH]; intros s Hs; simpl; [by exists s|].
  destruct (crc7_byte_div s d Hs Hd) as (v & -> & Hv & <-). by apply IH.
Qed.

(** C33. Each checksum, computed byte by byte from its table of 256 numbers, is the
    register of the division of the buffer by its polynomial, one bit at a time.  The
    register starts as the code starts it: all ones for crc32c, 0 for the others; for crc64
    the comment above the table asks for all ones ([crc64_comment]), and crc32 is without the
    length and the complement of the POSIX checksum its file is named after. *)
Theorem crc_tables_divide buffer :
  bytes buffer →
  fio_crc16 buffer = crc_ref (div_low poly16) 0 0 buffer ∧
  fio_crc32 buffer = crc_ref (div_high 32 poly32) 24 0 buffer ∧
  crc32c_sw buffer = crc_ref (div_low poly32c) 0 (2 ^ 32 - 1) buffer ∧
  fio_crc64 buffer = crc_ref (div_low poly64) 0 0 buffer ∧
  ∃ v, fio_crc7 buffer = Some v ∧ Z.shiftl v 1 = crc_ref (div_high 8 poly7) 0 0 buffer.
Proof.
  intros Hb. destruct (crc7_fold buffer 0 Hb) as (v & ? & _ & ?); [lia|].
  split_and!; [by apply crc16_ref|by apply crc32_ref|by apply crc32c_ref|by apply crc64_ref|eauto].
Qed.
Lemma crc_tables_divide_witness :
  let buffer := [0x31; 0x32; 0x33; 0x34; 0x35; 0x36; 0x37; 0x38; 0x39] in
  fio_crc16 buffer = 0xBB3D ∧ Z.lnot (crc32c_sw buffer) mod 2 ^ 32 = 0xE3069283 ∧ fio_crc7 buffer = Some 0x75 ∧
  fio_crc16 buffer = crc_ref (div_low poly16) 0 0 buffer ∧ fio_crc32 buffer = crc_ref (div_high 32 poly32) 24 0 buffer ∧
  crc32c_sw buffer = crc_ref (div_low poly32c) 0 (2 ^ 32 - 1) buffer ∧ fio_crc64 buffer = crc_ref (div_low poly64) 0 0 buffer ∧
  ∃ v, fio_crc7 buffer = Some v ∧ Z.shiftl v 1 = crc_ref (div_high 8 poly7) 0 0 buffer.
Proof.
  intros buffer. split; [by vm_compute|]. split; [by vm_compute|]. split; [by vm_compute|].
  apply crc_tables_divide. repeat constructor; done.
Defined.

(** The comment of crc64.c gives the start of the register as 0xFFFFFFFFFFFFFFFF: that is
    another checksum. *)
Lemma crc64_comment :
  let buffer := [0x31; 0x32; 0x33; 0x34; 0x35; 0x36; 0x37; 0x38; 0x39] in
  fio_crc64 buffer = 0xE9C6D914C4B8D9CA ∧ crc_ref (div_low poly64) 0 (2 ^ 64 - 1) buffer ≠ fio_crc64 buffer.
Proof. split; by vm_compute. Qed.

(** Two buffers that differ in a burst. *)
Record in_burst (m1 ds es m2 : list Z) : Prop := Burst {
  burst_bytes : bytes m1 ∧ bytes ds ∧ bytes es ∧ bytes m2; burst_length : length ds = length es; burst_differ : ds ≠ es }.
Lemma burst_buffers m1 ds es m2 : in_burst m1 ds es m2 → bytes (m1 ++ ds ++ m2) ∧ bytes (m1 ++ es ++ m2).
Proof. intros [(? & ? & ? & ?) _ _]. by rewrite !Forall_app. Qed.

Lemma fio_crc16_burst m1 ds es m2 : in_burst m1 ds es m2 → (length ds ≤ 2)%nat → fio_crc16 (m1 ++ ds ++ m2) ≠ fio_crc16 (m1 ++ es ++ m2).
Proof.
  intros Hb Hk. destruct (burst_buffers _ _ _ _ Hb). destruct Hb as [(? & ? & ? & ?) ? ?]. rewrite !crc16_ref by done.
  by apply (low_burst 16 poly16 2); [|lia|..].
Qed.
Lemma fio_crc32_burst m1 ds es m2 : in_burst m1 ds es m2 → (length ds ≤ 4)%nat → fio_crc32 (m1 ++ ds ++ m2) ≠ fio_crc32 (m1 ++ es ++ m2).
Proof.
  intros Hb Hk. destruct (burst_buffers _ _ _ _ Hb). destruct Hb as [(? & ? & ? & ?) ? ?]. rewrite !crc32_ref by done.
  by apply (high_burst 32 poly32 4); [|lia|..].
Qed.
Lemma crc32c_sw_burst m1 ds es m2 : in_burst m1 ds es m2 → (length ds ≤ 4)%nat → crc32c_sw (m1 ++ ds ++ m2) ≠ crc32c_sw (m1 ++ es ++ m2).
Proof.
  intros Hb Hk. destruct (burst_buffers _ _ _ _ Hb). destruct Hb as [(? & ? & ? & ?) ? ?]. rewrite !crc32c_ref by done.
  by apply (low_burst 32 poly32c 4); [|lia|..].
Qed.
Lemma fio_crc64_burst m1 ds es m2 : in_burst m1 ds es m2 → (length ds ≤ 8)%nat → fio_crc64 (m1 ++ ds ++ m2) ≠ fio_crc64 (m1 ++ es ++ m2).
Proof.
  intros Hb Hk. destruct (burst_buffers _ _ _ _ Hb). destruct Hb as [(? & ? & ? & ?) ? ?]. rewrite !crc64_ref by done.
  by apply (low_burst 64 poly64 8); [|lia|..].
Qed.
