(* ===== verification/Stream.v ===== *)
(** * Digests of a stream

    A digest takes its message in pieces, keeps the bytes that do not fill a
    block, and compresses block by block.  What the buffering code of the digests
    of src/fio4emu/crc has in common: the blocks of a message and how they change
    when a piece is appended. *)
From S2P Require Import Prelude CInt.
#[local] Open Scope nat_scope.

Lemma u64_small x : (0 ≤ x < 18446744073709551616)%Z → u64 x = x.
Proof. intros. by apply wrap_small. Qed.

(** [memcpy(dst + off, src, len)] *)
Definition blit {A} (off : nat) (src dst : list A) : list A := take off dst ++ src ++ drop (off + length src) dst.

Lemma blit_length {A} off (src dst : list A) : off + length src ≤ length dst → length (blit off src dst) = length dst.
Proof. intros. unfold blit. rewrite !length_app, length_take, length_drop. lia. Qed.
Lemma take_blit {A} off (src dst : list A) : off ≤ length dst → take (off + length src) (blit off src dst) = take off dst ++ src.
Proof.
  intros. unfold blit. rewrite app_assoc, take_app_le by (rewrite length_app, length_take; lia).
  apply take_ge. rewrite length_app, length_take. lia.
Qed.

Lemma blit_take {A} off k (src dst : list A) : off + length src = k → off ≤ length dst → take k (blit off src dst) = take off dst ++ src.
Proof. intros <-. apply take_blit. Qed.

(** Words of a block. *)
Definition le_word (bs : list Z) : Z := foldr (λ b acc, b + 256 * acc)%Z 0%Z bs.
Definition be_word (bs : list Z) : Z := foldl (λ acc b, 256 * acc + b)%Z 0%Z bs.
(** The [i]-th word of [n] bytes. *)
Definition word_at (word : list Z → Z) (n i : nat) (block : list Z) : Z := word (take n (drop (n * i) block)).
(** The bytes of a number. *)
Fixpoint le_bytes_of (n : nat) (x : Z) : list Z :=
  match n with O => [] | S n' => (x mod 256)%Z :: le_bytes_of n' (x / 256)%Z end.
Definition be_bytes_of (n : nat) (x : Z) : list Z := reverse (le_bytes_of n x).
Lemma le_bytes_of_length n x : length (le_bytes_of n x) = n.
Proof. revert x. induction n; intros x; simpl; [done|]. by f_equal. Qed.
Lemma be_bytes_of_length n x : length (be_bytes_of n x) = n.
Proof. unfold be_bytes_of. by rewrite length_reverse, le_bytes_of_length. Qed.
Lemma le_word_bytes n x : (0 ≤ x < 256 ^ Z.of_nat n)%Z → le_word (le_bytes_of n x) = x.
Proof.
  revert x. induction n as [|n IH]; intros x Hx; simpl.
  - change (256 ^ Z.of_nat 0)%Z with 1%Z in Hx. lia.
  - rewrite Nat2Z.inj_succ, Z.pow_succ_r in Hx by lia. rewrite IH by (split; [apply Z.div_pos; lia|apply Z.div_lt_upper_bound; lia]).
    pose proof (Z.div_mod x 256). lia.
Qed.

Lemma le_bytes_of_app a b x : le_bytes_of (a + b) x = le_bytes_of a x ++ le_bytes_of b (x / 256 ^ Z.of_nat a)%Z.
Proof.
  revert x. induction a as [|a IH]; intros x; [simpl; by rewrite Z.div_1_r|]. cbn [le_bytes_of Nat.add app]. rewrite IH. do 3 f_equal.
  rewrite Nat2Z.inj_succ, Z.pow_succ_r by lia. apply Z.div_div; lia.
Qed.
Lemma le_bytes_of_mod n x : le_bytes_of n (x mod 256 ^ Z.of_nat n)%Z = le_bytes_of n x.
Proof.
  revert x. induction n as [|n IH]; intros x; [done|]. cbn [le_bytes_of]. rewrite Nat2Z.inj_succ, Z.pow_succ_r by lia. f_equal.
  - rewrite Z.rem_mul_r by lia. rewrite Z.mul_comm, Z_mod_plus_full. apply Z.mod_mod. lia.
  - rewrite <- (IH (x / 256)%Z), Z.rem_mul_r by lia. f_equal. rewrite Z.mul_comm, Z.div_add by lia.
    rewrite (Z.div_small (x mod 256)) by (apply Z.mod_pos_bound; lia). lia.
Qed.
(** A count kept in a machine word gives the number of kept bytes. *)
Lemma kept_count w n : (6 ≤ w)%Z → Z.to_nat (Z.land (wrap w (Z.of_nat n)) 63) = n mod 64.
Proof.
  intros Hw. change 63%Z with (Z.ones 6). rewrite Z.land_ones by lia. unfold wrap.
  rewrite Z.mod_mod_divide.
  - change (2 ^ 6)%Z with (Z.of_nat 64). by rewrite <- Nat2Z.inj_mod, Nat2Z.id.
  - exists (2 ^ (w - 6))%Z. rewrite <- Z.pow_add_r by lia. f_equal. lia.
Qed.

(** The bytes after the last full block. *)
Definition rest (B : nat) (m : list Z) : list Z := drop (length m / B * B) m.

Lemma rest_length B m : length (rest B m) = length m mod B.
Proof. unfold rest. rewrite length_drop. pose proof (Nat.div_mod_eq (length m) B). lia. Qed.

Section stream.
Context {St : Type} (B : nat) (compress : St → list Z → St) (HB : 0 < B).

(** The first [n] blocks of [m]. *)
Fixpoint absorb (n : nat) (s : St) (m : list Z) : St :=
  match n with O => s | S n' => absorb n' (compress s (take B m)) (drop B m) end.
Definition absorbed (s : St) (m : list Z) : St := absorb (length m / B) s m.
Lemma absorb_add n k s m : absorb (n + k) s m = absorb k (absorb n s m) (drop (n * B) m).
Proof.
  revert s m. induction n as [|n IH]; intros s m; [done|]. simpl absorb. rewrite IH, drop_drop. f_equal.
Qed.
Lemma absorb_app n s m d : n * B ≤ length m → absorb n s (m ++ d) = absorb n s m.
Proof.
  revert s m. induction n as [|n IH]; intros s m Hn; [done|]. simpl in *.
  rewrite take_app_le, drop_app_le, IH by (rewrite ?length_drop; lia). done.
Qed.

Lemma div_add_small a d : a mod B + d < B → (a + d) / B = a / B.
Proof. intros. pose proof (Nat.div_mod_eq a B). symmetry. apply (Nat.div_unique _ _ _ (a mod B + d)); lia. Qed.
Lemma div_add_large a d : B ≤ a mod B + d → (a + d) / B = a / B + S ((d - (B - a mod B)) / B).
Proof.
  intros. pose proof (Nat.div_mod_eq a B). pose proof (Nat.mod_upper_bound a B ltac:(lia)).
  set (e := d - (B - a mod B)). pose proof (Nat.div_mod_eq e B). pose proof (Nat.mod_upper_bound e B ltac:(lia)).
  symmetry. apply (Nat.div_unique _ _ _ (e mod B)); [lia|]. unfold e in *. lia.
Qed.

(** A piece that fills no block is kept. *)
Lemma append_small s m d : length m mod B + length d < B → absorbed s (m ++ d) = absorbed s m ∧ rest B (m ++ d) = rest B m ++ d.
Proof.
  intros H. unfold absorbed, rest. rewrite length_app, div_add_small by done.
  pose proof (Nat.div_mod_eq (length m) B). rewrite absorb_app, drop_app_le by lia. done.
Qed.
(** A piece that does completes the kept bytes to a block; its other blocks follow. *)
Lemma append_large s m d (n := B - length m mod B) : B ≤ length m mod B + length d →
  absorbed s (m ++ d) = absorbed (compress (absorbed s m) (rest B m ++ take n d)) (drop n d) ∧ rest B (m ++ d) = rest B (drop n d).
Proof.
  intros H. pose proof (Nat.div_mod_eq (length m) B) as E. pose proof (Nat.mod_upper_bound (length m) B ltac:(lia)) as Hm.
  set (q := length m / B) in *. set (r := length m mod B) in *.
  assert (drop (q * B) (m ++ d) = rest B m ++ d) as Hd by (unfold rest; fold q; rewrite drop_app_le by lia; done).
  assert (length (rest B m) = r) as Hr by apply rest_length.
  assert (drop B (rest B m ++ d) = drop n d) as Hdrop by (rewrite drop_app_ge by lia; by rewrite Hr).
  assert (length (m ++ d) / B = q + S (length (drop n d) / B)) as Hq by (by rewrite length_app, div_add_large, length_drop).
  split.
  - unfold absorbed at 1. rewrite Hq, absorb_add, absorb_app, Hd by lia. simpl absorb. rewrite Hdrop.
    rewrite take_app_ge by lia. by rewrite Hr.
  - unfold rest at 1. rewrite Hq, Nat.mul_add_distr_r, <- drop_drop, Hd. simpl Nat.mul. rewrite <- drop_drop, Hdrop. done.
Qed.

(** With no bytes kept, the blocks of the piece follow. *)
Lemma append_aligned s m d : length m mod B = 0 → absorbed s (m ++ d) = absorbed (absorbed s m) d ∧ rest B (m ++ d) = rest B d.
Proof.
  intros H. pose proof (Nat.div_mod_eq (length m) B) as E.
  assert (length (m ++ d) / B = length m / B + length d / B) as Hq.
  { rewrite length_app. replace (length m + length d) with (length m / B * B + length d) by lia. rewrite Nat.div_add_l by lia. lia. }
  assert (drop (length m / B * B) (m ++ d) = d) as Hd by (rewrite drop_app_ge by lia; replace (_ - _) with 0 by lia; done).
  unfold absorbed at 1, rest. rewrite Hq, absorb_add, absorb_app, Hd by lia. split; [done|].
  by rewrite Nat.mul_add_distr_r, <- drop_drop, Hd.
Qed.

(** [while (len >= B)]: the state, the last block, and the bytes left. *)
Fixpoint blocks_loop (fuel : nat) (s : St) (last : option (list Z)) (data : list Z) : St * option (list Z) * list Z :=
  match fuel with
  | O => (s, last, data)
  | S f => if decide (B ≤ length data) then blocks_loop f (compress s (take B data)) (Some (take B data)) (drop B data)
           else (s, last, data)
  end.
Lemma blocks_loop_spec fuel s last data : length data ≤ fuel →
  ∃ last', blocks_loop fuel s last data = (absorbed s data, last', rest B data) ∧ (last = None ∨ is_Some last' → True) ∧
    (∀ b, last' = Some b → last = Some b ∨ length b = B).
Proof.
  revert s last data. induction fuel as [|fuel IH]; intros s last data Hf.
  - destruct data; [|simpl in Hf; lia]. exists last. unfold absorbed, rest. simpl. rewrite Nat.Div0.div_0_l. simpl. auto.
  - simpl. case_decide as Hb.
    + destruct (IH (compress s (take B data)) (Some (take B data)) (drop B data)) as (last' & -> & _ & Hl); [rewrite length_drop; lia|].
      exists last'. assert (length data / B = S (length (drop B data) / B)) as E.
      { rewrite length_drop. replace (length data) with (1 * B + (length data - B)) at 1 by lia. rewrite Nat.div_add_l by lia. lia. }
      split_and!; [|done|].
      * unfold absorbed, rest. rewrite E. simpl. by rewrite drop_drop.
      * intros b Eb. right. destruct (Hl b Eb) as [[= <-]|?]; [rewrite length_take; lia|done].
    + exists last. unfold absorbed, rest. rewrite Nat.div_small by lia. simpl. auto.
Qed.

(** A context that has taken [m]: its state and the first bytes of its buffer. *)
Definition taken (s0 : St) (m : list Z) (s : St) (buf : list Z) : Prop :=
  length buf = B ∧ s = absorbed s0 m ∧ take (length m mod B) buf = rest B m.

Lemma taken_nil s0 buf : length buf = B → taken s0 [] s0 buf.
Proof. intros. unfold taken, absorbed, rest. simpl. rewrite Nat.Div0.div_0_l, Nat.Div0.mod_0_l. done. Qed.
Lemma taken_small s0 m s buf d : taken s0 m s buf → length m mod B + length d < B →
  taken s0 (m ++ d) s (blit (length m mod B) d buf).
Proof.
  intros (Hl & -> & Ht) Hd. unfold taken. destruct (append_small s0 m d Hd) as [-> ->]. split_and!; [rewrite blit_length; lia|done|].
  rewrite length_app. replace ((length m + length d) mod B) with (length m mod B + length d).
  - rewrite take_blit by lia. by rewrite Ht.
  - rewrite <- Nat.Div0.add_mod_idemp_l. symmetry. by apply Nat.mod_small.
Qed.
Lemma taken_large s0 m s buf d (n := B - length m mod B) buf' : taken s0 m s buf → B ≤ length m mod B + length d →
  length buf' = B →
  taken s0 (m ++ d) (absorbed (compress s (blit (length m mod B) (take n d) buf)) (drop n d)) (blit 0 (rest B (drop n d)) buf').
Proof.
  intros (Hl & -> & Ht) Hd Hl'. unfold taken. destruct (append_large s0 m d Hd) as [-> E]. fold n in E |- *.
  pose proof (Nat.mod_upper_bound (length m) B ltac:(lia)) as Hm.
  assert (length (rest B (drop n d)) < B) as Hr by (rewrite rest_length; apply Nat.mod_upper_bound; lia).
  split_and!; [rewrite blit_length; lia| |].
  - do 2 f_equal. unfold blit. rewrite Ht, length_take, (drop_ge buf), app_nil_r by lia. done.
  - rewrite E. rewrite <- rest_length, E. change (length (rest B (drop n d))) with (0 + length (rest B (drop n d))).
    rewrite take_blit by lia. done.
Qed.
Lemma taken_aligned s0 m s buf d buf' : taken s0 m s buf → length m mod B = 0 → length buf' = B →
  take (length (rest B d)) buf' = rest B d → taken s0 (m ++ d) (absorbed s d) buf'.
Proof.
  intros (_ & -> & _) Hm Hl Ht. unfold taken. destruct (append_aligned s0 m d Hm) as [-> E].
  split_and!; [done|done|]. by rewrite <- rest_length, E.
Qed.
(** A piece that ends the block, and one that ends it and fills another. *)
Lemma taken_finish s0 m s buf p : taken s0 m s buf → length m mod B + length p = B →
  absorbed s0 (m ++ p) = compress s (take (length m mod B) buf ++ p).
Proof.
  intros (_ & -> & ->) Hp. destruct (append_large s0 m p ltac:(lia)) as [-> _].
  replace (B - length m mod B) with (length p) by lia. rewrite take_ge, drop_ge by lia.
  unfold absorbed at 1. simpl length. by rewrite Nat.Div0.div_0_l.
Qed.
Lemma absorbed_block s b : length b = B → absorbed s b = compress s b.
Proof. intros Hb. unfold absorbed. rewrite Hb, Nat.div_same by lia. simpl. by rewrite take_ge by lia. Qed.
Lemma taken_finish2 s0 m s buf p b : taken s0 m s buf → length m mod B + length p = B → length b = B →
  absorbed s0 (m ++ p ++ b) = compress (compress s (take (length m mod B) buf ++ p)) b.
Proof.
  intros Ht Hp Hb. rewrite app_assoc. destruct (append_aligned s0 (m ++ p) b) as [-> _].
  - rewrite length_app, <- Nat.Div0.add_mod_idemp_l, Hp. apply Nat.Div0.mod_same.
  - rewrite absorbed_block by done. by rewrite (taken_finish s0 m s buf p).
Qed.
(** With the block full, the buffer is not read again. *)
Lemma taken_full s0 m s buf : taken s0 m s buf → length m mod B = 0 → s = absorbed s0 m.
Proof. by intros (_ & -> & _). Qed.
End stream.

Lemma le_word_mod n x : le_word (le_bytes_of n x) = (x mod 256 ^ Z.of_nat n)%Z.
Proof. rewrite <- le_bytes_of_mod. apply le_word_bytes, Z.mod_pos_bound. lia. Qed.
Lemma le_bytes_of_bytes n x : Forall (is_u 8) (le_bytes_of n x).
Proof. revert x. induction n as [|n IH]; intros x; simpl; [done|]. constructor; [|apply IH]. apply (Z.mod_pos_bound x 256). lia. Qed.
