(* ===== verification/Digest.v ===== *)
(** * Digests (src/fio4emu/crc)

    md5.c, sha1.c, sha256.c, sha512.c and sha3.c.  A context is the state of the
    digest, its block buffer and a count; the rounds written out in the sources are
    folds over a table of their operands, the registers changing places from round to
    round as the names in the sources do.  Words are 32 or 64 bits wide on a
    little-endian machine. *)
From S2P Require Import Prelude CInt Stream.
#[local] Open Scope Z_scope.

Definition rol (w x n : Z) : Z := Z.lor (wrap w (Z.shiftl x n)) (Z.shiftr x (w - n)).
Definition ror (w x n : Z) : Z := Z.lor (Z.shiftr x n) (wrap w (Z.shiftl x (w - n))).

(** ** MD5 *)
Definition F1 (x y z : Z) : Z := Z.lxor z (Z.land x (Z.lxor y z)).
Definition F2 (x y z : Z) : Z := F1 z x y.
Definition F3 (x y z : Z) : Z := Z.lxor (Z.lxor x y) z.
Definition F4 (x y z : Z) : Z := Z.lxor y (Z.lor x (u32 (Z.lnot z))).

(** The steps: function, word of the block, constant, rotation. *)
Definition md5_steps : list ((Z → Z → Z → Z) * nat * Z * Z) := [
  (F1, 0%nat, 0xd76aa478, 7); (F1, 1%nat, 0xe8c7b756, 12); (F1, 2%nat, 0x242070db, 17); (F1, 3%nat, 0xc1bdceee, 22);
  (F1, 4%nat, 0xf57c0faf, 7); (F1, 5%nat, 0x4787c62a, 12); (F1, 6%nat, 0xa8304613, 17); (F1, 7%nat, 0xfd469501, 22);
  (F1, 8%nat, 0x698098d8, 7); (F1, 9%nat, 0x8b44f7af, 12); (F1, 10%nat, 0xffff5bb1, 17); (F1, 11%nat, 0x895cd7be, 22);
  (F1, 12%nat, 0x6b901122, 7); (F1, 13%nat, 0xfd987193, 12); (F1, 14%nat, 0xa679438e, 17); (F1, 15%nat, 0x49b40821, 22);
  (F2, 1%nat, 0xf61e2562, 5); (F2, 6%nat, 0xc040b340, 9); (F2, 11%nat, 0x265e5a51, 14); (F2, 0%nat, 0xe9b6c7aa, 20);
  (F2, 5%nat, 0xd62f105d, 5); (F2, 10%nat, 0x02441453, 9); (F2, 15%nat, 0xd8a1e681, 14); (F2, 4%nat, 0xe7d3fbc8, 20);
  (F2, 9%nat, 0x21e1cde6, 5); (F2, 14%nat, 0xc33707d6, 9); (F2, 3%nat, 0xf4d50d87, 14); (F2, 8%nat, 0x455a14ed, 20);
  (F2, 13%nat, 0xa9e3e905, 5); (F2, 2%nat, 0xfcefa3f8, 9); (F2, 7%nat, 0x676f02d9, 14); (F2, 12%nat, 0x8d2a4c8a, 20);
  (F3, 5%nat, 0xfffa3942, 4); (F3, 8%nat, 0x8771f681, 11); (F3, 11%nat, 0x6d9d6122, 16); (F3, 14%nat, 0xfde5380c, 23);
  (F3, 1%nat, 0xa4beea44, 4); (F3, 4%nat, 0x4bdecfa9, 11); (F3, 7%nat, 0xf6bb4b60, 16); (F3, 10%nat, 0xbebfbc70, 23);
  (F3, 13%nat, 0x289b7ec6, 4); (F3, 0%nat, 0xeaa127fa, 11); (F3, 3%nat, 0xd4ef3085, 16); (F3, 6%nat, 0x04881d05, 23);
  (F3, 9%nat, 0xd9d4d039, 4); (F3, 12%nat, 0xe6db99e5, 11); (F3, 15%nat, 0x1fa27cf8, 16); (F3, 2%nat, 0xc4ac5665, 23);
  (F4, 0%nat, 0xf4292244, 6); (F4, 7%nat, 0x432aff97, 10); (F4, 14%nat, 0xab9423a7, 15); (F4, 5%nat, 0xfc93a039, 21);
  (F4, 12%nat, 0x655b59c3, 6); (F4, 3%nat, 0x8f0ccc92, 10); (F4, 10%nat, 0xffeff47d, 15); (F4, 1%nat, 0x85845dd1, 21);
  (F4, 8%nat, 0x6fa87e4f, 6); (F4, 15%nat, 0xfe2ce6e0, 10); (F4, 6%nat, 0xa3014314, 15); (F4, 13%nat, 0x4e0811a1, 21);
  (F4, 4%nat, 0xf7537e82, 6); (F4, 11%nat, 0xbd3af235, 10); (F4, 2%nat, 0x2ad7d2bb, 15); (F4, 9%nat, 0xeb86d391, 21)].

Abbreviation quad := (Z * Z * Z * Z)%type.
(** [MD5STEP] on the registers (w, x, y, z); the next step has z for w. *)
Definition MD5STEP (block : list Z) (r : quad) (step : (Z → Z → Z → Z) * nat * Z * Z) : quad :=
  let '(w, x, y, z) := r in
  let '(f, i, c, s) := step in
  let w := u32 (w + f x y z + u32 (word_at le_word 4 i block + c)) in
  (z, u32 (rol 32 w s + x), x, y).

Definition md5_transform (hash : quad) (block : list Z) : quad :=
  let '(a, b, c, d) := foldl (MD5STEP block) hash md5_steps in
  let '(h0, h1, h2, h3) := hash in
  (u32 (h0 + a), u32 (h1 + b), u32 (h2 + c), u32 (h3 + d)).

Record fio_md5_ctx := Md5 { md5_hash : quad; md5_block : list Z; byte_count : Z }.
Definition md5_init : quad := (0x67452301, 0xefcdab89, 0x98badcfe, 0x10325476).
(** The callers declare the context with its other members 0. *)
Definition fio_md5_init (block : list Z) : fio_md5_ctx := Md5 md5_init block 0.

Definition fio_md5_update (mctx : fio_md5_ctx) (data : list Z) : fio_md5_ctx :=
  let avail := Z.to_nat (64 - Z.land (byte_count mctx) 0x3f) in
  let count := u64 (byte_count mctx + Z.of_nat (length data)) in
  if decide (length data < avail)%nat then Md5 (md5_hash mctx) (blit (64 - avail) data (md5_block mctx)) count
  else
    let block := blit (64 - avail) (take avail data) (md5_block mctx) in
    let hash := md5_transform (md5_hash mctx) block in
    let '(hash, last, data) := blocks_loop 64 md5_transform (length data) hash None (drop avail data) in
    Md5 hash (blit 0 data (default block last)) count.

Definition fio_md5_final (mctx : fio_md5_ctx) : fio_md5_ctx :=
  let offset := Z.to_nat (Z.land (byte_count mctx) 0x3f) in
  let padding := 56 - (Z.of_nat offset + 1) in
  let block := blit offset [0x80] (md5_block mctx) in
  let '(hash, block) :=
    if padding <? 0 then
      let block := blit (offset + 1) (replicate (Z.to_nat (padding + 8)) 0) block in
      (md5_transform (md5_hash mctx) block, blit 0 (replicate 56 0) block)
    else (md5_hash mctx, blit (offset + 1) (replicate (Z.to_nat padding) 0) block) in
  let block := blit 56 (le_bytes_of 4 (u32 (Z.shiftl (byte_count mctx) 3))) block in
  let block := blit 60 (le_bytes_of 4 (u32 (Z.shiftr (byte_count mctx) 29))) block in
  Md5 (md5_transform hash block) block (byte_count mctx).

(** ** SHA-1 *)
Abbreviation quint := (Z * Z * Z * Z * Z)%type.

(** The function and the constant of round [t]. *)
Definition sha1_fn (t : nat) (B C D : Z) : Z :=
  if decide (t < 20)%nat then Z.lxor (Z.land (Z.lxor C D) B) D
  else if decide (t < 40)%nat then Z.lxor (Z.lxor B C) D
  else if decide (t < 60)%nat then Z.land B C + Z.land D (Z.lxor B C)
  else Z.lxor (Z.lxor B C) D.
Definition sha1_const (t : nat) : Z :=
  if decide (t < 20)%nat then 0x5a827999 else if decide (t < 40)%nat then 0x6ed9eba1
  else if decide (t < 60)%nat then 0x8f1bbcdc else 0xca62c1d6.

(** [W(x)], the array of 16 words the schedule rolls over. *)
Definition W (array : list Z) (x : nat) : Z := array !!! (x mod 16)%nat.
Definition SHA_SRC (data : list Z) (t : nat) : Z := word_at be_word 4 t data.
Definition SHA_MIX (array : list Z) (t : nat) : Z :=
  rol 32 (Z.lxor (Z.lxor (Z.lxor (W array (t + 13)) (W array (t + 8))) (W array (t + 2))) (W array t)) 1.

(** [SHA_ROUND] on (A, B, C, D, E); the next round has E for A. *)
Definition SHA_ROUND (data : list Z) (s : quint * list Z) (t : nat) : quint * list Z :=
  let '((A, B, C, D, E), array) := s in
  let TEMP := if decide (t < 16)%nat then SHA_SRC data t else SHA_MIX array t in
  let E := u32 (E + (TEMP + rol 32 A 5 + sha1_fn t B C D + sha1_const t)) in
  ((E, A, ror 32 B 2, C, D), <[(t mod 16)%nat := TEMP]> array).

Definition blk_SHA1Block (H : quint) (data : list Z) : quint :=
  let '((A, B, C, D, E), _) := foldl (SHA_ROUND data) (H, replicate 16 0) (seq 0 80) in
  let '(h0, h1, h2, h3, h4) := H in
  (u32 (h0 + A), u32 (h1 + B), u32 (h2 + C), u32 (h3 + D), u32 (h4 + E)).

Record fio_sha1_ctx := Sha1 { sha1_H : quint; sha1_W : list Z; sha1_size : Z }.
Definition sha1_init : quint := (0x67452301, 0xefcdab89, 0x98badcfe, 0x10325476, 0xc3d2e1f0).
Definition fio_sha1_init (buf : list Z) : fio_sha1_ctx := Sha1 sha1_init buf 0.

Definition fio_sha1_update (ctx : fio_sha1_ctx) (data : list Z) : fio_sha1_ctx :=
  let lenW := Z.to_nat (Z.land (sha1_size ctx) 63) in
  let size := u64 (sha1_size ctx + Z.of_nat (length data)) in
  let '(H, buf, data, return_) :=
    if decide (lenW ≠ 0%nat) then
      let left := Nat.min (64 - lenW) (length data) in
      let buf := blit lenW (take left data) (sha1_W ctx) in
      if decide (((lenW + left) mod 64 = 0)%nat) then (blk_SHA1Block (sha1_H ctx) buf, buf, drop left data, false)
      else (sha1_H ctx, buf, drop left data, true)
    else (sha1_H ctx, sha1_W ctx, data, false) in
  if return_ then Sha1 H buf size
  else
    let '(H, _, data) := blocks_loop 64 blk_SHA1Block (length data) H None data in
    Sha1 H (if decide (data = []) then buf else blit 0 data buf) size.

Definition fio_sha1_final (ctx : fio_sha1_ctx) : fio_sha1_ctx :=
  let padlen := be_bytes_of 4 (u32 (Z.shiftr (sha1_size ctx) 29)) ++ be_bytes_of 4 (u32 (Z.shiftl (sha1_size ctx) 3)) in
  let i := Z.land (sha1_size ctx) 63 in
  let ctx := fio_sha1_update ctx (take (Z.to_nat (1 + Z.land 63 (55 - i))) (0x80 :: replicate 63 0)) in
  fio_sha1_update ctx padlen.

(** ** SHA-256 and SHA-3 take their pieces alike

    [partial] bytes are kept; [done] starts at minus that, as an unsigned number, so
    that [data + done] is where the next block starts. *)
Section update.
Context {St : Type} (B : Z) (transform : St → list Z → St).
Fixpoint do_blocks (fuel : nat) (st : St) (done : Z) (src data : list Z) : option (St * Z * list Z) :=
  match fuel with
  | O => None
  | S f =>
      let st := transform st (take (Z.to_nat B) src) in
      let done := u32 (done + B) in
      let src := drop (Z.to_nat done) data in
      if u32 (done + (B - 1)) <? Z.of_nat (length data) then do_blocks f st done src data else Some (st, done, src)
  end.
(** The state, the buffer and the new value of [partial]. *)
Definition update (st : St) (buf : list Z) (partial : Z) (data : list Z) : option (St * list Z * Z) :=
  let len := Z.of_nat (length data) in
  '(st, buf, partial, done, src) ←
    (if B - 1 <? u32 (partial + len) then
       let '(buf, done, src) :=
         if negb (partial =? 0) then
           let done := u32 (- partial) in
           let buf := blit (Z.to_nat partial) (take (Z.to_nat (u32 (done + B))) data) buf in (buf, done, buf)
         else (buf, 0, data) in
       '(st, done, src) ← do_blocks (S (length data)) st done src data;
       Some (st, buf, 0, done, src)
     else Some (st, buf, partial, 0, data));
  let left := u32 (len - done) in
  Some (st, blit (Z.to_nat partial) (take (Z.to_nat left) src) buf, u32 (partial + left)).
End update.

(** ** SHA-256 *)
Definition Ch (x y z : Z) : Z := Z.lxor z (Z.land x (Z.lxor y z)).
Definition Maj (x y z : Z) : Z := Z.lor (Z.land x y) (Z.land z (Z.lor x y)).

(** What the 32-bit and the 64-bit digests share: rotations, schedule and rounds. *)
Record sha2 := Sha2 { sha2_w : Z; e0 : Z → Z; e1 : Z → Z; s0 : Z → Z; s1 : Z → Z; sha2_K : list Z }.
(** The first 32 bits of the fractions of the cube roots of the first 64 primes, in decimal. *)
Definition sha256_K : list Z := [
  1116352408; 1899447441; 3049323471; 3921009573; 961987163; 1508970993; 2453635748; 2870763221; 3624381080; 310598401;
  607225278; 1426881987; 1925078388; 2162078206; 2614888103; 3248222580; 3835390401; 4022224774; 264347078; 604807628;
  770255983; 1249150122; 1555081692; 1996064986; 2554220882; 2821834349; 2952996808; 3210313671; 3336571891; 3584528711;
  113926993; 338241895; 666307205; 773529912; 1294757372; 1396182291; 1695183700; 1986661051; 2177026350; 2456956037;
  2730485921; 2820302411; 3259730800; 3345764771; 3516065817; 3600352804; 4094571909; 275423344; 430227734; 506948616;
  659060556; 883997877; 958139571; 1322822218; 1537002063; 1747873779; 1955562222; 2024104815; 2227730452; 2361852424;
  2428436474; 2756734187; 3204031479; 3329325298].
Definition sha256_ops : sha2 :=
  Sha2 32 (λ x, Z.lxor (Z.lxor (ror 32 x 2) (ror 32 x 13)) (ror 32 x 22))
    (λ x, Z.lxor (Z.lxor (ror 32 x 6) (ror 32 x 11)) (ror 32 x 25))
    (λ x, Z.lxor (Z.lxor (ror 32 x 7) (ror 32 x 18)) (Z.shiftr x 3))
    (λ x, Z.lxor (Z.lxor (ror 32 x 17) (ror 32 x 19)) (Z.shiftr x 10)) sha256_K.

Abbreviation octet := (Z * Z * Z * Z * (Z * Z * Z * Z))%type.
(** [LOAD_OP] and [BLEND_OP]: the schedule, word by word. *)
Definition LOAD_OP (o : sha2) (input : list Z) (i : nat) : Z :=
  word_at be_word (Z.to_nat (sha2_w o / 8)) i input.
Definition BLEND_OP (o : sha2) (w : list Z) : list Z :=
  let i := length w in
  w ++ [wrap (sha2_w o) (s1 o (w !!! (i - 2)%nat) + w !!! (i - 7)%nat + s0 o (w !!! (i - 15)%nat) + w !!! (i - 16)%nat)].
Definition sha2_round (o : sha2) (s : octet) (kw : Z * Z) : octet :=
  let '(a, b, c, d, (e, f, g, h)) := s in
  let t1 := wrap (sha2_w o) (h + e1 o e + Ch e f g + kw.1 + kw.2) in
  let t2 := wrap (sha2_w o) (e0 o a + Maj a b c) in
  (wrap (sha2_w o) (t1 + t2), a, b, c, (wrap (sha2_w o) (d + t1), e, f, g)).
Definition sha2_transform (o : sha2) (state : octet) (input : list Z) : octet :=
  let w := Nat.iter (length (sha2_K o) - 16) (BLEND_OP o) (LOAD_OP o input <$> seq 0 16) in
  let '(a, b, c, d, (e, f, g, h)) := foldl (sha2_round o) state (zip (sha2_K o) w) in
  let '(h0, h1, h2, h3, (h4, h5, h6, h7)) := state in
  let add := λ x y, wrap (sha2_w o) (x + y) in
  (add h0 a, add h1 b, add h2 c, add h3 d, (add h4 e, add h5 f, add h6 g, add h7 h)).
Definition sha256_transform : octet → list Z → octet := sha2_transform sha256_ops.

Record fio_sha256_ctx := Sha256 { sha256_count : Z; sha256_state : octet; sha256_buf : list Z }.
Definition sha256_init : octet :=
  (0x6a09e667, 0xbb67ae85, 0x3c6ef372, 0xa54ff53a, (0x510e527f, 0x9b05688c, 0x1f83d9ab, 0x5be0cd19)).
Definition fio_sha256_init (buf : list Z) : fio_sha256_ctx := Sha256 0 sha256_init buf.
Definition fio_sha256_update (sctx : fio_sha256_ctx) (data : list Z) : option fio_sha256_ctx :=
  '(st, buf, _) ← update 64 sha256_transform (sha256_state sctx) (sha256_buf sctx) (Z.land (sha256_count sctx) 0x3f) data;
  Some (Sha256 (u32 (sha256_count sctx + Z.of_nat (length data))) st buf).
(** The length goes in as the machine stores it, and each word of the state is cut to
    a byte of the buffer. *)
Definition fio_sha256_final (sctx : fio_sha256_ctx) : option fio_sha256_ctx :=
  let bits := Z.shiftl (sha256_count sctx) 3 in
  let index := Z.land (sha256_count sctx) 0x3f in
  let pad_len := if index <? 56 then 56 - index else 64 + 56 - index in
  sctx ← fio_sha256_update sctx (take (Z.to_nat pad_len) (0x80 :: replicate 63 0));
  sctx ← fio_sha256_update sctx (le_bytes_of 8 bits);
  let '(h0, h1, h2, h3, (h4, h5, h6, h7)) := sha256_state sctx in
  Some (Sha256 (sha256_count sctx) (sha256_state sctx) (blit 0 (u8 <$> [h0; h1; h2; h3; h4; h5; h6; h7]) (sha256_buf sctx))).

(** ** SHA-512

    There is no function that ends the digest. *)
Definition sha512_K : list Z := [
  0x428a2f98d728ae22; 0x7137449123ef65cd; 0xb5c0fbcfec4d3b2f; 0xe9b5dba58189dbbc; 0x3956c25bf348b538; 0x59f111f1b605d019;
  0x923f82a4af194f9b; 0xab1c5ed5da6d8118; 0xd807aa98a3030242; 0x12835b0145706fbe; 0x243185be4ee4b28c; 0x550c7dc3d5ffb4e2;
  0x72be5d74f27b896f; 0x80deb1fe3b1696b1; 0x9bdc06a725c71235; 0xc19bf174cf692694; 0xe49b69c19ef14ad2; 0xefbe4786384f25e3;
  0x0fc19dc68b8cd5b5; 0x240ca1cc77ac9c65; 0x2de92c6f592b0275; 0x4a7484aa6ea6e483; 0x5cb0a9dcbd41fbd4; 0x76f988da831153b5;
  0x983e5152ee66dfab; 0xa831c66d2db43210; 0xb00327c898fb213f; 0xbf597fc7beef0ee4; 0xc6e00bf33da88fc2; 0xd5a79147930aa725;
  0x06ca6351e003826f; 0x142929670a0e6e70; 0x27b70a8546d22ffc; 0x2e1b21385c26c926; 0x4d2c6dfc5ac42aed; 0x53380d139d95b3df;
  0x650a73548baf63de; 0x766a0abb3c77b2a8; 0x81c2c92e47edaee6; 0x92722c851482353b; 0xa2bfe8a14cf10364; 0xa81a664bbc423001;
  0xc24b8b70d0f89791; 0xc76c51a30654be30; 0xd192e819d6ef5218; 0xd69906245565a910; 0xf40e35855771202a; 0x106aa07032bbd1b8;
  0x19a4c116b8d2d0c8; 0x1e376c085141ab53; 0x2748774cdf8eeb99; 0x34b0bcb5e19b48a8; 0x391c0cb3c5c95a63; 0x4ed8aa4ae3418acb;
  0x5b9cca4f7763e373; 0x682e6ff3d6b2b8a3; 0x748f82ee5defb2fc; 0x78a5636f43172f60; 0x84c87814a1f0ab72; 0x8cc702081a6439ec;
  0x90befffa23631e28; 0xa4506cebde82bde9; 0xbef9a3f7b2c67915; 0xc67178f2e372532b; 0xca273eceea26619c; 0xd186b8c721c0c207;
  0xeada7dd6cde0eb1e; 0xf57d4f7fee6ed178; 0x06f067aa72176fba; 0x0a637dc5a2c898a6; 0x113f9804bef90dae; 0x1b710b35131c471b;
  0x28db77f523047d84; 0x32caab7b40c72493; 0x3c9ebe0a15c9bebc; 0x431d67c49c100d4c; 0x4cc5d4becb3e42b6; 0x597f299cfc657e2a;
  0x5fcb6fab3ad6faec; 0x6c44198c4a475817].
Definition sha512_ops : sha2 :=
  Sha2 64 (λ x, Z.lxor (Z.lxor (ror 64 x 28) (ror 64 x 34)) (ror 64 x 39))
    (λ x, Z.lxor (Z.lxor (ror 64 x 14) (ror 64 x 18)) (ror 64 x 41))
    (λ x, Z.lxor (Z.lxor (ror 64 x 1) (ror 64 x 8)) (Z.shiftr x 7))
    (λ x, Z.lxor (Z.lxor (ror 64 x 19) (ror 64 x 61)) (Z.shiftr x 6)) sha512_K.
Definition sha512_transform : octet → list Z → octet := sha2_transform sha512_ops.

Record fio_sha512_ctx := Sha512 { sha512_state : octet; sha512_count : quad; sha512_buf : list Z }.
Definition sha512_init : octet :=
  (0x6a09e667f3bcc908, 0xbb67ae8584caa73b, 0x3c6ef372fe94f82b, 0xa54ff53a5f1d36f1,
    (0x510e527fade682d1, 0x9b05688c2b3e6c1f, 0x1f83d9abfb41bd6b, 0x5be0cd19137e2179)).
Definition fio_sha512_init (buf : list Z) : fio_sha512_ctx := Sha512 sha512_init (0, 0, 0, 0) buf.
(** The number of bits, carried only when its low word overflows. *)
Definition sha512_add (count : quad) (len : Z) : quad :=
  let '(c0, c1, c2, c3) := count in
  let add := u32 (Z.shiftl len 3) in
  let c0 := u32 (c0 + add) in
  if c0 <? add then
    let c1' := u32 (c1 + 1) in
    let '(c2, c3) := if c1' <? 1 then (let c2' := u32 (c2 + 1) in (c2', if c2' <? 1 then u32 (c3 + 1) else c3)) else (c2, c3) in
    (c0, u32 (c1' + Z.shiftr len 29), c2, c3)
  else (c0, c1, c2, c3).
Definition fio_sha512_update (sctx : fio_sha512_ctx) (data : list Z) : fio_sha512_ctx :=
  let idx := Z.to_nat (Z.land (Z.shiftr (sha512_count sctx).1.1.1 3) 0x7F) in
  let count := sha512_add (sha512_count sctx) (Z.of_nat (length data)) in
  let part_len := (128 - idx)%nat in
  if decide (part_len ≤ length data)%nat then
    let buf := blit idx (take part_len data) (sha512_buf sctx) in
    let st := sha512_transform (sha512_state sctx) buf in
    let '(st, _, data) := blocks_loop 128 sha512_transform (length data) st None (drop part_len data) in
    Sha512 st count (blit 0 data buf)
  else Sha512 (sha512_state sctx) count (blit idx data (sha512_buf sctx)).

(** ** SHA-3 *)
Definition keccakf_rndc : list Z := [
  0x0000000000000001; 0x0000000000008082; 0x800000000000808a; 0x8000000080008000; 0x000000000000808b; 0x0000000080000001;
  0x8000000080008081; 0x8000000000008009; 0x000000000000008a; 0x0000000000000088; 0x0000000080008009; 0x000000008000000a;
  0x000000008000808b; 0x800000000000008b; 0x8000000000008089; 0x8000000000008003; 0x8000000000008002; 0x8000000000000080;
  0x000000000000800a; 0x800000008000000a; 0x8000000080008081; 0x8000000000008080; 0x0000000080000001; 0x8000000080008008].
Definition keccakf_rotc : list Z := [1; 3; 6; 10; 15; 21; 28; 36; 45; 55; 2; 14; 27; 41; 56; 8; 25; 43; 62; 18; 39; 61; 20; 44].
Definition keccakf_piln : list Z := [10; 7; 11; 17; 18; 3; 5; 16; 8; 21; 24; 4; 15; 23; 19; 13; 12; 2; 20; 14; 22; 9; 6; 1].
Definition KECCAK_ROUNDS : nat := 24.
Definition ROTL64 (x y : Z) : Z := Z.lor (u64 (Z.shiftl x y)) (Z.shiftr x (64 - y)).

Definition theta (st : list Z) : list Z :=
  let bc := (λ i, Z.lxor (Z.lxor (Z.lxor (Z.lxor (st !!! i) (st !!! (i + 5)%nat)) (st !!! (i + 10)%nat)) (st !!! (i + 15)%nat))
                    (st !!! (i + 20)%nat)) <$> seq 0 5 in
  (λ k, let i := (k mod 5)%nat in
        Z.lxor (st !!! k) (Z.lxor (bc !!! ((i + 4) mod 5)%nat) (ROTL64 (bc !!! ((i + 1) mod 5)%nat) 1))) <$> seq 0 25.
Definition rho_pi (st : list Z) : list Z :=
  (foldl (λ '(st, t) i, let j := Z.to_nat (keccakf_piln !!! i) in
                        (<[j := ROTL64 t (keccakf_rotc !!! i)]> st, st !!! j)) (st, st !!! 1%nat) (seq 0 24)).1.
Definition chi (st : list Z) : list Z :=
  (λ k, let i := (k mod 5)%nat in let j := (k - i)%nat in
        Z.lxor (st !!! k) (Z.land (u64 (Z.lnot (st !!! (j + (i + 1) mod 5)%nat))) (st !!! (j + (i + 2) mod 5)%nat))) <$> seq 0 25.
Definition keccak_round (st : list Z) (round : nat) : list Z :=
  let st := chi (rho_pi (theta st)) in <[0%nat := Z.lxor (st !!! 0%nat) (keccakf_rndc !!! round)]> st.
Definition keccakf (st : list Z) : list Z := foldl keccak_round st (seq 0 KECCAK_ROUNDS).

Record fio_sha3_ctx := Sha3 { sha3_st : list Z; md_len : Z; rsiz : Z; rsizw : Z; partial : Z; sha3_buf : list Z }.
Definition SHA3_BLOCK_MAX : nat := 144.
Definition fio_sha3_init (digest_sz : Z) : fio_sha3_ctx :=
  let rsiz := 200 - 2 * digest_sz in
  Sha3 (replicate 25 0) digest_sz rsiz (rsiz / 8) 0 (replicate SHA3_BLOCK_MAX 0).
(** The words of a block into the state, and the permutation. *)
Definition sha3_absorb (rsizw : nat) (st : list Z) (src : list Z) : list Z :=
  keccakf (imap (λ i x, if decide (i < rsizw)%nat then Z.lxor x (word_at le_word 8 i src) else x) st).
Definition fio_sha3_update (sctx : fio_sha3_ctx) (data : list Z) : option fio_sha3_ctx :=
  '(st, buf, partial) ← update (rsiz sctx) (sha3_absorb (Z.to_nat (rsizw sctx))) (sha3_st sctx) (sha3_buf sctx) (partial sctx) data;
  Some (Sha3 st (md_len sctx) (rsiz sctx) (rsizw sctx) partial buf).
(** The digest. *)
Definition fio_sha3_final (sctx : fio_sha3_ctx) : list Z :=
  let inlen := Z.to_nat (partial sctx) in
  let rs := Z.to_nat (rsiz sctx) in
  let buf := blit inlen [0x06] (sha3_buf sctx) in
  let buf := blit (inlen + 1) (replicate (rs - (inlen + 1)) 0) buf in
  let buf := blit (rs - 1) [Z.lor (buf !!! (rs - 1)%nat) 0x80] buf in
  let st := sha3_absorb (Z.to_nat (rsizw sctx)) (sha3_st sctx) buf in
  take (Z.to_nat (md_len sctx)) (mjoin (le_bytes_of 8 <$> st)).
