(* ===== verification/DigestSpec.v ===== *)
(** * What the digests compute

    The references: MD5, SHA-1 and SHA-3 of a whole message, padded at once.  The
    theorems: a message taken in any pieces gives the reference's digest. *)
From S2P Require Import Prelude CInt Stream Digest.
#[local] Open Scope Z_scope.

(** ** Padding *)

(** 0x80, zeros, and the length in bits, up to a multiple of 64 bytes. *)
Definition pad64 (len_bytes : Z → list Z) (m : list Z) : list Z :=
  m ++ 0x80 :: replicate (Z.to_nat ((55 - Z.of_nat (length m)) mod 64)) 0 ++ len_bytes (8 * Z.of_nat (length m)).

Definition md5 (m : list Z) : quad := absorbed 64 md5_transform md5_init (pad64 (le_bytes_of 8) m).

(** A list that grows by a function of what it holds. *)
Section grow.
Context (next : list Z → Z).
Definition grow (n : nat) (w : list Z) : list Z := Nat.iter n (λ w, w ++ [next w]) w.
Lemma grow_length n w : length (grow n w) = (n + length w)%nat.
Proof. induction n as [|n IH]; simpl; [done|]. rewrite length_app, IH. simpl. lia. Qed.
Lemma grow_lookup_old n w i : (i < length w)%nat → grow n w !! i = w !! i.
Proof.
  intros Hi. induction n as [|n IH]; simpl; [done|]. rewrite lookup_app_l; [done|]. rewrite grow_length. lia.
Qed.
Lemma grow_lookup_new n w i : (i < n)%nat → grow n w !! (length w + i)%nat = Some (next (grow i w)).
Proof.
  intros Hi. replace n with ((n - S i) + S i)%nat by lia. unfold grow. rewrite Nat.iter_add. fold (grow (S i) w).
  set (g := grow (S i) w). assert (length g = (S i + length w)%nat) as Hg by apply grow_length.
  change (grow (n - S i) g !! (length w + i)%nat = Some (next (grow i w))). rewrite grow_lookup_old by lia.
  unfold g. simpl. rewrite lookup_app_r by (rewrite grow_length; lia). rewrite grow_length.
  replace (length w + i - (i + length w))%nat with 0%nat by lia. done.
Qed.
Lemma grow_grow_lookup n k w i : (i < k + length w)%nat → (k ≤ n)%nat → grow n w !! i = grow k w !! i.
Proof.
  intros Hi Hk. replace n with ((n - k) + k)%nat by lia. unfold grow. rewrite Nat.iter_add. fold (grow k w).
  change (grow (n - k) (grow k w) !! i = grow k w !! i). apply grow_lookup_old. by rewrite grow_length.
Qed.
End grow.


(** ** FIPS 180-4: SHA-1 *)
Definition Parity (x y z : Z) : Z := Z.lxor (Z.lxor x y) z.
Definition fips_Ch (x y z : Z) : Z := Z.lxor (Z.land x y) (Z.ldiff z x).
Definition fips_Maj (x y z : Z) : Z := Z.lxor (Z.lxor (Z.land x y) (Z.land x z)) (Z.land y z).
Definition fips_f (t : nat) : Z → Z → Z → Z :=
  if decide (t < 20)%nat then fips_Ch else if decide (t < 40)%nat then Parity else if decide (t < 60)%nat then fips_Maj else Parity.
Definition fips_next (w : list Z) : Z :=
  let t := length w in
  rol 32 (Z.lxor (Z.lxor (Z.lxor (w !!! (t - 3)%nat) (w !!! (t - 8)%nat)) (w !!! (t - 14)%nat)) (w !!! (t - 16)%nat)) 1.
Definition fips_schedule (block : list Z) : list Z :=
  grow fips_next 64 ((λ i, word_at be_word 4 i block) <$> seq 0 16).
Definition fips_round (w : list Z) (s : quint) (t : nat) : quint :=
  let '(a, b, c, d, e) := s in
  let T := u32 (rol 32 a 5 + fips_f t b c d + e + sha1_const t + w !!! t) in (T, a, rol 32 b 30, c, d).
Definition fips_block (H : quint) (block : list Z) : quint :=
  let '(a, b, c, d, e) := foldl (fips_round (fips_schedule block)) H (seq 0 80) in
  let '(h0, h1, h2, h3, h4) := H in
  (u32 (a + h0), u32 (b + h1), u32 (c + h2), u32 (d + h3), u32 (e + h4)).
Definition sha1 (m : list Z) : quint := absorbed 64 fips_block sha1_init (pad64 (be_bytes_of 8) m).

Lemma fn_fips t b c d : (t < 80)%nat → sha1_fn t b c d = fips_f t b c d.
Proof.
  intros Ht. unfold sha1_fn, fips_f. repeat case_decide; try done; unfold fips_Ch, fips_Maj.
  - apply Z.bits_inj'. intros i _. autorewrite with emu_bits.
    destruct (Z.testbit b i), (Z.testbit c i), (Z.testbit d i); done.
  - rewrite Z.add_nocarry_lxor.
    + apply Z.bits_inj'. intros i _. autorewrite with emu_bits. destruct (Z.testbit b i), (Z.testbit c i), (Z.testbit d i); done.
    + apply Z.bits_inj'. intros i _. autorewrite with emu_bits. destruct (Z.testbit b i), (Z.testbit c i), (Z.testbit d i); done.
Qed.

Lemma schedule_low block t : (t < 16)%nat → fips_schedule block !!! t = SHA_SRC block t.
Proof.
  intros Ht. apply list_lookup_total_correct. unfold fips_schedule. rewrite grow_lookup_old by (by rewrite length_fmap, length_seq).
  rewrite list_lookup_fmap, lookup_seq_lt by done. done.
Qed.
Lemma schedule_high block t (w := fips_schedule block) : (16 ≤ t < 80)%nat →
  w !!! t = rol 32 (Z.lxor (Z.lxor (Z.lxor (w !!! (t - 3)%nat) (w !!! (t - 8)%nat)) (w !!! (t - 14)%nat)) (w !!! (t - 16)%nat)) 1.
Proof.
  intros Ht. unfold w, fips_schedule. set (w0 := _ <$> seq 0 16).
  assert (length w0 = 16%nat) as H0 by (unfold w0; by rewrite length_fmap, length_seq).
  assert (∀ i, (i < t)%nat → grow fips_next (t - 16) w0 !!! i = grow fips_next 64 w0 !!! i) as Hsame.
  { intros i Hi. rewrite !list_lookup_total_alt. f_equal. symmetry. apply grow_grow_lookup; lia. }
  pose proof (grow_lookup_new fips_next 64 w0 (t - 16) ltac:(lia)) as E. rewrite H0 in E.
  replace (16 + (t - 16))%nat with t in E by lia. apply list_lookup_total_correct in E. rewrite E.
  unfold fips_next at 1. rewrite grow_length, H0. replace (t - 16 + 16)%nat with t by lia. rewrite !Hsame by lia. done.
Qed.

(** The rolling array holds the last 16 words of the schedule. *)
Lemma sha1_rounds H data n (w := fips_schedule data) : (n ≤ 80)%nat →
  ∃ array, foldl (SHA_ROUND data) (H, replicate 16 0) (seq 0 n) = (foldl (fips_round w) H (seq 0 n), array) ∧
    length array = 16%nat ∧ ∀ i, (i < n)%nat → (n ≤ i + 16)%nat → array !!! (i mod 16)%nat = w !!! i.
Proof.
  intros Hn. induction n as [|n IH].
  - exists (replicate 16 0). split_and!; [done|done|lia].
  - destruct IH as (array & E & Hl & Ha); [lia|]. rewrite seq_S, !foldl_app, E. cbn [foldl Nat.add].
    set (st := foldl (fips_round w) H (seq 0 n)). destruct st as [[[[a b] c] d] e].
    assert ((if decide (n < 16)%nat then SHA_SRC data n else SHA_MIX array n) = w !!! n) as HT.
    { case_decide; [by rewrite <- schedule_low|]. unfold w. rewrite schedule_high by lia. fold w. unfold SHA_MIX, W.
      assert (∀ k j, (0 < k ≤ 16)%nat → (j = 16 - k)%nat → array !!! ((n + j) mod 16)%nat = w !!! (n - k)%nat) as Hj.
      { intros k j Hk ->. rewrite <- Ha by lia. f_equal. replace (n + (16 - k))%nat with ((n - k) + 1 * 16)%nat by lia. apply Nat.Div0.mod_add. }
      rewrite (Hj 3%nat 13%nat), (Hj 8%nat 8%nat), (Hj 14%nat 2%nat) by lia.
      rewrite <- (Hj 16%nat 0%nat), Nat.add_0_r by lia. done. }
    eexists. unfold SHA_ROUND. rewrite HT, fn_fips by lia. split_and!; [|by rewrite length_insert|].
    + f_equal. unfold fips_round. replace (ror 32 b 2) with (rol 32 b 30) by apply Z.lor_comm. do 5 f_equal. lia.
    + intros i Hi Hi'. destruct (decide (i = n)) as [->|Hne].
      * apply list_lookup_total_insert_eq. rewrite Hl. apply Nat.mod_upper_bound. lia.
      * rewrite list_lookup_total_insert_ne; [apply Ha; lia|]. intros Em.
        pose proof (Nat.div_mod_eq i 16). pose proof (Nat.div_mod_eq n 16). lia.
Qed.
Lemma sha1_block_fips H data : blk_SHA1Block H data = fips_block H data.
Proof.
  unfold blk_SHA1Block, fips_block. destruct (sha1_rounds H data 80) as (array & -> & _); [lia|].
  destruct (foldl _ H _) as [[[[a b] c] d] e], H as [[[[h0 h1] h2] h3] h4]. by rewrite !(Z.add_comm a), !(Z.add_comm b), !(Z.add_comm c), !(Z.add_comm d), !(Z.add_comm e).
Qed.

(** ** MD5 in pieces *)
Lemma pad_zeros (n : nat) :
  Z.to_nat ((55 - Z.of_nat n) mod 64) = if decide (n mod 64 ≤ 55)%nat then (55 - n mod 64)%nat else (119 - n mod 64)%nat.
Proof.
  pose proof (Nat.mod_upper_bound n 64 ltac:(lia)). pose proof (Nat.div_mod_eq n 64) as E. apply (f_equal Z.of_nat) in E.
  case_decide.
  - rewrite <- (Z.mod_unique (55 - Z.of_nat n) 64 (- Z.of_nat (n / 64)) (55 - Z.of_nat (n mod 64))); lia.
  - rewrite <- (Z.mod_unique (55 - Z.of_nat n) 64 (- Z.of_nat (n / 64) - 1) (119 - Z.of_nat (n mod 64))); lia.
Qed.

Definition md5_rep (m : list Z) (c : fio_md5_ctx) : Prop :=
  taken 64 md5_transform md5_init m (md5_hash c) (md5_block c) ∧ byte_count c = u64 (Z.of_nat (length m)).

Lemma count_add w (m d : list Z) : 0 ≤ w → wrap w (wrap w (Z.of_nat (length m)) + Z.of_nat (length d)) = wrap w (Z.of_nat (length (m ++ d))).
Proof. intros. unfold wrap. rewrite Zplus_mod_idemp_l, length_app. f_equal. lia. Qed.

Lemma md5_update_rep m c d : md5_rep m c → md5_rep (m ++ d) (fio_md5_update c d).
Proof.
  intros [Ht Hc]. unfold fio_md5_update. rewrite Hc.
  assert (Z.to_nat (64 - Z.land (u64 (Z.of_nat (length m))) 63) = (64 - length m mod 64)%nat) as ->.
  { pose proof (kept_count 64 (length m)) as E. pose proof (Z.land_nonneg (u64 (Z.of_nat (length m))) 63). unfold u64 in *. lia. }
  pose proof (Nat.mod_upper_bound (length m) 64 ltac:(lia)) as Hm.
  replace (64 - (64 - length m mod 64))%nat with (length m mod 64)%nat by lia. case_decide as Hd.
  - split; simpl; [apply taken_small; [lia|done|lia]|by apply (count_add 64)].
  - set (n := (64 - length m mod 64)%nat) in *. set (block := blit _ (take n d) (md5_block c)).
    destruct (blocks_loop_spec 64 md5_transform ltac:(lia) (length d) (md5_transform (md5_hash c) block) None (drop n d))
      as (last & -> & _ & Hl); [rewrite length_drop; lia|].
    split; simpl; [|by apply (count_add 64)]. apply taken_large; [lia|done|lia|].
    destruct last as [b|]; simpl; [destruct (Hl b eq_refl) as [|]; done|].
    destruct Ht as (Hlen & _). unfold block. rewrite blit_length; [done|]. rewrite length_take. lia.
Qed.

(** The two words of the length are its eight bytes. *)
Lemma len_bytes (n : Z) : 0 ≤ n → le_bytes_of 4 (u32 (Z.shiftl (u64 n) 3)) ++ le_bytes_of 4 (u32 (Z.shiftr (u64 n) 29)) = le_bytes_of 8 (8 * n).
Proof.
  intros Hn. rewrite (le_bytes_of_app 4 4). change (256 ^ Z.of_nat 4) with (2 ^ 32). unfold u32, u64, wrap.
  change (2 ^ 32) with (256 ^ Z.of_nat 4) at 1 2. rewrite !le_bytes_of_mod. f_equal.
  - rewrite <- (le_bytes_of_mod 4 (8 * n)), <- le_bytes_of_mod. change (256 ^ Z.of_nat 4) with (2 ^ 32). f_equal.
    rewrite Z.shiftl_mul_pow2 by lia. rewrite Zmult_mod. rewrite Z.mod_mod_divide; [|by exists (2 ^ 32)].
    rewrite <- Zmult_mod. f_equal. lia.
  - rewrite <- (le_bytes_of_mod 4 (8 * n / 2 ^ 32)), <- le_bytes_of_mod. change (256 ^ Z.of_nat 4) with (2 ^ 32). f_equal.
    rewrite Z.shiftr_div_pow2 by lia. replace (8 * n / 2 ^ 32) with (n / 2 ^ 29).
    + replace (n mod 2 ^ 64) with (n - 2 ^ 29 * (2 ^ 35 * (n / 2 ^ 64))) by (rewrite Z.mod_eq by lia; lia).
      rewrite <- Z.add_opp_r, <- Z.mul_opp_r, Z.mul_comm, Z.div_add by lia.
      replace (- (2 ^ 35 * (n / 2 ^ 64))) with ((- (8 * (n / 2 ^ 64))) * 2 ^ 32) by lia. by rewrite Z.mod_add.
    + change (2 ^ 32) with (8 * 2 ^ 29). by rewrite Z.div_mul_cancel_l.
Qed.

Lemma md5_final_hash m c : md5_rep m c → md5_hash (fio_md5_final c) = md5 m.
Proof.
  intros [Ht Hc]. unfold fio_md5_final, md5, pad64. rewrite Hc, (kept_count 64), pad_zeros by lia. pose proof Ht as (Hlen & _).
  pose proof (Nat.mod_upper_bound (length m) 64 ltac:(lia)) as Hm. set (r := (length m mod 64)%nat) in *.
  assert (∀ block p, length block = 64%nat → take 56 block = p →
    let b1 := blit 56 (le_bytes_of 4 (u32 (Z.shiftl (u64 (Z.of_nat (length m))) 3))) block in
    blit 60 (le_bytes_of 4 (u32 (Z.shiftr (u64 (Z.of_nat (length m))) 29))) b1 = p ++ le_bytes_of 8 (8 * Z.of_nat (length m))) as Hend.
  { intros block p Hb <- b1. rewrite <- len_bytes, app_assoc by lia.
    assert (length b1 = 64%nat) by (unfold b1; rewrite blit_length by (rewrite le_bytes_of_length; lia); done).
    rewrite <- (blit_take 56 60 _ block) by (rewrite ?le_bytes_of_length; lia). fold b1.
    rewrite <- (blit_take 60 64 _ b1) by (rewrite ?le_bytes_of_length; lia). rewrite take_ge; [done|].
    rewrite blit_length by (rewrite le_bytes_of_length; lia). lia. }
  case_decide as Hr.
  - rewrite (proj2 (Z.ltb_ge _ _)) by lia. cbn [md5_hash]. set (z := (55 - r)%nat).
    replace (Z.to_nat (56 - (Z.of_nat r + 1))) with z by (unfold z; lia). set (blk := blit (r + 1) _ _).
    assert (length (blit r [128] (md5_block c)) = 64%nat) as H1 by (rewrite blit_length by (simpl; lia); done).
    rewrite (Hend blk (take r (md5_block c) ++ 128 :: replicate z 0)).
    + rewrite <- app_assoc. rewrite (taken_finish 64 md5_transform ltac:(lia) _ m _ _ _ Ht); [done|].
      fold r. cbn [length]. rewrite length_app, length_replicate, le_bytes_of_length. unfold z. lia.
    + unfold blk. rewrite blit_length by (rewrite length_replicate; unfold z; lia). done.
    + unfold blk. rewrite (blit_take (r + 1) 56) by (rewrite ?length_replicate; unfold z; lia).
      rewrite (blit_take r (r + 1)) by (simpl; lia). by rewrite <- app_assoc.
  - rewrite (proj2 (Z.ltb_lt _ _)) by lia. cbn [md5_hash]. set (z := (63 - r)%nat).
    replace (Z.to_nat (56 - (Z.of_nat r + 1) + 8)) with z by (unfold z; lia). set (blk := blit (r + 1) (replicate z 0) _).
    assert (length (blit r [128] (md5_block c)) = 64%nat) as H1 by (rewrite blit_length by (simpl; lia); done).
    assert (length blk = 64%nat) as H2 by (unfold blk; rewrite blit_length by (rewrite length_replicate; unfold z; lia); done).
    assert (blk = take r (md5_block c) ++ 128 :: replicate z 0) as Eb.
    { rewrite <- (take_ge blk 64) by lia. unfold blk. rewrite (blit_take (r + 1) 64) by (rewrite ?length_replicate; unfold z; lia).
      rewrite (blit_take r (r + 1)) by (simpl; lia). by rewrite <- app_assoc. }
    rewrite (Hend (blit 0 (replicate 56 0) blk) (replicate 56 0)).
    + replace (119 - r)%nat with (z + 56)%nat by (unfold z; lia). rewrite replicate_add, Eb.
      replace (m ++ 128 :: (replicate z 0 ++ replicate 56 0) ++ le_bytes_of 8 (8 * Z.of_nat (length m)))
        with (m ++ (128 :: replicate z 0) ++ replicate 56 0 ++ le_bytes_of 8 (8 * Z.of_nat (length m))) by (simpl; by rewrite <- app_assoc).
      rewrite (taken_finish2 64 md5_transform ltac:(lia) _ m _ _ _ _ Ht); [done| |].
      * fold r. cbn [length]. rewrite length_replicate. unfold z. lia.
      * rewrite length_app, length_replicate, le_bytes_of_length. lia.
    + rewrite blit_length by (rewrite length_replicate; lia). done.
    + rewrite (blit_take 0 56) by (rewrite ?length_replicate; lia). done.
Qed.

(** ** SHA-1 in pieces *)
Definition sha1_rep (m : list Z) (c : fio_sha1_ctx) : Prop :=
  taken 64 blk_SHA1Block sha1_init m (sha1_H c) (sha1_W c) ∧ sha1_size c = u64 (Z.of_nat (length m)).

Lemma blit_rest (data buf : list Z) : (if decide (data = []) then buf else blit 0 data buf) = blit 0 data buf.
Proof. by case_decide; [subst|]. Qed.

Lemma sha1_update_rep m c d : sha1_rep m c → sha1_rep (m ++ d) (fio_sha1_update c d).
Proof.
  intros [Ht Hc]. unfold fio_sha1_update. rewrite Hc, (kept_count 64) by lia. pose proof Ht as (Hlen & _).
  pose proof (Nat.mod_upper_bound (length m) 64 ltac:(lia)) as Hm. set (r := (length m mod 64)%nat) in *.
  assert (u64 (u64 (Z.of_nat (length m)) + Z.of_nat (length d)) = u64 (Z.of_nat (length (m ++ d)))) as Hsz by by apply (count_add 64).
  set (n := (64 - r)%nat). case_decide as Hr.
  - case_decide as Hfull.
    + assert (Nat.min n (length d) = n) as E.
      { destruct (decide (n ≤ length d)%nat); [lia|]. rewrite Nat.mod_small in Hfull by lia. lia. }
      fold n. rewrite E. set (buf := blit r (take n d) (sha1_W c)).
      destruct (blocks_loop_spec 64 blk_SHA1Block ltac:(lia) (length (drop n d)) (blk_SHA1Block (sha1_H c) buf) None (drop n d))
        as (last & -> & _); [lia|]. rewrite blit_rest. split; [|done]. apply taken_large; [lia|done|lia|].
      unfold buf. rewrite blit_length; [done|]. rewrite length_take. lia.
    + fold n in Hfull |- *. assert (length d < n)%nat as Hd.
      { destruct (decide (n ≤ length d)%nat); [|lia]. destruct Hfull. rewrite Nat.min_l by lia. replace (r + n)%nat with 64%nat by lia. done. }
      rewrite Nat.min_r, take_ge by lia. split; [|done]. apply taken_small; [lia|done|lia].
  - destruct (blocks_loop_spec 64 blk_SHA1Block ltac:(lia) (length d) (sha1_H c) None d) as (last & -> & _); [lia|].
    rewrite blit_rest. split; [|done]. assert (length (rest 64 d) < 64)%nat by (rewrite rest_length; apply Nat.mod_upper_bound; lia).
    eapply (taken_aligned 64); [lia|exact Ht|done| |]; simpl.
    + rewrite blit_length; [done|lia].
    + by rewrite (blit_take 0) by lia.
Qed.

Lemma len_bytes_be n : 0 ≤ n → be_bytes_of 4 (u32 (Z.shiftr (u64 n) 29)) ++ be_bytes_of 4 (u32 (Z.shiftl (u64 n) 3)) = be_bytes_of 8 (8 * n).
Proof. intros. unfold be_bytes_of. by rewrite <- reverse_app, len_bytes. Qed.

Lemma absorbed_ext {St} B (f g : St → list Z → St) s m : (∀ s b, f s b = g s b) → absorbed B f s m = absorbed B g s m.
Proof.
  intros E. unfold absorbed. generalize (length m / B)%nat as k. intros k. revert s m. induction k as [|k IH]; intros s m; simpl; [done|]. by rewrite E.
Qed.

Lemma sha1_final_hash m c : sha1_rep m c → sha1_H (fio_sha1_final c) = sha1 m.
Proof.
  intros Hrep. pose proof Hrep as [_ Hc]. unfold fio_sha1_final. rewrite Hc, len_bytes_be by lia.
  pose proof (kept_count 64 (length m) ltac:(lia)) as Hk. fold (u64 (Z.of_nat (length m))) in Hk.
  pose proof (Z.land_nonneg (u64 (Z.of_nat (length m))) 63) as Hnn.
  assert (take (Z.to_nat (1 + Z.land 63 (55 - Z.land (u64 (Z.of_nat (length m))) 63))) (128 :: replicate 63 0) =
    128 :: replicate (Z.to_nat ((55 - Z.of_nat (length m)) mod 64)) 0) as ->.
  { rewrite (Z.land_comm 63). change 63 with (Z.ones 6) at 2. rewrite Z.land_ones by lia. change (2 ^ 6) with 64.
    replace (Z.land (u64 (Z.of_nat (length m))) 63) with (Z.of_nat (length m mod 64)) by lia. rewrite Nat2Z.inj_mod.
    change (Z.of_nat 64) with 64. rewrite Zminus_mod_idemp_r. pose proof (Z.mod_pos_bound (55 - Z.of_nat (length m)) 64 ltac:(lia)).
    set (k := Z.to_nat ((55 - Z.of_nat (length m)) mod 64)). rewrite (Z2Nat.inj_add 1), Nat.add_1_l by lia. fold k.
    cbn [take]. f_equal. rewrite take_replicate. f_equal. unfold k. lia. }
  apply (sha1_update_rep _ _ (128 :: replicate (Z.to_nat ((55 - Z.of_nat (length m)) mod 64)) 0)) in Hrep.
  apply (sha1_update_rep _ _ (be_bytes_of 8 (8 * Z.of_nat (length m)))) in Hrep. destruct Hrep as [(_ & -> & _) _].
  unfold sha1, pad64. rewrite (absorbed_ext _ _ _ _ _ sha1_block_fips). by rewrite <- app_assoc.
Qed.

(** A message in pieces. *)
Lemma pieces_rep {C} (rep : list Z → C → Prop) (upd : C → list Z → C) pieces m c :
  (∀ m c d, rep m c → rep (m ++ d) (upd c d)) → rep m c → rep (m ++ mjoin pieces) (foldl upd c pieces).
Proof.
  intros Hu. revert m c. induction pieces as [|d ds IH]; intros m c Hr; simpl; [by rewrite app_nil_r|].
  rewrite app_assoc. by apply IH, Hu.
Qed.
Lemma sha1_rep_init buf : length buf = 64%nat → sha1_rep [] (fio_sha1_init buf).
Proof. intros. split; [by apply taken_nil|done]. Qed.
Lemma md5_rep_init buf : length buf = 64%nat → md5_rep [] (fio_md5_init buf).
Proof. intros. split; [by apply taken_nil|done]. Qed.

(** C30. SHA-1 and MD5 of a message, whatever the pieces it is taken in: the first is the
    digest of FIPS 180-4, with its own round functions and message schedule, the second
    the digest of the padded message. *)
Theorem digests_of_pieces pieces buf :
  length buf = 64%nat →
  sha1_H (fio_sha1_final (foldl fio_sha1_update (fio_sha1_init buf) pieces)) = sha1 (mjoin pieces) ∧
  md5_hash (fio_md5_final (foldl fio_md5_update (fio_md5_init buf) pieces)) = md5 (mjoin pieces).
Proof.
  intros Hb. split.
  - apply sha1_final_hash. apply (pieces_rep sha1_rep _ pieces []); [apply sha1_update_rep|by apply sha1_rep_init].
  - apply md5_final_hash. apply (pieces_rep md5_rep _ pieces []); [apply md5_update_rep|by apply md5_rep_init].
Qed.
Lemma digests_of_pieces_witness :
  let pieces := [[0x61]; []; [0x62; 0x63]] in
  sha1_H (fio_sha1_final (foldl fio_sha1_update (fio_sha1_init (replicate 64 7)) pieces)) =
    (0xa9993e36, 0x4706816a, 0xba3e2571, 0x7850c26c, 0x9cd0d89d) ∧
  sha1_H (fio_sha1_final (foldl fio_sha1_update (fio_sha1_init (replicate 64 7)) pieces)) = sha1 (mjoin pieces) ∧
  md5_hash (fio_md5_final (foldl fio_md5_update (fio_md5_init (replicate 64 7)) pieces)) = md5 (mjoin pieces).
Proof. split; [vm_compute; reflexivity|]. by apply digests_of_pieces. Defined.

(** ** SHA-256 and SHA-3 in pieces *)
Lemma take_blit_comm {A} B off (src dst : list A) : (off + length src ≤ B ≤ length dst)%nat → take B (blit off src dst) = blit off src (take B dst).
Proof.
  intros H. unfold blit. rewrite take_take, Nat.min_l, app_assoc by lia.
  rewrite take_app_ge by (rewrite length_app, length_take; lia). rewrite length_app, length_take, Nat.min_l, <- app_assoc by lia.
  by rewrite skipn_firstn_comm.
Qed.

Section update.
Context {St : Type} (B : nat) (transform : St → list Z → St) (HB : (0 < B)%nat).

Lemma absorbed_cons s m : (B ≤ length m)%nat → absorbed B transform s m = absorbed B transform (transform s (take B m)) (drop B m).
Proof.
  intros H. destruct (append_large B transform HB s [] m) as [E _].
  - rewrite Nat.Div0.mod_0_l. simpl. lia.
  - rewrite Nat.Div0.mod_0_l, Nat.sub_0_r in E. simpl in E. rewrite E. f_equal. unfold absorbed, rest. simpl length.
    by rewrite Nat.Div0.div_0_l.
Qed.
Lemma absorbed_short s m : (length m < B)%nat → absorbed B transform s m = s.
Proof. intros. unfold absorbed. by rewrite Nat.div_small. Qed.
Lemma rest_drop m : (B ≤ length m)%nat → rest B m = rest B (drop B m).
Proof.
  intros. unfold rest. rewrite length_drop, drop_drop. f_equal.
  replace (length m) with (1 * B + (length m - B))%nat at 1 by lia. rewrite Nat.div_add_l by lia. lia.
Qed.

Lemma do_blocks_spec fuel st done src data k :
  u32 (done + Z.of_nat B) = Z.of_nat k → (k ≤ length data < fuel + k)%nat → Z.of_nat (length data) + Z.of_nat B < 2 ^ 32 →
  do_blocks (Z.of_nat B) transform fuel st done src data =
    Some (absorbed B transform (transform st (take B src)) (drop k data), Z.of_nat (length data - length (rest B (drop k data))), rest B (drop k data)).
Proof.
  revert st done src k. induction fuel as [|fuel IH]; intros st done src k Hk Hf Hlen; [lia|]. cbn [do_blocks].
  rewrite Hk, !Nat2Z.id. rewrite u32_small by lia. destruct (Z.ltb_spec (Z.of_nat k + (Z.of_nat B - 1)) (Z.of_nat (length data))).
  - rewrite (IH _ _ _ (k + B)%nat); [|rewrite u32_small; lia|lia|done].
    rewrite (absorbed_cons _ (drop k data)), (rest_drop (drop k data)) by (rewrite length_drop; lia). by rewrite drop_drop.
  - rewrite absorbed_short by (rewrite length_drop; lia). unfold rest. rewrite Nat.div_small by (rewrite length_drop; lia).
    change (0 * B)%nat with 0%nat. rewrite drop_0, length_drop. do 3 f_equal. lia.
Qed.

Lemma update_spec s0 m st buf d :
  taken B transform s0 m st (take B buf) → (B ≤ length buf)%nat → Z.of_nat (length d) + Z.of_nat B + Z.of_nat B < 2 ^ 32 →
  ∃ st' buf', update (Z.of_nat B) transform st buf (Z.of_nat (length m mod B)) d =
      Some (st', buf', Z.of_nat (length (m ++ d) mod B)) ∧
    taken B transform s0 (m ++ d) st' (take B buf') ∧ length buf' = length buf.
Proof.
  intros Ht Hb Hd. pose proof (Nat.mod_upper_bound (length m) B ltac:(lia)) as Hm. set (r := (length m mod B)%nat) in *.
  unfold update. rewrite (u32_small (Z.of_nat r + _)) by lia. destruct (Z.ltb_spec (Z.of_nat B - 1) (Z.of_nat r + Z.of_nat (length d))).
  - set (n := (B - r)%nat). destruct (append_large B transform HB s0 m d ltac:(lia)) as [_ Er]. fold r n in Er.
    set (b1 := if decide (r = 0%nat) then buf else blit r (take n d) buf).
    assert (length b1 = length buf) as Hl1.
    { unfold b1. case_decide; [done|]. apply blit_length. rewrite length_take. lia. }
    assert (∃ done src, (if negb (Z.of_nat r =? 0) then
        (blit (Z.to_nat (Z.of_nat r)) (take (Z.to_nat (u32 (u32 (- Z.of_nat r) + Z.of_nat B))) d) buf, u32 (- Z.of_nat r),
         blit (Z.to_nat (Z.of_nat r)) (take (Z.to_nat (u32 (u32 (- Z.of_nat r) + Z.of_nat B))) d) buf)
      else (buf, 0, d)) = (b1, done, src) ∧ u32 (done + Z.of_nat B) = Z.of_nat n ∧ take B src = blit r (take n d) (take B buf))
      as (done & src & -> & Hdone & Hsrc).
    { unfold b1. destruct (Z.eqb_spec (Z.of_nat r) 0) as [E|E]; simpl.
      - rewrite decide_True by lia. exists 0, d. split_and!; [done|rewrite u32_small; lia|].
        unfold n. replace r with 0%nat by lia. rewrite Nat.sub_0_r. unfold blit. rewrite length_take, drop_ge by (rewrite length_take; lia).
        simpl. by rewrite app_nil_r.
      - rewrite decide_False by lia.
        assert (u32 (u32 (- Z.of_nat r) + Z.of_nat B) = Z.of_nat n) as En.
        { rewrite u32_add_l. replace (- Z.of_nat r + Z.of_nat B) with (Z.of_nat n) by lia. apply u32_small. lia. }
        rewrite En, !Nat2Z.id. do 2 eexists. split_and!; [done|exact En|]. apply take_blit_comm. rewrite length_take. lia. }
    rewrite (do_blocks_spec _ _ _ _ _ n) by (done || lia). cbn [mbind option_bind]. rewrite Hsrc, <- Er.
    assert (length (rest B (m ++ d)) ≤ length d)%nat as Hrl by (rewrite Er, rest_length, length_drop; pose proof (Nat.Div0.mod_le (length d - n) B); lia).
    rewrite u32_small by lia. replace (Z.to_nat (Z.of_nat (length d) - Z.of_nat (length d - length (rest B (m ++ d)))))
      with (length (rest B (m ++ d))) by lia. rewrite (take_ge (rest B (m ++ d))) by lia. change (Z.to_nat 0) with 0%nat. do 2 eexists. split_and!.
    + do 2 f_equal. rewrite u32_small by lia. rewrite <- rest_length. lia.
    + assert (length (rest B (m ++ d)) < B)%nat by (rewrite rest_length; apply Nat.mod_upper_bound; lia).
      rewrite take_blit_comm, Er by lia. apply taken_large; [done|done|lia|]. rewrite length_take. lia.
    + rewrite blit_length; [done|]. assert (length (rest B (m ++ d)) < B)%nat by (rewrite rest_length; apply Nat.mod_upper_bound; lia). lia.
  - cbn [mbind option_bind]. rewrite Z.sub_0_r, (u32_small (Z.of_nat (length d))), !Nat2Z.id, take_ge, u32_small by lia. do 2 eexists. split_and!.
    + do 2 f_equal. rewrite length_app, <- Nat.Div0.add_mod_idemp_l. fold r. rewrite Nat.mod_small by lia. lia.
    + rewrite take_blit_comm by lia. apply taken_small; [done|done|fold r; lia].
    + apply blit_length. lia.
Qed.

(** A piece that ends a block leaves the block in the buffer. *)
Lemma update_full st buf r d : (0 < r)%nat → (0 < length d)%nat → (r + length d = B)%nat → (length buf = B)%nat → 3 * Z.of_nat B < 2 ^ 32 →
  update (Z.of_nat B) transform st buf (Z.of_nat r) d = Some (transform st (blit r d buf), blit r d buf, 0).
Proof.
  intros Hr Hd Hrd Hb Hlt. unfold update. rewrite (u32_small (Z.of_nat r + _)) by lia.
  destruct (Z.ltb_spec (Z.of_nat B - 1) (Z.of_nat r + Z.of_nat (length d))); [|lia]. destruct (Z.eqb_spec (Z.of_nat r) 0); [lia|].
  assert (u32 (u32 (- Z.of_nat r) + Z.of_nat B) = Z.of_nat (length d)) as En.
  { rewrite u32_add_l. replace (- Z.of_nat r + Z.of_nat B) with (Z.of_nat (length d)) by lia. apply u32_small. lia. }
  cbn [negb]. rewrite En, !Nat2Z.id, (take_ge d) by lia. rewrite (do_blocks_spec _ _ _ _ _ (length d)) by (done || lia).
  cbn [mbind option_bind]. assert (length (blit r d buf) = B) as Hl by (rewrite blit_length; lia).
  rewrite drop_all, take_ge by lia. unfold rest, absorbed. cbn [length]. rewrite Nat.Div0.div_0_l, Nat.sub_0_r. cbn [absorb].
  rewrite u32_small by lia. rewrite Z.sub_diag. do 3 f_equal.
Qed.
End update.

(** FIPS 202: the bits 01, the rule 10*1, up to the end of the block. *)
Definition sha3_pad (n : nat) : list Z := if decide (n = 1%nat) then [0x86] else 0x06 :: replicate (n - 2) 0 ++ [0x80].
Definition sha3 (digest_sz : Z) (m : list Z) : list Z :=
  let rate := Z.to_nat (200 - 2 * digest_sz) in
  take (Z.to_nat digest_sz) (mjoin (le_bytes_of 8 <$>
    absorbed rate (sha3_absorb (rate / 8)) (replicate 25 0) (m ++ sha3_pad (rate - length m mod rate)))).

(** A digest size and a rate of whole words that fits the buffer. *)
Definition sha3_size (digest_sz : Z) : Prop := digest_sz = 28 ∨ digest_sz = 32 ∨ digest_sz = 48 ∨ digest_sz = 64.
Definition sha3_rep (sz : Z) (m : list Z) (c : fio_sha3_ctx) : Prop :=
  let rate := Z.to_nat (200 - 2 * sz) in
  md_len c = sz ∧ rsiz c = 200 - 2 * sz ∧ rsizw c = rsiz c / 8 ∧ length (sha3_buf c) = SHA3_BLOCK_MAX ∧
  partial c = Z.of_nat (length m mod rate) ∧
  taken rate (sha3_absorb (rate / 8)) (replicate 25 0) m (sha3_st c) (take rate (sha3_buf c)).

Lemma sha3_rate sz : sha3_size sz → ∃ k, Z.to_nat (200 - 2 * sz) = (8 * k)%nat ∧ (1 < k ≤ 18)%nat.
Proof. intros [->|[->|[->| ->]]]; [exists 18%nat|exists 17%nat|exists 13%nat|exists 9%nat]; split; (reflexivity || lia). Qed.

Lemma sha3_rep_init sz : sha3_size sz → sha3_rep sz [] (fio_sha3_init sz).
Proof.
  intros Hs. destruct (sha3_rate sz Hs) as (k & E & Hk). unfold sha3_rep. rewrite E. split_and!; try done.
  - simpl partial. rewrite Nat.Div0.mod_0_l. done.
  - apply taken_nil. unfold fio_sha3_init. cbn [sha3_buf]. rewrite length_take, length_replicate. unfold SHA3_BLOCK_MAX. lia.
Qed.

Lemma sha3_update_rep sz m c d : sha3_size sz → sha3_rep sz m c → Z.of_nat (length d) < 2 ^ 32 - 512 →
  ∃ c', fio_sha3_update c d = Some c' ∧ sha3_rep sz (m ++ d) c'.
Proof.
  intros Hs (E1 & E2 & E3 & E4 & E5 & Ht) Hd. destruct (sha3_rate sz Hs) as (k & E & Hk). rewrite E in Ht, E5.
  assert (rsiz c = Z.of_nat (8 * k)) as Er by lia. unfold fio_sha3_update. rewrite E5, E3, Er.
  assert (Z.to_nat (Z.of_nat (8 * k) / 8) = (8 * k / 8)%nat) as -> by (change 8 with (Z.of_nat 8); by rewrite <- Nat2Z.inj_div, Nat2Z.id).
  destruct (update_spec (8 * k) (sha3_absorb (8 * k / 8)) ltac:(lia) _ m _ (sha3_buf c) d Ht) as (st & buf & -> & Ht' & Hl).
  { rewrite E4. unfold SHA3_BLOCK_MAX. lia. }
  { lia. }
  eexists. split; [done|]. unfold sha3_rep. rewrite E. split_and!; cbn; [done|lia|done|by rewrite Hl|done|done].
Qed.

Lemma sha3_absorb_take k st src : sha3_absorb k st (take (8 * k) src) = sha3_absorb k st src.
Proof.
  unfold sha3_absorb. apply (f_equal keccakf), imap_ext. intros i x _. case_decide; [|done]. apply (f_equal (Z.lxor x)). unfold word_at.
  apply (f_equal le_word). rewrite skipn_firstn_comm, take_take. f_equal. lia.
Qed.

(** The padding [fio_sha3_final] writes behind the [r] bytes of the last block. *)
Lemma sha3_padding B r buf : (r < B ≤ length buf)%nat →
  let b1 := blit r [0x06] buf in let b2 := blit (r + 1) (replicate (B - (r + 1)) 0) b1 in
  take B (blit (B - 1) [Z.lor (b2 !!! (B - 1)%nat) 0x80] b2) = take r buf ++ sha3_pad (B - r).
Proof.
  intros H b1 b2. assert (length b1 = length buf) as H1 by (apply blit_length; simpl; lia).
  assert (take B b2 = take r buf ++ 6 :: replicate (B - (r + 1)) 0) as Hb2.
  { unfold b2. rewrite (blit_take (r + 1) B) by (rewrite ?length_replicate; lia).
    unfold b1. rewrite (blit_take r (r + 1)) by (simpl; lia). by rewrite <- app_assoc. }
  assert (length b2 = length buf) as H2 by (unfold b2; rewrite blit_length by (rewrite length_replicate; lia); done).
  rewrite (blit_take (B - 1) B) by (simpl; lia). assert (length (take r buf) = r) as Hr by (rewrite length_take; lia).
  assert (b2 !! (B - 1)%nat = (take r buf ++ 6 :: replicate (B - (r + 1)) 0) !! (B - 1)%nat) as Hl.
  { by rewrite <- Hb2, lookup_take_lt by lia. }
  rewrite lookup_app_r, Hr in Hl by lia. clearbody b2. clear b1 H1.
  assert (take (B - 1) b2 = take (B - 1) (take B b2)) as -> by (rewrite take_take; f_equal; lia). rewrite Hb2.
  rewrite take_app_ge, Hr by lia. rewrite <- app_assoc. unfold sha3_pad. clear Hb2 H2 Hr. case_decide as Hc.
  - replace (B - 1 - r)%nat with 0%nat in * by lia. by rewrite (list_lookup_total_correct _ _ _ Hl).
  - destruct (B - 1 - r)%nat as [|n] eqn:En; [lia|]. replace (B - (r + 1))%nat with (S n) in * by lia. replace (B - r - 2)%nat with n by lia.
    assert ((6 :: replicate (S n) 0) !! S n = Some 0) as Hn by (apply (lookup_replicate_2 (S n) 0 n); lia). rewrite Hn in Hl. rewrite (list_lookup_total_correct _ _ _ Hl).
    cbn [firstn]. rewrite take_replicate, Nat.min_l by lia. done.
Qed.

#[local] Opaque sha3_absorb keccakf.
Lemma sha3_final_digest sz m c : sha3_size sz → sha3_rep sz m c → fio_sha3_final c = sha3 sz m.
Proof.
  intros Hs (E1 & E2 & E3 & E4 & E5 & Ht). destruct (sha3_rate sz Hs) as (k & E & Hk). unfold sha3. rewrite E in Ht, E5 |- *.
  assert (rsiz c = Z.of_nat (8 * k)) as Er by lia. unfold fio_sha3_final. rewrite E5, E3, Er, !Nat2Z.id, E1.
  assert (Z.to_nat (Z.of_nat (8 * k) / 8) = k) as -> by (rewrite Nat2Z.inj_mul, Z.mul_comm, Z.div_mul by lia; lia).
  assert ((8 * k / 8)%nat = k) as Ek by (rewrite Nat.mul_comm; apply Nat.div_mul; lia). rewrite Ek in *.
  pose proof (Nat.mod_upper_bound (length m) (8 * k) ltac:(lia)) as Hm. set (r := (length m mod (8 * k))%nat) in *.
  apply (f_equal (λ st, take (Z.to_nat sz) (mjoin (le_bytes_of 8 <$> st)))).
  rewrite (taken_finish (8 * k) _ ltac:(lia) _ m _ _ (sha3_pad (8 * k - r)) Ht).
  2:{ fold r. unfold sha3_pad. case_decide; [simpl; lia|]. cbn [length]. rewrite length_app, length_replicate. simpl. lia. }
  fold r. rewrite <- sha3_absorb_take. apply (f_equal (sha3_absorb k (sha3_st c))). rewrite take_take, Nat.min_l by lia.
  apply sha3_padding. rewrite E4. unfold SHA3_BLOCK_MAX. lia.
Qed.

(** Pieces to a context whose update can fail. *)
Definition sha3_pieces (c : fio_sha3_ctx) (pieces : list (list Z)) : option fio_sha3_ctx :=
  foldl (λ o d, c ← o; fio_sha3_update c d) (Some c) pieces.

(** C31. SHA-3 of a message, whatever the pieces it is taken in: with the four digest sizes of
    the sources, the last steps give the FIPS 202 sponge of the padded message. *)
Theorem sha3_of_pieces sz pieces :
  sha3_size sz → Forall (λ d, Z.of_nat (length d) < 2 ^ 32 - 512) pieces →
  ∃ c, sha3_pieces (fio_sha3_init sz) pieces = Some c ∧ fio_sha3_final c = sha3 sz (mjoin pieces).
Proof.
  intros Hs Hp. enough (∃ c, sha3_pieces (fio_sha3_init sz) pieces = Some c ∧ sha3_rep sz ([] ++ mjoin pieces) c) as (c & E & Hc).
  { exists c. split; [done|]. by apply sha3_final_digest. }
  generalize (sha3_rep_init sz Hs). generalize (fio_sha3_init sz). generalize (@nil Z) as m. unfold sha3_pieces.
  induction Hp as [|d ds Hd _ IH]; intros m c Hc; cbn [foldl mjoin list_join]; [exists c; by rewrite app_nil_r|].
  cbn [mbind option_bind]. destruct (sha3_update_rep sz m c d Hs Hc Hd) as (c' & -> & Hc').
  rewrite app_assoc. by apply IH.
Qed.
Lemma sha3_of_pieces_witness :
  ∃ c, sha3_pieces (fio_sha3_init 32) [[0x61]; []; [0x62; 0x63]] = Some c ∧ fio_sha3_final c = sha3 32 (mjoin [[0x61]; []; [0x62; 0x63]]).
Proof. apply sha3_of_pieces; [right; by left|]. repeat constructor. Defined.

(** ** What SHA-512 leaves

    No function ends the digest: the buffer of the context holds the last bytes of the message
    over its first block. *)
Lemma sha512_buffer buf d : length buf = 128%nat → (128 ≤ length d)%nat →
  sha512_buf (fio_sha512_update (fio_sha512_init buf) d) = blit 0 (rest 128 d) (take 128 d).
Proof.
  intros Hb Hd. unfold fio_sha512_update, fio_sha512_init. cbn [sha512_count sha512_buf sha512_state fst].
  change (Z.to_nat (Z.land (Z.shiftr 0 3) 127)) with 0%nat. rewrite Nat.sub_0_r, decide_True by done.
  destruct (blocks_loop_spec 128 sha512_transform ltac:(lia) (length d) (sha512_transform sha512_init (blit 0 (take 128 d) buf)) None
    (drop 128 d)) as (last & -> & _); [rewrite length_drop; lia|].
  cbn [sha512_buf]. rewrite <- (rest_drop 128 sha512_transform) by lia. f_equal. unfold blit. simpl.
  rewrite drop_ge by (rewrite length_take; lia). apply app_nil_r.
Qed.

(** ** The bytes SHA-256 leaves

    The contents of the buffer after the last step: the low bytes of the eight words over
    the last padded block, whatever the buffer held before. *)
Definition sha256_pad (n : Z) : list Z := take (Z.to_nat (if n <? 56 then 56 - n else 64 + 56 - n)) (0x80 :: replicate 63 0).
Definition sha256_field (m : list Z) : list Z :=
  let padded := m ++ sha256_pad (Z.land (u32 (Z.of_nat (length m))) 0x3f) in
  let block := rest 64 padded ++ le_bytes_of 8 (Z.shiftl (u32 (Z.of_nat (length m))) 3) in
  let '(h0, h1, h2, h3, (h4, h5, h6, h7)) := sha256_transform (absorbed 64 sha256_transform sha256_init padded) block in
  blit 0 (u8 <$> [h0; h1; h2; h3; h4; h5; h6; h7]) block.

Definition sha256_rep (m : list Z) (c : fio_sha256_ctx) : Prop :=
  sha256_count c = u32 (Z.of_nat (length m)) ∧ length (sha256_buf c) = 64%nat ∧
  taken 64 sha256_transform sha256_init m (sha256_state c) (sha256_buf c).

Lemma sha256_kept n : Z.land (u32 (Z.of_nat n)) 0x3f = Z.of_nat (n mod 64).
Proof.
  rewrite <- (kept_count 32 n) by lia. rewrite Z2Nat.id; [done|]. apply Z.land_nonneg. by right.
Qed.
Lemma sha256_rep_init buf : length buf = 64%nat → sha256_rep [] (fio_sha256_init buf).
Proof. intros. split_and!; [done|done|by apply taken_nil]. Qed.
Lemma sha256_update_rep m c d : sha256_rep m c → Z.of_nat (length d) < 2 ^ 32 - 512 →
  ∃ c', fio_sha256_update c d = Some c' ∧ sha256_rep (m ++ d) c'.
Proof.
  intros (Ec & Hb & Ht) Hd. unfold fio_sha256_update. rewrite Ec, sha256_kept.
  rewrite <- (take_ge (sha256_buf c) 64) in Ht by lia.
  destruct (update_spec 64 sha256_transform ltac:(lia) _ m _ (sha256_buf c) d Ht) as (st & buf & E & Ht' & Hl); [lia|lia|].
  change (Z.of_nat 64) with 64 in E. rewrite E. cbn [mbind option_bind]. eexists. split; [done|].
  split_and!; cbn [sha256_count sha256_buf sha256_state]; [|congruence|by rewrite take_ge in Ht' by lia].
  rewrite u32_add_l, length_app. f_equal. lia.
Qed.
Lemma sha256_final_buf m c : sha256_rep m c → option_map sha256_buf (fio_sha256_final c) = Some (sha256_field m).
Proof.
  intros Hc. pose proof Hc as (Ec & _ & _). unfold fio_sha256_final, sha256_field. rewrite Ec.
  fold (sha256_pad (Z.land (u32 (Z.of_nat (length m))) 63)). set (pad := sha256_pad _).
  pose proof (Nat.mod_upper_bound (length m) 64 ltac:(lia)) as Hr. set (r := (length m mod 64)%nat) in *.
  assert (length pad = if decide (r < 56) then 56 - r else 120 - r)%nat as Hp.
  { unfold pad, sha256_pad. rewrite sha256_kept. fold r. rewrite length_take. cbn [length]. rewrite length_replicate.
    destruct (Z.ltb_spec (Z.of_nat r) 56); case_decide; lia. }
  assert (length (m ++ pad) mod 64 = 56)%nat as H56.
  { rewrite length_app, <- Nat.Div0.add_mod_idemp_l. fold r. rewrite Hp. case_decide; [by replace (r + (56 - r))%nat with 56%nat by lia|].
    by replace (r + (120 - r))%nat with 120%nat by lia. }
  destruct (sha256_update_rep m c pad Hc) as (c1 & -> & (Ec1 & Hb1 & Ht1)); [rewrite Hp; case_decide; lia|]. cbn [mbind option_bind].
  set (bits := Z.shiftl _ 3). unfold fio_sha256_update. rewrite Ec1, sha256_kept, H56.
  pose proof (update_full 64 sha256_transform ltac:(lia) (sha256_state c1) (sha256_buf c1) 56 (le_bytes_of 8 bits)) as E.
  change (Z.of_nat 64) with 64 in E. rewrite E; [|lia|rewrite le_bytes_of_length; lia|rewrite le_bytes_of_length; lia|done|lia]. clear E.
  cbn [mbind option_bind sha256_state sha256_buf]. destruct Ht1 as (_ & -> & Hk). rewrite H56 in Hk.
  assert (blit 56 (le_bytes_of 8 bits) (sha256_buf c1) = rest 64 (m ++ pad) ++ le_bytes_of 8 bits) as ->.
  { unfold blit. rewrite Hk, (drop_ge (sha256_buf c1)) by (rewrite le_bytes_of_length; lia). by rewrite app_nil_r. }
  by destruct (sha256_transform _ _) as [[[[? ?] ?] ?] [[[? ?] ?] ?]].
Qed.
Lemma sha256_field_length m : length (sha256_field m) = 64%nat.
Proof.
  unfold sha256_field. set (pad := sha256_pad _). set (block := rest 64 (m ++ pad) ++ _).
  assert (length block = 64)%nat as Hb.
  { unfold block. rewrite length_app, le_bytes_of_length, rest_length, length_app, <- Nat.Div0.add_mod_idemp_l.
    pose proof (Nat.mod_upper_bound (length m) 64 ltac:(lia)) as Hr. unfold pad, sha256_pad. rewrite sha256_kept.
    set (r := (length m mod 64)%nat) in *. rewrite length_take. cbn [length]. rewrite length_replicate.
    destruct (Z.ltb_spec (Z.of_nat r) 56).
    - by replace (r + Z.to_nat (56 - Z.of_nat r) `min` 64)%nat with 56%nat by lia.
    - by replace (r + Z.to_nat (64 + 56 - Z.of_nat r) `min` 64)%nat with 120%nat by lia. }
  destruct (sha256_transform _ _) as [[[[? ?] ?] ?] [[[? ?] ?] ?]]. by rewrite blit_length; rewrite Hb; [|simpl; lia].
Qed.
