(* ===== verification/Xxhash.v ===== *)
(** * xxHash (src/fio4emu/crc/xxhash.c)

    The 32-bit hash of a buffer in one go, [XXH32], and of a stream taken in pieces,
    [XXH32_resetState], [XXH32_update] and [XXH32_digest], on a little-endian machine.
    The context is returned where the source changes it in place. *)
From S2P Require Import Prelude CInt Stream.
#[local] Open Scope Z_scope.

Definition PRIME32_1 : Z := 2654435761.
Definition PRIME32_2 : Z := 2246822519.
Definition PRIME32_3 : Z := 3266489917.
Definition PRIME32_4 : Z := 668265263.
Definition PRIME32_5 : Z := 374761393.
Definition XXH_rotl32 (x r : Z) : Z := Z.lor (u32 (Z.shiftl x r)) (Z.shiftr x (32 - r)).

Abbreviation lanes := (Z * Z * Z * Z)%type.
(** A lane takes a word; the four lanes take a block of 16 bytes. *)
Definition xxh_lane (v k : Z) : Z := u32 (XXH_rotl32 (u32 (v + u32 (k * PRIME32_2))) 13 * PRIME32_1).
Definition xxh_block (v : lanes) (p : list Z) : lanes :=
  let '(v1, v2, v3, v4) := v in
  (xxh_lane v1 (word_at le_word 4 0 p), xxh_lane v2 (word_at le_word 4 1 p), xxh_lane v3 (word_at le_word 4 2 p),
   xxh_lane v4 (word_at le_word 4 3 p)).
Definition xxh_start (seed : Z) : lanes :=
  (u32 (seed + PRIME32_1 + PRIME32_2), u32 (seed + PRIME32_2), u32 (seed + 0), u32 (seed - PRIME32_1)).
Definition xxh_merge (v : lanes) : Z :=
  let '(v1, v2, v3, v4) := v in u32 (XXH_rotl32 v1 1 + XXH_rotl32 v2 7 + XXH_rotl32 v3 12 + XXH_rotl32 v4 18).

(** The bytes after the blocks: [while (p <= bEnd - 4)], [while (p < bEnd)]. *)
Fixpoint xxh_words (fuel : nat) (h32 : Z) (p : list Z) : Z * list Z :=
  match fuel with
  | O => (h32, p)
  | S f => if decide (4 ≤ length p)%nat
           then xxh_words f (u32 (XXH_rotl32 (u32 (h32 + u32 (word_at le_word 4 0 p * PRIME32_3))) 17 * PRIME32_4)) (drop 4 p)
           else (h32, p)
  end.
Definition xxh_byte (h32 b : Z) : Z := u32 (XXH_rotl32 (u32 (h32 + u32 (b * PRIME32_5))) 11 * PRIME32_1).
Definition xxh_avalanche (h32 : Z) : Z :=
  let h32 := Z.lxor h32 (Z.shiftr h32 15) in
  let h32 := u32 (h32 * PRIME32_2) in
  let h32 := Z.lxor h32 (Z.shiftr h32 13) in
  let h32 := u32 (h32 * PRIME32_3) in
  Z.lxor h32 (Z.shiftr h32 16).
Definition xxh_finish (h32 : Z) (p : list Z) : Z :=
  let '(h32, p) := xxh_words (length p) h32 p in xxh_avalanche (foldl xxh_byte h32 p).

Definition XXH32 (input : list Z) (seed : Z) : Z :=
  let len := length input in
  let '(h32, p) :=
    if decide (16 ≤ len)%nat then let '(v, _, p) := blocks_loop 16 xxh_block len (xxh_start seed) None input in (xxh_merge v, p)
    else (u32 (seed + PRIME32_5), input) in
  xxh_finish (u32 (h32 + Z.of_nat len)) p.

Record XXH_state32_t := XxhState { total_len : Z; xxh_seed : Z; xxh_v : lanes; memsize : Z; xxh_memory : list Z }.
(** What the memory of the context holds before the first piece does not matter. *)
Definition XXH32_resetState (memory : list Z) (seed : Z) : XXH_state32_t := XxhState 0 seed (xxh_start seed) 0 memory.
Definition XXH32_update (state : XXH_state32_t) (input : list Z) : XXH_state32_t :=
  let len := Z.of_nat (length input) in
  let total := u64 (total_len state + len) in
  let m := Z.to_nat (memsize state) in
  if memsize state + len <? 16 then
    XxhState total (xxh_seed state) (xxh_v state) (memsize state + len) (blit m input (xxh_memory state))
  else
    let '(v, memory, size, p) :=
      if negb (memsize state =? 0) then
        let memory := blit m (take (16 - m) input) (xxh_memory state) in
        (xxh_block (xxh_v state) memory, memory, 0, drop (16 - m) input)
      else (xxh_v state, xxh_memory state, memsize state, input) in
    let '(v, _, p) := blocks_loop 16 xxh_block (length p) v None p in
    if decide (0 < length p)%nat then XxhState total (xxh_seed state) v (Z.of_nat (length p)) (blit 0 p memory)
    else XxhState total (xxh_seed state) v size memory.
Definition XXH32_digest (state : XXH_state32_t) : Z :=
  let h32 := if 16 <=? total_len state then xxh_merge (xxh_v state) else u32 (xxh_seed state + PRIME32_5) in
  xxh_finish (u32 (h32 + u32 (total_len state))) (take (Z.to_nat (memsize state)) (xxh_memory state)).

(** ** Theorems *)

(** The context after the bytes [m]. *)
Definition xxh_rep (seed : Z) (m : list Z) (state : XXH_state32_t) : Prop :=
  total_len state = Z.of_nat (length m) ∧ xxh_seed state = seed ∧ memsize state = Z.of_nat (length m mod 16) ∧
  taken 16 xxh_block (xxh_start seed) m (xxh_v state) (xxh_memory state).

Lemma xxh_rep_init memory seed : length memory = 16%nat → xxh_rep seed [] (XXH32_resetState memory seed).
Proof. intros. split_and!; try done. Qed.

Lemma blit_nil {A} (dst : list A) : blit 0 [] dst = dst.
Proof. done. Qed.
Lemma mod16_large (m d : list Z) : (16 ≤ length m mod 16 + length d)%nat →
  (length (m ++ d) mod 16 = length (rest 16 (drop (16 - length m mod 16) d)))%nat.
Proof. intros H. rewrite <- rest_length. f_equal. apply (append_large 16 xxh_block ltac:(lia) (0, 0, 0, 0) m d H). Qed.

Lemma xxh_update_rep seed m state d : xxh_rep seed m state → Z.of_nat (length m + length d) < 2 ^ 64 →
  xxh_rep seed (m ++ d) (XXH32_update state d).
Proof.
  intros (Et & Es & Em & Ht) Hl. pose proof (Nat.mod_upper_bound (length m) 16 ltac:(lia)) as Hr.
  set (r := (length m mod 16)%nat) in *. unfold XXH32_update. rewrite Et, Em, Es, Nat2Z.id, (u64_small (_ + _)) by lia.
  assert (Z.of_nat (length m) + Z.of_nat (length d) = Z.of_nat (length (m ++ d))) as -> by (rewrite length_app; lia).
  destruct (Z.ltb_spec (Z.of_nat r + Z.of_nat (length d)) 16) as [Hs|Hs].
  - split_and!; cbn [total_len xxh_seed memsize xxh_v xxh_memory]; [done|done| |apply taken_small; [lia|done|fold r; lia]].
    rewrite length_app, <- Nat.Div0.add_mod_idemp_l. fold r. rewrite Nat.mod_small by lia. lia.
  - pose proof (mod16_large m d ltac:(fold r; lia)) as Hmod. fold r in Hmod. pose proof Ht as (Hb & _ & _).
    destruct (Z.eqb_spec (Z.of_nat r) 0) as [E0|E0]; cbn [negb].
    + destruct (blocks_loop_spec 16 xxh_block ltac:(lia) (length d) (xxh_v state) None d ltac:(lia)) as (last & -> & _).
      assert (r = 0%nat) as Er by lia. assert (length (m ++ d) mod 16 = length (rest 16 d))%nat as Hm0.
      { rewrite <- rest_length. f_equal. by apply (append_aligned 16 xxh_block ltac:(lia) (0, 0, 0, 0)). }
      pose proof (rest_length 16 d) as Hrl. pose proof (Nat.mod_upper_bound (length d) 16 ltac:(lia)).
      case_decide as Hp; split_and!; cbn [total_len xxh_seed memsize xxh_v xxh_memory]; try done; try lia.
      * apply (taken_aligned 16 xxh_block ltac:(lia) _ m _ _ d _ Ht); [done|rewrite blit_length; lia|].
        by rewrite (blit_take 0) by lia.
      * apply (taken_aligned 16 xxh_block ltac:(lia) _ m _ _ d _ Ht); [done|done|]. by destruct (rest 16 d); [|simpl in Hp; lia].
    + set (n := (16 - r)%nat) in *. set (b := blit r (take n d) (xxh_memory state)).
      destruct (blocks_loop_spec 16 xxh_block ltac:(lia) (length (drop n d)) (xxh_block (xxh_v state) b) None (drop n d) ltac:(lia))
        as (last & -> & _).
      assert (length b = 16%nat) as Hlb by (unfold b; rewrite blit_length by (rewrite length_take; lia); done).
      pose proof (taken_large 16 xxh_block ltac:(lia) (xxh_start seed) m _ _ d b Ht ltac:(fold r; lia) Hlb) as Hlarge.
      fold r n b in Hlarge. case_decide as Hp; split_and!; cbn [total_len xxh_seed memsize xxh_v xxh_memory]; try done; try lia.
      destruct (rest 16 (drop n d)); [|simpl in Hp; lia]. done.
Qed.

Lemma xxh_digest_rep seed m state : xxh_rep seed m state → XXH32_digest state = XXH32 m seed.
Proof.
  intros (Et & Es & Em & Hb & Ev & Hk). unfold XXH32_digest, XXH32. rewrite Et, Es, Em, Nat2Z.id, Hk.
  assert (∀ x, u32 (x + u32 (Z.of_nat (length m))) = u32 (x + Z.of_nat (length m))) as Hu.
  { intros x. by rewrite Z.add_comm, u32_add_l, Z.add_comm. }
  case_decide as Hc.
  - destruct (blocks_loop_spec 16 xxh_block ltac:(lia) (length m) (xxh_start seed) None m ltac:(lia)) as (last & -> & _).
    destruct (Z.leb_spec 16 (Z.of_nat (length m))); [|lia]. by rewrite Hu, Ev.
  - destruct (Z.leb_spec 16 (Z.of_nat (length m))); [lia|]. rewrite Hu. f_equal. unfold rest. by rewrite Nat.div_small by lia.
Qed.

(** C32. xxHash of a stream is xxHash of its bytes in one buffer: whatever the pieces, of
    lengths that fit an [int], and whatever the memory of the context held, [XXH32_digest] after the updates is [XXH32] of
    the pieces joined. *)
Theorem xxh32_of_pieces pieces memory seed :
  length memory = 16%nat → Z.of_nat (length (mjoin pieces)) < 2 ^ 31 →
  XXH32_digest (foldl XXH32_update (XXH32_resetState memory seed) pieces) = XXH32 (mjoin pieces) seed.
Proof.
  intros Hm Hl. apply xxh_digest_rep. change (mjoin pieces) with ([] ++ mjoin pieces).
  generalize (xxh_rep_init memory seed Hm). generalize (XXH32_resetState memory seed).
  change (mjoin pieces) with ([] ++ mjoin pieces) in Hl. revert Hl. generalize (@nil Z) as m.
  induction pieces as [|d ds IH]; intros m Hl st Hst; cbn [foldl mjoin list_join]; [by rewrite app_nil_r|].
  cbn [mjoin list_join] in Hl. rewrite app_assoc in Hl |- *. apply IH; [done|]. apply xxh_update_rep; [done|].
  rewrite !length_app in Hl. enough (2 ^ 31 < 2 ^ 64) by lia. done.
Qed.
Lemma xxh32_of_pieces_witness :
  let pieces := [[0x4e; 0x6f]; []; replicate 40 0x62; [0x21]] in
  XXH32 (mjoin pieces) 1 ≠ XXH32 (mjoin pieces) 2 ∧
  XXH32_digest (foldl XXH32_update (XXH32_resetState (replicate 16 9) 1) pieces) = XXH32 (mjoin pieces) 1.
Proof. split; [by vm_compute|]. apply xxh32_of_pieces; [done|]. by vm_compute. Defined.

(** One piece. *)
Lemma xxh32_once memory seed d : length memory = 16%nat → Z.of_nat (length d) < 2 ^ 31 →
  XXH32_digest (XXH32_update (XXH32_resetState memory seed) d) = XXH32 d seed.
Proof.
  intros Hm Hd. apply xxh_digest_rep. apply (xxh_update_rep seed []); [by apply xxh_rep_init|]. simpl.
  enough (2 ^ 31 < 2 ^ 64) by lia. done.
Qed.

Lemma xxh32_u d seed : is_u 32 (XXH32 d seed).
Proof.
  unfold XXH32, xxh_finish. destruct (if decide _ then _ else _) as [h p]. destruct (xxh_words _ _ p) as [h' p'].
  unfold xxh_avalanche. set (x := u32 (_ * PRIME32_3)). assert (is_u 32 x) by (by apply wrap_is_u).
  apply lxor_is_u; [lia|done|]. by apply shiftr_is_u.
Qed.
