(* ===== verification/Pattern.v ===== *)
(** * Buffer patterns (src/fio4emu/lib/pattern.c, lib/rand.c, verify.c)

    A pattern is copied over a buffer again and again ([cpy_pattern]), compared with
    a buffer without a loop over its bytes ([cmp_pattern]), and may have formats
    pasted in it, of which the program has one, the offset of the block
    ([paste_blockoff]).  [__fill_random_buf_percentage] mixes it with random words.
    Lengths are those of the lists; a buffer is returned where the source writes it
    in place.  The parser of patterns is not modelled. *)
From Stdlib Require Import Sorted.
From S2P Require Import Prelude CInt Stream Rand.
#[local] Open Scope Z_scope.

Definition EINVAL : Z := 22.
Definition EILSEQ : Z := 84.
Definition Zlength_of (l : list Z) : Z := Z.of_nat (length l).

(** ** Copying *)

(** Duplicates the first [pattern_len] bytes all over the buffer; 33 turns are enough. *)
Fixpoint dup_loop (fuel : nat) (out : list Z) (off left len : Z) : option (list Z) :=
  match fuel with
  | O => None
  | S f =>
      if left =? 0 then Some out
      else
        let out := blit (Z.to_nat off) (take (Z.to_nat len) out) out in
        let left := u32 (left - len) in
        let off := u32 (Z.shiftl off 1) in
        dup_loop f out off left (Z.min left off)
  end.
Definition dup_pattern (out : list Z) (pattern_len : Z) : option (list Z) :=
  let out_len := Zlength_of out in
  if out_len <=? pattern_len then Some out
  else
    let off := pattern_len in
    let left := u32 (out_len - off) in
    dup_loop 33 out off left (Z.min left off).

Definition cpy_pattern (pattern out : list Z) : option (Z * list Z) :=
  if (Zlength_of pattern =? 0) || (Zlength_of out =? 0) then Some (- EINVAL, out)
  else
    let len := Z.min (Zlength_of pattern) (Zlength_of out) in
    let out := blit 0 (take (Z.to_nat len) pattern) out in
    out ← dup_pattern out (Zlength_of pattern); Some (0, out).

(** ** Comparing *)
Definition cmp_pattern (pattern : list Z) (off : Z) (buf : list Z) : Z :=
  let len := Zlength_of buf in
  let pattern_size := Zlength_of pattern in
  let differs (a b : list Z) (n : Z) := negb (bool_decide (take (Z.to_nat n) a = take (Z.to_nat n) b)) in
  if (pattern_size <? len) && differs buf (drop (Z.to_nat pattern_size) buf) (len - pattern_size) then - EILSEQ
  else
    let size := Z.min len (u32 (pattern_size - off)) in
    if negb (off =? 0) && differs buf (drop (Z.to_nat off) pattern) size then - EILSEQ
    else
      let '(buf, len) := if off =? 0 then (buf, len) else (drop (Z.to_nat size) buf, len - size) in
      let size := Z.min len (if off =? 0 then pattern_size else off) in
      if negb (len =? 0) && differs buf pattern size then - EILSEQ else 0.

(** ** Formats *)

(** The callback gets the room there is and what it needs of the [io_u], its offset; it
    gives the bytes it writes and its return code. *)
Record pattern_fmt_desc := FmtDesc { desc_len : Z; paste : Z → Z → list Z * Z }.
Record pattern_fmt := PatternFmt { fmt_off : Z; fmt_desc : pattern_fmt_desc }.
Definition paste_blockoff (len offset : Z) : list Z * Z := (take (Z.to_nat (Z.min len 8)) (le_bytes_of 8 offset), 0).
(** The one description of the program, [%o]. *)
Definition blockoff_desc : pattern_fmt_desc := FmtDesc 8 paste_blockoff.

Fixpoint paste_loop (pattern : list Z) (fmt : list pattern_fmt) (priv : Z) : Z * list Z :=
  match fmt with
  | [] => (0, pattern)
  | f :: fmt =>
      if Zlength_of pattern <=? fmt_off f then (0, pattern)
      else
        let len := Z.min (Zlength_of pattern - fmt_off f) (desc_len (fmt_desc f)) in
        let '(bytes, rc) := paste (fmt_desc f) len priv in
        let pattern := blit (Z.to_nat (fmt_off f)) bytes pattern in
        if negb (rc =? 0) then (rc, pattern) else paste_loop pattern fmt priv
  end.
Definition paste_format_inplace (pattern : list Z) (fmt : list pattern_fmt) (priv : Z) : Z * list Z :=
  if Zlength_of pattern =? 0 then (- EINVAL, pattern) else paste_loop pattern fmt priv.

Definition paste_format (pattern : list Z) (fmt : list pattern_fmt) (out : list Z) (priv : Z) : option (Z * list Z) :=
  if (Zlength_of pattern =? 0) || (Zlength_of out =? 0) then Some (- EINVAL, out)
  else
    let len := Z.min (Zlength_of pattern) (Zlength_of out) in
    let out := blit 0 (take (Z.to_nat len) pattern) out in
    let '(rc, head) := paste_format_inplace (take (Z.to_nat len) out) fmt priv in
    let out := blit 0 head out in
    if negb (rc =? 0) then Some (rc, out)
    else out ← dup_pattern out (Zlength_of pattern); Some (0, out).

(** ** Random bytes and a pattern (lib/rand.c) *)

(** The part that is not random. *)
Definition fill_rest (pattern out : list Z) : option (list Z) :=
  if negb (Zlength_of pattern =? 0) then '(_, out) ← cpy_pattern pattern out; Some out
  else Some (replicate (length out) 0).
(** The bytes the loop stores over [out], the buffer from its place on. *)
Fixpoint fill_segments (fuel : nat) (seed percentage segment : Z) (pattern out : list Z) : option (list Z) :=
  match fuel with
  | O => None
  | S f =>
      let len := Zlength_of out in
      if len =? 0 then Some []
      else
        let this_len := u32 (u64 (segment * (u32 (100 - percentage))) / 100) in
        let this_len := Z.min this_len len in
        let random := __fill_random_buf (Z.to_nat this_len) seed in
        let out := drop (Z.to_nat this_len) out in
        let len := len - this_len in
        if len =? 0 then Some random
        else
          let this_len := u32 (segment - this_len) in
          let this_len := if len <? this_len then len else if len - this_len <=? 8 then len else this_len in
          filled ← fill_rest pattern (take (Z.to_nat this_len) out);
          more ← fill_segments f seed percentage segment pattern (drop (Z.to_nat this_len) out);
          Some (random ++ filled ++ more)
  end.
Definition __fill_random_buf_percentage (seed percentage segment : Z) (pattern out : list Z) : option (list Z) :=
  if percentage =? 100 then fill_rest pattern out
  else fill_segments (S (length out)) seed percentage (Z.min segment (Zlength_of out)) pattern out.
Definition fill_random_buf_percentage (fs : frand_state) (percentage segment : Z) (pattern out : list Z) :
    option (Z * list Z * frand_state) :=
  let '(r, fs) := __get_next_seed fs in
  out ← __fill_random_buf_percentage r percentage segment pattern out; Some (r, out, fs).

(** ** Windows of a repeated pattern *)

(** [n] bytes of the pattern repeated for ever, from its byte [off] on. *)
Definition window (pattern : list Z) (off n : nat) : list Z := (λ i, pattern !!! ((off + i) mod length pattern)%nat) <$> seq 0 n.

Lemma window_length p off n : length (window p off n) = n.
Proof. unfold window. by rewrite length_fmap, length_seq. Qed.
Lemma window_lookup p off n i : (i < n)%nat → window p off n !! i = Some (p !!! ((off + i) mod length p)%nat).
Proof. intros. unfold window. rewrite list_lookup_fmap, lookup_seq_lt by done. done. Qed.
Lemma window_take p off n k : (k ≤ n)%nat → take k (window p off n) = window p off k.
Proof.
  intros. apply list_eq. intros i. destruct (decide (i < k)%nat).
  - rewrite lookup_take_lt, !window_lookup by lia. done.
  - rewrite !lookup_ge_None_2; rewrite ?length_take, ?window_length; [done|lia|lia].
Qed.
Lemma window_app p off a b : window p off (a + b) = window p off a ++ window p (off + a) b.
Proof.
  unfold window. rewrite seq_app, fmap_app. f_equal.
  replace (seq (0 + a) b) with (Nat.add a <$> seq 0 b) by (rewrite fmap_add_seq; f_equal; lia). rewrite <- list_fmap_compose.
  apply list_fmap_ext. intros i x _. simpl. do 2 f_equal. lia.
Qed.
Lemma window_drop p off n k : (k ≤ n)%nat → drop k (window p off n) = window p (off + k) (n - k).
Proof.
  intros. replace n with (k + (n - k))%nat at 1 by lia. rewrite window_app, drop_app_ge; rewrite window_length; [|lia].
  by rewrite Nat.sub_diag.
Qed.
Lemma window_period p off n : window p (off + length p) n = window p off n.
Proof. unfold window. apply list_fmap_ext. intros i x _. f_equal. replace (off + length p + x)%nat with (off + x + 1 * length p)%nat by lia. apply Nat.Div0.mod_add. Qed.
Lemma window_multiple p off k n : window p (off + k * length p) n = window p off n.
Proof. induction k as [|k IH]; [f_equal; lia|]. rewrite <- IH, <- (window_period p (off + k * length p)). f_equal. lia. Qed.
Lemma window_mod p off n : (0 < length p)%nat → window p (off mod length p) n = window p off n.
Proof. intros. rewrite (Nat.div_mod_eq off (length p)) at 2. rewrite Nat.add_comm, Nat.mul_comm. by rewrite window_multiple. Qed.
(** Within one copy of the pattern. *)
Lemma window_inside p off n : (off + n ≤ length p)%nat → window p off n = take n (drop off p).
Proof.
  intros. apply list_eq. intros i. destruct (decide (i < n)%nat).
  - rewrite window_lookup, lookup_take_lt, lookup_drop, Nat.mod_small by lia.
    destruct (lookup_lt_is_Some_2 p (off + i) ltac:(lia)) as [x E]. by rewrite (list_lookup_total_correct _ _ _ E).
  - rewrite !lookup_ge_None_2; rewrite ?length_take, ?length_drop, ?window_length; [done|lia|lia].
Qed.

(** ** Copying repeats the pattern *)
Lemma dup_loop_spec fuel q n out off left :
  (0 < length q)%nat → length out = n → 0 ≤ left < 2 ^ 32 → Z.of_nat n < 2 ^ 32 → Z.of_nat n - left = Z.of_nat (n - Z.to_nat left) →
  take (n - Z.to_nat left) out = window q 0 (n - Z.to_nat left) →
  (left = 0 ∨ off = Z.of_nat n - left ∧ 0 < off ∧ (∃ k, Z.to_nat off = k * length q)%nat ∧ Z.of_nat n ≤ off * 2 ^ (Z.of_nat fuel - 1)) →
  (0 < fuel)%nat →
  dup_loop fuel out off left (Z.min left off) = Some (window q 0 n).
Proof.
  intros Hq Hl Hleft Hn. revert out off left Hl Hleft. induction fuel as [|fuel IH]; intros out off left Hl Hleft E Ht Hoff Hf; [lia|].
  cbn [dup_loop]. destruct (Z.eqb_spec left 0) as [->|Hne].
  { rewrite Nat.sub_0_r, take_ge in Ht by lia. by rewrite Ht. }
  destruct Hoff as [?|(-> & Hpos & (k & Ek) & Hb)]; [lia|]. set (off := Z.of_nat n - left) in *.
  set (len := Z.min left off). assert (n - Z.to_nat left = Z.to_nat off)%nat as Eo by lia. rewrite Eo in Ht.
  rewrite (u32_small (left - len)) by lia.
  assert (fuel ≠ 0)%nat as Hfu by (intros ->; change (Z.of_nat 1 - 1) with 0 in Hb; lia).
  assert (take (Z.to_nat len) out = window q 0 (Z.to_nat len)) as Hlen.
  { transitivity (take (Z.to_nat len) (take (Z.to_nat off) out)); [rewrite take_take; f_equal; lia|]. rewrite Ht, window_take by lia. done. }
  assert (length (take (Z.to_nat len) out) = Z.to_nat len) as Hll by (rewrite length_take; lia).
  assert (take (n - Z.to_nat (left - len)) (blit (Z.to_nat off) (take (Z.to_nat len) out) out) = window q 0 (n - Z.to_nat (left - len))) as Ht'.
  { replace (n - Z.to_nat (left - len))%nat with (Z.to_nat off + Z.to_nat len)%nat by lia.
    rewrite (blit_take (Z.to_nat off)) by lia. rewrite Ht, Hlen, window_app. f_equal. rewrite Ek. symmetry. apply (window_multiple q 0 k). }
  assert (length (blit (Z.to_nat off) (take (Z.to_nat len) out) out) = n) as Hl' by (rewrite blit_length; lia).
  destruct (decide (left - len = 0)) as [E0|E0].
  - rewrite E0 in *. apply IH; try done; [lia|by left|lia].
  - assert (len = off) as Elen by lia. assert (Z.shiftl off 1 = 2 * off) as Esh by (rewrite Z.shiftl_mul_pow2 by lia; lia).
    rewrite Esh, (u32_small (2 * off)) by lia.
    apply IH; try done; [lia|lia| |lia]. right. split_and!; [lia|lia| |].
    + exists (2 * k)%nat. lia.
    + replace (2 * off * 2 ^ (Z.of_nat fuel - 1)) with (off * 2 ^ (Z.of_nat (S fuel) - 1)); [done|].
      replace (Z.of_nat (S fuel) - 1) with (Z.succ (Z.of_nat fuel - 1)) by lia. rewrite Z.pow_succ_r by lia. lia.
Qed.

Lemma dup_pattern_spec out pattern_len : 0 < pattern_len → Zlength_of out < 2 ^ 32 →
  dup_pattern out pattern_len =
    Some (if decide (Zlength_of out ≤ pattern_len) then out else window (take (Z.to_nat pattern_len) out) 0 (length out)).
Proof.
  unfold Zlength_of. intros Hp Hl. unfold dup_pattern, Zlength_of. case_decide; destruct (Z.leb_spec (Z.of_nat (length out)) pattern_len); try lia; [done|].
  rewrite u32_small by lia. set (q := take (Z.to_nat pattern_len) out).
  assert (length q = Z.to_nat pattern_len) as Hq by (unfold q; rewrite length_take; lia).
  apply (dup_loop_spec 33 q); try lia.
  - replace (length out - Z.to_nat (Z.of_nat (length out) - pattern_len))%nat with (length q) by lia.
    rewrite window_inside, drop_0, Hq by lia. unfold q. rewrite take_take. f_equal. lia.
  - right. split_and!; [lia|lia|exists 1%nat; lia|]. change (Z.of_nat 33 - 1) with 32. nia.
Qed.

Lemma cpy_pattern_spec pattern out : 0 < Zlength_of pattern → 0 < Zlength_of out < 2 ^ 32 →
  cpy_pattern pattern out = Some (0, window pattern 0 (length out)).
Proof.
  unfold Zlength_of. intros Hp Ho. unfold cpy_pattern, Zlength_of.
  destruct (Z.eqb_spec (Z.of_nat (length pattern)) 0); [lia|]. destruct (Z.eqb_spec (Z.of_nat (length out)) 0); [lia|]. cbn [orb].
  set (k := Z.to_nat (Z.min (Z.of_nat (length pattern)) (Z.of_nat (length out)))).
  assert (length (take k pattern) = k) as Hn by (rewrite length_take; lia).
  assert (length (blit 0 (take k pattern) out) = length out) as Hb by (rewrite blit_length; lia).
  assert (take k (blit 0 (take k pattern) out) = take k pattern) as Ht by (by rewrite (blit_take 0) by lia).
  rewrite dup_pattern_spec; unfold Zlength_of; rewrite ?Hb; [|lia|lia]. rewrite Nat2Z.id. cbn [mbind option_bind]. do 2 f_equal. case_decide.
  - rewrite <- (take_ge (blit 0 _ out) k), Ht by lia. rewrite window_inside by lia. rewrite drop_0. f_equal. lia.
  - f_equal. replace (length pattern) with k by lia. rewrite Ht. apply take_ge. lia.
Qed.

(** ** Comparing decides the repetition *)
Lemma window_periodic p off buf : let n := length buf in let P := length p in (0 < P)%nat →
  buf = window p off n ↔ take (n `min` P) buf = window p off (n `min` P) ∧ ((P < n)%nat → take (n - P) buf = drop P buf).
Proof.
  intros n P HP. split.
  - intros E. rewrite E. split; [by rewrite window_take by lia|]. intros. rewrite window_take, window_drop by lia.
    unfold P. by rewrite window_period.
  - intros [Hh Hp]. apply list_eq. intros i. induction (lt_wf i) as [i _ IH].
    destruct (decide (i < n)%nat); [|rewrite !lookup_ge_None_2; rewrite ?window_length; [done|lia|lia]].
    destruct (decide (i < P)%nat).
    + transitivity (take (n `min` P) buf !! i); [by rewrite lookup_take_lt by lia|]. rewrite Hh, !window_lookup by lia. done.
    + replace i with (P + (i - P))%nat at 1 by lia. rewrite <- lookup_drop, <- Hp, lookup_take_lt, IH, !window_lookup by lia.
      do 2 f_equal. unfold P. replace (off + i)%nat with (off + (i - length p) + 1 * length p)%nat by lia. symmetry. apply Nat.Div0.mod_add.
Qed.

(** The head of the buffer in the two parts [cmp_pattern] looks at. *)
Lemma window_two_parts p off buf : let n := length buf in let P := length p in
  (0 < off < P)%nat → let a := (n `min` (P - off))%nat in let b := ((n - a) `min` off)%nat in
  take (n `min` P) buf = window p off (n `min` P) ↔ take a buf = take a (drop off p) ∧ take b (drop a buf) = take b p.
Proof.
  intros n P Hoff a b. replace (n `min` P)%nat with (a + b)%nat by lia.
  assert (take (a + b) buf = take a buf ++ take b (drop a buf)) as ->.
  { rewrite <- (take_drop a buf) at 1. rewrite take_app_ge; rewrite length_take; [|lia]. do 2 f_equal. lia. }
  assert (window p off (a + b) = take a (drop off p) ++ take b p) as ->.
  { rewrite window_app, window_inside by lia. f_equal. destruct (decide (b = 0)%nat) as [->|]; [done|].
    replace (off + a)%nat with (0 + length p)%nat by lia. rewrite window_period, window_inside by lia. by rewrite drop_0. }
  split; [|by intros [-> ->]]. intros E. apply app_inj_1 in E; [done|]. rewrite !length_take, length_drop. lia.
Qed.

Lemma differs_false (a b : list Z) : negb (bool_decide (a = b)) = false ↔ a = b.
Proof. by rewrite negb_false_iff, bool_decide_eq_true. Qed.

Lemma cmp_pattern_window pattern off buf :
  0 ≤ off < Zlength_of pattern → Zlength_of pattern < 2 ^ 32 →
  cmp_pattern pattern off buf = (if decide (buf = window pattern (Z.to_nat off) (length buf)) then 0 else - EILSEQ).
Proof.
  unfold Zlength_of. intros Hoff HP. unfold cmp_pattern, Zlength_of. set (n := length buf). set (P := length pattern).
  pose proof (window_periodic pattern (Z.to_nat off) buf ltac:(lia)) as Hw. fold n P in Hw.
  rewrite (u32_small (Z.of_nat P - off)) by lia. rewrite Nat2Z.id.
  replace (Z.to_nat (Z.of_nat n - Z.of_nat P)) with (n - P)%nat by lia.
  assert (take (n - P) (drop P buf) = drop P buf) as -> by (apply take_ge; rewrite length_drop; lia).
  destruct ((Z.of_nat P <? Z.of_nat n) && _) eqn:E1.
  { apply andb_true_iff in E1 as [H1%Z.ltb_lt H2]. rewrite negb_true_iff, bool_decide_eq_false in H2.
    rewrite decide_False; [done|]. intros E. apply H2, Hw; [done|lia]. }
  assert ((P < n)%nat → take (n - P) buf = drop P buf) as Hper.
  { intros H. apply andb_false_iff in E1 as [H1%Z.ltb_ge|H1]; [lia|]. by apply differs_false in H1. }
  clear E1.
  destruct (Z.eqb_spec off 0) as [->|Hne]; cbn [negb andb].
  - change (Z.to_nat 0) with 0%nat in *. replace (Z.to_nat (Z.min (Z.of_nat n) (Z.of_nat P))) with (n `min` P)%nat by lia.
    assert (window pattern 0 (n `min` P) = take (n `min` P) pattern) as Hin by (by rewrite window_inside, drop_0 by lia).
    rewrite Hin in Hw. destruct (Z.eqb_spec (Z.of_nat n) 0) as [E0|E0]; cbn [negb andb].
    + rewrite decide_True; [done|]. apply Hw. replace n with 0%nat by lia. split; [done|intros; lia].
    + destruct (negb _) eqn:E2; [|rewrite decide_True; [done|apply Hw; apply differs_false in E2; by split]].
      rewrite decide_False; [done|]. intros E%Hw. apply negb_true_iff, bool_decide_eq_false in E2. tauto.
  - pose proof (window_two_parts pattern (Z.to_nat off) buf ltac:(lia)) as H2. cbn zeta in H2. fold n P in H2.
    set (a := (n `min` (P - Z.to_nat off))%nat) in *. set (b := ((n - a) `min` Z.to_nat off)%nat) in *.
    replace (Z.to_nat (Z.min (Z.of_nat n) (Z.of_nat P - off))) with a by lia.
    replace (Z.to_nat (Z.min (Z.of_nat n - Z.min (Z.of_nat n) (Z.of_nat P - off)) off)) with b by lia.
    destruct (negb (bool_decide (take a buf = _))) eqn:E2.
    { rewrite decide_False; [done|]. intros [E _]%Hw. apply H2 in E as [E _]. apply negb_true_iff, bool_decide_eq_false in E2. tauto. }
    apply differs_false in E2. destruct (negb (_ =? _)) eqn:E3; cbn [andb].
    + destruct (negb (bool_decide _)) eqn:E4; [|rewrite decide_True; [done|apply Hw; apply differs_false in E4; split; [by apply H2|done]]].
      rewrite decide_False; [done|]. intros [E _]%Hw. apply H2 in E as [_ E]. apply negb_true_iff, bool_decide_eq_false in E4. tauto.
    + apply negb_false_iff, Z.eqb_eq in E3. rewrite decide_True; [done|]. apply Hw. split; [|done]. apply H2. split; [done|].
      replace b with 0%nat by lia. done.
Qed.

(** ** Pasting offsets *)
Definition blockoffs (fmt : list pattern_fmt) : Prop := Forall (λ f, fmt_desc f = blockoff_desc ∧ 0 ≤ fmt_off f) fmt.
Definition ordered (fmt : list pattern_fmt) : Prop := StronglySorted (λ f g, fmt_off f ≤ fmt_off g) fmt.

(** What a format writes, with the room there is. *)
Definition pasted (p : list Z) (off : nat) (priv : Z) : list Z := blit off (take ((length p - off) `min` 8) (le_bytes_of 8 priv)) p.
Lemma pasted_length p off priv : (off ≤ length p)%nat → length (pasted p off priv) = length p.
Proof. intros. unfold pasted. apply blit_length. rewrite length_take, le_bytes_of_length. lia. Qed.
Lemma paste_loop_cons p f fmt priv : fmt_desc f = blockoff_desc → 0 ≤ fmt_off f →
  paste_loop p (f :: fmt) priv =
    if decide (Zlength_of p ≤ fmt_off f) then (0, p) else paste_loop (pasted p (Z.to_nat (fmt_off f)) priv) fmt priv.
Proof.
  unfold Zlength_of. intros E Ho. cbn [paste_loop]. unfold Zlength_of. rewrite E. cbn [desc_len paste blockoff_desc]. unfold paste_blockoff.
  case_decide; destruct (Z.leb_spec (Z.of_nat (length p)) (fmt_off f)); try lia; [done|].
  cbn [Z.eqb negb]. unfold pasted. do 4 f_equal. lia.
Qed.

Lemma paste_loop_ok p fmt priv : blockoffs fmt → (paste_loop p fmt priv).1 = 0 ∧ length (paste_loop p fmt priv).2 = length p.
Proof.
  intros H. revert p. induction H as [|f fmt [E Ho] _ IH]; intros p; [done|]. rewrite paste_loop_cons by done. unfold Zlength_of. case_decide; [done|].
  destruct (IH (pasted p (Z.to_nat (fmt_off f)) priv)) as [? ->]. by rewrite pasted_length by lia.
Qed.

Lemma blit_lookup {A} off (src dst : list A) i : (off + length src ≤ length dst)%nat →
  blit off src dst !! i = if decide (off ≤ i < off + length src)%nat then src !! (i - off)%nat else dst !! i.
Proof.
  intros H. unfold blit. assert (length (take off dst) = off) as Hl by (rewrite length_take; lia).
  destruct (decide (i < off)%nat).
  - rewrite decide_False, lookup_app_l, lookup_take_lt by lia. done.
  - rewrite lookup_app_r, Hl by lia. case_decide; [by rewrite lookup_app_l by lia|].
    rewrite lookup_app_r, lookup_drop by lia. f_equal. lia.
Qed.
Lemma take_pasted k p off priv : (off ≤ k ≤ length p)%nat → take k (pasted p off priv) = pasted (take k p) off priv.
Proof.
  intros H. assert (∀ j, length (take j (le_bytes_of 8 priv)) = j `min` 8)%nat as Hj by (intros; by rewrite length_take, le_bytes_of_length).
  unfold pasted. rewrite length_take, (Nat.min_l k) by lia. apply list_eq. intros i. destruct (decide (i < k)%nat).
  - rewrite lookup_take_lt, !blit_lookup by (rewrite ?length_take, ?Hj; lia). rewrite !Hj.
    repeat case_decide; try lia; rewrite !lookup_take_lt by lia; done.
  - rewrite !lookup_ge_None_2; [done| |]; rewrite ?blit_length; rewrite ?length_take, ?le_bytes_of_length; lia.
Qed.
(** Formats behind [k] leave the first [k] bytes. *)
Lemma paste_behind k p fmt priv : blockoffs fmt → Forall (λ f, Z.of_nat k ≤ fmt_off f) fmt →
  take k (paste_loop p fmt priv).2 = take k p.
Proof.
  intros H. revert p. induction H as [|f fmt [E Ho] _ IH]; intros p Hk; [done|]. inversion_clear Hk. rewrite paste_loop_cons by done.
  unfold Zlength_of. case_decide; [done|]. rewrite IH by done. unfold pasted, blit. rewrite take_app_le by (rewrite length_take; lia).
  rewrite take_take. f_equal. lia.
Qed.
Lemma paste_take k p fmt priv : blockoffs fmt → ordered fmt → (k ≤ length p)%nat →
  (paste_loop (take k p) fmt priv).2 = take k (paste_loop p fmt priv).2.
Proof.
  intros H. revert p. induction H as [|f fmt [E Ho] Hf IH]; intros p Hs Hk; [done|]. inversion_clear Hs as [|? ? Hs' Hall].
  rewrite !paste_loop_cons by done. unfold Zlength_of. rewrite length_take, Nat.min_l by lia.
  destruct (decide (Z.of_nat k ≤ fmt_off f)) as [Hb|Hb].
  - case_decide; [done|]. cbn [snd]. rewrite paste_behind; [|done|].
    + unfold pasted, blit. rewrite take_app_le by (rewrite length_take; lia). rewrite take_take. f_equal. lia.
    + eapply Forall_impl; [exact Hall|]. simpl. lia.
  - rewrite decide_False by lia. rewrite <- IH; [|done|rewrite pasted_length; lia]. by rewrite take_pasted by lia.
Qed.

(** Pasting the same offset again changes nothing. *)
Definition covered (fmt : list pattern_fmt) (i : nat) : Prop := Exists (λ f, (Z.to_nat (fmt_off f) ≤ i < Z.to_nat (fmt_off f) + 8)%nat) fmt.
Lemma pasted_lookup p off priv i : (off ≤ length p)%nat →
  pasted p off priv !! i = if decide (off ≤ i < off + (length p - off) `min` 8)%nat then le_bytes_of 8 priv !! (i - off)%nat else p !! i.
Proof.
  intros H. unfold pasted. rewrite blit_lookup by (rewrite length_take, le_bytes_of_length; lia). rewrite length_take, le_bytes_of_length, <- Nat.min_assoc.
  rewrite (Nat.min_id 8). case_decide; [|done]. by rewrite lookup_take_lt by lia.
Qed.
Lemma paste_agree fmt p q priv : blockoffs fmt → ordered fmt → length p = length q → (∀ i, p !! i = q !! i ∨ covered fmt i) →
  (paste_loop p fmt priv).2 = (paste_loop q fmt priv).2.
Proof.
  intros H. revert p q. induction H as [|f fmt [E Ho] Hf IH]; intros p q Hs Hl Ha.
  - simpl. apply list_eq. intros i. destruct (Ha i) as [|Hc]; [done|]. by inversion Hc.
  - inversion_clear Hs as [|? ? Hs' Hall]. rewrite !paste_loop_cons by done. unfold Zlength_of. rewrite <- Hl. case_decide.
    + simpl. apply list_eq. intros i. destruct (decide (i < length p)%nat); [|rewrite !lookup_ge_None_2 by lia; done].
      destruct (Ha i) as [|Hc]; [done|]. exfalso. unfold covered in Hc. rewrite Exists_cons in Hc. destruct Hc as [|Hc]; [lia|].
      apply Exists_exists in Hc as (g & Hg & ?). rewrite Forall_forall in Hall. specialize (Hall g Hg). simpl in Hall. lia.
    + apply IH; [done|rewrite !pasted_length by lia; done|]. intros i. rewrite !pasted_lookup, <- Hl by lia. case_decide; [by left|].
      destruct (Ha i) as [|Hc]; [by left|]. unfold covered in Hc. rewrite Exists_cons in Hc. destruct Hc as [|]; [|by right].
      left. rewrite !lookup_ge_None_2 by lia. done.
Qed.
Lemma paste_keeps fmt p priv i : blockoffs fmt → ¬ covered fmt i → (paste_loop p fmt priv).2 !! i = p !! i.
Proof.
  intros H. revert p. induction H as [|f fmt [E Ho] Hf IH]; intros p Hc; [done|]. unfold covered in Hc. rewrite Exists_cons in Hc.
  rewrite paste_loop_cons by done. unfold Zlength_of. case_decide; [done|]. rewrite IH by tauto. rewrite pasted_lookup by lia.
  case_decide; [|done]. exfalso. apply Hc. left. lia.
Qed.
Lemma paste_idem fmt p priv : blockoffs fmt → ordered fmt →
  (paste_loop (paste_loop p fmt priv).2 fmt priv).2 = (paste_loop p fmt priv).2.
Proof.
  intros H Hs. apply paste_agree; [done|done|by apply paste_loop_ok|]. intros i. destruct (decide (covered fmt i)); [by right|].
  left. by apply paste_keeps.
Qed.

Lemma paste_format_spec pattern fmt out priv :
  0 < Zlength_of pattern → 0 < Zlength_of out < 2 ^ 32 → blockoffs fmt → ordered fmt →
  paste_format pattern fmt out priv = Some (0, window (paste_loop pattern fmt priv).2 0 (length out)).
Proof.
  unfold Zlength_of. intros Hp Ho Hf Hs. unfold paste_format, paste_format_inplace, Zlength_of.
  destruct (Z.eqb_spec (Z.of_nat (length pattern)) 0); [lia|]. destruct (Z.eqb_spec (Z.of_nat (length out)) 0); [lia|]. cbn [orb].
  set (k := Z.to_nat (Z.min (Z.of_nat (length pattern)) (Z.of_nat (length out)))).
  assert (length (take k pattern) = k) as Hk by (rewrite length_take; lia).
  rewrite (blit_take 0 k) by (rewrite ?Hk; lia). rewrite take_0. cbn [app]. rewrite Hk.
  destruct (Z.eqb_spec (Z.of_nat k) 0); [lia|].
  destruct (paste_loop_ok (take k pattern) fmt priv Hf) as [Hrc Hl]. pose proof (paste_take k pattern fmt priv Hf Hs ltac:(lia)) as Ht.
  destruct (paste_loop_ok pattern fmt priv Hf) as [_ Hl']. destruct (paste_loop (take k pattern) fmt priv) as [rc head]. simpl in Hrc, Ht, Hl. subst rc.
  cbn [Z.eqb negb]. set (p' := (paste_loop pattern fmt priv).2) in *.
  assert (length (blit 0 (take k pattern) out) = length out) as Hb by (rewrite blit_length; lia).
  assert (length (blit 0 head (blit 0 (take k pattern) out)) = length out) as Hb' by (rewrite blit_length; lia).
  assert (take k (blit 0 head (blit 0 (take k pattern) out)) = head) as Hh by (by rewrite (blit_take 0 k) by lia).
  rewrite dup_pattern_spec; unfold Zlength_of; rewrite ?Hb'; [|lia|lia]. rewrite Nat2Z.id. cbn [mbind option_bind]. do 2 f_equal. case_decide.
  - rewrite <- (take_ge (blit 0 head _) k), Hh, Ht by lia. rewrite window_inside by lia. rewrite drop_0. f_equal. lia.
  - f_equal. replace (length pattern) with k by lia. rewrite Hh, Ht. apply take_ge. lia.
Qed.

(** ** The mixed fill fills the buffer *)
Lemma fill_rest_length pattern out : Zlength_of out < 2 ^ 32 → ∃ l, fill_rest pattern out = Some l ∧ length l = length out.
Proof.
  unfold Zlength_of. intros Ho. unfold fill_rest, Zlength_of. destruct (Z.eqb_spec (Z.of_nat (length pattern)) 0); cbn [negb].
  - eexists. split; [done|]. apply length_replicate.
  - destruct (decide (out = [])) as [->|Hne].
    + exists []. unfold cpy_pattern, Zlength_of. simpl Z.of_nat. rewrite orb_true_r. done.
    + assert (0 < length out)%nat by (destruct out; [done|simpl; lia]).
      rewrite cpy_pattern_spec by (unfold Zlength_of; lia). eexists. split; [done|]. apply window_length.
Qed.

Lemma fill_segments_length fuel seed percentage segment pattern out :
  0 < segment < 2 ^ 32 → Zlength_of out < 2 ^ 32 → (length out < fuel)%nat →
  ∃ l, fill_segments fuel seed percentage segment pattern out = Some l ∧ length l = length out.
Proof.
  unfold Zlength_of. intros Hs. revert out. induction fuel as [|fuel IH]; intros out Ho Hf; [lia|]. cbn [fill_segments]. unfold Zlength_of.
  destruct (Z.eqb_spec (Z.of_nat (length out)) 0); [exists []; split; [done|simpl; lia]|].
  set (t1 := Z.min (u32 _) _). assert (0 ≤ t1 ≤ Z.of_nat (length out)) as H1.
  { unfold t1. pose proof (u32_range (u64 (segment * u32 (100 - percentage)) / 100)). lia. }
  assert (length (drop (Z.to_nat t1) out) = length out - Z.to_nat t1)%nat as Hd by apply length_drop.
  destruct (Z.eqb_spec (Z.of_nat (length out) - t1) 0).
  { eexists. split; [done|]. rewrite fill_random_buf_length. lia. }
  set (t2 := if _ <? _ then _ else _). set (rest := Z.of_nat (length out) - t1) in *.
  assert (0 ≤ t2 ≤ rest ∧ 0 < t1 + t2) as H2.
  { unfold t2. pose proof (u32_range (segment - t1)). destruct (Z.ltb_spec rest (u32 (segment - t1))); [lia|].
    destruct (Z.leb_spec (rest - u32 (segment - t1)) 8); [lia|]. split; [lia|]. destruct (decide (t1 = 0)) as [->|]; [|lia].
    rewrite Z.sub_0_r, u32_small in * by lia. lia. }
  destruct (fill_rest_length pattern (take (Z.to_nat t2) (drop (Z.to_nat t1) out))) as (l2 & -> & Hl2).
  { unfold Zlength_of. rewrite length_take. lia. }
  destruct (IH (drop (Z.to_nat t2) (drop (Z.to_nat t1) out))) as (l3 & E3 & Hl3); [rewrite !length_drop; lia|rewrite !length_drop; lia|].
  cbn [mbind option_bind]. rewrite E3. cbn [mbind option_bind]. eexists. split; [done|].
  rewrite !length_app, fill_random_buf_length, Hl2, Hl3, length_take, !length_drop. lia.
Qed.

Lemma fill_percentage_length seed percentage segment pattern out :
  0 < segment < 2 ^ 32 → Zlength_of out < 2 ^ 32 →
  ∃ l, __fill_random_buf_percentage seed percentage segment pattern out = Some l ∧ length l = length out.
Proof.
  intros Hs Ho. unfold __fill_random_buf_percentage. destruct (percentage =? 100); [by apply fill_rest_length|].
  destruct (decide (out = [])) as [->|]; [by exists []|].
  assert (0 < length out)%nat by (destruct out; [done|simpl; lia]). unfold Zlength_of in *.
  apply fill_segments_length; unfold Zlength_of; lia.
Qed.

(** Bytes make bytes. *)
Lemma window_forall (P : Z → Prop) p off n : p ≠ [] → Forall P p → Forall P (window p off n).
Proof.
  intros Hp H. unfold window. apply Forall_fmap, Forall_forall. intros i _. simpl. rewrite Forall_lookup in H.
  apply (H ((off + i) mod length p)%nat). apply list_lookup_lookup_total_lt, Nat.mod_upper_bound. by destruct p.
Qed.
Lemma blit_forall (P : Z → Prop) off src dst : Forall P src → Forall P dst → Forall P (blit off src dst).
Proof. intros. unfold blit. rewrite !Forall_app. auto using Forall_take, Forall_drop. Qed.
Lemma paste_loop_bytes p fmt priv : blockoffs fmt → Forall (is_u 8) p → Forall (is_u 8) (paste_loop p fmt priv).2.
Proof.
  intros H. revert p. induction H as [|f fmt [E Ho] _ IH]; intros p Hp; [done|]. rewrite paste_loop_cons by done. unfold Zlength_of. case_decide; [done|].
  apply IH. apply blit_forall; [apply Forall_take, le_bytes_of_bytes|done].
Qed.
Lemma fill_words_bytes fuel len seed : Forall (is_u 8) (fill_words fuel len seed).
Proof.
  assert (∀ n x, Forall (is_u 8) (le_bytes n x)) as Hle.
  { intros n. induction n as [|n IH]; intros x; simpl; [done|]. constructor; [by apply wrap_is_u|done]. }
  revert len seed. induction fuel as [|fuel IH]; intros len seed; simpl; [done|]. case_decide; [done|]. rewrite Forall_app. auto.
Qed.
Lemma fill_rest_bytes pattern out l : Zlength_of out < 2 ^ 32 → Forall (is_u 8) pattern → fill_rest pattern out = Some l → Forall (is_u 8) l.
Proof.
  unfold Zlength_of. intros Ho Hp. unfold fill_rest, Zlength_of. destruct (Z.eqb_spec (Z.of_nat (length pattern)) 0); cbn [negb].
  - intros [= <-]. by apply Forall_replicate.
  - destruct (decide (out = [])) as [->|Hne].
    + unfold cpy_pattern, Zlength_of. simpl Z.of_nat. rewrite orb_true_r. by intros [= <-].
    + assert (0 < length out)%nat by (destruct out; [done|simpl; lia]). rewrite cpy_pattern_spec by (unfold Zlength_of; lia).
      intros [= <-]. apply window_forall; [by destruct pattern|done].
Qed.
Lemma fill_segments_bytes fuel seed percentage segment pattern out l : Zlength_of out < 2 ^ 32 → Forall (is_u 8) pattern →
  fill_segments fuel seed percentage segment pattern out = Some l → Forall (is_u 8) l.
Proof.
  unfold Zlength_of. intros Ho Hp. revert out l Ho. induction fuel as [|fuel IH]; intros out l Ho; [done|]. cbn [fill_segments].
  case_match; [by intros [= <-]|]. case_match; [intros [= <-]; apply fill_words_bytes|].
  set (t1 := Z.to_nat (Z.min _ _)). set (t2 := Z.to_nat (if _ <? _ then _ else _)).
  destruct (fill_rest _ _) as [l2|] eqn:E2; [|done]. cbn [mbind option_bind]. destruct (fill_segments _ _ _ _ _ _) as [l3|] eqn:E3; [|done].
  intros [= <-]. rewrite !Forall_app. split_and!; [apply fill_words_bytes| |].
  - eapply fill_rest_bytes; [|done|exact E2]. unfold Zlength_of. rewrite length_take, length_drop. lia.
  - eapply IH; [|exact E3]. rewrite !length_drop. lia.
Qed.
Lemma fill_percentage_bytes seed percentage segment pattern out l : Zlength_of out < 2 ^ 32 → Forall (is_u 8) pattern →
  __fill_random_buf_percentage seed percentage segment pattern out = Some l → Forall (is_u 8) l.
Proof.
  intros Ho Hp. unfold __fill_random_buf_percentage. case_match; [by apply fill_rest_bytes|by apply fill_segments_bytes].
Qed.

(** [cmp_pattern], which compares the buffer with itself shifted by a pattern and then at
    most two parts of it with the pattern, returns 0 exactly when byte [i] of the buffer is
    byte [off + i], modulo its length, of the pattern: what the loop over the bytes of
    [verify_io_u_pattern] tests, so that its end, [assert(0)], is not reached.  It accepts
    every part of a buffer [cpy_pattern] filled. *)
Theorem cmp_pattern_decides pattern off buf out at_ n :
  0 ≤ off < Zlength_of pattern → Zlength_of pattern < 2 ^ 32 → 0 < Zlength_of out < 2 ^ 32 → (at_ + n ≤ length out)%nat →
  (cmp_pattern pattern off buf = 0 ↔
    ∀ i, (i < length buf)%nat → buf !! i = pattern !! ((Z.to_nat off + i) mod length pattern)%nat) ∧
  ∃ out', cpy_pattern pattern out = Some (0, out') ∧ length out' = length out ∧
    cmp_pattern pattern (Z.of_nat at_ mod Zlength_of pattern) (take n (drop at_ out')) = 0.
Proof.
  intros Hoff HP Ho Hn. split.
  - rewrite cmp_pattern_window by done. unfold Zlength_of in *.
    assert (buf = window pattern (Z.to_nat off) (length buf) ↔
            ∀ i, (i < length buf)%nat → buf !! i = pattern !! ((Z.to_nat off + i) mod length pattern)%nat) as <-.
    { assert (∀ i, pattern !! ((Z.to_nat off + i) mod length pattern)%nat = Some (pattern !!! ((Z.to_nat off + i) mod length pattern)%nat)) as Hsome.
      { intros i. apply list_lookup_lookup_total_lt, Nat.mod_upper_bound. lia. }
      split; [intros E i Hi; rewrite E, window_lookup, Hsome by done; done|]. intros H. apply list_eq. intros i.
      destruct (decide (i < length buf)%nat); [by rewrite H, Hsome, window_lookup|].
      rewrite !lookup_ge_None_2; [done| |]; rewrite ?window_length; lia. }
    case_decide; [done|]. split; [done|tauto].
  - rewrite cpy_pattern_spec by lia. eexists. split; [done|]. split; [apply window_length|]. unfold Zlength_of in *.
    rewrite cmp_pattern_window by (unfold Zlength_of; pose proof (Z.mod_pos_bound (Z.of_nat at_) (Z.of_nat (length pattern))); lia).
    rewrite decide_True; [done|]. rewrite length_take, length_drop, window_length, window_drop, window_take, Nat.min_l by lia.
    rewrite <- Nat2Z.inj_mod, Nat2Z.id. symmetry. apply window_mod. lia.
Qed.
Lemma cmp_pattern_decides_witness :
  (cmp_pattern [1; 2; 3] 1 [2; 3; 1; 2; 3] = 0 ↔
    ∀ i, (i < 5)%nat → [2; 3; 1; 2; 3] !! i = [1; 2; 3] !! ((1 + i) mod 3)%nat) ∧
  ∃ out', cpy_pattern [1; 2; 3] (replicate 20 0) = Some (0, out') ∧ length out' = 20%nat ∧
    cmp_pattern [1; 2; 3] (Z.of_nat 7 mod Zlength_of [1; 2; 3]) (take 10 (drop 7 out')) = 0.
Proof.
  apply (cmp_pattern_decides [1; 2; 3] 1 [2; 3; 1; 2; 3] (replicate 20 0) 7 10);
    unfold Zlength_of; simpl; lia.
Defined.
