(* ===== verification/Verify.v ===== *)
(** * Verification of data (src/fio4emu/verify.c, verify.h)

    Every interval of a written buffer starts with a header, which a checksum of the
    bytes after it may follow; [populate_verify_io_u] fills the buffer and writes the
    headers, [verify_io_u] checks them when the buffer has been read.  The buffer is
    the bytes of the [io_u]; a pointer to a header is the part of the buffer from
    there on, with the number of the header.  An access outside of the buffer, a copy
    of overlapping bytes and a failed [assert] have no result.  Log messages and
    dumps are left out; [fio_crc32c] is the software routine. *)
From S2P Require Import Prelude CInt Stream Crc Digest Xxhash Rand Pattern.
#[local] Open Scope Z_scope.

(** ** Data *)
Definition FIO_HDR_MAGIC : Z := 0xacca.
Inductive verify_kind :=
  VERIFY_NONE | VERIFY_HDR_ONLY | VERIFY_MD5 | VERIFY_CRC64 | VERIFY_CRC32 | VERIFY_CRC32C | VERIFY_CRC32C_INTEL | VERIFY_CRC16
  | VERIFY_CRC7 | VERIFY_SHA256 | VERIFY_SHA512 | VERIFY_SHA3_224 | VERIFY_SHA3_256 | VERIFY_SHA3_384 | VERIFY_SHA3_512
  | VERIFY_XXHASH | VERIFY_SHA1 | VERIFY_PATTERN | VERIFY_PATTERN_NO_HDR | VERIFY_NULL.
#[export] Instance verify_kind_eq_dec : EqDecision verify_kind.
Proof. solve_decision. Defined.
(** The kinds in the order of their numbers. *)
Definition verify_kinds : list verify_kind := [
  VERIFY_NONE; VERIFY_HDR_ONLY; VERIFY_MD5; VERIFY_CRC64; VERIFY_CRC32; VERIFY_CRC32C; VERIFY_CRC32C_INTEL; VERIFY_CRC16;
  VERIFY_CRC7; VERIFY_SHA256; VERIFY_SHA512; VERIFY_SHA3_224; VERIFY_SHA3_256; VERIFY_SHA3_384; VERIFY_SHA3_512;
  VERIFY_XXHASH; VERIFY_SHA1; VERIFY_PATTERN; VERIFY_PATTERN_NO_HDR; VERIFY_NULL].
Definition kind_number (t : verify_kind) : Z :=
  match t with
  | VERIFY_NONE => 0 | VERIFY_HDR_ONLY => 1 | VERIFY_MD5 => 2 | VERIFY_CRC64 => 3 | VERIFY_CRC32 => 4 | VERIFY_CRC32C => 5
  | VERIFY_CRC32C_INTEL => 6 | VERIFY_CRC16 => 7 | VERIFY_CRC7 => 8 | VERIFY_SHA256 => 9 | VERIFY_SHA512 => 10
  | VERIFY_SHA3_224 => 11 | VERIFY_SHA3_256 => 12 | VERIFY_SHA3_384 => 13 | VERIFY_SHA3_512 => 14 | VERIFY_XXHASH => 15
  | VERIFY_SHA1 => 16 | VERIFY_PATTERN => 17 | VERIFY_PATTERN_NO_HDR => 18 | VERIFY_NULL => 19
  end.
Definition kind_of (number : Z) : option verify_kind := zget verify_kinds number.

(** The options, and what verification changes of the thread. *)
Record verify_td := VerifyTd {
  verify : verify_kind; verify_interval : Z; verify_offset : Z; verify_pattern : list Z; verify_fmt : list pattern_fmt;
  bs_unaligned : bool; verify_fatal : bool; verify_only : bool; time_based : bool; trim_zero : bool;
  compress_percentage : Z; buffer_pattern : list Z; td_write : bool; td_rw : bool; one_block_size : bool;
  ver_backlog : bool; fakeio : bool; thread_number : Z;
  verify_state : frand_state; io_issues : Z; td_error : Z; td_terminate : bool }.
#[export] Instance eta_verify_td : Settable verify_td := λ r,
  VerifyTd (verify r) (verify_interval r) (verify_offset r) (verify_pattern r) (verify_fmt r) (bs_unaligned r) (verify_fatal r)
    (verify_only r) (time_based r) (trim_zero r) (compress_percentage r) (buffer_pattern r) (td_write r) (td_rw r)
    (one_block_size r) (ver_backlog r) (fakeio r) (thread_number r) (verify_state r) (io_issues r) (td_error r) (td_terminate r).

Record io_u := IoU {
  buf : list Z; rand_seed : Z; io_verify_offset : Z; io_offset : Z; numberio : Z; is_read : bool; trimmed : bool;
  start_sec : Z; start_nsec : Z; buf_filled_len : Z }.
#[export] Instance eta_io_u : Settable io_u := λ r,
  IoU (buf r) (rand_seed r) (io_verify_offset r) (io_offset r) (numberio r) (is_read r) (trimmed r) (start_sec r)
    (start_nsec r) (buf_filled_len r).
Definition buflen (i : io_u) : Z := Zlength_of (buf i).

Definition td_verror (err : Z) (td : verify_td) : verify_td := if td_error td =? 0 then td <| td_error := err |> else td.

(** Reading and writing memory. *)
Definition region (off len : nat) (mem : list Z) : option (list Z) :=
  if decide (off + len ≤ length mem)%nat then Some (take len (drop off mem)) else None.
Definition store (off : nat) (bytes mem : list Z) : option (list Z) :=
  if decide (off + length bytes ≤ length mem)%nat then Some (blit off bytes mem) else None.

(** ** Headers *)
Definition sizeof_verify_header : Z := 40.
Definition vhdr_size (t : verify_kind) : Z :=
  match t with
  | VERIFY_NONE | VERIFY_HDR_ONLY | VERIFY_NULL | VERIFY_PATTERN | VERIFY_PATTERN_NO_HDR => 0
  | VERIFY_MD5 => 16 | VERIFY_CRC64 => 8 | VERIFY_CRC32C | VERIFY_CRC32 | VERIFY_CRC32C_INTEL => 4 | VERIFY_CRC16 => 2
  | VERIFY_CRC7 => 1 | VERIFY_SHA256 => 64 | VERIFY_SHA512 => 128 | VERIFY_SHA3_224 => 28 | VERIFY_SHA3_256 => 32
  | VERIFY_SHA3_384 => 48 | VERIFY_SHA3_512 => 64 | VERIFY_XXHASH => 4 | VERIFY_SHA1 => 20
  end.
Definition __hdr_size (t : verify_kind) : Z := if decide (t = VERIFY_PATTERN_NO_HDR) then 0 else vhdr_size t + sizeof_verify_header.

(** The members of a header. *)
Definition hdr_field (off n : nat) (hdr : list Z) : option Z := le_word <$> region off n hdr.
Definition hdr_magic := hdr_field 0 2.
Definition hdr_verify_type := hdr_field 2 2.
Definition hdr_len := hdr_field 4 4.
Definition hdr_rand_seed := hdr_field 8 8.
Definition hdr_offset := hdr_field 16 8.
Definition hdr_numberio := hdr_field 34 2.
Definition hdr_crc32 := hdr_field 36 4.

Definition hdr_size (td : verify_td) (hdr : list Z) : option Z :=
  if decide (verify td = VERIFY_PATTERN_NO_HDR) then Some 0
  else t ← hdr_verify_type hdr; t ← kind_of t; Some (__hdr_size t).

Definition get_hdr_inc (td : verify_td) (i : io_u) : Z :=
  if negb (verify_interval td =? 0) && (verify_interval td <=? buflen i) && negb (bs_unaligned td)
  then verify_interval td else buflen i.

Definition __fill_hdr (td : verify_td) (i : io_u) (header_num header_len rand_seed : Z) : list Z :=
  let members :=
    le_bytes_of 2 FIO_HDR_MAGIC ++ le_bytes_of 2 (kind_number (verify td)) ++ le_bytes_of 4 header_len ++ le_bytes_of 8 rand_seed ++
    le_bytes_of 8 (u64 (io_verify_offset i + u32 (header_num * verify_interval td))) ++ le_bytes_of 4 (start_sec i) ++
    le_bytes_of 4 (start_nsec i) ++ le_bytes_of 2 (thread_number td) ++ le_bytes_of 2 (numberio i) in
  members ++ le_bytes_of 4 (crc32c_sw members).
Definition fill_hdr (td : verify_td) (i : io_u) (header_num header_len rand_seed : Z) (hdr : list Z) : option (list Z) :=
  if decide (verify td = VERIFY_PATTERN_NO_HDR) then Some hdr
  else store 0 (__fill_hdr td i header_num header_len rand_seed) hdr.

(** Swaps two parts of a buffer. *)
Definition memswp (buf1 buf2 len : nat) (mem : list Z) : option (list Z) :=
  if decide (200 < len)%nat then None
  else if decide (0 < len ∧ buf1 < buf2 + len ∧ buf2 < buf1 + len)%nat then None
  else swap ← region buf1 len mem; other ← region buf2 len mem; mem ← store buf1 other mem; store buf2 swap mem.

(** ** Checksums

    [junk n] are [n] bytes of memory that nothing has written: local arrays, and what
    [malloc] returns. *)
Section junk.
Context (junk : nat → list Z).

Definition words_bytes (ws : list Z) : list Z := mjoin (le_bytes_of 4 <$> ws).
Definition fill_xxhash (data : list Z) : list Z := le_bytes_of 4 (XXH32_digest (XXH32_update (XXH32_resetState (junk 16) 1) data)).
Definition fill_sha3 (sz : Z) (data : list Z) : option (list Z) := c ← fio_sha3_update (fio_sha3_init sz) data; Some (fio_sha3_final c).
(** The buffer of these two contexts is the place of the digest, with the bytes there were. *)
Definition fill_sha512 (vh data : list Z) : list Z := sha512_buf (fio_sha512_update (fio_sha512_init vh) data).
Definition fill_sha256 (vh data : list Z) : option (list Z) :=
  c ← fio_sha256_update (fio_sha256_init vh) data; c ← fio_sha256_final c; Some (sha256_buf c).
Definition fill_sha1 (data : list Z) : list Z :=
  let '(h0, h1, h2, h3, h4) := sha1_H (fio_sha1_final (fio_sha1_update (fio_sha1_init (replicate 64 0)) data)) in
  words_bytes [h0; h1; h2; h3; h4].
Definition fill_md5 (data : list Z) : list Z :=
  let '(h0, h1, h2, h3) := md5_hash (fio_md5_final (fio_md5_update (fio_md5_init (replicate 64 0)) data)) in
  words_bytes [h0; h1; h2; h3].
Definition fill_crc7 (data : list Z) : option (list Z) := c ← fio_crc7 data; Some (le_bytes_of 1 c).
Definition fill_crc16 (data : list Z) : list Z := le_bytes_of 2 (fio_crc16 data).
Definition fill_crc32 (data : list Z) : list Z := le_bytes_of 4 (fio_crc32 data).
Definition fill_crc32c (data : list Z) : list Z := le_bytes_of 4 (crc32c_sw data).
Definition fill_crc64 (data : list Z) : list Z := le_bytes_of 8 (fio_crc64 data).

(** The switch of [populate_hdr]: the bytes a kind stores after the header, given the bytes
    there and the data; for a kind it does not know, [assert(0)]. *)
Definition fill_sum (t : verify_kind) (vh data : list Z) : option (list Z) :=
  match t with
  | VERIFY_MD5 => Some (fill_md5 data)
  | VERIFY_CRC64 => Some (fill_crc64 data)
  | VERIFY_CRC32C | VERIFY_CRC32C_INTEL => Some (fill_crc32c data)
  | VERIFY_CRC32 => Some (fill_crc32 data)
  | VERIFY_CRC16 => Some (fill_crc16 data)
  | VERIFY_CRC7 => fill_crc7 data
  | VERIFY_SHA256 => fill_sha256 vh data
  | VERIFY_SHA512 => Some (fill_sha512 vh data)
  | VERIFY_SHA3_224 => fill_sha3 28 data
  | VERIFY_SHA3_256 => fill_sha3 32 data
  | VERIFY_SHA3_384 => fill_sha3 48 data
  | VERIFY_SHA3_512 => fill_sha3 64 data
  | VERIFY_XXHASH => Some (fill_xxhash data)
  | VERIFY_SHA1 => Some (fill_sha1 data)
  | _ => None
  end.
Definition nothing_to_do (t : verify_kind) : bool :=
  match t with VERIFY_HDR_ONLY | VERIFY_PATTERN | VERIFY_PATTERN_NO_HDR => true | _ => false end.

(** ** Writing *)
Definition fill_verify_pattern (td : verify_td) (i : io_u) (seed : Z) (use_seed : bool) : option (verify_td * io_u) :=
  let len := buflen i in
  if Zlength_of (verify_pattern td) =? 0 then
    let '(seed, td) :=
      if use_seed then (seed, td)
      else
        let '(r, st) := __rand (verify_state td) in
        let '(r', st) := __rand st in
        (u64 (r * r'), td <| verify_state := st |>) in
    b ← __fill_random_buf_percentage seed (compress_percentage td) len (buffer_pattern td) (buf i);
    Some (td, i <| rand_seed := seed |> <| buf := b |>)
  else if bool_decide (verify_fmt td = []) && (len <=? buf_filled_len i) then Some (td, i)
  else
    '(_, b) ← paste_format (verify_pattern td) (verify_fmt td) (buf i) (io_offset i);
    Some (td, i <| buf := b |> <| buf_filled_len := len |>).

(** [rest] is the buffer from the header on. *)
Definition populate_hdr (td : verify_td) (i : io_u) (header_num header_len : Z) (rest : list Z) : option (verify_td * list Z) :=
  rest ← fill_hdr td i header_num header_len (rand_seed i) rest;
  hs ← hdr_size td rest;
  if header_len <=? hs then Some (td_verror EINVAL td, rest)
  else
    rest ← (if nothing_to_do (verify td) then Some rest
            else
              data ← region (Z.to_nat hs) (Z.to_nat (header_len - hs)) rest;
              vh ← region 40 (Z.to_nat (vhdr_size (verify td))) rest;
              sum ← fill_sum (verify td) vh data;
              store 40 sum rest);
    rest ← (if negb (verify_offset td =? 0) && negb (hs =? 0) then memswp 0 (Z.to_nat (verify_offset td)) (Z.to_nat hs) rest
            else Some rest);
    Some (td, rest).
Fixpoint headers_loop (fuel : nat) (td : verify_td) (i : io_u) (header_num inc : Z) (rest : list Z) : option (verify_td * list Z) :=
  match fuel with
  | O => None
  | S f =>
      if bool_decide (rest = []) then Some (td, [])
      else
        '(td, rest) ← populate_hdr td i header_num inc rest;
        '(td, more) ← headers_loop f td i (u32 (header_num + 1)) inc (drop (Z.to_nat inc) rest);
        Some (td, take (Z.to_nat inc) rest ++ more)
  end.
Definition fill_pattern_headers (td : verify_td) (i : io_u) (seed : Z) (use_seed : bool) : option (verify_td * io_u) :=
  '(td, i) ← fill_verify_pattern td i seed use_seed;
  '(td, b) ← headers_loop (S (length (buf i))) td i 0 (get_hdr_inc td i) (buf i);
  Some (td, i <| buf := b |>).
Definition populate_verify_io_u (td : verify_td) (i : io_u) : option (verify_td * io_u) :=
  if decide (verify td = VERIFY_NULL) then Some (td, i)
  else fill_pattern_headers td (i <| numberio := u16 (io_issues td) |>) 0 false.

(** ** Reading *)

(** Each handler gets the bytes after the header and the data; 0 or an error. *)
Definition verdict (ok : bool) : Z := if ok then 0 else EILSEQ.
Definition memeq (a b : list Z) : bool := bool_decide (a = b).
Definition verify_io_u_xxhash (vh data : list Z) : Z :=
  let hash := XXH32_digest (XXH32_update (XXH32_resetState (junk 16) 1) data) in verdict (le_word vh =? hash).
Definition verify_io_u_sha3 (sz : Z) (vh data : list Z) : option Z :=
  c ← fio_sha3_update (fio_sha3_init sz) data; Some (verdict (memeq vh (fio_sha3_final c))).
Definition verify_io_u_sha512 (vh data : list Z) : Z :=
  verdict (memeq vh (sha512_buf (fio_sha512_update (fio_sha512_init (junk 128)) data))).
Definition verify_io_u_sha256 (vh data : list Z) : option Z :=
  c ← fio_sha256_update (fio_sha256_init (junk 64)) data;
  c ← fio_sha256_final c;
  Some (verdict (memeq vh (sha256_buf c))).
Definition verify_io_u_sha1 (vh data : list Z) : Z :=
  let '(h0, h1, h2, h3, h4) := sha1_H (fio_sha1_final (fio_sha1_update (fio_sha1_init (replicate 64 0)) data)) in
  verdict (memeq vh (words_bytes [h0; h1; h2; h3; h4])).
Definition verify_io_u_crc7 (vh data : list Z) : option Z := c ← fio_crc7 data; Some (verdict (u8 c =? le_word vh)).
Definition verify_io_u_crc16 (vh data : list Z) : Z := verdict (u16 (fio_crc16 data) =? le_word vh).
Definition verify_io_u_crc64 (vh data : list Z) : Z := verdict (u64 (fio_crc64 data) =? le_word vh).
Definition verify_io_u_crc32 (vh data : list Z) : Z := verdict (u32 (fio_crc32 data) =? le_word vh).
Definition verify_io_u_crc32c (vh data : list Z) : Z := verdict (u32 (crc32c_sw data) =? le_word vh).
Definition verify_io_u_md5 (vh data : list Z) : Z :=
  let '(h0, h1, h2, h3) := md5_hash (fio_md5_final (fio_md5_update (fio_md5_init (replicate 64 0)) data)) in
  verdict (memeq vh (words_bytes [h0; h1; h2; h3])).
Definition verify_sum (t : verify_kind) (vh data : list Z) : option Z :=
  match t with
  | VERIFY_MD5 => Some (verify_io_u_md5 vh data)
  | VERIFY_CRC64 => Some (verify_io_u_crc64 vh data)
  | VERIFY_CRC32C | VERIFY_CRC32C_INTEL => Some (verify_io_u_crc32c vh data)
  | VERIFY_CRC32 => Some (verify_io_u_crc32 vh data)
  | VERIFY_CRC16 => Some (verify_io_u_crc16 vh data)
  | VERIFY_CRC7 => verify_io_u_crc7 vh data
  | VERIFY_SHA256 => verify_io_u_sha256 vh data
  | VERIFY_SHA512 => Some (verify_io_u_sha512 vh data)
  | VERIFY_SHA3_224 => verify_io_u_sha3 28 vh data
  | VERIFY_SHA3_256 => verify_io_u_sha3 32 vh data
  | VERIFY_SHA3_384 => verify_io_u_sha3 48 vh data
  | VERIFY_SHA3_512 => verify_io_u_sha3 64 vh data
  | VERIFY_XXHASH => Some (verify_io_u_xxhash vh data)
  | VERIFY_SHA1 => Some (verify_io_u_sha1 vh data)
  | _ => None
  end.
(** The data of header [hdr_num], [io_u_verify_off], up to the length in the header. *)
Definition io_u_data (td : verify_td) (hdr_num : Z) (hdr mem : list Z) : option (list Z) :=
  len ← hdr_len hdr; hs ← hdr_size td hdr;
  region (Z.to_nat (u32 (hdr_num * len) + hs)) (Z.to_nat (u32 (len - hs))) mem.

(** The loop over the bytes after [cmp_pattern] has found a difference. *)
Fixpoint slow_path (pattern : list Z) (mod_ : Z) (data : list Z) : option Z :=
  match data with
  | [] => None
  | b :: data =>
      if negb (b =? pattern !!! Z.to_nat mod_) then Some EILSEQ
      else slow_path pattern (if mod_ + 1 =? Zlength_of pattern then 0 else mod_ + 1) data
  end.
Definition verify_io_u_pattern (td : verify_td) (i : io_u) (hdr_num : Z) (rest : list Z) : option (Z * verify_td) :=
  if Zlength_of (verify_pattern td) =? 0 then None
  else
    let header_size := __hdr_size (verify td) in
    let '(_, pattern) := paste_format_inplace (verify_pattern td) (verify_fmt td) (io_offset i) in
    let td := td <| verify_pattern := pattern |> in
    data ← region (Z.to_nat header_size) (Z.to_nat (u32 (get_hdr_inc td i - header_size))) rest;
    let mod_ := u32 (u32 (get_hdr_inc td i * hdr_num) + header_size) mod Zlength_of pattern in
    if cmp_pattern pattern mod_ data =? 0 then Some (0, td)
    else r ← slow_path pattern mod_ data; Some (r, td).

Definition verify_header (td : verify_td) (i : io_u) (hdr_num len : Z) (hdr : list Z) : option Z :=
  magic ← hdr_magic hdr;
  if negb (magic =? FIO_HDR_MAGIC) then Some EILSEQ
  else
  l ← hdr_len hdr;
  if negb (l =? len) then Some EILSEQ
  else
  seed ← hdr_rand_seed hdr;
  if negb (seed =? rand_seed i) then Some EILSEQ
  else
  off ← hdr_offset hdr;
  if negb (off =? u64 (io_verify_offset i + u32 (hdr_num * verify_interval td))) then Some EILSEQ
  else
  nr ← hdr_numberio hdr;
  if td_write td && one_block_size td && negb (time_based td) && negb (verify_only td) && negb (nr =? numberio i) then Some EILSEQ
  else
  covered ← region 0 36 hdr;
  crc ← hdr_crc32 hdr;
  if negb (crc32c_sw covered =? crc) then Some EILSEQ else Some 0.

(** The switch of [verify_io_u]. *)
Definition verify_body (td : verify_td) (i : io_u) (hdr_num : Z) (before rest : list Z) : option (Z * verify_td) :=
  t ← (if decide (verify td = VERIFY_NONE) then n ← hdr_verify_type rest; Some (kind_of n) else Some (Some (verify td)));
  match t with
  | Some VERIFY_HDR_ONLY => if Zlength_of (verify_pattern td) =? 0 then Some (0, td) else verify_io_u_pattern td i hdr_num rest
  | Some VERIFY_PATTERN | Some VERIFY_PATTERN_NO_HDR => verify_io_u_pattern td i hdr_num rest
  | Some VERIFY_NONE | Some VERIFY_NULL | None => Some (EINVAL, td)
  | Some t =>
      vh ← region 40 (Z.to_nat (vhdr_size t)) rest;
      data ← io_u_data td hdr_num rest (before ++ rest);
      r ← verify_sum t vh data; Some (r, td)
  end.
(** One turn: the result, whether [verify_io_u] returns at once, and the new state. *)
Definition verify_turn (td : verify_td) (i : io_u) (hdr_num inc : Z) (before rest : list Z) :
    option (Z * bool * verify_td * io_u * list Z) :=
  rest ← (if negb (verify_offset td =? 0)
          then memswp 0 (Z.to_nat (verify_offset td)) (Z.to_nat (__hdr_size (verify td))) rest else Some rest);
  i ← (if negb (td_rw td) || ver_backlog td then seed ← hdr_rand_seed rest; Some (i <| rand_seed := seed |>) else Some i);
  ret ← (if decide (verify td = VERIFY_PATTERN_NO_HDR) then Some 0 else verify_header td i hdr_num inc rest);
  if negb (ret =? 0) then Some (ret, true, td, i, rest)
  else '(ret, td) ← verify_body td i hdr_num before rest; Some (ret, false, td, i, rest).
Fixpoint verify_loop (fuel : nat) (td : verify_td) (i : io_u) (ret hdr_num inc : Z) (before rest : list Z) :
    option (Z * bool * verify_td * io_u) :=
  match fuel with
  | O => None
  | S f =>
      if bool_decide (rest = []) || (negb (ret =? 0) && verify_fatal td) then Some (ret, false, td, i <| buf := before ++ rest |>)
      else
        '(ret, early, td, i, rest) ← verify_turn td i hdr_num inc before rest;
        if (early : bool) then Some (ret, true, td, i <| buf := before ++ rest |>)
        else verify_loop f td i ret (u32 (hdr_num + 1)) inc (before ++ take (Z.to_nat inc) rest) (drop (Z.to_nat inc) rest)
  end.

(** A trimmed block reads as zeroes; the first 16 bytes are looked at one by one, and the rest
    compared with the bytes 16 places before. *)
Fixpoint mem_is_zero_head (len : nat) (p : list Z) : bool + list Z :=
  match len with
  | O => inr p
  | S len => match p with [] => inl true | b :: p => if negb (b =? 0) then inl false else mem_is_zero_head len p end
  end.
Definition mem_is_zero (data : list Z) : bool :=
  match mem_is_zero_head 16 data with inl r => r | inr p => bool_decide (take (length p) data = p) end.
Definition verify_trimmed_io_u (td : verify_td) (i : io_u) : Z :=
  if negb (trim_zero td) then 0 else verdict (mem_is_zero (buf i)).

Definition verify_io_u (td : verify_td) (i : io_u) : option (Z * verify_td * io_u) :=
  if bool_decide (verify td = VERIFY_NULL) || negb (is_read i) || fakeio td then Some (0, td, i)
  else
    '(ret, early, td, i) ←
      (if trimmed i then Some (verify_trimmed_io_u td i, false, td, i)
       else verify_loop (S (length (buf i))) td i 0 0 (get_hdr_inc td i) [] (buf i));
    let td := if negb early && negb (ret =? 0) && verify_fatal td then td <| td_terminate := true |> else td in
    Some (ret, td, i).
End junk.
