(* ===== verification/VerifySpec.v ===== *)
(** * What verification promises

    What the verify kinds store is accepted by their handlers, what a populated buffer
    holds is accepted by [verify_io_u], and changed data is found or not. *)
From S2P Require Import Prelude CInt Stream Crc Digest DigestSpec Xxhash Rand Pattern Verify.
#[local] Open Scope Z_scope.

(** ** Checksums *)
Definition has_sum (t : verify_kind) : Prop := 0 < vhdr_size t.
(** Data long enough for the kind and short enough for its counters. *)
Definition sum_data (t : verify_kind) (data : list Z) : Prop :=
  bytes data ∧ (0 < length data)%nat ∧ Z.of_nat (length data) < 2 ^ 31 ∧ (t = VERIFY_SHA512 → (128 ≤ length data)%nat).

Lemma keccakf_length st : length (keccakf st) = 25%nat.
Proof.
  unfold keccakf. change (seq 0 KECCAK_ROUNDS) with (seq 0 23 ++ [23%nat]). rewrite foldl_app. cbn [foldl]. generalize (foldl keccak_round st (seq 0 23)).
  intros s. unfold keccak_round, chi. by rewrite length_insert, length_fmap, length_seq.
Qed.
Lemma words_length n (ws : list Z) : length (mjoin (le_bytes_of n <$> ws)) = (n * length ws)%nat.
Proof.
  induction ws as [|w ws IH]; [simpl; lia|]. change (mjoin (le_bytes_of n <$> w :: ws)) with (le_bytes_of n w ++ mjoin (le_bytes_of n <$> ws)).
  rewrite length_app, le_bytes_of_length, IH. cbn [length]. lia.
Qed.
#[local] Opaque keccakf.
Lemma sha3_final_length sz c : md_len c = Z.of_nat sz → (sz ≤ 200)%nat → length (fio_sha3_final c) = sz.
Proof.
  intros E Hs. unfold fio_sha3_final, sha3_absorb. rewrite E, Nat2Z.id, length_take.
  assert (∀ st, length (mjoin (le_bytes_of 8 <$> keccakf st)) = 200%nat) as -> by (intros; by rewrite words_length, keccakf_length). lia.
Qed.
#[local] Transparent keccakf.

Section sums.
Context (junk : nat → list Z) (Hjunk : ∀ n, length (junk n) = n).

(** What a kind stores, and what its handler says of it. *)
Definition sum_ok (t : verify_kind) (data : list Z) (vh : list Z) : Prop :=
  ∃ sum, fill_sum junk t vh data = Some sum ∧ Z.of_nat (length sum) = vhdr_size t ∧ verify_sum junk t sum data = Some 0.

Lemma verdict_refl b : b = true → verdict b = 0.
Proof. by intros ->. Qed.
Lemma memeq_refl a : memeq a a = true.
Proof. unfold memeq. by apply bool_decide_true. Qed.

Lemma sha3_sum_ok sz data : sha3_size (Z.of_nat sz) → Z.of_nat (length data) < 2 ^ 31 →
  ∃ sum, fill_sha3 (Z.of_nat sz) data = Some sum ∧ length sum = sz ∧ verify_io_u_sha3 (Z.of_nat sz) sum data = Some 0.
Proof.
  intros Hs Hd. destruct (sha3_update_rep (Z.of_nat sz) [] (fio_sha3_init (Z.of_nat sz)) data) as (c & E & Hc); [done|by apply sha3_rep_init|lia|].
  unfold fill_sha3, verify_io_u_sha3. rewrite E. cbn [mbind option_bind]. eexists. split; [done|]. split.
  - destruct Hc as (E1 & _). apply sha3_final_length; [done|]. unfold sha3_size in Hs. lia.
  - by rewrite memeq_refl.
Qed.

Lemma crc_sum_ok (n : nat) c w : w = 8 * Z.of_nat n → verdict (wrap w c =? le_word (le_bytes_of n c)) = 0.
Proof.
  intros ->. apply verdict_refl, Z.eqb_eq. rewrite le_word_mod. unfold wrap. f_equal. change 256 with (2 ^ 8). by rewrite <- Z.pow_mul_r by lia.
Qed.

Lemma fill_sum_ok t vh data : has_sum t → sum_data t data → Z.of_nat (length vh) = vhdr_size t → sum_ok t data vh.
Proof.
  intros Ht (Hb & Hpos & Hd & H512) Hvh. unfold sum_ok, has_sum in *.
  destruct t; try (simpl in Ht; lia); cbn [fill_sum verify_sum vhdr_size] in *.
  - unfold fill_md5, verify_io_u_md5. destruct (md5_hash _) as [[[? ?] ?] ?]. eexists. split; [done|]. split; [done|]. by rewrite memeq_refl.
  - eexists. split; [done|]. split; [done|]. f_equal. by apply (crc_sum_ok 8).
  - eexists. split; [done|]. split; [done|]. f_equal. by apply (crc_sum_ok 4).
  - eexists. split; [done|]. split; [done|]. f_equal. by apply (crc_sum_ok 4).
  - eexists. split; [done|]. split; [done|]. f_equal. by apply (crc_sum_ok 4).
  - eexists. split; [done|]. split; [done|]. f_equal. by apply (crc_sum_ok 2).
  - unfold fill_crc7, verify_io_u_crc7. destruct (crc7_fold data 0 Hb) as (v & E & _); [lia|]. unfold fio_crc7. rewrite E. cbn [mbind option_bind].
    eexists. split; [done|]. split; [done|]. f_equal. by apply (crc_sum_ok 1).
  - assert (∀ b, length b = 64%nat → fill_sha256 b data = Some (sha256_field data)) as Hf.
    { intros b Hl. unfold fill_sha256. destruct (sha256_update_rep [] (fio_sha256_init b) data) as (c & -> & Hc); [by apply sha256_rep_init|lia|].
      pose proof (sha256_final_buf _ _ Hc) as E. cbn [mbind option_bind]. destruct (fio_sha256_final c) as [c'|]; [|done]. exact E. }
    exists (sha256_field data). split; [apply Hf; lia|]. split; [by rewrite sha256_field_length|].
    specialize (Hf (junk 64) (Hjunk 64)). unfold fill_sha256 in Hf. unfold verify_io_u_sha256.
    destruct (fio_sha256_update _ _) as [c|]; [|done]. cbn [mbind option_bind] in *. destruct (fio_sha256_final c) as [c'|]; [|done].
    cbn [mbind option_bind] in *. injection Hf as ->. by rewrite memeq_refl.
  - specialize (H512 eq_refl). unfold fill_sha512, verify_io_u_sha512. rewrite !sha512_buffer by (rewrite ?Hjunk; lia).
    eexists. split; [done|]. split; [|by rewrite memeq_refl].
    pose proof (rest_length 128 data) as Hr. pose proof (Nat.mod_upper_bound (length data) 128 ltac:(lia)).
    rewrite blit_length; rewrite length_take; lia.
  - destruct (sha3_sum_ok 28 data) as (s & ? & ? & ?); [by left|done|]. exists s. split_and!; [done|lia|done].
  - destruct (sha3_sum_ok 32 data) as (s & ? & ? & ?); [right; by left|done|]. exists s. split_and!; [done|lia|done].
  - destruct (sha3_sum_ok 48 data) as (s & ? & ? & ?); [do 2 right; by left|done|]. exists s. split_and!; [done|lia|done].
  - destruct (sha3_sum_ok 64 data) as (s & ? & ? & ?); [by do 3 right|done|]. exists s. split_and!; [done|lia|done].
  - eexists. split; [done|]. split; [done|]. unfold fill_xxhash, verify_io_u_xxhash. rewrite xxh32_once by (rewrite ?Hjunk; done).
    rewrite le_word_mod. f_equal. apply verdict_refl, Z.eqb_eq. apply Z.mod_small. apply xxh32_u.
  - unfold fill_sha1, verify_io_u_sha1. destruct (sha1_H _) as [[[[? ?] ?] ?] ?]. eexists. split; [done|]. split; [done|]. by rewrite memeq_refl.
Qed.

(** Whether a handler gives a result depends on the data alone. *)
Lemma verify_sum_total t (vh vh' data : list Z) : has_sum t → sum_data t data → Z.of_nat (length vh) = vhdr_size t →
  ∃ r, verify_sum junk t vh' data = Some r.
Proof.
  intros Ht Hd Hvh. destruct (fill_sum_ok t vh data Ht Hd Hvh) as (sum & _ & _ & E).
  unfold has_sum in Ht. destruct t; try (simpl in Ht; lia); cbn [verify_sum] in *; eauto;
    unfold verify_io_u_crc7, verify_io_u_sha256, verify_io_u_sha3 in *;
    repeat (apply bind_Some in E as (? & -> & E); cbn [mbind option_bind]); eauto.
Qed.
End sums.

(** ** Headers *)
Lemma region_at a b c : region (length a) (length b) (a ++ b ++ c) = Some b.
Proof.
  unfold region. rewrite decide_True by (rewrite !length_app; lia). rewrite drop_app_length. by rewrite take_app_length.
Qed.
Lemma region_skip n a b off len : length a = n → region (n + off) len (a ++ b) = region off len b.
Proof.
  intros <-. unfold region. rewrite length_app. rewrite drop_app_add. repeat case_decide; done || lia.
Qed.
Lemma region_first n len a b : length a = n → (n = len)%nat → region 0 len (a ++ b) = Some a.
Proof. intros <- <-. unfold region. rewrite decide_True by (rewrite length_app; lia). by rewrite drop_0, take_app_length. Qed.
Lemma region_prefix off len a b : (off + len ≤ length a)%nat → region off len (a ++ b) = Some (take len (drop off a)).
Proof.
  intros. unfold region. rewrite decide_True by (rewrite length_app; lia). rewrite drop_app_le, take_app_le by (rewrite ?length_drop; lia). done.
Qed.
Lemma store_prefix off bs a b : (off + length bs ≤ length a)%nat → store off bs (a ++ b) = Some (blit off bs a ++ b).
Proof.
  intros. unfold store, blit. rewrite decide_True by (rewrite length_app; lia).
  rewrite take_app_le, drop_app_le by lia. by rewrite <- !app_assoc.
Qed.

Lemma hdr_field_first n a b : length a = n → hdr_field 0 n (a ++ b) = Some (le_word a).
Proof. intros H. unfold hdr_field. by rewrite (region_first n). Qed.
Lemma hdr_field_skip k a b off n : length a = k → hdr_field (k + off) n (a ++ b) = hdr_field off n b.
Proof. intros H. unfold hdr_field. by rewrite region_skip. Qed.

Lemma kind_of_number t : kind_of (kind_number t) = Some t.
Proof. by destruct t. Qed.
Lemma kind_number_u t : 0 ≤ kind_number t < 65536.
Proof. destruct t; simpl; lia. Qed.

Section header.
Context (td : verify_td) (i : io_u) (num len seed : Z) (x : list Z).

Definition hdr_members : list Z :=
  le_bytes_of 2 FIO_HDR_MAGIC ++ le_bytes_of 2 (kind_number (verify td)) ++ le_bytes_of 4 len ++ le_bytes_of 8 seed ++
  le_bytes_of 8 (u64 (io_verify_offset i + u32 (num * verify_interval td))) ++ le_bytes_of 4 (start_sec i) ++
  le_bytes_of 4 (start_nsec i) ++ le_bytes_of 2 (thread_number td) ++ le_bytes_of 2 (numberio i).
Lemma hdr_members_length : length hdr_members = 36%nat.
Proof. unfold hdr_members. by rewrite !length_app, !le_bytes_of_length. Qed.
Lemma hdr_members_bytes : bytes hdr_members.
Proof. unfold hdr_members. rewrite !Forall_app. split_and!; apply le_bytes_of_bytes. Qed.
Lemma fill_hdr_length : length (__fill_hdr td i num len seed) = 40%nat.
Proof. unfold __fill_hdr. fold hdr_members. rewrite length_app, hdr_members_length, le_bytes_of_length. done. Qed.

Local Abbreviation hdr := (__fill_hdr td i num len seed ++ x).
Lemma hdr_pieces : hdr =
  le_bytes_of 2 FIO_HDR_MAGIC ++ le_bytes_of 2 (kind_number (verify td)) ++ le_bytes_of 4 len ++ le_bytes_of 8 seed ++
  le_bytes_of 8 (u64 (io_verify_offset i + u32 (num * verify_interval td))) ++ le_bytes_of 4 (start_sec i) ++
  le_bytes_of 4 (start_nsec i) ++ le_bytes_of 2 (thread_number td) ++ le_bytes_of 2 (numberio i) ++ le_bytes_of 4 (crc32c_sw hdr_members) ++ x.
Proof. unfold __fill_hdr. fold hdr_members. unfold hdr_members at 1. by rewrite <- !app_assoc. Qed.

Lemma hdr_magic_fill : hdr_magic hdr = Some FIO_HDR_MAGIC.
Proof. rewrite hdr_pieces. unfold hdr_magic. by rewrite (hdr_field_first 2). Qed.
Lemma hdr_verify_type_fill : hdr_verify_type hdr = Some (kind_number (verify td)).
Proof.
  rewrite hdr_pieces. unfold hdr_verify_type. rewrite (hdr_field_skip 2 _ _ 0), (hdr_field_first 2) by apply le_bytes_of_length.
  rewrite le_word_mod. f_equal. apply Z.mod_small, kind_number_u.
Qed.
Lemma hdr_len_fill : 0 ≤ len < 2 ^ 32 → hdr_len hdr = Some len.
Proof.
  intros Hl. rewrite hdr_pieces. unfold hdr_len. rewrite (hdr_field_skip 2 _ _ 2), (hdr_field_skip 2 _ _ 0), (hdr_field_first 4) by apply le_bytes_of_length.
  rewrite le_word_mod. f_equal. by apply Z.mod_small.
Qed.
Lemma hdr_rand_seed_fill : is_u 64 seed → hdr_rand_seed hdr = Some seed.
Proof.
  intros Hl. rewrite hdr_pieces. unfold hdr_rand_seed.
  rewrite (hdr_field_skip 2 _ _ 6), (hdr_field_skip 2 _ _ 4), (hdr_field_skip 4 _ _ 0), (hdr_field_first 8) by apply le_bytes_of_length.
  rewrite le_word_mod. f_equal. by apply Z.mod_small.
Qed.
Lemma hdr_offset_fill : hdr_offset hdr = Some (u64 (io_verify_offset i + u32 (num * verify_interval td))).
Proof.
  rewrite hdr_pieces. unfold hdr_offset.
  rewrite (hdr_field_skip 2 _ _ 14), (hdr_field_skip 2 _ _ 12), (hdr_field_skip 4 _ _ 8), (hdr_field_skip 8 _ _ 0), (hdr_field_first 8)
    by apply le_bytes_of_length.
  rewrite le_word_mod. f_equal. by apply (wrap_wrap 64).
Qed.
Lemma hdr_numberio_fill : is_u 16 (numberio i) → hdr_numberio hdr = Some (numberio i).
Proof.
  intros Hn. rewrite hdr_pieces. unfold hdr_numberio.
  rewrite (hdr_field_skip 2 _ _ 32), (hdr_field_skip 2 _ _ 30), (hdr_field_skip 4 _ _ 26), (hdr_field_skip 8 _ _ 18), (hdr_field_skip 8 _ _ 10),
    (hdr_field_skip 4 _ _ 6), (hdr_field_skip 4 _ _ 2), (hdr_field_skip 2 _ _ 0), (hdr_field_first 2) by apply le_bytes_of_length.
  rewrite le_word_mod. f_equal. by apply Z.mod_small.
Qed.
Lemma hdr_crc32_fill : hdr_crc32 hdr = Some (crc32c_sw hdr_members).
Proof.
  unfold hdr_crc32, __fill_hdr. fold hdr_members. rewrite <- app_assoc, (hdr_field_skip 36 _ _ 0), (hdr_field_first 4)
    by (apply hdr_members_length || apply le_bytes_of_length).
  rewrite le_word_mod. f_equal. apply Z.mod_small, crc32c_sw_u, hdr_members_bytes.
Qed.
Lemma hdr_covered : region 0 36 hdr = Some hdr_members.
Proof. unfold __fill_hdr. fold hdr_members. rewrite <- app_assoc. apply (region_first 36); [apply hdr_members_length|done]. Qed.

Lemma hdr_size_fill : verify td ≠ VERIFY_PATTERN_NO_HDR → hdr_size td hdr = Some (__hdr_size (verify td)).
Proof. intros H. unfold hdr_size. rewrite decide_False, hdr_verify_type_fill by done. cbn [mbind option_bind]. by rewrite kind_of_number. Qed.
End header.

(** The check of a header with the expected members. *)
Lemma verify_header_ok td i num len hdr covered :
  hdr_magic hdr = Some FIO_HDR_MAGIC → hdr_len hdr = Some len → hdr_rand_seed hdr = Some (rand_seed i) →
  hdr_offset hdr = Some (u64 (io_verify_offset i + u32 (num * verify_interval td))) → hdr_numberio hdr = Some (numberio i) →
  region 0 36 hdr = Some covered → hdr_crc32 hdr = Some (crc32c_sw covered) → verify_header td i num len hdr = Some 0.
Proof.
  intros E1 E2 E3 E4 E5 E6 E7. unfold verify_header. rewrite E1, E2, E3, E4, E5, E6, E7. cbn [mbind option_bind].
  by rewrite !Z.eqb_refl, andb_false_r.
Qed.
Lemma verify_header_fill td i i' num len x :
  0 ≤ len < 2 ^ 32 → is_u 64 (rand_seed i) → is_u 16 (numberio i) →
  rand_seed i' = rand_seed i → io_verify_offset i' = io_verify_offset i → numberio i' = numberio i →
  verify_header td i' num len (__fill_hdr td i num len (rand_seed i) ++ x) = Some 0.
Proof.
  intros Hl Hs Hn Es Eo En.
  apply (verify_header_ok _ _ _ _ _ (hdr_members td i num len (rand_seed i))); rewrite ?Es, ?Eo, ?En;
    auto using hdr_magic_fill, hdr_len_fill, hdr_rand_seed_fill, hdr_offset_fill, hdr_numberio_fill, hdr_covered, hdr_crc32_fill.
Qed.

(** ** Swapping a header with other bytes *)
Lemma memswp_pieces a m c d : length a = length c → (length a ≤ 200)%nat →
  memswp 0 (length a + length m) (length a) (a ++ m ++ c ++ d) = Some (c ++ m ++ a ++ d).
Proof.
  intros Hl Hn.
  assert (region (length a + length m) (length a) (a ++ m ++ c ++ d) = Some c) as E1.
  { rewrite (app_assoc a m), <- length_app, Hl. apply region_at. }
  assert (store 0 c (a ++ m ++ c ++ d) = Some (c ++ m ++ c ++ d)) as E2.
  { unfold store, blit. rewrite decide_True by (rewrite !length_app; lia). f_equal. cbn [firstn Nat.add app]. by rewrite <- Hl, drop_app_length. }
  assert (store (length a + length m) a (c ++ m ++ c ++ d) = Some (c ++ m ++ a ++ d)) as E3.
  { unfold store, blit. rewrite decide_True by (rewrite !length_app; lia). f_equal.
    rewrite (app_assoc c m), Hl, <- length_app, take_app_length, drop_app_add, drop_app_length. by rewrite <- app_assoc. }
  unfold memswp. rewrite !decide_False by lia. rewrite (region_first (length a)) by done. cbn [mbind option_bind].
  rewrite E1. cbn [mbind option_bind]. rewrite E2. cbn [mbind option_bind]. exact E3.
Qed.

(** The block with its first [hs] bytes and those at [off] swapped. *)
Definition swapped (off hs : nat) (b : list Z) : list Z :=
  if decide (off = 0%nat) then b else take hs (drop off b) ++ take (off - hs) (drop hs b) ++ take hs b ++ drop (off + hs) b.
Definition swap_ok (off hs n : nat) : Prop := off = 0%nat ∨ (hs ≤ off ∧ off + hs ≤ n)%nat.

Lemma block_pieces off hs (b : list Z) : (hs ≤ off)%nat → (off + hs ≤ length b)%nat →
  b = take hs b ++ take (off - hs) (drop hs b) ++ take hs (drop off b) ++ drop (off + hs) b.
Proof.
  intros H1 H2. assert (drop (off + hs) b = drop hs (drop off b)) as -> by (rewrite drop_drop; f_equal; lia). rewrite (take_drop hs (drop off b)).
  replace (drop off b) with (drop (off - hs) (drop hs b)) by (rewrite drop_drop; f_equal; lia). by rewrite !take_drop.
Qed.
Lemma swapped_length off hs b : swap_ok off hs (length b) → length (swapped off hs b) = length b.
Proof.
  intros [->|[H1 H2]]; unfold swapped; [done|]. case_decide; [done|].
  rewrite !length_app, !length_take, !length_drop. lia.
Qed.
Lemma memswp_swapped off hs b t : off ≠ 0%nat → swap_ok off hs (length b) → (hs ≤ 200)%nat →
  memswp 0 off hs (b ++ t) = Some (swapped off hs b ++ t) ∧ memswp 0 off hs (swapped off hs b ++ t) = Some (b ++ t).
Proof.
  intros Hne [?|[H1 H2]] H200; [done|]. unfold swapped. rewrite decide_False by done.
  pose proof (block_pieces off hs b H1 H2) as Eb. set (a := take hs b) in *. set (m := take (off - hs) (drop hs b)) in *.
  set (c := take hs (drop off b)) in *. set (d := drop (off + hs) b) in *.
  assert (length a = hs) as Ha by (unfold a; rewrite length_take; lia).
  assert (length c = hs) as Hc by (unfold c; rewrite length_take, length_drop; lia).
  assert (off = length a + length m)%nat as Eo by (unfold m; rewrite length_take, length_drop; lia).
  clearbody a m c d. subst off b. rewrite <- !app_assoc. split.
  - rewrite <- Ha. apply memswp_pieces; lia.
  - rewrite Ha, <- Hc. apply (memswp_pieces c m a (d ++ t)); lia.
Qed.

(** ** One block *)

(** Options and an interval that go together. *)
Record conf (td : verify_td) (inc : Z) : Prop := Conf {
  conf_kind : verify td ≠ VERIFY_NONE ∧ verify td ≠ VERIFY_NULL;
  conf_size : __hdr_size (verify td) < inc < 2 ^ 31;
  conf_sha512 : verify td = VERIFY_SHA512 → __hdr_size VERIFY_SHA512 + 128 ≤ inc;
  conf_no_hdr : verify td = VERIFY_PATTERN_NO_HDR → 16 ≤ inc;
  conf_offset : verify_offset td = 0 ∨ __hdr_size (verify td) ≤ verify_offset td ∧ verify_offset td + __hdr_size (verify td) ≤ inc;
  conf_pattern : verify td = VERIFY_PATTERN ∨ verify td = VERIFY_PATTERN_NO_HDR → verify_pattern td ≠ [];
  conf_fmt : blockoffs (verify_fmt td) ∧ ordered (verify_fmt td) ∧ Zlength_of (verify_pattern td) < 2 ^ 32 }.
Definition hs (td : verify_td) : nat := Z.to_nat (__hdr_size (verify td)).
Definition swap_at (td : verify_td) : list Z → list Z := swapped (Z.to_nat (verify_offset td)) (hs td).

Lemma hdr_size_range t : 0 ≤ __hdr_size t ≤ 168.
Proof. destruct t; by vm_compute. Qed.
Lemma conf_swap td inc (b : list Z) : conf td inc → Z.of_nat (length b) = inc → swap_ok (Z.to_nat (verify_offset td)) (hs td) (length b).
Proof. intros Hc Hb. pose proof (hdr_size_range (verify td)). unfold swap_ok, hs. destruct (conf_offset _ _ Hc) as [->|]; [by left|right; lia]. Qed.

Section block.
Context (junk : nat → list Z) (Hjunk : ∀ n, length (junk n) = n).

(** What stands before the data: a header and what the kind stores. *)
Definition head_ok (td : verify_td) (i : io_u) (num inc : Z) (head data : list Z) : Prop :=
  (verify td = VERIFY_PATTERN_NO_HDR ∧ head = []) ∨
  (verify td ≠ VERIFY_PATTERN_NO_HDR ∧ ∃ sum, head = __fill_hdr td i num inc (rand_seed i) ++ sum ∧ Z.of_nat (length sum) = vhdr_size (verify td) ∧
     (has_sum (verify td) → verify_sum junk (verify td) sum data = Some 0)).

Lemma head_length td i num inc head data : head_ok td i num inc head data → length head = hs td.
Proof.
  unfold hs, __hdr_size. intros [[E ->]|(E & sum & -> & Hl & _)]; [by rewrite E|]. rewrite decide_False by done.
  rewrite length_app, fill_hdr_length. unfold sizeof_verify_header. lia.
Qed.

(** The header and the sum over the first bytes of a block. *)
Lemma write_head td i num inc blk tail : conf td inc → Z.of_nat (length blk) = inc → bytes (drop (hs td) blk) →
  ∃ head, head_ok td i num inc head (drop (hs td) blk) ∧
    populate_hdr junk td i num inc (blk ++ tail) =
      rest ← (if negb (verify_offset td =? 0) && negb (__hdr_size (verify td) =? 0)
              then memswp 0 (Z.to_nat (verify_offset td)) (hs td) ((head ++ drop (hs td) blk) ++ tail)
              else Some ((head ++ drop (hs td) blk) ++ tail));
      Some (td, rest).
Proof.
  intros Hc Hb Hby. pose proof (conf_size _ _ Hc) as Hsz. pose proof (hdr_size_range (verify td)) as Hr.
  destruct (conf_kind _ _ Hc) as [Hk1 Hk2]. unfold populate_hdr, fill_hdr. destruct (decide (verify td = VERIFY_PATTERN_NO_HDR)) as [Enh|Enh].
  - exists []. split; [by left|]. unfold hdr_size, hs. rewrite Enh. cbn [mbind option_bind]. rewrite decide_True by done. cbn [mbind option_bind].
    change (Z.to_nat (__hdr_size VERIFY_PATTERN_NO_HDR)) with 0%nat. rewrite drop_0. destruct (Z.leb_spec inc 0); [lia|]. done.
  - assert (__hdr_size (verify td) = vhdr_size (verify td) + 40) as Ehs by (unfold __hdr_size; by rewrite decide_False).
    assert (0 ≤ vhdr_size (verify td)) by (destruct (verify td); done).
    set (h := __fill_hdr td i num inc (rand_seed i)). assert (length h = 40%nat) as Hh by apply fill_hdr_length.
    rewrite store_prefix by (rewrite Hh; lia). assert (blit 0 h blk = h ++ drop 40 blk) as -> by (unfold blit; by rewrite Hh).
    cbn [mbind option_bind]. rewrite <- !app_assoc.
    assert (∀ y, hdr_size td (h ++ y) = Some (__hdr_size (verify td))) as -> by (intros; by apply hdr_size_fill). cbn [mbind option_bind].
    destruct (Z.leb_spec inc (__hdr_size (verify td))); [lia|].
    set (vh := take (Z.to_nat (vhdr_size (verify td))) (drop 40 blk)). set (data := drop (hs td) blk).
    assert (drop 40 blk = vh ++ data) as Ed.
    { unfold vh, data, hs. rewrite Ehs. replace (Z.to_nat (vhdr_size (verify td) + 40)) with (40 + Z.to_nat (vhdr_size (verify td)))%nat by lia.
      rewrite <- (take_drop (Z.to_nat (vhdr_size (verify td))) (drop 40 blk)) at 1. rewrite drop_drop. do 2 f_equal; lia. }
    assert (Z.of_nat (length vh) = vhdr_size (verify td)) as Hvh by (unfold vh; rewrite length_take, length_drop; lia).
    assert (length data = Z.to_nat (inc - __hdr_size (verify td))) as Hdl by (unfold data, hs; rewrite length_drop; lia).
    rewrite Ed. destruct (decide (has_sum (verify td))) as [Hs|Hs].
    + destruct (fill_sum_ok junk Hjunk (verify td) vh data Hs) as (sum & Ef & Hsl & Hv); [|done|].
      { split_and!; [done|lia|lia|]. intros E. pose proof (conf_sha512 _ _ Hc E). rewrite E in Hdl. lia. }
      assert (region (Z.to_nat (__hdr_size (verify td))) (Z.to_nat (inc - __hdr_size (verify td))) (h ++ (vh ++ data) ++ tail) = Some data) as Ereg.
      { rewrite <- app_assoc, (app_assoc h). replace (Z.to_nat (__hdr_size (verify td))) with (length (h ++ vh)) by (rewrite length_app; lia).
        rewrite <- Hdl. apply region_at. }
      assert (region 40 (Z.to_nat (vhdr_size (verify td))) (h ++ (vh ++ data) ++ tail) = Some vh) as Erv.
      { rewrite <- Hh, <- Hvh, Nat2Z.id, <- app_assoc. apply region_at. }
      assert (store 40 sum (h ++ (vh ++ data) ++ tail) = Some (((h ++ sum) ++ data) ++ tail)) as Est.
      { unfold store. rewrite decide_True by (rewrite !length_app; lia). unfold blit. rewrite <- Hh, take_app_length, drop_app_add.
        rewrite <- app_assoc, drop_app_ge by lia. replace (length sum - length vh)%nat with 0%nat by lia. rewrite drop_0. by rewrite <- !app_assoc. }
      exists (h ++ sum). split; [right; split; [done|]; exists sum; done|].
      assert (nothing_to_do (verify td) = false) as -> by (unfold has_sum in Hs; destruct (verify td); done).
      rewrite Ereg. cbn [mbind option_bind]. rewrite Erv. cbn [mbind option_bind]. rewrite Ef. cbn [mbind option_bind].
      rewrite Est. cbn [mbind option_bind]. done.
    + assert (vhdr_size (verify td) = 0) as E0 by (unfold has_sum in Hs; lia). exists h. split.
      * right. split; [done|]. exists []. split_and!; [by rewrite app_nil_r|done|done].
      * assert (vh = []) as -> by (destruct vh; [done|simpl in Hvh; lia]). cbn [app]. rewrite <- app_assoc.
        assert (nothing_to_do (verify td) = true) as -> by (destruct (verify td); done). done.
Qed.

Lemma populate_block td i num inc blk tail : conf td inc → Z.of_nat (length blk) = inc → bytes (drop (hs td) blk) →
  ∃ head, head_ok td i num inc head (drop (hs td) blk) ∧
    populate_hdr junk td i num inc (blk ++ tail) = Some (td, swap_at td (head ++ drop (hs td) blk) ++ tail).
Proof.
  intros Hc Hb Hby. destruct (write_head td i num inc blk tail Hc Hb Hby) as (head & Hh & ->). exists head. split; [done|].
  pose proof (head_length _ _ _ _ _ _ Hh) as Hl. pose proof (hdr_size_range (verify td)) as Hr. pose proof (conf_size _ _ Hc).
  assert (Z.of_nat (length (head ++ drop (hs td) blk)) = inc) as Hbl by (rewrite length_app, length_drop; unfold hs in *; lia).
  unfold swap_at. destruct (Z.eqb_spec (verify_offset td) 0) as [->|Ho]; cbn [negb andb]; [done|].
  pose proof (conf_offset _ _ Hc) as Hco.
  destruct (memswp_swapped (Z.to_nat (verify_offset td)) (hs td) (head ++ drop (hs td) blk) tail) as [E _];
    [lia|by apply (conf_swap td inc)|unfold hs; lia|].
  destruct (Z.eqb_spec (__hdr_size (verify td)) 0) as [E0|E0]; cbn [negb].
  - cbn [mbind option_bind]. unfold hs. rewrite E0. unfold swapped. case_decide; [done|]. change (Z.to_nat 0) with 0%nat.
    rewrite !take_0, Nat.sub_0_r, Nat.add_0_r, drop_0. cbn [app]. by rewrite take_drop.
  - rewrite E. done.
Qed.

(** The pattern with the offset of the block, and data of the kinds that look at it. *)
Definition pasted_pattern (td : verify_td) (i : io_u) : list Z := (paste_loop (verify_pattern td) (verify_fmt td) (io_offset i)).2.
Definition looks_at_pattern (td : verify_td) : Prop :=
  verify_pattern td ≠ [] ∧ (verify td = VERIFY_HDR_ONLY ∨ verify td = VERIFY_PATTERN ∨ verify td = VERIFY_PATTERN_NO_HDR).
Definition pat_data (td : verify_td) (i : io_u) (at_ : nat) (data : list Z) : Prop :=
  looks_at_pattern td → data = window (pasted_pattern td i) at_ (length data).
Definition with_pattern (td : verify_td) (p : list Z) : verify_td := td <| verify_pattern := p |>.

Lemma verify_pattern_ok td i num inc head data tail : conf td inc → looks_at_pattern td → get_hdr_inc td i = inc → 0 ≤ num → num * inc + inc < 2 ^ 32 →
  length head = hs td → Z.of_nat (length (head ++ data)) = inc → pat_data td i (Z.to_nat (num * inc) + hs td) data →
  verify_io_u_pattern td i num ((head ++ data) ++ tail) = Some (0, with_pattern td (pasted_pattern td i)).
Proof.
  intros Hc Hp Hinc Hn Hni Hh Hl Hd. pose proof (hdr_size_range (verify td)) as Hr. destruct (conf_fmt _ _ Hc) as (Hf & Ho & Hpl).
  pose proof (conf_size _ _ Hc). destruct (paste_loop_ok (verify_pattern td) (verify_fmt td) (io_offset i) Hf) as [_ Hlen]. fold (pasted_pattern td i) in Hlen.
  pose proof Hp as [Hne _]. assert (0 < length (verify_pattern td))%nat by (destruct (verify_pattern td); [done|simpl; lia]). specialize (Hd Hp).
  unfold verify_io_u_pattern, paste_format_inplace, Zlength_of. destruct (Z.eqb_spec (Z.of_nat (length (verify_pattern td))) 0); [lia|].
  unfold pasted_pattern in Hlen, Hd |- *. destruct (paste_loop _ _ _) as [rc p]. simpl in Hlen, Hd. simpl snd. change (get_hdr_inc _ i) with (get_hdr_inc td i). rewrite Hinc.
  rewrite length_app in Hl. rewrite (u32_small (inc - _)) by lia. rewrite (u32_small (inc * num)), u32_small by lia.
  assert (region (Z.to_nat (__hdr_size (verify td))) (Z.to_nat (inc - __hdr_size (verify td))) ((head ++ data) ++ tail) = Some data) as ->.
  { fold (hs td). rewrite <- Hh. replace (Z.to_nat (inc - __hdr_size (verify td))) with (length data) by (unfold hs in Hh; lia).
    rewrite <- app_assoc. apply region_at. }
  unfold Zlength_of in Hpl. cbn [mbind option_bind]. rewrite Hlen.
  rewrite cmp_pattern_window by (unfold Zlength_of; rewrite ?Hlen; try done; apply Z.mod_pos_bound; lia).
  rewrite decide_True; [done|]. rewrite Hd at 1. unfold hs.
  replace (Z.to_nat (num * inc) + Z.to_nat (__hdr_size (verify td)))%nat with (Z.to_nat (inc * num + __hdr_size (verify td))) by lia.
  rewrite <- (window_mod p) by lia. f_equal. rewrite Hlen, Z2Nat.inj_mod by lia. by rewrite Nat2Z.id.
Qed.

(** A kind that stores a sum asks its handler. *)
Lemma verify_body_sum td i i0 num inc before sum data tail : conf td inc → has_sum (verify td) → 0 ≤ num → num * inc + inc < 2 ^ 31 →
  Z.of_nat (length before) = num * inc → Z.of_nat (length sum) = vhdr_size (verify td) →
  let head := __fill_hdr td i0 num inc (rand_seed i0) ++ sum in Z.of_nat (length (head ++ data)) = inc →
  verify_body junk td i num before ((head ++ data) ++ tail) = r ← verify_sum junk (verify td) sum data; Some (r, td).
Proof.
  intros Hc Hs Hn Hni Hb Hsl head Hl. pose proof (conf_size _ _ Hc). destruct (conf_kind _ _ Hc) as [Hk1 Hk2]. pose proof (hdr_size_range (verify td)) as Hr.
  assert (verify td ≠ VERIFY_PATTERN_NO_HDR) as En by (intros E; unfold has_sum in Hs; by rewrite E in Hs).
  assert (__hdr_size (verify td) = vhdr_size (verify td) + 40) as Ehs by (unfold __hdr_size; by rewrite decide_False).
  unfold verify_body. rewrite decide_False by done. cbn [mbind option_bind]. unfold head in *. clear head.
  set (h := __fill_hdr td i0 num inc (rand_seed i0)) in *. assert (length h = 40%nat) as Hh by apply fill_hdr_length.
  assert (region 40 (Z.to_nat (vhdr_size (verify td))) (((h ++ sum) ++ data) ++ tail) = Some sum) as Erv.
  { rewrite <- Hh, <- Hsl, Nat2Z.id, <- !app_assoc. apply region_at. }
  assert (io_u_data td num (((h ++ sum) ++ data) ++ tail) (before ++ ((h ++ sum) ++ data) ++ tail) = Some data) as Edt.
  { unfold io_u_data. rewrite <- !app_assoc.
    assert (∀ y, hdr_len (h ++ y) = Some inc) as -> by (intros; apply hdr_len_fill; lia). cbn [mbind option_bind].
    assert (∀ y, hdr_size td (h ++ y) = Some (__hdr_size (verify td))) as -> by (intros; by apply hdr_size_fill). cbn [mbind option_bind].
    rewrite !length_app in Hl. rewrite (u32_small (num * inc)), u32_small by lia.
    replace (Z.to_nat (num * inc + __hdr_size (verify td))) with (length (before ++ h ++ sum)) by (rewrite !length_app; lia).
    replace (Z.to_nat (inc - __hdr_size (verify td))) with (length data) by lia.
    assert (before ++ h ++ sum ++ data ++ tail = (before ++ h ++ sum) ++ data ++ tail) as -> by (by rewrite <- !app_assoc). apply region_at. }
  unfold has_sum in Hs. destruct (verify td) eqn:Ev; try done; rewrite Erv; cbn [mbind option_bind]; by rewrite Edt.
Qed.

Lemma verify_body_ok td i num inc before head data tail i0 : conf td inc → get_hdr_inc td i = inc → 0 ≤ num → num * inc + inc < 2 ^ 31 →
  Z.of_nat (length before) = num * inc → head_ok td i0 num inc head data → Z.of_nat (length (head ++ data)) = inc →
  pat_data td i (Z.to_nat (num * inc) + hs td) data →
  ∃ p, verify_body junk td i num before ((head ++ data) ++ tail) = Some (0, with_pattern td p) ∧
    (p = verify_pattern td ∨ p = pasted_pattern td i).
Proof.
  intros Hc Hinc Hn Hni Hb Hh Hl Hd. pose proof (head_length _ _ _ _ _ _ Hh) as Hhl. destruct (conf_kind _ _ Hc) as [Hk1 Hk2].
  assert (with_pattern td (verify_pattern td) = td) as Etd by (by destruct td). destruct (decide (has_sum (verify td))) as [Hs|Hs].
  - exists (verify_pattern td). split; [|by left]. destruct Hh as [[E _]|(_ & sum & -> & Hsl & Hv)]; [unfold has_sum in Hs; by rewrite E in Hs|].
    rewrite (verify_body_sum td i i0 num inc), Hv, Etd by done. done.
  - unfold verify_body. rewrite decide_False by done. cbn [mbind option_bind]. destruct (decide (looks_at_pattern td)) as [Hp|Hp].
    + exists (pasted_pattern td i). split; [|by right].
      pose proof (verify_pattern_ok td i num inc head data tail Hc Hp Hinc Hn ltac:(lia) Hhl Hl Hd) as E. destruct Hp as [Hne [Ek|[Ek|Ek]]]; rewrite Ek; [|done|done].
      destruct (Z.eqb_spec (Zlength_of (verify_pattern td)) 0) as [E0|]; [|done]. unfold Zlength_of in E0. by destruct (verify_pattern td).
    + exists (verify_pattern td). split; [|by left]. rewrite Etd. pose proof (conf_pattern _ _ Hc) as Hcp.
      destruct (decide (verify td = VERIFY_HDR_ONLY)) as [Ek|Ek].
      { rewrite Ek. destruct (verify_pattern td) eqn:Evp; [done|]. exfalso. apply Hp. split; [by rewrite Evp|by left]. }
      exfalso. apply Hp. split; [|right]; destruct (verify td); try (by destruct Hs); auto.
Qed.

(** What [verify_io_u] needs to know again of the [io_u] that was written. *)
Record same_io (td : verify_td) (i i' : io_u) : Prop := SameIo {
  same_seed : verify td ≠ VERIFY_PATTERN_NO_HDR → rand_seed i' = rand_seed i;
  same_offset : io_verify_offset i' = io_verify_offset i; same_place : io_offset i' = io_offset i; same_number : numberio i' = numberio i }.
Definition with_seed (i : io_u) (seed : Z) : io_u := i <| rand_seed := seed |>.

(** A turn on a block with its header as it was written comes to the switch. *)
Lemma verify_turn_body td i i' num inc before head data0 data tail :
  conf td inc → is_u 64 (rand_seed i) → is_u 16 (numberio i) → same_io td i i' →
  head_ok td i num inc head data0 → Z.of_nat (length (head ++ data)) = inc →
  ∃ seed, verify_turn junk td i' num inc before (swap_at td (head ++ data) ++ tail) =
      ('(ret, td') ← verify_body junk td (with_seed i' seed) num before ((head ++ data) ++ tail);
       Some (ret, false, td', with_seed i' seed, (head ++ data) ++ tail)) ∧
    (verify td ≠ VERIFY_PATTERN_NO_HDR → seed = rand_seed i).
Proof.
  intros Hc Hs64 Hn16 [Es Eo _ En] Hh Hl. pose proof (conf_size _ _ Hc). pose proof (hdr_size_range (verify td)) as Hr.
  pose proof (head_length _ _ _ _ _ _ Hh) as Hhl. unfold verify_turn.
  assert ((if negb (verify_offset td =? 0) then memswp 0 (Z.to_nat (verify_offset td)) (Z.to_nat (__hdr_size (verify td)))
    (swap_at td (head ++ data) ++ tail) else Some (swap_at td (head ++ data) ++ tail)) = Some ((head ++ data) ++ tail)) as ->.
  { unfold swap_at. destruct (Z.eqb_spec (verify_offset td) 0) as [->|Ho]; [done|]. cbn [negb]. pose proof (conf_offset _ _ Hc).
    apply memswp_swapped; [lia|by apply (conf_swap td inc)|unfold hs; lia]. }
  cbn [mbind option_bind].
  assert (∃ seed, (if negb (td_rw td) || ver_backlog td then seed ← hdr_rand_seed ((head ++ data) ++ tail); Some (i' <| rand_seed := seed |>) else Some i') =
    Some (with_seed i' seed) ∧ (verify td ≠ VERIFY_PATTERN_NO_HDR → seed = rand_seed i)) as (seed & -> & Hseed).
  { assert (Some i' = Some (with_seed i' (rand_seed i'))) as E0 by (by destruct i'). destruct (negb (td_rw td) || ver_backlog td).
    - destruct Hh as [[E ->]|(E & sum & -> & _)].
      + cbn [app] in *. pose proof (conf_no_hdr _ _ Hc E). unfold hdr_rand_seed, hdr_field. rewrite region_prefix by lia. eexists. split; [done|done].
      + rewrite <- !app_assoc. exists (rand_seed i). split; [|done].
        assert (∀ y, hdr_rand_seed (__fill_hdr td i num inc (rand_seed i) ++ y) = Some (rand_seed i)) as -> by (intros; by apply hdr_rand_seed_fill). done.
    - exists (rand_seed i'). split; [done|]. auto. }
  cbn [mbind option_bind].
  assert ((if decide (verify td = VERIFY_PATTERN_NO_HDR) then Some 0 else verify_header td (with_seed i' seed) num inc ((head ++ data) ++ tail)) = Some 0) as ->.
  { case_decide as E; [done|]. destruct Hh as [[? _]|(_ & sum & -> & _)]; [done|]. rewrite <- !app_assoc.
    apply verify_header_fill; [lia|done|done|by apply Hseed|done|done]. }
  exists seed. by split.
Qed.
Lemma verify_turn_ok td i i' num inc before head data tail :
  conf td inc → is_u 64 (rand_seed i) → is_u 16 (numberio i) → same_io td i i' → get_hdr_inc td i' = inc →
  0 ≤ num → num * inc + inc < 2 ^ 31 → Z.of_nat (length before) = num * inc →
  head_ok td i num inc head data → Z.of_nat (length (head ++ data)) = inc → pat_data td i' (Z.to_nat (num * inc) + hs td) data →
  ∃ p seed, verify_turn junk td i' num inc before (swap_at td (head ++ data) ++ tail) =
      Some (0, false, with_pattern td p, with_seed i' seed, (head ++ data) ++ tail) ∧
    (p = verify_pattern td ∨ p = pasted_pattern td i') ∧ (verify td ≠ VERIFY_PATTERN_NO_HDR → seed = rand_seed i).
Proof.
  intros Hc Hs64 Hn16 Hsame Hinc Hnum Hni Hb Hh Hl Hd.
  destruct (verify_turn_body td i i' num inc before head data data tail) as (seed & -> & Hseed); try done.
  destruct (verify_body_ok td (with_seed i' seed) num inc before head data tail i Hc Hinc Hnum Hni Hb Hh Hl Hd) as (p & -> & Hp).
  cbn [mbind option_bind]. exists p, seed. done.
Qed.

(** A buffer of written blocks, the first of them number [num]. *)
Inductive blocks_ok (td : verify_td) (i : io_u) (inc : Z) : Z → list Z → Prop :=
  | blocks_ok_nil num : blocks_ok td i inc num []
  | blocks_ok_cons num head data tail : head_ok td i num inc head data → Z.of_nat (length (head ++ data)) = inc →
      pat_data td i (Z.to_nat (num * inc) + hs td) data → blocks_ok td i inc (num + 1) tail →
      blocks_ok td i inc num (swap_at td (head ++ data) ++ tail).

Lemma blocks_ok_buf td i inc num b x : blocks_ok td i inc num b → blocks_ok td (i <| buf := x |>) inc num b.
Proof. induction 1; constructor; done. Qed.
Lemma blocks_ok_inv td i inc num b : blocks_ok td i inc num b → b ≠ [] →
  ∃ head data tail, b = swap_at td (head ++ data) ++ tail ∧ head_ok td i num inc head data ∧ Z.of_nat (length (head ++ data)) = inc ∧
    blocks_ok td i inc (num + 1) tail.
Proof. destruct 1; [done|]. intros _. by exists head, data, tail. Qed.
Lemma swap_at_length td inc b : conf td inc → Z.of_nat (length b) = inc → length (swap_at td b) = length b.
Proof. intros Hc Hb. apply swapped_length. by apply (conf_swap td inc). Qed.

Lemma headers_loop_ok fuel td i num inc rest n : conf td inc → (n < fuel)%nat → Z.of_nat (length rest) = Z.of_nat n * inc →
  0 ≤ num → num * inc + Z.of_nat (length rest) < 2 ^ 31 → bytes rest → pat_data td i (Z.to_nat (num * inc)) rest →
  ∃ b, headers_loop junk fuel td i num inc rest = Some (td, b) ∧ blocks_ok td i inc num b ∧ length b = length rest.
Proof.
  intros Hc. revert num rest n. induction fuel as [|fuel IH]; intros num rest n Hf Hl Hnum Hb Hby Hp; [lia|]. cbn [headers_loop].
  pose proof (conf_size _ _ Hc). pose proof (hdr_size_range (verify td)) as Hr. case_bool_decide as Hnil.
  { subst rest. exists []. split_and!; [done|constructor|done]. }
  destruct n as [|n]; [destruct rest; [done|simpl in Hl; lia]|]. set (blk := take (Z.to_nat inc) rest). set (tail := drop (Z.to_nat inc) rest).
  assert (Z.of_nat (length blk) = inc) as Hbl by (unfold blk; rewrite length_take; lia).
  assert (Z.of_nat (length tail) = Z.of_nat n * inc) as Htl by (unfold tail; rewrite length_drop; lia).
  assert (rest = blk ++ tail) as Er by (unfold blk, tail; by rewrite take_drop). rewrite Er in *. clearbody blk tail. clear Er.
  rewrite length_app in Hb. rewrite Forall_app in Hby. destruct Hby as [Hby1 Hby2].
  destruct (populate_block td i num inc blk tail Hc Hbl) as (head & Hh & ->); [by apply Forall_drop|]. cbn [mbind option_bind].
  pose proof (head_length _ _ _ _ _ _ Hh) as Hhl. set (data := drop (hs td) blk) in *.
  assert (Z.of_nat (length (head ++ data)) = inc) as Hhd by (unfold data; rewrite length_app, length_drop; unfold hs in *; lia).
  pose proof (swap_at_length td inc _ Hc Hhd) as Hsl.
  assert (length (swap_at td (head ++ data)) = Z.to_nat inc) as Hsi by lia.
  rewrite (drop_app_length' _ _ _ (eq_sym Hsi)), (take_app_length' _ _ _ (eq_sym Hsi)). rewrite u32_small by lia.
  destruct (IH (num + 1) tail n) as (b & -> & Hbo & Hlb); [lia|lia|lia|lia|done| |].
  { intros Hlook. specialize (Hp Hlook). rewrite length_app, window_app in Hp. apply app_inj_1 in Hp as [_ Hp]; [|by rewrite window_length].
    rewrite Hp at 1. f_equal. lia. }
  cbn [mbind option_bind]. exists (swap_at td (head ++ data) ++ b). split; [done|]. split.
  - constructor; [done|done| |done]. intros Hlook. specialize (Hp Hlook). rewrite length_app, window_app in Hp.
    apply app_inj_1 in Hp as [Hp _]; [|by rewrite window_length].
    assert (hs td ≤ length blk)%nat by (unfold hs; lia). unfold data. rewrite length_drop. rewrite Hp at 1. by rewrite window_drop.
  - rewrite !length_app. lia.
Qed.

Lemma verify_loop_ok fuel td i i' num inc before rest p seed :
  conf td inc → is_u 64 (rand_seed i) → is_u 16 (numberio i) → same_io td i i' → get_hdr_inc td i' = inc →
  (verify td ≠ VERIFY_PATTERN_NO_HDR → seed = rand_seed i) → p = verify_pattern td ∨ p = pasted_pattern td i →
  0 ≤ num → num * inc + Z.of_nat (length rest) < 2 ^ 31 → Z.of_nat (length before) = num * inc → (length rest < fuel)%nat →
  blocks_ok td i inc num rest →
  ∃ td' i'', verify_loop junk fuel (with_pattern td p) (with_seed i' seed) 0 num inc before rest = Some (0, false, td', i'').
Proof.
  intros Hc H64 H16 Hsame Hinc. revert num before rest p seed.
  induction fuel as [|fuel IH]; intros num before rest p seed Hseed Hp Hnum Hb Hbl Hf Hok; [lia|]. cbn [verify_loop].
  inversion Hok as [|? head data tail Hh Hl Hd Hrest]; subst.
  { rewrite bool_decide_true by done. cbn [orb]. eauto. }
  pose proof (conf_size _ _ Hc). pose proof (hdr_size_range (verify td)) as Hr. set (inc := get_hdr_inc td i') in *.
  pose proof (swap_at_length td inc _ Hc Hl) as Hsl. rewrite length_app in Hb, Hf.
  rewrite bool_decide_false by (intros E; apply (f_equal length) in E; rewrite length_app in E; simpl in E; lia). cbn [orb negb Z.eqb andb].
  destruct (conf_fmt _ _ Hc) as (Hfm & Hfo & Hfl).
  destruct (paste_loop_ok (verify_pattern td) (verify_fmt td) (io_offset i) Hfm) as [_ Hpl].
  assert (length p = length (verify_pattern td)) as Hlp by (destruct Hp as [->| ->]; done).
  assert (pasted_pattern (with_pattern td p) i = pasted_pattern td i) as Hidem.
  { destruct Hp as [->| ->]; [by destruct td|]. by apply paste_idem. }
  assert (p = [] ↔ verify_pattern td = []) as Hnil by (split; intros E; apply nil_length_inv; by rewrite <- ?Hlp, ?E || rewrite ?Hlp, ?E).
  assert (pasted_pattern (with_pattern td p) (with_seed i' seed) = pasted_pattern td i) as Hpp.
  { rewrite <- Hidem. unfold pasted_pattern. by rewrite <- (same_place _ _ _ Hsame). }
  destruct (verify_turn_ok (with_pattern td p) i (with_seed i' seed) num inc before head data tail) as (p' & seed' & E & Hp' & Hseed').
  - destruct Hc. constructor; try done. + intros Hk. cbn. rewrite Hnil. auto. + split_and!; try apply conf_fmt0. unfold Zlength_of. cbn. rewrite Hlp. apply conf_fmt0.
  - done.
  - done.
  - destruct Hsame. by constructor.
  - done.
  - done.
  - lia.
  - done.
  - done.
  - done.
  - intros [Hne Hk]. cbn in Hne, Hk. rewrite Hpp. apply Hd. split; [by rewrite <- Hnil|done].
  - change (swap_at (with_pattern td p)) with (swap_at td) in E. rewrite E. cbn [mbind option_bind].
    assert (length (head ++ data) = Z.to_nat inc) as Hhi by lia.
    rewrite (drop_app_length' _ _ _ (eq_sym Hhi)), (take_app_length' _ _ _ (eq_sym Hhi)). rewrite u32_small by lia.
    assert (with_pattern (with_pattern td p) p' = with_pattern td p') as -> by done.
    assert (with_seed (with_seed i' seed) seed' = with_seed i' seed') as -> by done.
    apply IH; [done| |lia|lia|rewrite length_app; lia|lia|done].
    destruct Hp' as [->| ->]; [done|]. right. by rewrite Hpp.
Qed.
End block.

(** ** A whole buffer *)
Lemma fill_verify_pattern_ok td i seed use_seed :
  0 < buflen i < 2 ^ 32 → bytes (verify_pattern td) → bytes (buffer_pattern td) → blockoffs (verify_fmt td) → ordered (verify_fmt td) →
  is_u 64 (rand_seed i) → is_u 64 seed → (verify_pattern td ≠ [] → verify_fmt td ≠ [] ∨ buf_filled_len i < buflen i) →
  ∃ st b s l, fill_verify_pattern td i seed use_seed =
      Some (td <| verify_state := st |>, i <| rand_seed := s |> <| buf := b |> <| buf_filled_len := l |>) ∧
    length b = length (buf i) ∧ bytes b ∧ is_u 64 s ∧ (verify_pattern td ≠ [] → b = window (pasted_pattern td i) 0 (length b)).
Proof.
  intros Hl Hvp Hbp Hf Ho H64 Hseed Hfresh. unfold fill_verify_pattern, buflen in *. destruct (Z.eqb_spec (Zlength_of (verify_pattern td)) 0) as [E|E].
  - assert (verify_pattern td = []) as Enil by (unfold Zlength_of in E; by destruct (verify_pattern td)).
    assert (∀ td' s, is_u 64 s → td' = td <| verify_state := verify_state td' |> →
      ∃ st b s' l, (b ← __fill_random_buf_percentage s (compress_percentage td') (Zlength_of (buf i)) (buffer_pattern td') (buf i);
          Some (td', i <| rand_seed := s |> <| buf := b |>)) = Some (td <| verify_state := st |>, i <| rand_seed := s' |> <| buf := b |> <| buf_filled_len := l |>) ∧
        length b = length (buf i) ∧ bytes b ∧ is_u 64 s' ∧ (verify_pattern td ≠ [] → b = window (pasted_pattern td i) 0 (length b))) as Hrun.
    { intros td' s Hs Etd. rewrite Etd. cbn [compress_percentage buffer_pattern].
      change (compress_percentage (td <| verify_state := _ |>)) with (compress_percentage td).
      change (buffer_pattern (td <| verify_state := _ |>)) with (buffer_pattern td).
      destruct (fill_percentage_length s (compress_percentage td) (Zlength_of (buf i)) (buffer_pattern td) (buf i)) as (b & Eb & Hb); [lia|lia|].
      pose proof (fill_percentage_bytes _ _ _ _ _ _ (proj2 Hl) Hbp Eb) as Hbb. rewrite Eb. cbn [mbind option_bind].
      exists (verify_state td'), b, s, (buf_filled_len i). split; [by destruct i|]. split_and!; done. }
    destruct use_seed; [apply Hrun; [done|by destruct td]|]. destruct (__rand (verify_state td)) as [r st]. destruct (__rand st) as [r' st'].
    apply Hrun; [by apply wrap_is_u|done].
  - assert (verify_pattern td ≠ []) as Hne by (intros E'; by rewrite E' in E). specialize (Hfresh Hne).
    assert (bool_decide (verify_fmt td = []) && (Zlength_of (buf i) <=? buf_filled_len i) = false) as ->.
    { apply andb_false_iff. destruct Hfresh; [left; by apply bool_decide_false|right; lia]. }
    rewrite paste_format_spec; [|unfold Zlength_of in *; lia|done|done|done]. cbn [mbind option_bind].
    exists (verify_state td), (window (pasted_pattern td i) 0 (length (buf i))), (rand_seed i), (Zlength_of (buf i)).
    split; [by destruct td, i|]. rewrite window_length. split_and!; [done| |done|done].
    destruct (paste_loop_ok (verify_pattern td) (verify_fmt td) (io_offset i) Hf) as [_ Hlen].
    apply window_forall; [|by apply paste_loop_bytes]. intros E0. unfold pasted_pattern in E0. rewrite E0 in Hlen. by destruct (verify_pattern td).
Qed.

(** Options and an [io_u] that can be populated. *)
Record ready (td : verify_td) (i : io_u) : Prop := Ready {
  ready_conf : conf td (get_hdr_inc td i); ready_whole : (get_hdr_inc td i | buflen i); ready_length : 0 < buflen i < 2 ^ 31;
  ready_pattern : bytes (verify_pattern td); ready_buffer : bytes (buffer_pattern td); ready_seed : is_u 64 (rand_seed i);
  ready_fresh : verify_pattern td ≠ [] → verify_fmt td ≠ [] ∨ buf_filled_len i < buflen i }.

Lemma get_hdr_inc_same td td' i j : length (buf j) = length (buf i) → verify_interval td' = verify_interval td → bs_unaligned td' = bs_unaligned td →
  get_hdr_inc td' j = get_hdr_inc td i.
Proof. intros E1 E2 E3. unfold get_hdr_inc, buflen, Zlength_of. by rewrite E1, E2, E3. Qed.

(** The state after [populate_verify_io_u]. *)
Record populated (junk : nat → list Z) (td : verify_td) (i : io_u) (td' : verify_td) (i' : io_u) : Prop := Populated {
  pop_td : ∃ st, td' = td <| verify_state := st |>; pop_conf : conf td' (get_hdr_inc td i);
  pop_seed : is_u 64 (rand_seed i'); pop_number : is_u 16 (numberio i'); pop_length : length (buf i') = length (buf i);
  pop_blocks : blocks_ok junk td' i' (get_hdr_inc td i) 0 (buf i') }.

Lemma populate_blocks junk td i : (∀ n, length (junk n) = n) → ready td i →
  ∃ td' i', populate_verify_io_u junk td i = Some (td', i') ∧ populated junk td i td' i'.
Proof.
  intros Hjunk [Hc [n Hdiv] Hl Hvp Hbp H64 Hfresh]. pose proof (conf_size _ _ Hc) as Hsz. pose proof (hdr_size_range (verify td)) as Hr.
  destruct (conf_kind _ _ Hc) as [Hk1 Hk2]. destruct (conf_fmt _ _ Hc) as (Hf & Ho & _).
  unfold populate_verify_io_u. rewrite decide_False by done. unfold fill_pattern_headers. set (i0 := i <| numberio := _ |>).
  destruct (fill_verify_pattern_ok td i0 0 false) as (st & b & s & l & -> & Hbl & Hby & Hs & Hw); try done; [unfold buflen in *; cbn; lia|].
  cbn [mbind option_bind]. set (td1 := td <| verify_state := st |>). set (i1 := i0 <| rand_seed := s |> <| buf := b |> <| buf_filled_len := l |>).
  change (buf i0) with (buf i) in Hbl. change (buf i1) with b. rewrite (get_hdr_inc_same td td1 i i1) by done. set (inc := get_hdr_inc td i) in *.
  assert (conf td1 inc) as Hc1 by (destruct Hc; by constructor). unfold buflen, Zlength_of in *.
  destruct (headers_loop_ok junk Hjunk (S (length b)) td1 i1 0 inc b (Z.to_nat n)) as (b' & -> & Hok & Hb'); [done|nia|nia|lia|lia|done| |].
  { intros [Hne _]. by apply Hw. }
  cbn [mbind option_bind]. exists td1, (i1 <| buf := b' |>). split; [done|]. constructor; try done.
  - by exists st.
  - by apply wrap_is_u.
  - cbn. congruence.
  - by apply blocks_ok_buf.
Qed.

(** C26. A buffer populated for writing is accepted when the same bytes are read.  The
    conditions are those of [ready]: a kind other than none and null (for a pattern kind, a
    pattern is set); a buffer of whole intervals, each longer than its header (the sha512
    kind needs 128 bytes of data in it, the pattern without header 16); a [verify_offset]
    that moves the header to a place in its interval that it does not overlap; and a buffer
    not marked as filled with a pattern already (the lemma [stale_pattern] shows what
    happens otherwise).  Then [populate_verify_io_u] fills the intervals and writes their
    headers, without an error, and [verify_io_u] on an [io_u] with these bytes and the
    place, number and seed of the written one returns 0; the uninitialised memory that some
    kinds use ([junk]) does not matter. *)
Theorem verify_accepts_written junk td i :
  (∀ n, length (junk n) = n) → ready td i →
  ∃ td' i', populate_verify_io_u junk td i = Some (td', i') ∧ td_error td' = td_error td ∧
    ∀ j, buf j = buf i' → trimmed j = false → same_io td i' j → ∃ td'' j', verify_io_u junk td' j = Some (0, td'', j').
Proof.
  intros Hjunk Hready. destruct (populate_blocks junk td i Hjunk Hready) as (td' & i' & -> & [[st ->] Hc H64 H16 Hlen Hok]).
  exists (td <| verify_state := st |>), i'. split; [done|]. split; [done|]. intros j Ej Etr Hsame. set (td1 := td <| verify_state := st |>) in *.
  unfold verify_io_u. case_match; [by eauto|]. rewrite Etr, (get_hdr_inc_same td td1 i j) by (rewrite ?Ej; done). set (inc := get_hdr_inc td i) in *.
  pose proof (ready_length _ _ Hready). unfold buflen, Zlength_of in *.
  destruct (verify_loop_ok junk (S (length (buf j))) td1 i' j 0 inc [] (buf j) (verify_pattern td) (rand_seed j)) as (td' & j' & E); try done; try lia.
  - by destruct Hsame.
  - apply (get_hdr_inc_same td td1 i j); [rewrite Ej; lia|done|done].
  - by apply Hsame.
  - by left.
  - rewrite Ej. lia.
  - by rewrite Ej.
  - assert (with_pattern td1 (verify_pattern td) = td1) as E1 by (by destruct td). assert (with_seed j (rand_seed j) = j) as E2 by (by destruct j).
    rewrite E1, E2 in E. rewrite E. cbn [mbind option_bind negb Z.eqb andb]. eauto.
Qed.

(** ** Changed data *)

(** The bytes in a row a kind tells apart. *)
Definition detected (t : verify_kind) : nat :=
  match t with VERIFY_CRC16 => 2 | VERIFY_CRC32 | VERIFY_CRC32C | VERIFY_CRC32C_INTEL => 4 | VERIFY_CRC64 => 8 | _ => 0 end.
Lemma detected_has_sum t : (0 < detected t)%nat → has_sum t.
Proof. unfold has_sum. destruct t; simpl; lia. Qed.
Lemma verdict_differs x y : x ≠ y → verdict (x =? y) = EILSEQ.
Proof. intros H. by rewrite (proj2 (Z.eqb_neq x y) H). Qed.
Lemma verdict_ok x y : verdict (x =? y) = 0 → x = y.
Proof. destruct (Z.eqb_spec x y); [done|]. unfold verdict, EILSEQ. lia. Qed.

Lemma verify_sum_burst junk t sum m1 ds es m2 : (0 < detected t)%nat → (length ds ≤ detected t)%nat → in_burst m1 ds es m2 →
  verify_sum junk t sum (m1 ++ ds ++ m2) = Some 0 → verify_sum junk t sum (m1 ++ es ++ m2) = Some EILSEQ.
Proof.
  intros Ht Hd Hb. destruct (burst_buffers _ _ _ _ Hb) as [H1 H2].
  destruct t; simpl in Ht, Hd; try lia; cbn [verify_sum]; unfold verify_io_u_crc16, verify_io_u_crc32, verify_io_u_crc32c, verify_io_u_crc64;
    intros [= E%verdict_ok]; f_equal; apply verdict_differs; rewrite <- E; unfold u16, u32, u64.
  - rewrite !wrap_small by (by apply fio_crc64_u). intros E'. symmetry in E'. by apply fio_crc64_burst in E'.
  - rewrite !wrap_small by (by apply fio_crc32_u). intros E'. symmetry in E'. by apply fio_crc32_burst in E'.
  - rewrite !wrap_small by (by apply crc32c_sw_u). intros E'. symmetry in E'. by apply crc32c_sw_burst in E'.
  - rewrite !wrap_small by (by apply crc32c_sw_u). intros E'. symmetry in E'. by apply crc32c_sw_burst in E'.
  - rewrite !wrap_small by (by apply fio_crc16_u). intros E'. symmetry in E'. by apply fio_crc16_burst in E'.
Qed.
(** With the error of an earlier interval, the loop goes on as without. *)
Lemma verify_loop_ret junk fuel td i ret num inc before rest : verify_fatal td = false → rest ≠ [] →
  verify_loop junk (S fuel) td i ret num inc before rest = verify_loop junk (S fuel) td i 0 num inc before rest.
Proof. intros Hf Hr. cbn [verify_loop]. by rewrite Hf, andb_false_r, bool_decide_false. Qed.

(** An interval that was populated, its header as it was and other data behind it: the result
    of its turn is what the kind says of the data. *)
Lemma other_data_turn junk td i j num inc before head data data' tail r :
  conf td inc → is_u 64 (rand_seed i) → is_u 16 (numberio i) → has_sum (verify td) → head_ok junk td i num inc head data →
  Z.of_nat (length (head ++ data')) = inc → same_io td i j → 0 ≤ num → num * inc + inc < 2 ^ 31 → Z.of_nat (length before) = num * inc →
  (∀ sum, head = __fill_hdr td i num inc (rand_seed i) ++ sum → Z.of_nat (length sum) = vhdr_size (verify td) →
     (has_sum (verify td) → verify_sum junk (verify td) sum data = Some 0) → verify_sum junk (verify td) sum data' = Some r) →
  verify_turn junk td j num inc before (swap_at td (head ++ data') ++ tail) = Some (r, false, td, j, (head ++ data') ++ tail).
Proof.
  intros Hc H64 H16 Hs Hh Hl Hsame Hnum Hni Hb Hr.
  assert (verify td ≠ VERIFY_PATTERN_NO_HDR) as En by (intros E; unfold has_sum in Hs; by rewrite E in Hs).
  destruct (verify_turn_body junk td i j num inc before head data data' tail) as (seed & -> & ->); try done.
  rewrite <- (same_seed _ _ _ Hsame En). assert (with_seed j (rand_seed j) = j) as -> by (by destruct j).
  destruct Hh as [[? _]|(_ & s & E & Hsl & Hv)]; [done|]. pose proof (Hr s E Hsl Hv) as Hvr. rewrite E in Hl |- *.
  rewrite (verify_body_sum junk td j i num inc) by done. by rewrite Hvr.
Qed.

(** A buffer that was populated, with other data in its first interval. *)
Section damaged.
Context (junk : nat → list Z) (td : verify_td) (i j : io_u) (inc : Z) (head data data' tail : list Z) (r : Z).
Context (Hc : conf td inc) (H64 : is_u 64 (rand_seed i)) (H16 : is_u 16 (numberio i)) (Hs : has_sum (verify td)).
Context (Hh : head_ok junk td i 0 inc head data) (Hl : Z.of_nat (length (head ++ data')) = inc).
Context (Ej : buf j = swap_at td (head ++ data') ++ tail) (Etr : trimmed j = false) (Erd : is_read j = true) (Efk : fakeio td = false).
Context (Hsame : same_io td i j) (Hinc : get_hdr_inc td j = inc).
Context (Hr : ∀ sum, head = __fill_hdr td i 0 inc (rand_seed i) ++ sum → (has_sum (verify td) → verify_sum junk (verify td) sum data = Some 0) → verify_sum junk (verify td) sum data' = Some r).

Lemma damaged_turn : verify_turn junk td j 0 inc [] (buf j) = Some (r, false, td, j, (head ++ data') ++ tail).
Proof.
  pose proof (conf_size _ _ Hc). pose proof (hdr_size_range (verify td)). rewrite Ej.
  apply (other_data_turn junk td i j 0 inc [] head data); try done; [lia|]. intros s E _. by apply Hr.
Qed.
Lemma damaged_loop :
  verify_loop junk (S (length (buf j))) td j 0 0 inc [] (buf j) = verify_loop junk (length (buf j)) td j r 1 inc (head ++ data') tail.
Proof.
  pose proof (conf_size _ _ Hc). pose proof (hdr_size_range (verify td)). cbn [verify_loop]. rewrite damaged_turn.
  assert (length (head ++ data') = Z.to_nat inc) as Hhi by lia.
  rewrite bool_decide_false.
  - cbn [orb negb Z.eqb andb mbind option_bind app]. by rewrite (drop_app_length' _ _ _ (eq_sym Hhi)), (take_app_length' _ _ _ (eq_sym Hhi)).
  - rewrite Ej. intros E%(f_equal length). rewrite length_app, (swap_at_length td inc) in E by done. simpl in E. lia.
Qed.
Lemma damaged_io_u td' j' r' : verify_loop junk (length (buf j)) td j r 1 inc (head ++ data') tail = Some (r', false, td', j') →
  verify_io_u junk td j = Some (r', if negb (r' =? 0) && verify_fatal td' then td' <| td_terminate := true |> else td', j').
Proof.
  intros E. destruct (conf_kind _ _ Hc) as [_ Hn]. unfold verify_io_u. rewrite Erd, Efk, Etr, bool_decide_false, Hinc, damaged_loop, E by done.
  cbn [orb negb andb mbind option_bind]. done.
Qed.
End damaged.

(** C27. A changed byte is found: with a cyclic redundancy check as the kind and one interval in
    the buffer, data that differs from what was written in a burst the check can tell (2 bytes
    in a row for crc16, 4 for crc32 and crc32c, 8 for crc64) gives [EILSEQ], and ends the
    thread when errors of verification are fatal. *)
Theorem verify_finds_bursts junk td i :
  (∀ n, length (junk n) = n) → ready td i → get_hdr_inc td i = buflen i → (0 < detected (verify td))%nat → fakeio td = false →
  ∃ td' i' head data, populate_verify_io_u junk td i = Some (td', i') ∧ buf i' = swap_at td (head ++ data) ∧ length head = hs td ∧
    ∀ m1 ds es m2 j, data = m1 ++ ds ++ m2 → in_burst m1 ds es m2 → (length ds ≤ detected (verify td))%nat →
      buf j = swap_at td (head ++ m1 ++ es ++ m2) → is_read j = true → trimmed j = false → same_io td i' j →
      ∃ td'' j', verify_io_u junk td' j = Some (EILSEQ, td'', j') ∧ (verify_fatal td = true → td_terminate td'' = true).
Proof.
  intros Hjunk Hready Hone Hdet Hfk. destruct (populate_blocks junk td i Hjunk Hready) as (td' & i' & -> & [[st ->] Hc H64 H16 Hlen Hok]).
  pose proof (ready_length _ _ Hready) as Hbl. rewrite Hone in *. unfold buflen, Zlength_of in *. set (td1 := td <| verify_state := st |>) in *.
  destruct (blocks_ok_inv _ _ _ _ _ _ Hok) as (head & data & tail & E & Hh & Hl & _); [intros E; rewrite E in Hlen; simpl in Hlen; lia|].
  pose proof (swap_at_length _ _ _ Hc Hl) as Hsl. assert (tail = []) as Et.
  { apply nil_length_inv. apply (f_equal length) in E. rewrite length_app in E. lia. }
  rewrite Et, app_nil_r in *. exists td1, i', head, data. split; [done|]. split; [done|]. split; [by apply (head_length _ _ _ _ _ _ _ Hh)|].
  intros m1 ds es m2 j Edata Hb Hk Ej Erd Etr Hsame. assert (length (m1 ++ es ++ m2) = length data) as Hle.
  { rewrite Edata, !length_app. by rewrite (burst_length _ _ _ _ Hb). }
  assert (Z.of_nat (length (head ++ m1 ++ es ++ m2)) = Z.of_nat (length (buf i))) as Hl' by (rewrite length_app, Hle, <- length_app; done).
  assert (length (buf j) = length (buf i)) as Hlj by (rewrite Ej; pose proof (swap_at_length td1 _ _ Hc Hl'); change (swap_at td1) with (swap_at td) in *; lia).
  eexists _, _. split.
  - apply (damaged_io_u junk td1 i' j (Z.of_nat (length (buf i))) head data (m1 ++ es ++ m2) [] EILSEQ); try done.
    + by apply detected_has_sum.
    + by rewrite app_nil_r.
    + by destruct Hsame.
    + rewrite <- Hone. by apply get_hdr_inc_same.
    + intros s _ Hv. apply (verify_sum_burst junk _ s m1 ds); [done|done|done|]. rewrite <- Edata. apply Hv. by apply detected_has_sum.
    + destruct (length (buf j)) eqn:E0; [lia|]. cbn [verify_loop]. rewrite bool_decide_true by done. done.
  - intros Hf. cbn. by rewrite Hf.
Qed.

(** [b'] is the buffer [b] with other data in some of its intervals, of the same length and behind
    the header: any of them but the last ones, which are not empty. *)
Inductive spoiled (td : verify_td) (inc : Z) : list Z → list Z → Prop :=
  | spoiled_rest b : b ≠ [] → spoiled td inc b b
  | spoiled_data head data data' b b' : length head = hs td → Z.of_nat (length (head ++ data)) = inc → length data' = length data → bytes data' →
      spoiled td inc b b' → spoiled td inc (swap_at td (head ++ data) ++ b) (swap_at td (head ++ data') ++ b').

Lemma spoiled_length td inc b b' : conf td inc → spoiled td inc b b' → length b' = length b.
Proof.
  intros Hc. induction 1 as [|head data data' b b' Hh Hl Hd _ _ IH]; [done|].
  assert (Z.of_nat (length (head ++ data')) = inc) as Hl' by (rewrite length_app, Hd, <- length_app; done).
  pose proof (swap_at_length td inc _ Hc Hl). pose proof (swap_at_length td inc _ Hc Hl'). rewrite !length_app in *. lia.
Qed.
Lemma spoiled_nil td inc b b' : conf td inc → spoiled td inc b b' → b' ≠ [].
Proof.
  intros Hc. destruct 1 as [b Hb|head data data' b b' Hh Hl Hd _ _]; [done|]. pose proof (conf_size _ _ Hc). pose proof (hdr_size_range (verify td)).
  assert (Z.of_nat (length (head ++ data')) = inc) as Hl' by (rewrite length_app, Hd, <- length_app; done).
  pose proof (swap_at_length td inc _ Hc Hl'). intros E%(f_equal length). rewrite length_app in E. simpl in E. lia.
Qed.

(** The swap of the header can be taken back. *)
Lemma swap_at_inj td inc b b' t t' : conf td inc → Z.of_nat (length b) = inc → Z.of_nat (length b') = inc →
  swap_at td b ++ t = swap_at td b' ++ t' → b = b' ∧ t = t'.
Proof.
  intros Hc Hb Hb' E. pose proof (swap_at_length td inc _ Hc Hb) as Hs. pose proof (swap_at_length td inc _ Hc Hb') as Hs'.
  apply app_inj_1 in E as [E ->]; [|lia]. split; [|done]. revert E. unfold swap_at. destruct (decide (Z.to_nat (verify_offset td) = 0%nat)) as [->|Hne]; [done|].
  intros E. pose proof (hdr_size_range (verify td)).
  destruct (memswp_swapped (Z.to_nat (verify_offset td)) (hs td) b [] Hne) as [_ E1]; [by apply (conf_swap td inc)|unfold hs; lia|].
  destruct (memswp_swapped (Z.to_nat (verify_offset td)) (hs td) b' [] Hne) as [_ E2]; [by apply (conf_swap td inc)|unfold hs; lia|].
  rewrite E, E2, !app_nil_r in E1. by injection E1 as ->.
Qed.

Lemma spoiled_loop junk fuel td i j inc num before ret rest rest' :
  (∀ n, length (junk n) = n) → conf td inc → is_u 64 (rand_seed i) → is_u 16 (numberio i) → has_sum (verify td) → verify_fatal td = false →
  same_io td i j → get_hdr_inc td j = inc → spoiled td inc rest rest' → blocks_ok junk td i inc num rest →
  0 ≤ num → num * inc + Z.of_nat (length rest) < 2 ^ 31 → Z.of_nat (length before) = num * inc → (length rest < fuel)%nat →
  ∃ td' j', verify_loop junk fuel td j ret num inc before rest' = Some (0, false, td', j').
Proof.
  intros Hjunk Hc H64 H16 Hs Hnf Hsame Hinc Hsp. revert fuel num before ret.
  assert (verify td ≠ VERIFY_PATTERN_NO_HDR) as En by (intros E; unfold has_sum in Hs; by rewrite E in Hs).
  pose proof (conf_size _ _ Hc) as Hsz. pose proof (hdr_size_range (verify td)) as Hr.
  induction Hsp as [b Hb|head data data' b b' Hhl Hl Hd Hby Hsp IH]; intros [|fuel] num before ret Hok Hnum Hn Hbl Hf; [lia| |lia|].
  { rewrite verify_loop_ret by done. assert (with_pattern td (verify_pattern td) = td) as E1 by (by destruct td).
    assert (with_seed j (rand_seed j) = j) as E2 by (by destruct j). rewrite <- E1, <- E2.
    apply (verify_loop_ok junk (S fuel) td i j num inc before b (verify_pattern td) (rand_seed j)); try done; [by apply Hsame|by left]. }
  inversion Hok as [num0 E0 E1|num0 head0 data0 tail Hh0 Hl0 _ Hrest Enum E]; subst num0.
  { apply (f_equal length) in E1. pose proof (swap_at_length td inc _ Hc Hl). rewrite length_app in E1. simpl in E1. lia. }
  apply (swap_at_inj td inc) in E as [E ->]; [|done..]. apply app_inj_1 in E as [-> ->]; [|by rewrite (head_length _ _ _ _ _ _ _ Hh0)].
  assert (Z.of_nat (length (head ++ data')) = inc) as Hl' by (rewrite length_app, Hd, <- length_app; done).
  pose proof (swap_at_length td inc _ Hc Hl) as Hsl. rewrite length_app in Hn, Hf.
  assert (Z.of_nat (length (head ++ data)) = inc) as Hlen by done. rewrite length_app in Hlen.
  assert (∃ sum, head = __fill_hdr td i num inc (rand_seed i) ++ sum ∧ Z.of_nat (length sum) = vhdr_size (verify td)) as (sum & Eh & Hsum).
  { destruct Hh0 as [[? _]|(_ & sum & -> & Hsum & _)]; [done|by exists sum]. }
  destruct (verify_sum_total junk Hjunk (verify td) sum sum data' Hs) as [r Er]; [|done|].
  { split_and!; [done|unfold hs in Hhl; lia|lia|]. intros E. pose proof (conf_sha512 _ _ Hc E) as H512. unfold hs in Hhl. rewrite E in Hhl. pose proof (hdr_size_range VERIFY_SHA512). lia. }
  cbn [verify_loop]. rewrite Hnf, andb_false_r, orb_false_r, bool_decide_false.
  2:{ intros E%(f_equal length). pose proof (swap_at_length td inc _ Hc Hl'). rewrite length_app in E. simpl in E. lia. }
  rewrite (other_data_turn junk td i j num inc before head data data' b' r); try done; [|lia|].
  2:{ intros s Es _ _. rewrite Eh in Es. apply app_inv_head in Es. by rewrite <- Es. }
  cbn [mbind option_bind]. assert (length (head ++ data') = Z.to_nat inc) as Hhi by lia.
  rewrite (drop_app_length' _ _ _ (eq_sym Hhi)), (take_app_length' _ _ _ (eq_sym Hhi)), u32_small by lia.
  apply IH; [done|lia|lia|rewrite length_app; lia|lia].
Qed.

(** C28. What is not found, with errors of verification that are not fatal, whatever kind that
    stores a checksum: [verify_io_u] overwrites the result of an interval with that of the
    next.  When the headers are as they were written, the data behind them may be anything in
    all intervals but the last, and the result is 0. *)
Theorem verify_forgets junk td i :
  (∀ n, length (junk n) = n) → ready td i → has_sum (verify td) → fakeio td = false → verify_fatal td = false →
  ∃ td' i', populate_verify_io_u junk td i = Some (td', i') ∧ length (buf i') = length (buf i) ∧
    ∀ j, spoiled td (get_hdr_inc td i) (buf i') (buf j) → is_read j = true → trimmed j = false → same_io td i' j →
      ∃ td'' j', verify_io_u junk td' j = Some (0, td'', j').
Proof.
  intros Hjunk Hready Hs Hfk Hnf. destruct (populate_blocks junk td i Hjunk Hready) as (td' & i' & -> & [[st ->] Hc H64 H16 Hlen Hok]).
  pose proof (ready_length _ _ Hready) as Hbl. unfold buflen, Zlength_of in *. set (td1 := td <| verify_state := st |>) in *.
  set (inc := get_hdr_inc td i) in *. exists td1, i'. split; [done|]. split; [done|]. intros j Hsp Erd Etr Hsame.
  assert (spoiled td1 inc (buf i') (buf j)) as Hsp1.
  { clear -Hsp. induction Hsp as [|head data data' b b' ? ? ? ? ? IH]; [by constructor|]. by apply (spoiled_data td1 inc head data data'). }
  pose proof (spoiled_length _ _ _ _ Hc Hsp1) as Hlj.
  assert (get_hdr_inc td1 j = inc) as Hincj by (apply get_hdr_inc_same; [lia|done|done]).
  destruct (spoiled_loop junk (S (length (buf j))) td1 i' j inc 0 [] 0 (buf i') (buf j)) as (td' & j' & E); try done; try lia.
  { by destruct Hsame. }
  destruct (conf_kind _ _ Hc) as [_ Hn]. unfold verify_io_u. change (fakeio td1) with (fakeio td).
  rewrite Erd, Hfk, Etr, bool_decide_false, Hincj, E by done. cbn [orb negb andb mbind option_bind Z.eqb]. eauto.
Qed.

Lemma sha512_field junk sum a m b : (∀ n, length (junk n) = n) → length a = 128%nat → (length m mod 128 = 0)%nat → (length b < 128)%nat →
  verify_sum junk VERIFY_SHA512 sum (a ++ m ++ b) = Some (verdict (memeq sum (blit 0 b a))).
Proof.
  intros Hjunk Ha Hm Hb. cbn [verify_sum]. unfold verify_io_u_sha512. rewrite sha512_buffer by (rewrite ?Hjunk, ?length_app; lia).
  assert (take 128 (a ++ m ++ b) = a) as -> by (rewrite <- Ha; apply take_app_length).
  assert (rest 128 (a ++ m ++ b) = b) as ->; [|done]. unfold rest. rewrite !length_app, Ha.
  pose proof (Nat.div_mod_eq (length m) 128) as E. rewrite Hm in E.
  assert ((128 + (length m + length b)) / 128 = 1 + length m / 128)%nat as ->.
  { symmetry. apply (Nat.div_unique _ _ _ (length b)); lia. }
  rewrite app_assoc, drop_app_length'; [done|]. rewrite length_app. lia.
Qed.

(** C29. The sha512 kind compares a buffer that holds no digest: with one interval in the
    buffer, of the data only the first 128 bytes and the bytes after the last whole block of
    128 can make [verify_io_u] fail.  The blocks between may hold anything. *)
Theorem sha512_blind junk td i :
  (∀ n, length (junk n) = n) → ready td i → get_hdr_inc td i = buflen i → verify td = VERIFY_SHA512 → fakeio td = false →
  ∃ td' i' head data, populate_verify_io_u junk td i = Some (td', i') ∧ buf i' = swap_at td (head ++ data) ∧ length head = hs td ∧
    ∀ a m m' b j, data = a ++ m ++ b → length a = 128%nat → (length m mod 128 = 0)%nat → (length b < 128)%nat → length m' = length m →
      buf j = swap_at td (head ++ a ++ m' ++ b) → is_read j = true → trimmed j = false → same_io td i' j →
      ∃ td'' j', verify_io_u junk td' j = Some (0, td'', j').
Proof.
  intros Hjunk Hready Hone Ek Hfk. destruct (populate_blocks junk td i Hjunk Hready) as (td' & i' & -> & [[st ->] Hc H64 H16 Hlen Hok]).
  pose proof (ready_length _ _ Hready) as Hbl. rewrite Hone in *. unfold buflen, Zlength_of in *. set (td1 := td <| verify_state := st |>) in *.
  destruct (blocks_ok_inv _ _ _ _ _ _ Hok) as (head & data & tail & E & Hh & Hl & _); [intros E; rewrite E in Hlen; simpl in Hlen; lia|].
  pose proof (swap_at_length _ _ _ Hc Hl) as Hsl. assert (tail = []) as Et.
  { apply nil_length_inv. apply (f_equal length) in E. rewrite length_app in E. lia. }
  rewrite Et, app_nil_r in *. exists td1, i', head, data. split; [done|]. split; [done|]. split; [by apply (head_length _ _ _ _ _ _ _ Hh)|].
  intros a m m' b j Edata Ha Hm Hb Hm' Ej Erd Etr Hsame. assert (length (a ++ m' ++ b) = length data) as Hle by (rewrite Edata, !length_app; lia).
  assert (Z.of_nat (length (head ++ a ++ m' ++ b)) = Z.of_nat (length (buf i))) as Hl' by (rewrite length_app, Hle, <- length_app; done).
  assert (length (buf j) = length (buf i)) as Hlj by (rewrite Ej; pose proof (swap_at_length td1 _ _ Hc Hl'); change (swap_at td1) with (swap_at td) in *; lia).
  assert (verify td1 = VERIFY_SHA512) as Ek1 by exact Ek. assert (has_sum (verify td1)) as Hs by (by rewrite Ek1).
  eexists _, _. apply (damaged_io_u junk td1 i' j (Z.of_nat (length (buf i))) head data (a ++ m' ++ b) [] 0); try done.
  - by rewrite app_nil_r.
  - by destruct Hsame.
  - rewrite <- Hone. by apply get_hdr_inc_same.
  - intros s _ Hv. specialize (Hv Hs). rewrite Ek1, Edata, sha512_field in Hv by done. rewrite Ek1, sha512_field; [done|done|done|by rewrite Hm'|done].
  - destruct (length (buf j)) eqn:E0; [lia|]. cbn [verify_loop]. rewrite bool_decide_true by done. done.
Qed.

(** ** Instances *)
Definition demo_td (t : verify_kind) (interval offset : Z) : verify_td :=
  VerifyTd t interval offset [] [] false false false false false 0 [] true true true false false 1 (init_rand_seed 1 false) 3 0 false.
Definition demo_io (n : nat) : io_u := IoU (replicate n 0) 0 4096 4096 0 false false 5 6 0.
Definition demo_junk (n : nat) : list Z := replicate n 0xAA.

Lemma demo_junk_length n : length (demo_junk n) = n.
Proof. apply length_replicate. Qed.
Lemma demo_ready t interval offset n k :
  get_hdr_inc (demo_td t interval offset) (demo_io n) = interval → Z.of_nat n = k * interval → 0 < interval → 0 < Z.of_nat n < 2 ^ 31 →
  t ≠ VERIFY_NONE ∧ t ≠ VERIFY_NULL ∧ t ≠ VERIFY_PATTERN ∧ t ≠ VERIFY_PATTERN_NO_HDR → 296 < interval < 2 ^ 31 →
  offset = 0 ∨ __hdr_size t ≤ offset ∧ offset + __hdr_size t ≤ interval → ready (demo_td t interval offset) (demo_io n).
Proof.
  intros Hinc Hn Hi Hl (H1 & H2 & H3 & H4) Hsz Ho. pose proof (hdr_size_range t). constructor; rewrite ?Hinc; try done.
  - constructor; cbn [verify demo_td verify_offset verify_pattern verify_fmt]; try done.
    + lia.
    + intros _. change (__hdr_size VERIFY_SHA512) with 168. lia.
    + by intros [->| ->].
    + split_and!; [constructor|constructor|done].
  - exists k. unfold buflen, Zlength_of, demo_io. cbn [buf]. by rewrite length_replicate.
  - unfold buflen, Zlength_of, demo_io. cbn [buf]. by rewrite length_replicate.
Qed.

Lemma verify_accepts_written_witness :
  ∃ td' i', populate_verify_io_u demo_junk (demo_td VERIFY_SHA256 320 128) (demo_io 640) = Some (td', i') ∧ td_error td' = 0 ∧
    ∀ j, buf j = buf i' → trimmed j = false → same_io (demo_td VERIFY_SHA256 320 128) i' j → ∃ td'' j', verify_io_u demo_junk td' j = Some (0, td'', j').
Proof.
  apply (verify_accepts_written demo_junk (demo_td VERIFY_SHA256 320 128) (demo_io 640)); [apply demo_junk_length|].
  apply (demo_ready _ _ _ _ 2); try done. right. split; by vm_compute.
Defined.
Lemma verify_finds_bursts_witness :
  ∃ td' i' head data, populate_verify_io_u demo_junk (demo_td VERIFY_CRC32C 0 64) (demo_io 512) = Some (td', i') ∧
    buf i' = swap_at (demo_td VERIFY_CRC32C 0 64) (head ++ data) ∧ length head = 44%nat ∧
    ∀ m1 ds es m2 j, data = m1 ++ ds ++ m2 → in_burst m1 ds es m2 → (length ds ≤ 4)%nat →
      buf j = swap_at (demo_td VERIFY_CRC32C 0 64) (head ++ m1 ++ es ++ m2) → is_read j = true → trimmed j = false →
      same_io (demo_td VERIFY_CRC32C 0 64) i' j →
      ∃ td'' j', verify_io_u demo_junk td' j = Some (EILSEQ, td'', j') ∧ (false = true → td_terminate td'' = true).
Proof.
  apply (verify_finds_bursts demo_junk (demo_td VERIFY_CRC32C 0 64) (demo_io 512)); [apply demo_junk_length| |done|simpl; lia|done].
  constructor; try done.
  constructor; try done; [right; split; by vm_compute|by intros [|]|split_and!; [constructor|constructor|done]].
Defined.
Lemma verify_forgets_witness :
  ∃ td' i', populate_verify_io_u demo_junk (demo_td VERIFY_SHA256 320 128) (demo_io 960) = Some (td', i') ∧ length (buf i') = 960%nat ∧
    ∀ j, spoiled (demo_td VERIFY_SHA256 320 128) 320 (buf i') (buf j) → is_read j = true → trimmed j = false →
      same_io (demo_td VERIFY_SHA256 320 128) i' j → ∃ td'' j', verify_io_u demo_junk td' j = Some (0, td'', j').
Proof.
  apply (verify_forgets demo_junk (demo_td VERIFY_SHA256 320 128) (demo_io 960)); [apply demo_junk_length| |done|done|done].
  apply (demo_ready _ _ _ _ 3); try done. right. split; by vm_compute.
Defined.
Lemma sha512_blind_witness :
  ∃ td' i' head data, populate_verify_io_u demo_junk (demo_td VERIFY_SHA512 0 0) (demo_io 512) = Some (td', i') ∧
    buf i' = swap_at (demo_td VERIFY_SHA512 0 0) (head ++ data) ∧ length head = 168%nat ∧
    ∀ a m m' b j, data = a ++ m ++ b → length a = 128%nat → (length m mod 128 = 0)%nat → (length b < 128)%nat → length m' = length m →
      buf j = swap_at (demo_td VERIFY_SHA512 0 0) (head ++ a ++ m' ++ b) → is_read j = true → trimmed j = false →
      same_io (demo_td VERIFY_SHA512 0 0) i' j → ∃ td'' j', verify_io_u demo_junk td' j = Some (0, td'', j').
Proof.
  apply (sha512_blind demo_junk (demo_td VERIFY_SHA512 0 0) (demo_io 512)); [apply demo_junk_length| |done|done|done].
  constructor; try done.
  constructor; try done; [by left|by intros [|]|split_and!; [constructor|constructor|done]].
Defined.

(** A pattern is not filled in again when the buffer has it already; with an offset, the swap of
    the write before has left a header among the pattern, and the second write of the same
    [io_u] does not verify. *)
Lemma stale_pattern (td := (demo_td VERIFY_PATTERN 0 40) <| verify_pattern := [0x5a] |>) :
  option_map (λ r, r.1.1)
    ('(td, i) ← populate_verify_io_u demo_junk td (demo_io 96); '(td, i) ← populate_verify_io_u demo_junk td i;
     verify_io_u demo_junk td (i <| is_read := true |>)) = Some EILSEQ.
Proof. by vm_compute. Qed.
