(* ===== verification/Latency.v ===== *)
(** * Latency histograms and percentiles (src/fio4emu/stat.c, stat.h)

    A latency goes to one of [FIO_IO_U_PLAT_NR] buckets, which stands for a single
    value; the percentiles are the values of the buckets in which the running count
    reaches their share.  The doubles of C are those of [SpecFloat] with 53 bits, its
    long doubles those with 64 (x86), each operation rounded to nearest. *)
From Stdlib Require Import SpecFloat.
From stdpp Require Import sorting.
From S2P Require Import Prelude CInt.
#[local] Open Scope Z_scope.

(** ** Floating point *)
Abbreviation dbl := spec_float (only parsing).
Definition dbl_of (x : Z) : dbl := binary_normalize 53 1024 x 0 false.
Definition fadd : dbl → dbl → dbl := SFadd 53 1024.
Definition fsub : dbl → dbl → dbl := SFsub 53 1024.
Definition fmul : dbl → dbl → dbl := SFmul 53 1024.
Definition fdiv : dbl → dbl → dbl := SFdiv 53 1024.
(** To an unsigned 64-bit integer, dropping the fraction; out of its range C has no result. *)
Definition dbl_to_u64 (x : dbl) : option Z :=
  match x with
  | S754_zero _ => Some 0
  | S754_finite s m e =>
      let v := if 0 <=? e then Z.pos m * 2 ^ e else Z.pos m / 2 ^ (- e) in
      if s then guard (v = 0);; Some 0 else guard (v < 2 ^ 64);; Some v
  | _ => None
  end.
Definition ldbl_of (x : Z) : spec_float := binary_normalize 64 16384 x 0 false.
Definition ldbl (x : dbl) : spec_float :=
  match x with S754_finite s m e => binary_round 64 16384 s m e | _ => x end.

(** ** Buckets *)
Definition FIO_IO_U_PLAT_BITS : Z := 6.
Definition FIO_IO_U_PLAT_VAL : Z := Z.shiftl 1 FIO_IO_U_PLAT_BITS.
Definition FIO_IO_U_PLAT_GROUP_NR : Z := 29.
Definition FIO_IO_U_PLAT_NR : Z := FIO_IO_U_PLAT_GROUP_NR * FIO_IO_U_PLAT_VAL.

(** [sizeof(val)*8 - __builtin_clzll(val) - 1] is the number of the highest set bit. *)
Definition plat_val_to_idx (val : Z) : Z :=
  let msb := if val =? 0 then 0 else Z.log2 val in
  if msb <=? FIO_IO_U_PLAT_BITS then u32 val else
  let error_bits := msb - FIO_IO_U_PLAT_BITS in
  let base := u32 (Z.shiftl (error_bits + 1) FIO_IO_U_PLAT_BITS) in
  let offset := Z.land (FIO_IO_U_PLAT_VAL - 1) (Z.shiftr val error_bits) in
  if u32 (base + offset) <? FIO_IO_U_PLAT_NR - 1 then u32 (base + offset) else FIO_IO_U_PLAT_NR - 1.

Definition plat_idx_to_val (idx : Z) : option Z :=
  guard (idx < FIO_IO_U_PLAT_NR);;
  if idx <? Z.shiftl FIO_IO_U_PLAT_VAL 1 then Some idx else
  let error_bits := Z.shiftr idx FIO_IO_U_PLAT_BITS - 1 in
  let base := u64 (Z.shiftl 1 (error_bits + FIO_IO_U_PLAT_BITS)) in
  let k := idx mod FIO_IO_U_PLAT_VAL in
  let half := fdiv (dbl_of 1) (dbl_of 2) in
  dbl_to_u64 (fadd (dbl_of base) (fmul (fadd (dbl_of k) half) (dbl_of (Z.shiftl 1 error_bits)))).

(** Counting a sample. *)
Definition plat_count (nsec : Z) (io_u_plat : list Z) : option (list Z) :=
  let idx := plat_val_to_idx nsec in
  guard (idx < FIO_IO_U_PLAT_NR);;
  n ← zget io_u_plat idx;
  zset io_u_plat idx (u64 (n + 1)).

Definition reset_io_u_plat : list Z := replicate (Z.to_nat FIO_IO_U_PLAT_NR) 0.

(** ** Percentiles *)
Definition FIO_IO_U_LIST_MAX_LEN : nat := 20.
Definition double_cmp (fa fb : dbl) : Z := if SFltb fb fa then 1 else if SFltb fa fb then -1 else 0.
(** The percentiles before the first 0, at most [FIO_IO_U_LIST_MAX_LEN]; [qsort] puts them in order. *)
Fixpoint plist_used (n : nat) (plist : list dbl) : list dbl :=
  match n, plist with
  | S n, p :: plist => if negb (SFeqb p (dbl_of 0)) then p :: plist_used n plist else []
  | _, _ => []
  end.
Definition cmp_le (fa fb : dbl) : Prop := double_cmp fa fb ≤ 0.
#[export] Instance cmp_le_dec fa fb : Decision (cmp_le fa fb).
Proof. unfold cmp_le. apply _. Defined.
Definition sorted_plist (plist : list dbl) : list dbl :=
  let used := plist_used FIO_IO_U_LIST_MAX_LEN plist in
  if (1 <? length used)%nat then merge_sort cmp_le used else used.

Record clat_out := ClatOut { ovals : list Z; maxv : Z; minv : Z }.
#[export] Instance eta_clat_out : Settable clat_out := λ r, ClatOut (ovals r) (maxv r) (minv r).

(** [(long double) plist[j].u.f / 100.0 * nr] *)
Definition share (nr : Z) (p : dbl) : spec_float := SFmul 64 16384 (SFdiv 64 16384 (ldbl p) (ldbl_of 100)) (ldbl_of nr).
Definition reaches (nr sum : Z) (p : dbl) : bool := SFleb (share nr p) (ldbl_of sum).

(** [while (sum >= ...)] in bucket [i]: the next percentile, the values, and whether it was the last. *)
Fixpoint reach_loop (fuel : nat) (nr : Z) (plist : list dbl) (i sum : Z) (j : nat) (o : clat_out) : option (nat * clat_out * bool) :=
  match fuel with
  | O => None
  | S f =>
      p ← plist !! j;
      if reaches nr sum p then
        guard (SFleb p (dbl_of 100) = true);;
        v ← plat_idx_to_val i;
        vs ← (if decide (j < length (ovals o))%nat then Some (<[j := v]> (ovals o)) else None);
        let o := ClatOut vs (if maxv o <? v then v else maxv o) (if v <? minv o then v else minv o) in
        if (j =? length plist - 1)%nat then Some (j, o, true) else reach_loop f nr plist i sum (S j) o
      else Some (j, o, false)
  end.
(** [for (i = 0; i < FIO_IO_U_PLAT_NR && !is_last; i++)] *)
Fixpoint bucket_loop (nr : Z) (plist : list dbl) (io_u_plat : list Z) (i sum : Z) (j : nat) (o : clat_out) : option (clat_out * bool) :=
  match io_u_plat with
  | [] => Some (o, false)
  | c :: io_u_plat =>
      let sum := u64 (sum + c) in
      '(j, o, is_last) ← reach_loop (length plist) nr plist i sum j o;
      if is_last : bool then Some (o, true) else bucket_loop nr plist io_u_plat (i + 1) sum j o
  end.

(** [malloc len] is the memory of the values, if there is any; [is_last] tells whether
    every percentile was reached, which the source logs when it is not so. *)
Definition calc_clat_percentiles (malloc : nat → option (list Z)) (io_u_plat : list Z) (nr : Z) (plist : list dbl) :
    option (nat * list dbl * option clat_out * bool) :=
  let plist := sorted_plist plist in
  match length plist with
  | O => Some (0%nat, plist, None, true)
  | len =>
      match malloc len with
      | None => Some (0%nat, plist, None, true)
      | Some vals =>
          '(o, is_last) ← bucket_loop nr plist (take (Z.to_nat FIO_IO_U_PLAT_NR) io_u_plat) 0 0 0 (ClatOut vals 0 (2 ^ 64 - 1));
          Some (len, plist, Some o, is_last)
      end
  end.

(** ** The buckets *)
(** The bucket of a value is made of its number [e] of error bits and its seven highest bits [q]. *)
Lemma top_bits val (e := Z.log2 val - 6) (q := val / 2 ^ e) : 128 ≤ val → 1 ≤ e ∧ 64 ≤ q < 128 ∧ q * 2 ^ e ≤ val < (q + 1) * 2 ^ e.
Proof.
  intros H. assert (7 ≤ Z.log2 val) by (apply (Z.log2_le_mono 128); lia).
  destruct (Z.log2_spec val) as [Hlo Hhi]; [lia|]. assert (He : 0 < 2 ^ e) by (apply Z.pow_pos_nonneg; lia).
  assert (Ha : 2 ^ Z.log2 val = 64 * 2 ^ e) by (change 64 with (2 ^ 6); rewrite <- Z.pow_add_r by lia; f_equal; lia).
  rewrite Z.pow_succ_r in Hhi by lia.
  pose proof (Z.mul_div_le val (2 ^ e) He). pose proof (Z.mul_succ_div_gt val (2 ^ e) He). fold q in H1, H2.
  split; [lia|]. split; [|lia]. split; [apply Z.div_le_lower_bound; lia|apply Z.div_lt_upper_bound; lia].
Qed.

Lemma val_idx_small val : 0 ≤ val < 128 → plat_val_to_idx val = val.
Proof.
  intros H. unfold plat_val_to_idx. destruct (Z.eqb_spec val 0) as [->|]; [done|].
  assert (Z.log2 val < 7) by (apply Z.log2_lt_pow2; lia). rewrite (proj2 (Z.leb_le _ _)) by (unfold FIO_IO_U_PLAT_BITS; lia).
  apply u32_small. lia.
Qed.

Lemma val_idx_large val (e := Z.log2 val - 6) (q := val / 2 ^ e) : 128 ≤ val < 2 ^ 64 →
  plat_val_to_idx val = Z.min (64 * e + q) 1855.
Proof.
  intros H. destruct (top_bits val) as (He & Hq & _); [lia|]. fold e in He, Hq. fold q in Hq.
  assert (e ≤ 57) by (assert (Z.log2 val < 64) by (apply Z.log2_lt_pow2; lia); unfold e; lia).
  unfold plat_val_to_idx. destruct (Z.eqb_spec val 0); [lia|]. unfold FIO_IO_U_PLAT_BITS. fold e.
  rewrite (proj2 (Z.leb_gt _ _)) by lia. change (FIO_IO_U_PLAT_VAL - 1) with (Z.ones 6).
  rewrite Z.land_comm, Z.land_ones, Z.shiftr_div_pow2 by lia. fold q. rewrite Z.shiftl_mul_pow2 by lia. change (2 ^ 6) with 64.
  assert (q mod 64 = q - 64) as -> by (symmetry; apply (Z.mod_unique_pos q 64 1); lia).
  rewrite (u32_small ((e + 1) * 64)), !u32_small by lia. change (FIO_IO_U_PLAT_NR - 1) with 1855. destruct (Z.ltb_spec ((e + 1) * 64 + (q - 64)) 1855); lia.
Qed.

Lemma val_idx_range val : 0 ≤ val < 2 ^ 64 → 0 ≤ plat_val_to_idx val < FIO_IO_U_PLAT_NR.
Proof.
  intros H. change FIO_IO_U_PLAT_NR with 1856. destruct (decide (val < 128)); [rewrite val_idx_small; lia|].
  destruct (top_bits val) as (He & Hq & _); [lia|]. rewrite val_idx_large by lia. lia.
Qed.

(** A larger value has no smaller bucket. *)
Lemma val_idx_mono a b : 0 ≤ a ≤ b → b < 2 ^ 64 → plat_val_to_idx a ≤ plat_val_to_idx b.
Proof.
  intros Hab Hb. destruct (decide (b < 128)); [rewrite !val_idx_small; lia|].
  destruct (top_bits b) as (Heb & Hqb & Hb1 & Hb2); [lia|]. rewrite (val_idx_large b) by lia.
  destruct (decide (a < 128)); [rewrite val_idx_small by lia; lia|].
  destruct (top_bits a) as (Hea & Hqa & Ha1 & Ha2); [lia|]. rewrite (val_idx_large a) by lia.
  assert (Hl : Z.log2 a ≤ Z.log2 b) by (apply Z.log2_le_mono; lia).
  destruct (decide (Z.log2 a = Z.log2 b)) as [E|]; [|lia].
  assert (a / 2 ^ (Z.log2 a - 6) ≤ b / 2 ^ (Z.log2 b - 6)); [|lia].
  rewrite E. apply Z.div_le_mono; [apply Z.pow_pos_nonneg; lia|lia].
Qed.

(** The value of a bucket in integers: the doubles are exact. *)
Definition bucket_value (idx : Z) : Z :=
  if idx <? 128 then idx else let e := idx / 64 - 1 in (2 * (idx mod 64 + 64) + 1) * 2 ^ (e - 1).
Lemma idx_to_val_exact idx : 0 ≤ idx < FIO_IO_U_PLAT_NR → plat_idx_to_val idx = Some (bucket_value idx).
Proof.
  intros H. assert (Hall : forallb (λ n, bool_decide (plat_idx_to_val (Z.of_nat n) = Some (bucket_value (Z.of_nat n)))) (seq 0 1856) = true)
    by (vm_compute; done).
  rewrite forallb_forall in Hall. specialize (Hall (Z.to_nat idx)).
  rewrite Z2Nat.id, bool_decide_eq_true in Hall by lia. apply Hall, in_seq. change FIO_IO_U_PLAT_NR with 1856 in H. lia.
Qed.

Lemma val_idx_bucket idx : 0 ≤ idx < FIO_IO_U_PLAT_NR → plat_val_to_idx (bucket_value idx) = idx.
Proof.
  change FIO_IO_U_PLAT_NR with 1856. intros H. unfold bucket_value.
  destruct (Z.ltb_spec idx 128) as [|Hl]; [apply val_idx_small; lia|].
  assert (Hd := Z.div_mod idx 64 ltac:(lia)). assert (Hm := Z.mod_pos_bound idx 64 ltac:(lia)).
  set (r := idx mod 64) in *. cbn zeta. assert (∃ e, e = idx / 64 - 1) as [e Ee] by eauto. rewrite <- Ee.
  assert (He : 1 ≤ e ≤ 27) by lia.
  assert (Hp : 2 ^ e = 2 * 2 ^ (e - 1)) by (rewrite <- Z.pow_succ_r by lia; f_equal; lia).
  assert (Hp0 : 0 < 2 ^ (e - 1)) by (apply Z.pow_pos_nonneg; lia).
  assert (Hp1 : 2 ^ (e - 1) ≤ 2 ^ 26) by (apply Z.pow_le_mono_r; lia).
  set (v := (2 * (r + 64) + 1) * 2 ^ (e - 1)).
  assert (Hlog : Z.log2 v = e + 6).
  { apply Z.log2_unique; [lia|]. rewrite Z.pow_succ_r, Z.pow_add_r, Hp by lia. change (2 ^ 6) with 64. unfold v. split; nia. }
  rewrite val_idx_large by (unfold v; split; nia). rewrite Hlog.
  assert (v / 2 ^ (e + 6 - 6) = r + 64) as ->; [|lia].
  replace (e + 6 - 6) with e by lia. symmetry. apply (Z.div_unique_pos _ _ _ (2 ^ (e - 1))); unfold v; nia.
Qed.

(** The value of the bucket of a latency is within a 128th of it, as far as the buckets reach. *)
Lemma bucket_value_close val : 0 ≤ val < 2 ^ 34 → 128 * Z.abs (bucket_value (plat_val_to_idx val) - val) ≤ val.
Proof.
  intros H. destruct (decide (val < 128)) as [Hs|Hs].
  { rewrite val_idx_small by lia. unfold bucket_value. rewrite (proj2 (Z.ltb_lt _ _)) by lia. lia. }
  destruct (top_bits val) as (He & Hq & Hb); [lia|]. rewrite val_idx_large by lia.
  assert (Z.log2 val < 34) by (apply Z.log2_lt_pow2; lia).
  set (e := Z.log2 val - 6) in *. set (q := val / 2 ^ e) in *.
  rewrite Z.min_l by lia. unfold bucket_value. rewrite (proj2 (Z.ltb_ge _ _)) by lia.
  assert ((64 * e + q) / 64 = e + 1) as -> by (symmetry; apply (Z.div_unique_pos _ _ _ (q - 64)); lia).
  assert ((64 * e + q) mod 64 = q - 64) as -> by (symmetry; apply (Z.mod_unique_pos _ _ (e + 1)); lia).
  replace (e + 1 - 1 - 1) with (e - 1) by lia.
  assert (Hp : 2 ^ e = 2 * 2 ^ (e - 1)) by (rewrite <- Z.pow_succ_r by lia; f_equal; lia).
  assert (Hp0 : 0 < 2 ^ (e - 1)) by (apply Z.pow_pos_nonneg; lia). nia.
Qed.

(** ** Comparing long doubles with integers *)
Lemma digits2_spec m : Z.pos (digits2_pos m) = Z.log2 (Z.pos m) + 1.
Proof.
  induction m as [m IH|m IH|]; [| |done]; cbn [digits2_pos]; rewrite Pos2Z.inj_succ, IH.
  - rewrite Pos2Z.inj_xI, Z.log2_succ_double by lia. lia.
  - rewrite Pos2Z.inj_xO, Z.log2_double by lia. lia.
Qed.

Lemma iter_xO_val m k : Z.pos (Pos.iter xO m k) = Z.pos m * 2 ^ Z.pos k.
Proof.
  induction k as [|k IH] using Pos.peano_ind; [cbn [Pos.iter]; lia|].
  rewrite Pos.iter_succ, Pos2Z.inj_xO, IH, Pos2Z.inj_succ, Z.pow_succ_r by lia. lia.
Qed.

Lemma round_full s m e : Z.pos (digits2_pos m) = 64 → -64 ≤ e ≤ 0 →
  binary_round_aux 64 16384 s (Z.pos m) e loc_Exact = S754_finite s m e.
Proof.
  intros Hd He. assert (Hf : fexp 64 16384 (Zdigits2 (Z.pos m) + e) - e = 0).
  { unfold fexp, emin, Zdigits2. rewrite Hd. lia. }
  unfold binary_round_aux, shr_fexp. rewrite Hf. cbn [shr shr_record_of_loc shr_m loc_of_shr_record round_nearest_even].
  rewrite Hf. cbn [shr shr_record_of_loc shr_m]. rewrite (proj2 (Z.leb_le _ _)) by lia. done.
Qed.

(** A 64-bit number is a long double as it is. *)
Lemma ldbl_of_pos m (d := Z.log2 (Z.pos m) + 1) : Z.pos m < 2 ^ 64 →
  ∃ m', ldbl_of (Z.pos m) = S754_finite false m' (d - 64) ∧ Z.pos m' = Z.pos m * 2 ^ (64 - d).
Proof.
  intros H. assert (Hd : Z.pos (digits2_pos m) = d) by apply digits2_spec.
  assert (Z.log2 (Z.pos m) < 64) by (apply Z.log2_lt_pow2; lia). assert (0 ≤ Z.log2 (Z.pos m)) by apply Z.log2_nonneg.
  unfold ldbl_of, binary_normalize, binary_round. rewrite Hd.
  assert (fexp 64 16384 (d + 0) = d - 64) as -> by (unfold fexp, emin, d; lia).
  unfold shl_align. destruct (d - 64 - 0) as [|k|k] eqn:E; [|lia|].
  - exists m. split; [|replace (64 - d) with 0 by lia; lia]. replace (d - 64) with 0 by lia. apply round_full; [|lia].
    unfold d in *. lia.
  - exists (Pos.iter xO m k). assert (Hv := iter_xO_val m k). split; [|rewrite Hv; f_equal; f_equal; lia].
    apply round_full; [|unfold d in *; lia]. rewrite digits2_spec, Hv, Z.log2_mul_pow2 by lia. unfold d in *. lia.
Qed.

(** The order of two such numbers. *)
Lemma leb_lex x m e m' e' : SFleb x (S754_finite false m e) = true → e < e' ∨ e = e' ∧ Z.pos m ≤ Z.pos m' →
  SFleb x (S754_finite false m' e') = true.
Proof.
  unfold SFleb. destruct x as [s|s| |s mx ex]; cbn [SFcompare]; [by destruct s|by destruct s|done|destruct s; [done|]].
  intros Hx H. change (Pos.compare_cont Eq) with Pos.compare in *.
  destruct (Z.compare_spec ex e), (Z.compare_spec ex e'); try done; try lia.
  destruct (Pos.compare_spec mx m), (Pos.compare_spec mx m'); try done; lia.
Qed.
Lemma ldbl_le_mono x s s' : 0 ≤ s ≤ s' → s' < 2 ^ 64 → SFleb x (ldbl_of s) = true → SFleb x (ldbl_of s') = true.
Proof.
  intros H Hs' Hx. destruct s' as [|m'|]; [by replace s with 0 in Hx by lia| |lia].
  destruct (ldbl_of_pos m') as (n' & -> & Hn'); [lia|]. destruct s as [|m|]; [|destruct (ldbl_of_pos m) as (n & E & Hn); [lia|]|lia].
  - revert Hx. unfold SFleb. destruct x as [sx|sx| |sx ? ?]; cbn; try done; by destruct sx.
  - rewrite E in Hx. eapply leb_lex; [exact Hx|]. assert (Hl : Z.log2 (Z.pos m) ≤ Z.log2 (Z.pos m')) by (apply Z.log2_le_mono; lia).
    destruct (decide (Z.log2 (Z.pos m) = Z.log2 (Z.pos m'))) as [El|]; [right|left; lia].
    split; [lia|]. rewrite Hn, Hn', El. apply Z.mul_le_mono_nonneg_r; [apply Z.pow_nonneg; lia|lia].
Qed.
Lemma reaches_mono nr p s s' : 0 ≤ s ≤ s' → s' < 2 ^ 64 → reaches nr s p = true → reaches nr s' p = true.
Proof. apply ldbl_le_mono. Qed.

(** ** The loops over the buckets *)
Lemma max_ifE a b : (if a <? b then b else a) = Z.max a b.
Proof. destruct (Z.ltb_spec a b); lia. Qed.
Lemma min_ifE a b : (if b <? a then b else a) = Z.min a b.
Proof. destruct (Z.ltb_spec b a); lia. Qed.

(** The samples in the first [n] buckets. *)
Definition csum (plat : list Z) (n : nat) : Z := foldr Z.add 0 (take n plat).
Lemma csum_S plat n c : plat !! n = Some c → csum plat (S n) = csum plat n + c.
Proof.
  intros H. unfold csum. rewrite (take_S_r _ _ _ H). generalize (take n plat). intros l.
  induction l as [|a l IH]; cbn [app foldr]; lia.
Qed.
Lemma csum_mono plat m n : Forall (Z.le 0) plat → (m ≤ n)%nat → 0 ≤ csum plat m ≤ csum plat n.
Proof.
  intros Hp Hmn. induction Hmn as [|n Hmn IH].
  - split; [|lia]. unfold csum. apply (Forall_take _ m) in Hp. induction Hp; cbn; lia.
  - destruct (plat !! n) as [c|] eqn:E.
    + rewrite (csum_S _ _ _ E). apply (Forall_lookup_1 _ _ _ _ Hp) in E. lia.
    + unfold csum in *. apply lookup_ge_None in E. rewrite (take_ge plat (S n)) by lia. by rewrite (take_ge plat n) in IH by lia.
Qed.

Section Percentiles.
Context (nr : Z) (plist : list dbl) (plat : list Z).
Context (Hlen : length plat = Z.to_nat FIO_IO_U_PLAT_NR) (Hpos : Forall (Z.le 0) plat) (Hsum : csum plat (length plat) < 2 ^ 64).
Context (Hne : plist ≠ []) (Hcent : Forall (λ p, SFleb p (dbl_of 100) = true) plist).

Definition all_reach (sum : Z) (ps : list dbl) : Prop := Forall (λ p, reaches nr sum p = true) ps.
(** The first bucket in which the count reaches all of [ps]. *)
Definition first_bucket (ps : list dbl) (b : nat) : Prop :=
  (b < length plat)%nat ∧ all_reach (csum plat (S b)) ps ∧ ∀ b', (b' < b)%nat → ¬ all_reach (csum plat (S b')) ps.
(** The values up to the [j]-th are in place. *)
Definition placed (j : nat) (o : clat_out) : Prop :=
  length (ovals o) = length plist ∧
  (∀ j', (j' < j)%nat → ∃ b, first_bucket (take (S j') plist) b ∧ ovals o !! j' = Some (bucket_value (Z.of_nat b))) ∧
  maxv o = foldl Z.max 0 (take j (ovals o)) ∧ minv o = foldl Z.min (2 ^ 64 - 1) (take j (ovals o)).

Lemma csum_bound n : 0 ≤ csum plat n < 2 ^ 64.
Proof.
  destruct (decide (n ≤ length plat)%nat).
  - pose proof (csum_mono plat n (length plat) Hpos). lia.
  - unfold csum in *. rewrite take_ge by lia. pose proof (csum_mono plat (length plat) (length plat) Hpos) as H. unfold csum in H.
    rewrite take_ge in H, Hsum by lia. lia.
Qed.
Lemma all_reach_mono s s' ps : 0 ≤ s ≤ s' → s' < 2 ^ 64 → all_reach s ps → all_reach s' ps.
Proof. intros ? ? H. eapply Forall_impl; [exact H|]. cbn. intros p. by apply reaches_mono. Qed.
Lemma all_reach_S sum j p : plist !! j = Some p → all_reach sum (take (S j) plist) ↔ all_reach sum (take j plist) ∧ reaches nr sum p = true.
Proof. intros H. unfold all_reach. rewrite (take_S_r _ _ _ H), Forall_app, Forall_singleton. done. Qed.

Lemma placed_insert j o b : placed j o → (j < length plist)%nat → first_bucket (take (S j) plist) b →
  let v := bucket_value (Z.of_nat b) in placed (S j) (ClatOut (<[j := v]> (ovals o)) (Z.max (maxv o) v) (Z.min (minv o) v)).
Proof.
  intros (Hl & Hp & Hmax & Hmin) Hj Hb v. split; [|split]; cbn [ovals maxv minv].
  - by rewrite length_insert.
  - intros j' Hj'. destruct (decide (j' = j)) as [->|].
    + exists b. split; [done|]. apply list_lookup_insert_eq. lia.
    + rewrite list_lookup_insert_ne by lia. apply Hp. lia.
  - rewrite (take_S_r _ _ v) by (apply list_lookup_insert_eq; lia). rewrite take_insert_ge, !foldl_snoc, <- Hmax, <- Hmin by lia.
    done.
Qed.

Lemma reach_loop_ok fuel i j o : (i < length plat)%nat → (j < length plist)%nat → (length plist ≤ fuel + j)%nat → placed j o →
  all_reach (csum plat (S i)) (take j plist) → (∀ b, (b < i)%nat → ¬ all_reach (csum plat (S b)) (take (S j) plist)) →
  ∃ j' o' is_last, reach_loop fuel nr plist (Z.of_nat i) (csum plat (S i)) j o = Some (j', o', is_last) ∧
    if is_last : bool then placed (length plist) o'
    else (j' < length plist)%nat ∧ placed j' o' ∧ all_reach (csum plat (S i)) (take j' plist) ∧
         ∀ b, (b < S i)%nat → ¬ all_reach (csum plat (S b)) (take (S j') plist).
Proof using Hlen Hpos Hsum Hcent.
  revert j o. induction fuel as [|fuel IH]; intros j o Hi Hj Hf Ho Hr Hn; [lia|].
  destruct (lookup_lt_is_Some_2 plist j Hj) as [p Hp]. cbn [reach_loop]. rewrite Hp. cbn [mbind option_bind].
  assert (HS := all_reach_S (csum plat (S i)) j p Hp).
  destruct (reaches nr (csum plat (S i)) p) eqn:E.
  - assert (Hb : first_bucket (take (S j) plist) i) by (split; [done|]; split; [by apply HS|done]).
    rewrite option_guard_True by (apply (Forall_lookup_1 _ _ _ _ Hcent Hp)).
    rewrite idx_to_val_exact by lia. cbn [mbind option_bind]. rewrite decide_True by (destruct Ho; lia). cbn [mbind option_bind].
    rewrite max_ifE, min_ifE. assert (Ho' := placed_insert j o i Ho Hj Hb). cbn zeta in Ho'.
    destruct (Nat.eqb_spec j (length plist - 1)) as [El|].
    + eexists _, _, true. split; [reflexivity|]. by replace (length plist) with (S j) by lia.
    + apply IH; [lia..|exact Ho'|by apply HS|]. intros b Hlt Hb'. apply (Hn b Hlt).
      destruct (lookup_lt_is_Some_2 plist (S j)) as [p' Hp']; [lia|]. exact (proj1 (proj1 (all_reach_S _ _ p' Hp') Hb')).
  - exists j, o, false. do 4 (split; [done|]). intros b Hb Hb'. apply all_reach_S with (p := p) in Hb' as [_ Hb']; [|done].
    pose proof (csum_mono plat (S b) (S i) Hpos). pose proof (csum_bound (S i)).
    rewrite (reaches_mono nr p (csum plat (S b)) (csum plat (S i))) in E; [done|lia..|done].
Qed.

Lemma bucket_loop_ok todo i j o : drop i plat = todo → (i ≤ length plat)%nat → (j < length plist)%nat → placed j o →
  all_reach (csum plat i) (take j plist) → (∀ b, (b < i)%nat → ¬ all_reach (csum plat (S b)) (take (S j) plist)) →
  ∃ o' is_last, bucket_loop nr plist todo (Z.of_nat i) (csum plat i) j o = Some (o', is_last) ∧
    if is_last : bool then placed (length plist) o' else ¬ all_reach (csum plat (length plat)) plist.
Proof using Hlen Hpos Hsum Hcent.
  revert i j o. induction todo as [|c todo IH]; intros i j o Hd Hi Hj Ho Hr Hn; cbn [bucket_loop].
  - assert (length plat = i) as El by (apply (f_equal length) in Hd; rewrite length_drop in Hd; cbn in Hd; lia).
    exists o, false. split; [done|]. intros Hall. destruct i as [|i]; [change FIO_IO_U_PLAT_NR with 1856 in Hlen; lia|].
    apply (Hn i); [lia|]. rewrite El in Hall. unfold all_reach in *. rewrite <- (take_drop (S j) plist) in Hall.
    by apply Forall_app in Hall as [? _].
  - assert (Hc : plat !! i = Some c) by (rewrite <- (Nat.add_0_r i), <- lookup_drop, Hd; done).
    assert (Hi' : (i < length plat)%nat) by by apply lookup_lt_Some in Hc.
    rewrite <- (csum_S _ _ _ Hc). assert (u64 (csum plat (S i)) = csum plat (S i)) as ->.
    { apply wrap_small. apply csum_bound. }
    destruct (reach_loop_ok (length plist) i j o) as (j' & o' & is_last & -> & Hres); [done|done|lia|done| |done|].
    { eapply all_reach_mono; [|apply csum_bound|exact Hr]. apply csum_mono; [done|lia]. }
    cbn [mbind option_bind]. destruct is_last; [by exists o', true|].
    destruct Hres as (Hj' & Ho' & Hr' & Hn'). replace (Z.of_nat i + 1) with (Z.of_nat (S i)) by lia.
    apply IH; [|lia|done..]. rewrite <- Nat.add_1_r, <- drop_drop, Hd. done.
Qed.

(** Every percentile gets the value of the first bucket in which the count reaches it and those before it. *)
Lemma percentile_loop_ok vals : length vals = length plist →
  ∃ o is_last, bucket_loop nr plist plat 0 0 0 (ClatOut vals 0 (2 ^ 64 - 1)) = Some (o, is_last) ∧
    if is_last : bool then placed (length plist) o else ¬ all_reach (csum plat (length plat)) plist.
Proof using Hlen Hpos Hsum Hne Hcent.
  intros Hv. apply (bucket_loop_ok plat 0 0); [done|lia| | |by constructor|lia].
  - destruct plist; [done|cbn; lia].
  - split; [done|]. split; [lia|done].
Qed.
End Percentiles.
