(* ===== verification/LatencySpec.v ===== *)
(** * What the percentiles of the latencies say (src/fio4emu/stat.c)

    The buckets count the samples by their value, adding the counts of several jobs
    counts all of their samples, and each percentile that [calc_clat_percentiles]
    computes is within a 128th of the sample of its rank. *)
From Stdlib Require Import SpecFloat.
From stdpp Require Import sorting.
From S2P Require Import Prelude CInt Latency.
#[local] Open Scope Z_scope.

(** ** The histogram of samples *)
Definition plat_of (samples : list Z) : option (list Z) :=
  foldl (λ plat x, plat ≫= plat_count x) (Some reset_io_u_plat) samples.
Definition counted (P : Z → Prop) `{!∀ x, Decision (P x)} (samples : list Z) : Z := Z.of_nat (length (filter (λ x, P (plat_val_to_idx x)) samples)).
Definition histogram (samples plat : list Z) : Prop :=
  length plat = Z.to_nat FIO_IO_U_PLAT_NR ∧ ∀ i, (i < length plat)%nat → plat !! i = Some (counted (eq (Z.of_nat i)) samples).
Definition is_latency (x : Z) : Prop := 0 ≤ x < 2 ^ 64.

Lemma counted_snoc P `{!∀ x, Decision (P x)} xs x : counted P (xs ++ [x]) = counted P xs + if decide (P (plat_val_to_idx x)) then 1 else 0.
Proof.
  unfold counted. rewrite filter_app, length_app, filter_cons, filter_nil.
  destruct (decide (P (plat_val_to_idx x))); cbn [length]; lia.
Qed.
Lemma counted_app P `{!∀ x, Decision (P x)} xs ys : counted P (xs ++ ys) = counted P xs + counted P ys.
Proof. unfold counted. rewrite filter_app, length_app. lia. Qed.
Lemma counted_bound P `{!∀ x, Decision (P x)} xs : 0 ≤ counted P xs ≤ Z.of_nat (length xs).
Proof. unfold counted. pose proof (length_filter (λ x, P (plat_val_to_idx x)) xs). lia. Qed.

Lemma histogram_nil : histogram [] reset_io_u_plat.
Proof.
  split; [apply length_replicate|]. intros i Hi. apply lookup_replicate_2. unfold reset_io_u_plat in Hi. by rewrite length_replicate in Hi.
Qed.

Lemma plat_count_ok xs x plat : histogram xs plat → is_latency x → Z.of_nat (length xs) + 1 < 2 ^ 64 →
  ∃ plat', plat_count x plat = Some plat' ∧ histogram (xs ++ [x]) plat'.
Proof.
  intros [Hl Hc] Hx Hb. pose proof (val_idx_range x Hx) as Hi. set (i := Z.to_nat (plat_val_to_idx x)).
  assert (Ei : plat_val_to_idx x = Z.of_nat i) by (unfold i; lia). assert (Hlt : (i < length plat)%nat) by (rewrite Hl; lia).
  unfold plat_count. rewrite option_guard_True by lia. rewrite Ei, zget_nat, (Hc i Hlt). cbn [mbind option_bind].
  pose proof (counted_bound (eq (Z.of_nat i)) xs). unfold u64. rewrite wrap_small by (split; lia).
  rewrite zset_nat by done. eexists. split; [reflexivity|]. split; [by rewrite length_insert|].
  rewrite length_insert. intros j Hj. rewrite counted_snoc, Ei.
  destruct (decide (i = j)) as [->|].
  - rewrite list_lookup_insert_eq, decide_True by done. done.
  - rewrite list_lookup_insert_ne, decide_False by lia. rewrite Hc by done. f_equal. lia.
Qed.

Lemma plat_of_ok xs : Forall is_latency xs → Z.of_nat (length xs) < 2 ^ 64 → ∃ plat, plat_of xs = Some plat ∧ histogram xs plat.
Proof.
  induction xs as [|x xs IH] using rev_ind; intros Hxs Hl; [exists reset_io_u_plat; split; [done|apply histogram_nil]|].
  rewrite length_app in Hl. cbn in Hl. apply Forall_app in Hxs as [Hxs Hx]. destruct IH as (plat & E & Hp); [done|lia|].
  unfold plat_of in *. rewrite foldl_snoc, E. apply plat_count_ok; [done|by inversion Hx|lia].
Qed.

(** The count of the first buckets is the number of the samples that go there. *)
Lemma counted_below_S xs n : counted (λ i, i < Z.of_nat (S n)) xs = counted (λ i, i < Z.of_nat n) xs + counted (eq (Z.of_nat n)) xs.
Proof.
  induction xs as [|x xs IH] using rev_ind; [done|]. rewrite !counted_snoc, IH. repeat case_decide; lia.
Qed.
Lemma counted_const (b : bool) P `{!∀ x, Decision (P x)} xs : Forall (λ x, P (plat_val_to_idx x) ↔ b = true) xs →
  counted P xs = if b then Z.of_nat (length xs) else 0.
Proof.
  induction xs as [|x xs IH] using rev_ind; intros Hxs; [by destruct b|].
  apply Forall_app in Hxs as [Hxs Hx]. inversion Hx as [|? ? Hb]; subst.
  rewrite counted_snoc, IH, length_app by done. cbn [length]. destruct b; case_decide; try lia; naive_solver.
Qed.
Lemma histogram_counts xs plat n : Forall is_latency xs → histogram xs plat → (n ≤ length plat)%nat →
  csum plat n = counted (λ i, i < Z.of_nat n) xs.
Proof.
  intros Hxs [Hl Hc] Hn. induction n as [|n IH].
  - symmetry. apply (counted_const false). apply (Forall_impl _ _ _ Hxs). intros x Hx.
    pose proof (val_idx_range x Hx). split; [lia|done].
  - rewrite (csum_S _ _ _ (Hc n ltac:(lia))), counted_below_S, IH by lia. done.
Qed.
Lemma histogram_total xs plat : Forall is_latency xs → histogram xs plat → csum plat (length plat) = Z.of_nat (length xs).
Proof.
  intros Hxs Hh. rewrite (histogram_counts xs) by done. destruct Hh as [Hl _].
  apply (counted_const true). apply (Forall_impl _ _ _ Hxs). intros x Hx. pose proof (val_idx_range x Hx). rewrite Hl. split; [done|lia].
Qed.
Lemma histogram_pos xs plat : histogram xs plat → Forall (Z.le 0) plat.
Proof.
  intros [Hl Hc]. apply Forall_lookup. intros i c Hi. rewrite Hc in Hi by (by apply lookup_lt_Some in Hi).
  injection Hi as <-. apply counted_bound.
Qed.
Lemma histogram_perm xs ys plat : xs ≡ₚ ys → histogram xs plat → histogram ys plat.
Proof.
  intros Hp [Hl Hc]. split; [done|]. intros i Hi. rewrite Hc by done. unfold counted.
  do 2 f_equal. apply Permutation_length. by rewrite Hp.
Qed.

(** ** The sample of a rank *)
Lemma sorted_split (s : list Z) k x : StronglySorted Z.le s → s !! k = Some x →
  Forall (λ y, y ≤ x) (take (S k) s) ∧ Forall (λ y, x ≤ y) (drop k s).
Proof.
  intros Hs. revert k. induction Hs as [|a s Hs IH Ha]; intros k Hk; [done|]. destruct k as [|k]; cbn in Hk.
  - injection Hk as <-. split; cbn; [by repeat constructor|]. constructor; [lia|done].
  - destruct (IH k Hk) as [H1 H2]. split; [|done]. cbn [take]. constructor; [|done].
    by apply (Forall_lookup_1 _ _ _ _ Ha Hk).
Qed.
(** Up to the bucket of the [k]-th of the samples in order there are more than [k] samples, before it there are not. *)
Lemma rank_counts s k x : StronglySorted Z.le s → Forall is_latency s → s !! k = Some x →
  Z.of_nat k < counted (λ i, i < plat_val_to_idx x + 1) s ∧
  ∀ i, i ≤ plat_val_to_idx x → counted (λ j, j < i) s ≤ Z.of_nat k.
Proof.
  intros Hs Hl Hk. destruct (sorted_split s k x Hs Hk) as [H1 H2]. assert (Hx := Forall_lookup_1 _ _ _ _ Hl Hk).
  assert (Hlt := lookup_lt_Some _ _ _ Hk). split.
  - rewrite <- (take_drop (S k) s), counted_app. pose proof (counted_bound (λ i, i < plat_val_to_idx x + 1) (drop (S k) s)).
    rewrite (counted_const true); [rewrite length_take; lia|].
    eapply Forall_impl; [exact (proj2 (Forall_and _ _) (conj (Forall_take _ (S k) _ Hl) H1))|]. intros y [Hy Hyx]. unfold is_latency in *.
    pose proof (val_idx_mono y x ltac:(lia) ltac:(lia)). split; [done|lia].
  - intros i Hi. rewrite <- (take_drop k s), counted_app. pose proof (counted_bound (λ j, j < i) (take k s)) as Hb.
    rewrite length_take in Hb. rewrite (counted_const false _ (drop k s)); [lia|].
    eapply Forall_impl; [exact (proj2 (Forall_and _ _) (conj (Forall_drop _ k _ Hl) H2))|]. intros y [Hy Hyx]. unfold is_latency in *.
    pose proof (val_idx_mono x y ltac:(lia) ltac:(lia)). split; [lia|done].
Qed.

(** ** The percentiles *)
(** The rank of the percentiles [ps] among [nr] samples: the least count that reaches them all. *)
Definition rank (nr : Z) (ps : list dbl) (k : nat) : Prop :=
  all_reach nr (Z.of_nat k) ps ∧ ∀ k', (k' < k)%nat → ¬ all_reach nr (Z.of_nat k') ps.
#[export] Instance all_reach_dec nr sum ps : Decision (all_reach nr sum ps).
Proof. unfold all_reach. apply _. Defined.

Lemma rank_exists nr ps n : all_reach nr (Z.of_nat n) ps → ∃ k, (k ≤ n)%nat ∧ rank nr ps k.
Proof.
  induction n as [n IH] using lt_wf_ind. intros Hn.
  destruct (decide (Exists (λ k, all_reach nr (Z.of_nat k) ps) (seq 0 n))) as [(k & [_ Hk]%elem_of_seq & Hr)%Exists_exists|Hno].
  - destruct (IH k) as (k' & ? & ?); [lia|done|]. exists k'. split; [lia|done].
  - exists n. split; [lia|]. split; [done|]. intros k Hk Hr. apply Hno, Exists_exists. exists k. split; [apply elem_of_seq; lia|done].
Qed.

(** The first bucket in which the count reaches [ps] is that of the sample of their rank. *)
Lemma rank_bucket nr ps s plat b k x : StronglySorted Z.le s → Forall is_latency s → Z.of_nat (length s) < 2 ^ 64 → histogram s plat →
  first_bucket nr plat ps b → rank nr ps (S k) → s !! k = Some x → Z.of_nat b = plat_val_to_idx x.
Proof.
  intros Hs Hl Hn Hh (Hb & Hr & Hmin) [Hk Hk'] Hx. destruct (rank_counts s k x Hs Hl Hx) as [H1 H2].
  pose proof (val_idx_range x (Forall_lookup_1 _ _ _ _ Hl Hx)) as Hi. assert (Hlen := proj1 Hh).
  destruct (Z.lt_trichotomy (Z.of_nat b) (plat_val_to_idx x)) as [Hlt|[Heq|Hgt]]; [|done|].
  - exfalso. rewrite (histogram_counts s) in Hr by (done || lia). apply (Hk' k); [lia|].
    eapply all_reach_mono; [|apply lookup_lt_Some in Hx; lia|exact Hr].
    pose proof (H2 (Z.of_nat (S b)) ltac:(lia)). pose proof (counted_bound (λ i, i < Z.of_nat (S b)) s). lia.
  - exfalso. apply (Hmin (Z.to_nat (plat_val_to_idx x))); [lia|]. rewrite (histogram_counts s) by (done || lia).
    replace (Z.of_nat (S (Z.to_nat (plat_val_to_idx x)))) with (plat_val_to_idx x + 1) by lia.
    pose proof (counted_bound (λ i, i < plat_val_to_idx x + 1) s).
    eapply all_reach_mono; [|lia|exact Hk]. lia.
Qed.

Definition in_order (samples : list Z) : list Z := merge_sort Z.le samples.
Lemma in_order_sorted xs : StronglySorted Z.le (in_order xs).
Proof. apply (StronglySorted_merge_sort Z.le). Qed.

(** C34. The percentiles of the latencies: when the buckets hold some samples below
    2^34 ns, there is memory, and the percentiles (none above 100, none below 0) are
    reached by the number of the samples, [calc_clat_percentiles] returns without an
    error, a value for each percentile, and the value is within a 128th of a sample:
    the one whose rank is the least count that reaches this percentile and those
    before it.  The least and the largest value are right as well. *)
Theorem clat_percentiles_accurate (malloc : nat → option (list Z)) vals samples plat nr plist (ps := sorted_plist plist) :
  Forall (λ x, 0 ≤ x < 2 ^ 34) samples → Z.of_nat (length samples) < 2 ^ 64 → plat_of samples = Some plat →
  ps ≠ [] → malloc (length ps) = Some vals → length vals = length ps →
  Forall (λ p, SFleb p (dbl_of 100) = true) ps →
  Forall (λ p, reaches nr 0 p = false ∧ reaches nr (Z.of_nat (length samples)) p = true) ps →
  ∃ o, calc_clat_percentiles malloc plat nr plist = Some (length ps, ps, Some o, true) ∧ length (ovals o) = length ps ∧
    (∀ j, (j < length ps)%nat → ∃ k x v, rank nr (take (S j) ps) (S k) ∧ in_order samples !! k = Some x ∧
       ovals o !! j = Some v ∧ 128 * Z.abs (v - x) ≤ x) ∧
    maxv o = foldl Z.max 0 (ovals o) ∧ minv o = foldl Z.min (2 ^ 64 - 1) (ovals o).
Proof.
  intros Hxs Hn Hplat Hne Hm Hv Hcent Hr. assert (Hl : Forall is_latency samples).
  { eapply Forall_impl; [exact Hxs|]. unfold is_latency. intros; lia. }
  destruct (plat_of_ok samples Hl Hn) as (plat' & E & Hh). rewrite Hplat in E. injection E as <-.
  assert (Htot := histogram_total _ _ Hl Hh). assert (Hpos := histogram_pos _ _ Hh). assert (Hlen := proj1 Hh).
  destruct (percentile_loop_ok nr ps plat Hlen Hpos ltac:(lia) Hne Hcent vals Hv) as (o & is_last & Hloop & Hres).
  apply Forall_and in Hr as [Hr0 Hrn]. destruct is_last; [|by rewrite Htot in Hres].
  destruct Hres as (Hol & Hp & Hmax & Hmin). rewrite firstn_all2 in Hmax, Hmin by lia.
  exists o. split; [|split; [done|split; [|done]]].
  - unfold calc_clat_percentiles. fold ps. destruct (length ps) as [|n] eqn:En; [by destruct ps|]. rewrite Hm, take_ge by lia.
    by rewrite Hloop.
  - intros j Hj. destruct (Hp j Hj) as (b & Hb & Hov).
    assert (Hj' : all_reach nr (Z.of_nat (length samples)) (take (S j) ps)) by by apply Forall_take.
    destruct (rank_exists _ _ _ Hj') as ([|k] & Hk & Hrank).
    { exfalso. destruct ps as [|p ps']; [done|]. apply proj1 in Hrank. apply (Forall_cons_1 _ p (take j ps')) in Hrank as [Hrank _].
      apply Forall_cons_1 in Hr0 as [Hr0 _]. change (reaches nr 0 p = true) in Hrank. congruence. }
    destruct (lookup_lt_is_Some_2 (in_order samples) k) as [x Hx].
    { unfold in_order. rewrite merge_sort_Permutation. lia. }
    exists k, x, (bucket_value (Z.of_nat b)). split; [done|]. split; [done|]. split; [done|].
    assert (Hperm : samples ≡ₚ in_order samples) by (symmetry; apply merge_sort_Permutation).
    rewrite (rank_bucket nr (take (S j) ps) (in_order samples) plat b k x); [|apply in_order_sorted|by rewrite <- Hperm
      |by rewrite <- Hperm|by apply (histogram_perm samples)|done..].
    apply bucket_value_close. rewrite Hperm in Hxs. apply (Forall_lookup_1 _ _ _ _ Hxs Hx).
Qed.
Lemma clat_percentiles_accurate_witness : let ps := sorted_plist [dbl_of 99; dbl_of 50] in
  ∃ plat o, plat_of [1000; 5; 300000] = Some plat ∧
    calc_clat_percentiles (λ n, Some (replicate n 0)) plat 3 [dbl_of 99; dbl_of 50] = Some (length ps, ps, Some o, true) ∧
    length (ovals o) = length ps.
Proof.
  intros ps. destruct (plat_of_ok [1000; 5; 300000]) as (plat & E & _); [repeat constructor; lia|cbn; lia|].
  destruct (clat_percentiles_accurate (λ n, Some (replicate n 0)) (replicate 2 0) [1000; 5; 300000] plat 3 [dbl_of 99; dbl_of 50])
    as (o & Ho & Hl & _); [repeat constructor; lia|cbn; lia|exact E|by vm_compute|by vm_compute|by vm_compute| | |].
  - apply Forall_forall. intros p Hp. vm_compute in Hp. repeat (apply elem_of_cons in Hp as [->|Hp]; [by vm_compute|]). by apply not_elem_of_nil in Hp.
  - apply Forall_forall. intros p Hp. vm_compute in Hp. repeat (apply elem_of_cons in Hp as [->|Hp]; [by vm_compute|]). by apply not_elem_of_nil in Hp.
  - by exists plat, o.
Defined.
