(* ===== verification/Double.v ===== *)
(** * Bounds of the double arithmetic (src/fio4emu/stat.c)

    What rounding does to bounds, as far as the mean of a window of samples needs it: the
    result of an operation does not pass a number that can be represented and that the
    exact result does not pass.  Numbers are compared by their value times 2^4000, an
    integer for every double and every quotient of two. *)
From Stdlib Require Import SpecFloat.
From S2P Require Import Prelude CInt Latency.
#[local] Open Scope Z_scope.

(** Sealed: these powers are never computed. *)
Definition scale_def (e : Z) : Z := 2 ^ (e + 4000).
Definition scale_aux : seal scale_def.
Proof. by eexists. Qed.
Definition scale : Z → Z := unseal scale_aux.
Lemma scale_eq e : scale e = 2 ^ (e + 4000).
Proof. unfold scale. by rewrite (seal_eq scale_aux). Qed.
Lemma scale_pos e : -4000 ≤ e → 0 < scale e.
Proof. intros. rewrite scale_eq. apply Z.pow_pos_nonneg; lia. Qed.
Lemma scale_add e n : -4000 ≤ e → 0 ≤ n → scale (e + n) = scale e * 2 ^ n.
Proof. intros. rewrite !scale_eq. rewrite <- Z.pow_add_r by lia. f_equal. lia. Qed.
Lemma scale_le e e' : e ≤ e' → scale e ≤ scale e'.
Proof. intros. rewrite !scale_eq. apply Z.pow_le_mono_r; lia. Qed.
Lemma scale_swap a b c d : a + b = c + d → -4000 ≤ a → -4000 ≤ b → -4000 ≤ c → -4000 ≤ d → scale a * scale b = scale c * scale d.
Proof. intros. rewrite !scale_eq. rewrite <- !Z.pow_add_r by lia. f_equal. lia. Qed.

(** Numbers a double can hold, and doubles that are numbers. *)
Definition rep (F : Z) : Prop := ∃ m e, F = m * scale e ∧ 0 ≤ m < 2 ^ 53 ∧ -1074 ≤ e.
Definition fin (x : dbl) : Prop :=
  match x with
  | S754_zero _ => True
  | S754_finite _ m e => Z.pos m < 2 ^ 53 ∧ -1074 ≤ e ≤ 971
  | _ => False
  end.
Definition mag (x : dbl) : Z := match x with S754_finite _ m e => Z.pos m * scale e | _ => 0 end.
Definition sv (x : dbl) : Z := match x with S754_finite s m e => cond_Zopp s (Z.pos m * scale e) | _ => 0 end.
Definition neg (x : dbl) : bool := match x with S754_finite s _ _ | S754_zero s => s | _ => false end.

(** ** Shifts *)
Definition inexact (r : shr_record) : bool := shr_r r || shr_s r.
Lemma shr_1_spec r : 0 ≤ shr_m r →
  shr_m (shr_1 r) = shr_m r / 2 ∧ (inexact (shr_1 r) = true → inexact r = true ∨ shr_m r mod 2 ≠ 0).
Proof.
  assert (∀ b s : bool, s || b = true → b || s = true) as Hbs by (by intros [|] [|]).
  destruct r as [[|[p|p|]|p] b s]; unfold inexact; cbn [shr_m shr_1 shr_r shr_s]; intros Hm; [auto| | |auto|lia].
  - split; [|intros _; right]; lia.
  - split; [lia|auto].
Qed.
Lemma iter_pos_comm {A} (f : A → A) p x : SpecFloat.iter_pos f p (f x) = f (SpecFloat.iter_pos f p x).
Proof. revert x. induction p as [p IH|p IH|]; intros x; cbn [SpecFloat.iter_pos]; by rewrite ?IH. Qed.
Lemma iter_pos_succ {A} (f : A → A) p x : SpecFloat.iter_pos f (Pos.succ p) x = f (SpecFloat.iter_pos f p x).
Proof.
  revert x. induction p as [p IH|p IH|]; intros x; simpl; rewrite ?IH, ?iter_pos_comm; done.
Qed.

(** [n] steps: the quotient by 2^n, inexact only if something was lost. *)
Lemma shr_spec r p : 0 ≤ shr_m r → let r' := SpecFloat.iter_pos shr_1 p r in
  shr_m r' = shr_m r / 2 ^ Z.pos p ∧ (inexact r' = true → inexact r = true ∨ shr_m r mod 2 ^ Z.pos p ≠ 0).
Proof.
  intros Hm. induction p as [|p [E H]] using Pos.peano_ind; [by apply shr_1_spec|]. rewrite iter_pos_succ.
  destruct (shr_1_spec (SpecFloat.iter_pos shr_1 p r)) as [E1 H1]; [rewrite E; apply Z.div_pos; lia|].
  assert (2 ^ Z.pos (Pos.succ p) = 2 ^ Z.pos p * 2) as Ep by (rewrite Pos2Z.inj_succ, Z.pow_succ_r; lia).
  rewrite Ep. split; [rewrite E1, E, Z.div_div by lia; done|].
  intros [Hi|Hi]%H1; [destruct (H Hi) as [|Hr]; [by left|right]|right; rewrite E in Hi]; rewrite Z.rem_mul_r by lia.
  - pose proof (Z.mod_pos_bound (shr_m r) (2 ^ Z.pos p)). pose proof (Z.mod_pos_bound (shr_m r / 2 ^ Z.pos p) 2). nia.
  - pose proof (Z.mod_pos_bound (shr_m r) (2 ^ Z.pos p)). pose proof (Z.mod_pos_bound (shr_m r / 2 ^ Z.pos p) 2). nia.
Qed.

(** ** Rounding *)
Abbreviation fexp' := (fexp 53 1024).
Lemma fexp_le d : d - 53 ≤ fexp' d ∧ -1074 ≤ fexp' d ∧ (fexp' d = d - 53 ∨ fexp' d = -1074).
Proof. unfold fexp, emin. lia. Qed.
Lemma Zdigits2_log m : 0 ≤ m → 0 ≤ Zdigits2 m ∧ m < 2 ^ Zdigits2 m ∧ (0 < Zdigits2 m → 2 ^ (Zdigits2 m - 1) ≤ m).
Proof.
  intros Hm. destruct m as [|p|]; [done| |lia]. cbn [Zdigits2]. rewrite digits2_spec.
  pose proof (Z.log2_spec (Z.pos p) ltac:(lia)). replace (Z.log2 (Z.pos p) + 1 - 1) with (Z.log2 (Z.pos p)) by lia.
  rewrite <- Z.add_1_r in *. pose proof (Z.log2_nonneg (Z.pos p)). lia.
Qed.

(** The first shift of [binary_round_aux]: the mantissa has at most 53 bits, what it stands for
    is at most the exact number, and less if it is inexact; and it is not less than any
    number that can be represented and is not more than the exact one. *)
Lemma shr_fexp_spec m e l : 0 ≤ m → -4000 ≤ e ≤ fexp' (Zdigits2 m + e) →
  ∃ r e', shr_fexp 53 1024 m e l = (r, e') ∧ e' = fexp' (Zdigits2 m + e) ∧ 0 ≤ shr_m r < 2 ^ 53 ∧
    (-1074 < e' → 2 ^ 52 ≤ shr_m r) ∧ shr_m r * scale e' ≤ m * scale e ∧
    (inexact r = true → shr_m r * scale e' < m * scale e ∨ l ≠ loc_Exact) ∧
    (∀ G, rep G → G ≤ m * scale e → G ≤ shr_m r * scale e').
Proof.
  intros Hm He. set (f := fexp' (Zdigits2 m + e)) in *. destruct (Zdigits2_log m Hm) as (Hd0 & Hd & Hd').
  destruct (fexp_le (Zdigits2 m + e)) as (Hf1 & Hf2 & Hf3). fold f in Hf1, Hf2, Hf3.
  assert (∃ r, shr_fexp 53 1024 m e l = (r, f) ∧ shr_m r = m / 2 ^ (f - e) ∧
    (inexact r = true → m mod 2 ^ (f - e) ≠ 0 ∨ l ≠ loc_Exact)) as (r & E & Er & Hi).
  { assert (shr_m (shr_record_of_loc m l) = m ∧ (inexact (shr_record_of_loc m l) = true → l ≠ loc_Exact)) as [E1 E2]
      by (by destruct l as [|[| |]]).
    unfold shr_fexp. fold f. destruct (f - e) as [|p|p] eqn:Ep; [| |lia]; cbn [shr].
    - exists (shr_record_of_loc m l). replace e with f by lia. split; [done|]. rewrite E1, Z.pow_0_r, Z.div_1_r. auto.
    - destruct (shr_spec (shr_record_of_loc m l) p) as [E3 E4]; [lia|]. rewrite E1 in *.
      eexists. split; [f_equal; lia|]. split; [done|]. intros [?|?]%E4; auto. }
  exists r, f. split; [done|]. split; [done|]. rewrite Er. set (n := f - e) in *. assert (0 ≤ n) as Hn by lia.
  assert (0 < 2 ^ n) as Hp by (apply Z.pow_pos_nonneg; lia). pose proof (scale_pos e ltac:(lia)) as Hs.
  assert (scale f = scale e * 2 ^ n) as Es by (rewrite <- scale_add by lia; f_equal; lia).
  pose proof (Z.div_mod m (2 ^ n) ltac:(lia)) as Edm. pose proof (Z.mod_pos_bound m (2 ^ n) Hp) as Hmod.
  assert (0 ≤ m / 2 ^ n) as Hq by (apply Z.div_pos; lia).
  assert (-1074 < f → 2 ^ 52 ≤ m / 2 ^ n) as Hnorm.
  { intros. assert (f = Zdigits2 m + e - 53) as Ef by lia. apply Z.div_le_lower_bound; [done|].
    rewrite <- Z.pow_add_r by lia. replace (n + 52) with (Zdigits2 m - 1) by lia. apply Hd'. lia. }
  split; [|split; [exact Hnorm|split; [rewrite Es; nia|split]]].
  - split; [done|]. apply Z.div_lt_upper_bound; [done|]. rewrite <- Z.pow_add_r by lia.
    eapply Z.lt_le_trans; [exact Hd|]. apply Z.pow_le_mono_r; lia.
  - intros [?|?]%Hi; [left; rewrite Es; nia|by right].
  - intros G (mg & eg & -> & Hmg & Heg) HG. destruct (Z.le_gt_cases f eg) as [Hle|Hgt].
    + assert (scale eg = scale e * 2 ^ n * 2 ^ (eg - f)) as Eg by (rewrite <- Es, <- scale_add by lia; f_equal; lia).
      assert (0 < 2 ^ (eg - f)) by (apply Z.pow_pos_nonneg; lia). rewrite Es, Eg in *.
      assert (mg * 2 ^ (eg - f) * 2 ^ n ≤ m) as H1 by nia.
      apply Z.div_le_mono with (c := 2 ^ n) in H1; [|done]. rewrite Z.div_mul in H1 by lia.
      replace (mg * _) with (mg * 2 ^ (eg - f) * (scale e * 2 ^ n)) by ring. apply Z.mul_le_mono_nonneg_r; [nia|done].
    + specialize (Hnorm ltac:(lia)). assert (scale f = scale eg * 2 ^ (f - eg)) as Eg by (rewrite <- scale_add by lia; f_equal; lia).
      assert (2 ≤ 2 ^ (f - eg)) by (change 2 with (2 ^ 1) at 1; apply Z.pow_le_mono_r; lia).
      pose proof (scale_pos eg ltac:(lia)). rewrite Eg. nia.
Qed.

(** A number is not below the next multiple of the unit, if it is above this one. *)
Lemma rep_next F m f : rep F → 0 ≤ m → -1074 ≤ f → (-1074 < f → 2 ^ 52 ≤ m) → m * scale f < F → (m + 1) * scale f ≤ F.
Proof.
  intros (mf & ef & -> & Hm & He) H0 Hf Hn Hlt. pose proof (scale_pos f ltac:(lia)). pose proof (scale_pos ef ltac:(lia)).
  destruct (Z.le_gt_cases f ef) as [Hle|Hgt].
  - assert (scale ef = scale f * 2 ^ (ef - f)) as E by (rewrite <- scale_add by lia; f_equal; lia).
    replace (mf * scale ef) with (mf * 2 ^ (ef - f) * scale f) in * by (rewrite E; ring).
    apply Z.mul_lt_mono_pos_r in Hlt; [|done]. apply Z.mul_le_mono_nonneg_r; lia.
  - specialize (Hn ltac:(lia)). assert (scale f = scale ef * 2 ^ (f - ef)) as E by (rewrite <- scale_add by lia; f_equal; lia).
    assert (2 ≤ 2 ^ (f - ef)) by (change 2 with (2 ^ 1) at 1; apply Z.pow_le_mono_r; lia). rewrite E in *. nia.
Qed.

Lemma round_up m l : m ≤ round_nearest_even m l ≤ m + 1 ∧ (l = loc_Exact → round_nearest_even m l = m).
Proof. destruct l as [|[| |]]; cbn; [|destruct (Z.even m)| |]; split; lia || done. Qed.
Lemma loc_exact r : inexact r = false → loc_of_shr_record r = loc_Exact.
Proof. by destruct r as [m [|] [|]]. Qed.

(** The second shift: 2^53 is halved, a smaller mantissa stays. *)
Lemma shr_again m f : 0 ≤ m ≤ 2 ^ 53 → -1074 ≤ f →
  ∃ r e, shr_fexp 53 1024 m f loc_Exact = (r, e) ∧ 0 ≤ shr_m r < 2 ^ 53 ∧ shr_m r * scale e = m * scale f ∧ -1074 ≤ e.
Proof.
  intros Hm Hf. unfold shr_fexp. cbn [shr_record_of_loc]. destruct (Zdigits2_log m) as (H0 & Hd & Hd'); [lia|].
  destruct (decide (m = 2 ^ 53)) as [->|Hne].
  - change (Zdigits2 (2 ^ 53)) with 54. replace (fexp 53 1024 (54 + f) - f) with 1 by (unfold fexp, emin; lia). cbn [shr].
    eexists _, _. split; [reflexivity|]. change (shr_m _) with (2 ^ 52). split; [lia|]. split; [|lia]. rewrite scale_add by lia. lia.
  - assert (Zdigits2 m ≤ 53).
    { destruct (decide (0 < Zdigits2 m)) as [Hp|]; [|lia]. apply Z.lt_succ_r. specialize (Hd' Hp).
      destruct (Z.le_gt_cases 54 (Zdigits2 m)) as [Hge|]; [|lia]. assert (2 ^ 53 ≤ 2 ^ (Zdigits2 m - 1)) by (apply Z.pow_le_mono_r; lia). lia. }
    assert (fexp 53 1024 (Zdigits2 m + f) - f ≤ 0) as Hle by (unfold fexp, emin; lia).
    exists (Build_shr_record m false false), f. split; [by destruct (fexp 53 1024 _ - f)|]. cbn [shr_m]. split_and!; lia.
Qed.

(** Rounding does not pass a number that can be represented, on either side. *)
Lemma round_aux_spec s m e l F : 0 ≤ m → -4000 ≤ e ≤ fexp' (Zdigits2 m + e) → rep F → F ≤ scale 900 →
  m * scale e ≤ F → (l ≠ loc_Exact → m * scale e < F) →
  let r := binary_round_aux 53 1024 s m e l in
  fin r ∧ neg r = s ∧ mag r ≤ F ∧ ∀ G, rep G → G ≤ m * scale e → G ≤ mag r.
Proof.
  intros Hm He HF HF9 Hle Hlt. destruct (shr_fexp_spec m e l Hm He) as (r1 & f & E1 & Ef & Hm1 & Hn1 & Hle1 & Hi1 & HG1).
  pose proof (fexp_le (Zdigits2 m + e)) as Hf. rewrite <- Ef in Hf. pose proof (scale_pos f ltac:(lia)) as Hs.
  destruct (round_up (shr_m r1) (loc_of_shr_record r1)) as [Hr Hx]. set (m2 := round_nearest_even _ _) in *.
  assert (m2 * scale f ≤ F) as Hm2.
  { destruct (inexact r1) eqn:Ei; [|rewrite Hx by (by apply loc_exact); lia].
    assert ((shr_m r1 + 1) * scale f ≤ F); [|nia]. apply rep_next; [done|lia|lia|done|]. destruct (Hi1 eq_refl) as [?|Hl]; [lia|]. specialize (Hlt Hl). lia. }
  destruct (shr_again m2 f) as (r2 & e2 & E2 & Hr2 & Ev & He2); [lia|lia|].
  unfold binary_round_aux. rewrite E1. fold m2. rewrite E2. pose proof (scale_pos e2 ltac:(lia)) as Hs2.
  assert (∀ G, rep G → G ≤ m * scale e → G ≤ shr_m r2 * scale e2) as HG.
  { intros G HG Hg. specialize (HG1 G HG Hg). rewrite Ev. nia. }
  destruct (shr_m r2) as [|p|p] eqn:Ep; [|destruct (Z.leb_spec e2 (1024 - 53)) as [Hb|Hb]|lia].
  - rewrite Z.mul_0_l in HG. cbn [fin neg mag]. split_and!; [done|done|lia|exact HG].
  - cbn [fin neg mag]. split_and!; [lia|lia|lia|done|lia|exact HG].
  - exfalso. assert (scale 901 ≤ scale e2) as H1 by (apply scale_le; lia). assert (scale 901 = scale 900 * 2) as H2 by (change 901 with (900 + 1); rewrite scale_add by lia; lia).
    pose proof (scale_pos 900 ltac:(lia)). nia.
Qed.

Lemma rep_scale m e : 0 ≤ m < 2 ^ 53 → -1074 ≤ e → rep (m * scale e).
Proof. intros. by exists m, e. Qed.
Lemma rep_mag x : fin x → rep (mag x).
Proof. destruct x as [s|s| |s m e]; cbn; intros H; [|done..|]; [exists 0, 0; lia|exists (Z.pos m), e; lia]. Qed.
Lemma mag_pos x : fin x → 0 ≤ mag x.
Proof. destruct x as [s|s| |s m e]; cbn; intros H; try done. pose proof (scale_pos e ltac:(lia)). nia. Qed.
Lemma sv_mag x : sv x = cond_Zopp (neg x) (mag x).
Proof. destruct x as [[|]|s| |s m e]; done. Qed.

Lemma binary_round_spec s m e F : -4000 ≤ e → rep F → F ≤ scale 900 → Z.pos m * scale e ≤ F →
  let r := binary_round 53 1024 s m e in
  fin r ∧ neg r = s ∧ mag r ≤ F ∧ ∀ G, rep G → G ≤ Z.pos m * scale e → G ≤ mag r.
Proof.
  intros He HF HF9 Hle. unfold binary_round.
  destruct (shl_align m e (fexp 53 1024 (Z.pos (digits2_pos m) + e))) as [mz ez] eqn:E.
  assert (Z.pos mz * scale ez = Z.pos m * scale e ∧ -4000 ≤ ez ≤ fexp' (Zdigits2 (Z.pos mz) + ez)) as [Ev Hez].
  { destruct (fexp_le (Z.pos (digits2_pos m) + e)) as (_ & Hf & _). unfold shl_align in E.
    destruct (fexp 53 1024 _ - e) as [|p|p] eqn:Ed; injection E as <- <-; cbn [Zdigits2]; [split; lia..|].
    rewrite !digits2_spec, iter_xO_val. rewrite digits2_spec in *. set (f := fexp 53 1024 _) in *.
    split; [replace e with (f + Z.pos p) by lia; rewrite (scale_add f) by lia; ring|].
    rewrite Z.log2_mul_pow2 by lia. replace (_ + 1 + f) with (Z.log2 (Z.pos m) + 1 + e) by lia. fold f. lia. }
  rewrite <- Ev in *. by apply round_aux_spec.
Qed.

(** The number [M * 2^e] rounded. *)
Lemma normalize_spec M e F : -4000 ≤ e → rep F → F ≤ scale 900 → Z.abs M * scale e ≤ F →
  let r := binary_normalize 53 1024 M e false in
  fin r ∧ mag r ≤ F ∧ (0 ≤ M → 0 ≤ sv r) ∧ (M ≤ 0 → sv r ≤ 0) ∧ ∀ G, rep G → G ≤ Z.abs M * scale e → G ≤ mag r.
Proof.
  intros He HF HF9 Hle. destruct M as [|m|m]; cbn [binary_normalize].
  - cbn. split_and!; [done|lia|lia|lia|intros; lia].
  - destruct (binary_round_spec false m e F He HF HF9 Hle) as (Hf & Hn & HF' & HG). pose proof (mag_pos _ Hf).
    rewrite sv_mag, Hn. cbn [cond_Zopp]. split_and!; [done|done|done|lia|exact HG].
  - destruct (binary_round_spec true m e F He HF HF9 Hle) as (Hf & Hn & HF' & HG). pose proof (mag_pos _ Hf).
    rewrite sv_mag, Hn. cbn [cond_Zopp]. split_and!; [done|done|lia|lia|exact HG].
Qed.

Lemma align_spec m e ez : -4000 ≤ ez ≤ e → Z.pos (fst (shl_align m e ez)) * scale ez = Z.pos m * scale e.
Proof.
  intros H. unfold shl_align. destruct (ez - e) as [|p|p] eqn:E; [by replace ez with e by lia|lia|]. cbn [fst].
  rewrite iter_xO_val. replace e with (ez + Z.pos p) by lia. rewrite (scale_add ez) by lia. ring.
Qed.

(** Sums and differences. *)
Lemma fadd_spec x y F : fin x → fin y → rep F → F ≤ scale 900 → Z.abs (sv x + sv y) ≤ F →
  fin (fadd x y) ∧ mag (fadd x y) ≤ F ∧ (0 ≤ sv x + sv y → 0 ≤ sv (fadd x y)) ∧ (sv x + sv y ≤ 0 → sv (fadd x y) ≤ 0) ∧
  ∀ G, rep G → G ≤ Z.abs (sv x + sv y) → G ≤ mag (fadd x y).
Proof.
  intros Hx Hy HF HF9 Hle. destruct x as [sx|sx| |sx mx ex]; try done; destruct y as [sy|sy| |sy my ey]; try done; unfold fadd; cbn [SFadd].
  - destruct sx, sy; cbn in *; split_and!; try done; lia || (intros; lia).
  - cbn [sv fin] in *. rewrite Z.add_0_l in *. pose proof (scale_pos ey ltac:(lia)).
    assert (mag (S754_finite sy my ey) = Z.abs (cond_Zopp sy (Z.pos my * scale ey))) as -> by (destruct sy; cbn; lia).
    split_and!; try done; lia.
  - cbn [sv fin] in *. rewrite Z.add_0_r in *. pose proof (scale_pos ex ltac:(lia)).
    assert (mag (S754_finite sx mx ex) = Z.abs (cond_Zopp sx (Z.pos mx * scale ex))) as -> by (destruct sx; cbn; lia).
    split_and!; try done; lia.
  - cbn [sv fin] in *. set (ez := Z.min ex ey). pose proof (scale_pos ez ltac:(lia)) as Hs.
    set (M := cond_Zopp sx _ + cond_Zopp sy _).
    assert (cond_Zopp sx (Z.pos mx * scale ex) + cond_Zopp sy (Z.pos my * scale ey) = M * scale ez) as EM.
    { subst M. rewrite <- (align_spec mx ex ez), <- (align_spec my ey ez) by lia. destruct sx, sy; cbn [cond_Zopp]; ring. }
    rewrite EM in *. rewrite Z.abs_mul, (Z.abs_eq (scale ez)) in * by lia.
    destruct (normalize_spec M ez F) as (? & ? & ? & ? & ?); [lia|done..|]. split_and!; [done|done|intros; nia..|done].
Qed.

Definition opp (x : dbl) : dbl := match x with S754_finite s m e => S754_finite (negb s) m e | S754_zero s => S754_zero (negb s) | _ => x end.
Lemma sv_opp x : sv (opp x) = - sv x.
Proof. destruct x as [s|s| |[|] m e]; cbn; lia. Qed.
Lemma fsub_spec x y F : fin x → fin y → rep F → F ≤ scale 900 → Z.abs (sv x - sv y) ≤ F →
  fin (fsub x y) ∧ mag (fsub x y) ≤ F ∧ (0 ≤ sv x - sv y → 0 ≤ sv (fsub x y)) ∧ (sv x - sv y ≤ 0 → sv (fsub x y) ≤ 0).
Proof.
  intros Hx Hy HF HF9 Hle.
  assert (fin (opp y)) as Hy' by (by destruct y). rewrite <- Z.add_opp_r, <- sv_opp in *.
  destruct (fadd_spec x (opp y) F) as (H1 & H2 & H3 & H4 & _); [done..|].
  assert (fsub x y = fadd x (opp y) ∨ (∃ s s', fsub x y = S754_zero s ∧ fadd x (opp y) = S754_zero s')) as [->|(s & s' & E & E')]; [|done|].
  - destruct x as [sx|sx| |sx mx ex]; try done; destruct y as [sy|sy| |sy my ey]; try done; unfold fsub, fadd; cbn [SFsub SFadd opp];
      [right; destruct sx, sy; by eexists _, _|by left..|left]. f_equal. by destruct sx, sy.
  - rewrite E' in *. rewrite E. done.
Qed.

(** Numbers. *)
Lemma dbl_of_spec n F : 0 ≤ n → rep F → F ≤ scale 900 → n * scale 0 ≤ F →
  fin (dbl_of n) ∧ 0 ≤ sv (dbl_of n) ≤ F ∧ ∀ G, rep G → G ≤ n * scale 0 → G ≤ sv (dbl_of n).
Proof.
  intros Hn HF HF9 Hle. destruct (normalize_spec n 0 F) as (H1 & H2 & H3 & H4 & H5); [lia|done|done|by rewrite Z.abs_eq|].
  rewrite Z.abs_eq in H5 by done. unfold dbl_of in *. set (r := binary_normalize 53 1024 n 0 false) in *. specialize (H3 Hn).
  assert (sv r = mag r) as ->; [|split_and!; try done; by apply mag_pos].
  pose proof (mag_pos r H1). destruct (neg r) eqn:En; rewrite sv_mag, En in *; cbn [cond_Zopp] in *; [lia|done].
Qed.

(** Quotients: the result does not pass [F] when [x] does not pass [F] times [y]. *)
Lemma fdiv_spec x y F : fin x → fin y → 0 < sv y → rep F → F ≤ scale 900 → mag x * scale 0 ≤ F * sv y →
  fin (fdiv x y) ∧ mag (fdiv x y) ≤ F ∧ (0 ≤ sv x → 0 ≤ sv (fdiv x y)) ∧ (sv x ≤ 0 → sv (fdiv x y) ≤ 0).
Proof.
  intros Hx Hy Hy0 HF HF9 Hle. destruct y as [sy|sy| |sy my ey]; try done. destruct sy; [cbn in Hy, Hy0; pose proof (scale_pos ey ltac:(lia)); lia|].
  destruct x as [sx|sx| |sx mx ex]; try done; unfold fdiv; cbn [SFdiv].
  { cbn in *. assert (0 ≤ F) by (destruct HF as (m & e & -> & ? & ?); pose proof (scale_pos e ltac:(lia)); nia). split_and!; lia || done. }
  cbn [fin sv mag cond_Zopp] in *. rewrite xorb_false_r. unfold SFdiv_core_binary.
  set (e' := Z.min _ (ex - ey)). set (s := ex - ey - e'). assert (0 ≤ s) as Hs by lia.
  assert (match s with Z.pos _ => Z.shiftl (Z.pos mx) s | Z0 => Z.pos mx | Z.neg _ => 0 end = Z.pos mx * 2 ^ s) as ->.
  { destruct s; [by rewrite Z.pow_0_r, Z.mul_1_r|by rewrite Z.shiftl_mul_pow2|lia]. }
  rewrite (surjective_pairing (Z.div_eucl _ _)). change (fst (Z.div_eucl ?a ?b)) with (a / b). change (snd (Z.div_eucl ?a ?b)) with (a mod b).
  set (a := Z.pos mx * 2 ^ s). pose proof (Z.div_mod a (Z.pos my) ltac:(lia)) as Edm. pose proof (Z.mod_pos_bound a (Z.pos my) ltac:(lia)) as Hmod.
  set (q := a / Z.pos my) in *. set (r := a mod Z.pos my) in *. 
  assert (0 < 2 ^ s) by (apply Z.pow_pos_nonneg; lia). assert (0 ≤ q) as Hq by (apply Z.div_pos; lia).
  assert (e' = Z.min (fexp' (Z.log2 (Z.pos mx) + 1 + ex - (Z.log2 (Z.pos my) + 1 + ey))) (ex - ey)) as Ee' by (subst e'; cbn [Zdigits2]; by rewrite !digits2_spec).
  clearbody e'. pose proof (Z.log2_spec (Z.pos mx) ltac:(lia)) as L1. pose proof (Z.log2_spec (Z.pos my) ltac:(lia)) as L2.
  pose proof (Z.log2_nonneg (Z.pos mx)). pose proof (Z.log2_nonneg (Z.pos my)).
  set (d1 := Z.log2 (Z.pos mx) + 1) in *. set (d2 := Z.log2 (Z.pos my) + 1) in *. rewrite <- !Z.add_1_r in *. fold d1 d2 in L1, L2.
  destruct (fexp_le (d1 + ex - (d2 + ey))) as (_ & Hf & _). assert (-4000 ≤ e') as He' by lia.
  destruct (Zdigits2_log q Hq) as (HD0 & HD & _). set (D := Zdigits2 q) in *.
  assert (d1 + s - d2 ≤ D) as Hdig.
  { destruct (Z.le_gt_cases (d1 + s - d2) D) as [|Hgt]; [done|exfalso].
    assert (2 ^ (D + d2) ≤ 2 ^ (d1 + s - 1)) as Hpw by (apply Z.pow_le_mono_r; lia).
    replace (d1 + s - 1) with (Z.log2 (Z.pos mx) + s) in Hpw by lia. rewrite !Z.pow_add_r in Hpw by lia. nia. }
  assert (e' ≤ fexp' (D + e')) as Hfe by (unfold fexp, emin in *; lia).
  assert (a * scale e' ≤ F * Z.pos my) as Ha.
  { assert (scale ex * scale 0 = scale ey * 2 ^ s * scale e') as Es by (rewrite <- scale_add by lia; apply scale_swap; lia).
    pose proof (scale_pos ey ltac:(lia)). subst a. apply (Z.mul_le_mono_pos_r _ _ (scale ey)); [done|].
    replace (Z.pos mx * 2 ^ s * scale e' * scale ey) with (Z.pos mx * (scale ey * 2 ^ s * scale e')) by ring. rewrite <- Es. lia. }
  pose proof (scale_pos e' He') as Hs'.
  destruct (round_aux_spec sx q e' (new_location (Z.pos my) r) F) as (Hfin & Hneg & HF' & _); [done|done|done|done|nia| |].
  { intros Hl. assert (r ≠ 0) by (intros E; apply Hl; rewrite E; unfold new_location, new_location_even, new_location_odd; by case_match). nia. }
  pose proof (mag_pos _ Hfin). rewrite sv_mag, Hneg. destruct sx; cbn [cond_Zopp] in *; pose proof (scale_pos ex ltac:(lia)); split_and!; done || lia.
Qed.

(** ** The mean *)
Lemma scale_double e : -4000 ≤ e → scale (e + 1) = 2 * scale e.
Proof. intros. rewrite scale_add by lia. lia. Qed.
Lemma rep_pow e : -1074 ≤ e → rep (scale e).
Proof. intros. rewrite <- (Z.mul_1_l (scale e)). by apply rep_scale. Qed.
Lemma sv_pos x : fin x → 0 ≤ sv x → sv x = mag x.
Proof. intros Hx. pose proof (mag_pos x Hx). rewrite sv_mag. destruct (neg x); cbn [cond_Zopp]; lia. Qed.
Lemma dbl_of_1 : fin (dbl_of 1) ∧ sv (dbl_of 1) = scale 0.
Proof.
  destruct (dbl_of_spec 1 (scale 0)) as (Hf & H & HG); [lia|by apply rep_pow|by apply scale_le|lia|]. split; [done|].
  specialize (HG (scale 0) (rep_pow 0 ltac:(lia)) ltac:(lia)). lia.
Qed.

(** The number of samples plus one, as a double. *)
Lemma count_spec n : 0 ≤ n < 2 ^ 64 → fin (fadd (dbl_of n) (dbl_of 1)) ∧
  scale 0 ≤ sv (fadd (dbl_of n) (dbl_of 1)) ∧ (n ≠ 0 → 2 * scale 0 ≤ sv (fadd (dbl_of n) (dbl_of 1))).
Proof.
  intros Hn. destruct dbl_of_1 as [H1 E1]. pose proof (scale_pos 0 ltac:(lia)) as Hs.
  assert (scale 64 = scale 0 * 2 ^ 64) as E64 by by rewrite <- scale_add by lia.
  destruct (dbl_of_spec n (scale 64)) as (Hf & Hr & HG); [lia|by apply rep_pow|by apply scale_le|rewrite E64; nia|].
  destruct (fadd_spec (dbl_of n) (dbl_of 1) (scale 65)) as (Hc & _ & Hpos & _ & HGc); [done|done|by apply rep_pow|by apply scale_le| |].
  { rewrite E1. change 65 with (64 + 1). rewrite scale_double, E64 by lia. lia. }
  rewrite E1 in *. specialize (Hpos ltac:(lia)). rewrite (sv_pos _ Hc Hpos). split; [done|]. split.
  - apply HGc; [by apply rep_pow|lia].
  - intros Hne. rewrite <- scale_double by lia. apply HGc; [by apply rep_pow|]. rewrite scale_double by lia.
    specialize (HG (scale 0) (rep_pow 0 ltac:(lia)) ltac:(nia)). lia.
Qed.

(** A mean up to 2^63. *)
Definition mean_ok (a : dbl) : Prop := fin a ∧ 0 ≤ sv a ≤ scale 63.

Lemma rest_rep a : mean_ok a → scale 62 < sv a → rep (scale 63 - sv a).
Proof.
  intros [Hf Ha] H62. rewrite (sv_pos a Hf) in * by lia. destruct a as [s|s| |s m e]; cbn [mag fin] in *; try done; [pose proof (scale_pos 62 ltac:(lia)); lia|].
  pose proof (scale_pos e ltac:(lia)). assert (10 ≤ e) as He.
  { destruct (Z.le_gt_cases 10 e) as [|Hlt]; [done|]. assert (scale e ≤ scale 9) by (apply scale_le; lia).
    assert (scale 62 = scale 9 * 2 ^ 53) as E by by rewrite <- scale_add by lia. nia. }
  assert (e ≤ 63) as He'. { destruct (Z.le_gt_cases e 63) as [|Hgt]; [done|]. assert (scale 64 ≤ scale e) by (apply scale_le; lia).
    change 64 with (63 + 1) in *. rewrite scale_double in * by lia. pose proof (scale_pos 63 ltac:(lia)). nia. }
  assert (scale 63 = scale e * 2 ^ (63 - e)) as E by (rewrite <- scale_add by lia; f_equal; lia).
  assert (2 ^ (63 - e) ≤ 2 ^ 53) by (apply Z.pow_le_mono_r; lia). rewrite E in *.
  exists (2 ^ (63 - e) - Z.pos m), e. split; [ring|]. split; [|lia]. split; [nia|lia].
Qed.

(** A sample between 0 and 2^63 keeps the mean there. *)
Lemma mean_step a x n : mean_ok a → 0 ≤ x ≤ 2 ^ 63 → 0 ≤ n < 2 ^ 64 → (n = 0 → sv a = 0) →
  mean_ok (fadd a (fdiv (fsub (dbl_of x) a) (fadd (dbl_of n) (dbl_of 1)))).
Proof.
  intros [Ha Hav] Hx Hn Hn0. destruct (count_spec n Hn) as (Hc & Hc1 & Hc2). set (c := fadd (dbl_of n) (dbl_of 1)) in *.
  pose proof (scale_pos 0 ltac:(lia)) as H0. assert (scale 63 = scale 0 * 2 ^ 63) as E63 by by rewrite <- scale_add by lia.
  assert (∀ e, e ≤ 63 → scale e ≤ scale 900) as H900 by (intros; apply scale_le; lia).
  destruct (dbl_of_spec x (scale 63)) as (Hb & Hbv & _); [lia|by apply rep_pow|by apply H900|rewrite E63; nia|].
  set (b := dbl_of x) in *.
  (* a bound on the difference gives one on the quotient, and the sum stays in range *)
  assert (∀ F G, rep F → F ≤ scale 63 → rep G → G ≤ scale 63 → Z.abs (sv b - sv a) ≤ F → F * scale 0 ≤ G * sv c →
    (sv b < sv a → G ≤ sv a) → (sv a ≤ sv b → sv a + G ≤ scale 63) → mean_ok (fadd a (fdiv (fsub b a) c))) as Hrun.
  { intros F G HF HF63 HG HG63 HbF HFG Hdown Hup. specialize (H900 63 ltac:(lia)).
    destruct (fsub_spec b a F) as (Hd & HdF & Hd1 & Hd2); [done|done|done|lia|done|].
    destruct (fdiv_spec (fsub b a) c G) as (Hq & HqG & Hq1 & Hq2); [done|done|lia|done|lia| |].
    { etrans; [|exact HFG]. apply Z.mul_le_mono_nonneg_r; lia. }
    assert (0 ≤ sv a + sv (fdiv (fsub b a) c) ≤ scale 63) as Hsum.
    { pose proof (mag_pos _ Hq). destruct (Z.lt_ge_cases (sv b) (sv a)).
      - specialize (Hq2 ltac:(lia)). pose proof (sv_mag (fdiv (fsub b a) c)). destruct (neg _); cbn [cond_Zopp] in *; lia.
      - specialize (Hq1 ltac:(lia)). rewrite (sv_pos _ Hq) by lia. lia. }
    destruct (fadd_spec a (fdiv (fsub b a) c) (scale 63)) as (Hr & HrF & Hr1 & _); [done|done|by apply rep_pow|lia|lia|].
    split; [done|]. specialize (Hr1 ltac:(lia)). rewrite (sv_pos _ Hr) by lia. split; [by apply mag_pos|done]. }
  destruct (Z.lt_ge_cases (sv b) (sv a)) as [Hlt|Hge]; [|destruct (decide (n = 0)) as [En|En]; [|destruct (Z.le_gt_cases (sv a) (scale 62))]].
  - assert (rep (sv a)) by (rewrite (sv_pos a Ha) by lia; by apply rep_mag). apply (Hrun (sv a) (sv a)); try done; nia.
  - specialize (Hn0 En). apply (Hrun (scale 63) (scale 63)); try (by apply rep_pow); try done; nia.
  - assert (scale 63 = 2 * scale 62) as E62 by (by rewrite <- scale_double by lia). pose proof (scale_pos 62 ltac:(lia)). specialize (Hc2 En).
    apply (Hrun (scale 63) (scale 62)); try (by apply rep_pow); try lia. rewrite E62. nia.
  - assert (rep (scale 63 - sv a)) by (by apply rest_rep). apply (Hrun (scale 63 - sv a) (scale 63 - sv a)); try done; nia.
Qed.

(** The mean, rounded to the nearest, can be converted. *)
Lemma mean_converts a : mean_ok a → ∃ v, dbl_to_u64 (fadd a (fdiv (dbl_of 1) (dbl_of 2))) = Some v.
Proof.
  intros [Ha Hav]. assert (fdiv (dbl_of 1) (dbl_of 2) = S754_finite false (2 ^ 52) (-53)) as -> by by vm_compute.
  set (h := S754_finite false _ _). assert (fin h) as Hh by done.
  assert (sv h = scale (-1)) as Eh by (change (-1) with (-53 + 52); by rewrite scale_add, Z.mul_comm by lia).
  assert (scale (-1) ≤ scale 62) by by apply scale_le. pose proof (scale_pos (-1) ltac:(lia)).
  assert (scale 63 = 2 * scale 62) as E63 by (by rewrite <- scale_double by lia).
  destruct (fadd_spec a h (3 * scale 62)) as (Hr & HrF & Hr1 & _); [done|done|by apply rep_scale| |lia|].
  { etrans; [|apply (scale_le 64); lia]. change 64 with (63 + 1). rewrite scale_double by lia. lia. }
  specialize (Hr1 ltac:(lia)). set (r := fadd a h) in *. destruct r as [s|s| |s m e]; cbn [fin] in Hr; try done; [by eexists|].
  pose proof (scale_pos e ltac:(lia)). destruct s; cbn [sv cond_Zopp mag] in *; [nia|]. cbn [dbl_to_u64].
  set (v := if 0 <=? e then _ else _). assert (v < 2 ^ 64) as Hv; [|rewrite option_guard_True by done; by eexists].
  subst v. destruct (Z.leb_spec 0 e).
  - assert (scale e = scale 0 * 2 ^ e) as Ee by (by rewrite <- scale_add by lia).
    assert (scale 62 = scale 0 * 2 ^ 62) as E62 by (by rewrite <- scale_add by lia). rewrite Ee, E62 in HrF. pose proof (scale_pos 0 ltac:(lia)). nia.
  - apply (Z.le_lt_trans _ (Z.pos m)); [|lia]. apply Z.div_le_upper_bound; [apply Z.pow_pos_nonneg; lia|].
    assert (1 ≤ 2 ^ (- e)) by (change 1 with (2 ^ 0) at 1; apply Z.pow_le_mono_r; lia). nia.
Qed.
