(* ===== verification/Stat.v ===== *)
(** * Job statistics (src/fio4emu/stat.c, stat.h, iolog.h)

    The statistics of a job: for each direction the range, mean and variance of its
    latencies and rates, with histograms, the same by priority, and counters.  They are
    filled sample by sample, and added up over the jobs of a group.  Doubles are those
    of [Latency]; [pow] is the mathematical library's.  The lists of a record have an
    entry per direction (reads, writes, trims); an access outside of one has no result. *)
From Stdlib Require Import SpecFloat.
From S2P Require Import Prelude CInt Latency.
#[local] Open Scope Z_scope.

(** ** Samples *)
Record io_stat := IoStat { max_val : Z; min_val : Z; samples : Z; mean : dbl; S_sum : dbl }.
Definition ULONG_MAX : Z := 2 ^ 64 - 1.
Definition reset_io_stat : io_stat := IoStat 0 ULONG_MAX 0 (dbl_of 0) (dbl_of 0).

Definition add_stat_sample (data : Z) (ios : io_stat) : io_stat :=
  let val := dbl_of data in
  let mx := if max_val ios <? data then data else max_val ios in
  let mn := if data <? min_val ios then data else min_val ios in
  let delta := fsub val (mean ios) in
  let '(mean', S') :=
    if negb (SFeqb delta (dbl_of 0)) then
      let mean' := fadd (mean ios) (fdiv delta (fadd (dbl_of (samples ios)) (dbl_of 1))) in
      (mean', fadd (S_sum ios) (fmul delta (fsub val mean')))
    else (mean ios, S_sum ios) in
  IoStat mx mn (u64 (samples ios + 1)) mean' S'.

(** [calc_lat], without the deviation: none when there is no sample. *)
Definition calc_lat (ios : io_stat) : option (Z * Z * dbl) :=
  if samples ios =? 0 then None else Some (min_val ios, max_val ios, mean ios).

Section Sum.
Context (pow : dbl → dbl → dbl).

Definition __sum_stat (dst src : io_stat) (first : bool) : io_stat :=
  let total := u64 (samples dst + samples src) in
  let '(m, S') :=
    if first then (mean src, S_sum src) else
    let delta := fsub (mean src) (mean dst) in
    (fdiv (fadd (fmul (mean src) (dbl_of (samples src))) (fmul (mean dst) (dbl_of (samples dst)))) (dbl_of total),
     fadd (fadd (S_sum src) (S_sum dst))
       (fdiv (fmul (pow delta (dbl_of 2)) (dbl_of (u64 (samples dst * samples src)))) (dbl_of total))) in
  IoStat (Z.max (max_val dst) (max_val src)) (Z.min (min_val dst) (min_val src)) total m S'.

Definition sum_stat (pure_sum : bool) (src dst : io_stat) : io_stat :=
  let first := samples dst =? 0 in
  if samples src =? 0 then dst
  else if negb pure_sum then __sum_stat dst src first
  else if first then src
  else IoStat (u64 (max_val dst + max_val src)) (u64 (min_val dst + min_val src)) (u64 (samples dst + samples src))
         (fadd (mean dst) (mean src)) (fadd (S_sum dst) (S_sum src)).
End Sum.

(** ** By priority *)
Record clat_prio_stat := ClatPrio { prio_plat : list Z; prio_stat : io_stat; prio_ioprio : Z }.
#[export] Instance eta_clat_prio : Settable clat_prio_stat := λ r, ClatPrio (prio_plat r) (prio_stat r) (prio_ioprio r).

Definition DDIR_RWDIR_CNT : nat := 3.
Definition DDIR_SYNC : nat := 3.
Definition DDIR_RWDIR_SYNC_CNT : nat := 4.
Definition FIO_SLAT : nat := 0.
Definition FIO_CLAT : nat := 1.
Definition FIO_LAT : nat := 2.
Definition FIO_LAT_CNT : nat := 3.
Definition FIO_IO_U_MAP_NR : nat := 7.
Definition FIO_IO_U_LAT_N_NR : nat := 10.
Definition FIO_IO_U_LAT_U_NR : nat := 10.
Definition FIO_IO_U_LAT_M_NR : nat := 12.
Definition UNIFIED_MIXED : Z := 1.
Definition ddir_rw (ddir : nat) : bool := (ddir <? 3)%nat.

(** The array of a direction, if it has one, with its [nr_clat_prio] entries. *)
Abbreviation prio_array := (option (list clat_prio_stat)).
Definition fresh_prio (ioprio : Z) : clat_prio_stat :=
  ClatPrio reset_io_u_plat (IoStat 0 ULONG_MAX 0 (dbl_of 0) (dbl_of 0)) ioprio.

(** ** The statistics of a job *)
Record thread_stat := ThreadStat {
  unified_rw_rep : Z; disable_prio_stat : bool; ioprio : Z;
  clat_percentiles : bool; lat_percentiles : bool; slat_percentiles : bool;
  sync_stat : io_stat; clat_stat : list io_stat; slat_stat : list io_stat; lat_stat : list io_stat;
  bw_stat : list io_stat; iops_stat : list io_stat;
  usr_time : Z; sys_time : Z; ctx : Z; minf : Z; majf : Z;
  io_u_map : list Z; io_u_submit : list Z; io_u_complete : list Z;
  io_u_lat_n : list Z; io_u_lat_u : list Z; io_u_lat_m : list Z;
  io_u_plat : list (list (list Z)); io_u_sync_plat : list Z;
  total_io_u : list Z; short_io_u : list Z; drop_io_u : list Z;
  total_submit : Z; total_complete : Z; io_bytes : list Z; runtime : list Z; total_run_time : Z;
  nr_zone_resets : Z; cachehit : Z; cachemiss : Z; clat_prio : list prio_array }.
#[export] Instance eta_thread_stat : Settable thread_stat := λ r,
  ThreadStat (unified_rw_rep r) (disable_prio_stat r) (ioprio r) (clat_percentiles r) (lat_percentiles r) (slat_percentiles r)
    (sync_stat r) (clat_stat r) (slat_stat r) (lat_stat r) (bw_stat r) (iops_stat r) (usr_time r) (sys_time r) (ctx r) (minf r)
    (majf r) (io_u_map r) (io_u_submit r) (io_u_complete r) (io_u_lat_n r) (io_u_lat_u r) (io_u_lat_m r) (io_u_plat r)
    (io_u_sync_plat r) (total_io_u r) (short_io_u r) (drop_io_u r) (total_submit r) (total_complete r) (io_bytes r) (runtime r)
    (total_run_time r) (nr_zone_resets r) (cachehit r) (cachemiss r) (clat_prio r).

(** Several fields at once, as one record. *)
Ltac flat t := let t := eval cbn [set_field_of
  unified_rw_rep disable_prio_stat ioprio clat_percentiles lat_percentiles slat_percentiles sync_stat clat_stat slat_stat
  lat_stat bw_stat iops_stat usr_time sys_time ctx minf majf io_u_map io_u_submit io_u_complete io_u_lat_n io_u_lat_u io_u_lat_m
  io_u_plat io_u_sync_plat total_io_u short_io_u drop_io_u total_submit total_complete io_bytes runtime total_run_time
  nr_zone_resets cachehit cachemiss clat_prio] in t in exact t.
Definition put_stats (clat slat lat bw iops : list io_stat) (ts : thread_stat) : thread_stat :=
  ltac:(flat (ts <| clat_stat := clat |> <| slat_stat := slat |> <| lat_stat := lat |> <| bw_stat := bw |> <| iops_stat := iops |>)).
Definition put_io_u (total short drop : list Z) (ts : thread_stat) : thread_stat :=
  ltac:(flat (ts <| total_io_u := total |> <| short_io_u := short |> <| drop_io_u := drop |>)).
Definition put_usage (usr sys switches majflt minflt : Z) (ts : thread_stat) : thread_stat :=
  ltac:(flat (ts <| usr_time := usr |> <| sys_time := sys |> <| ctx := switches |> <| majf := majflt |> <| minf := minflt |>)).
Definition put_maps (map submit complete lat_n lat_u lat_m : list Z) (ts : thread_stat) : thread_stat :=
  ltac:(flat (ts <| io_u_map := map |> <| io_u_submit := submit |> <| io_u_complete := complete |>
    <| io_u_lat_n := lat_n |> <| io_u_lat_u := lat_u |> <| io_u_lat_m := lat_m |>)).
Definition put_totals (submit complete resets hit miss : Z) (ts : thread_stat) : thread_stat :=
  ltac:(flat (ts <| total_submit := submit |> <| total_complete := complete |> <| nr_zone_resets := resets |>
    <| cachehit := hit |> <| cachemiss := miss |>)).
Definition put_plats (total : list Z) (plats : list (list (list Z))) (sync_plat : list Z) (ts : thread_stat) : thread_stat :=
  ltac:(flat (ts <| total_io_u := total |> <| io_u_plat := plats |> <| io_u_sync_plat := sync_plat |>)).

Ltac ts_fields := cbn [mbind option_bind set_field_of put_stats put_io_u put_usage put_maps put_totals put_plats
  unified_rw_rep disable_prio_stat ioprio clat_percentiles lat_percentiles slat_percentiles sync_stat clat_stat slat_stat
  lat_stat bw_stat iops_stat usr_time sys_time ctx minf majf io_u_map io_u_submit io_u_complete io_u_lat_n io_u_lat_u io_u_lat_m
  io_u_plat io_u_sync_plat total_io_u short_io_u drop_io_u total_submit total_complete io_bytes runtime total_run_time
  nr_zone_resets cachehit cachemiss clat_prio].

(** The memory is cleared; [init_thread_stat_min_vals] sets the least values. *)
Definition zero_stat : io_stat := IoStat 0 0 0 (dbl_of 0) (dbl_of 0).
Definition zeros (n : nat) : list Z := replicate n 0.
Definition min_vals (ios : io_stat) : io_stat := IoStat (max_val ios) ULONG_MAX (samples ios) (mean ios) (S_sum ios).
Definition init_thread_stat_min_vals (ts : thread_stat) : thread_stat :=
  let each stats := min_vals <$> stats in
  put_stats (each (clat_stat ts)) (each (slat_stat ts)) (each (lat_stat ts)) (each (bw_stat ts)) (each (iops_stat ts)) ts
    <| sync_stat := min_vals (sync_stat ts) |>.
Definition cleared_thread_stat : thread_stat :=
  let stats := replicate DDIR_RWDIR_CNT zero_stat in
  ThreadStat 0 false 0 false false false zero_stat stats stats stats stats stats 0 0 0 0 0
    (zeros FIO_IO_U_MAP_NR) (zeros FIO_IO_U_MAP_NR) (zeros FIO_IO_U_MAP_NR)
    (zeros FIO_IO_U_LAT_N_NR) (zeros FIO_IO_U_LAT_U_NR) (zeros FIO_IO_U_LAT_M_NR)
    (replicate FIO_LAT_CNT (replicate DDIR_RWDIR_CNT reset_io_u_plat)) reset_io_u_plat
    (zeros DDIR_RWDIR_SYNC_CNT) (zeros DDIR_RWDIR_CNT) (zeros DDIR_RWDIR_CNT) 0 0 (zeros DDIR_RWDIR_CNT) (zeros DDIR_RWDIR_CNT) 0
    0 0 0 (replicate DDIR_RWDIR_CNT None).
Definition init_thread_stat : thread_stat := init_thread_stat_min_vals cleared_thread_stat.

(** ** Counting samples *)
Definition at_ddir {A} (ddir : nat) (f : A → A) (l : list A) : option (list A) :=
  x ← l !! ddir; Some (<[ddir := f x]> l).
Definition at_ddir_opt {A} (ddir : nat) (f : A → option A) (l : list A) : option (list A) :=
  x ← l !! ddir; y ← f x; Some (<[ddir := y]> l).

Definition add_sync_clat_sample (nsec : Z) (ts : thread_stat) : option thread_stat :=
  plat ← plat_count nsec (io_u_sync_plat ts);
  Some (ts <| io_u_sync_plat := plat |> <| sync_stat := add_stat_sample nsec (sync_stat ts) |>).
Definition add_lat_percentile_sample (nsec : Z) (ddir lat : nat) (ts : thread_stat) : option thread_stat :=
  plats ← at_ddir_opt lat (at_ddir_opt ddir (plat_count nsec)) (io_u_plat ts);
  Some (ts <| io_u_plat := plats |>).
(** The entry of a priority, when there are entries. *)
Definition at_prio (ddir index : nat) (f : clat_prio_stat → option clat_prio_stat) (ts : thread_stat) : option thread_stat :=
  a ← clat_prio ts !! ddir;
  match a with
  | None => Some ts
  | Some entries =>
      entries ← at_ddir_opt index f entries;
      Some (ts <| clat_prio := <[ddir := Some entries]> (clat_prio ts) |>)
  end.
Definition add_lat_percentile_prio_sample (nsec : Z) (ddir clat_prio_index : nat) : thread_stat → option thread_stat :=
  at_prio ddir clat_prio_index (λ e, plat ← plat_count nsec (prio_plat e); Some (e <| prio_plat := plat |>)).
Definition add_stat_prio_sample (nsec : Z) (ddir clat_prio_index : nat) : thread_stat → option thread_stat :=
  at_prio ddir clat_prio_index (λ e, Some (e <| prio_stat := add_stat_sample nsec (prio_stat e) |>)).

(** ** Adding up the priorities of a job *)
Definition plat_add (src dst : list Z) : list Z := zip_with (λ d s, u64 (d + s)) dst src.
Definition find_clat_prio_index (entries : list clat_prio_stat) (ioprio : Z) : option nat :=
  fst <$> list_find (λ e, prio_ioprio e = ioprio) entries.
(** [room] tells whether the shared memory has room for a larger array. *)
Definition alloc_or_get_clat_prio_index (room : bool) (entries : list clat_prio_stat) (ioprio : Z) : option (list clat_prio_stat * nat) :=
  match find_clat_prio_index entries ioprio with
  | Some index => Some (entries, index)
  | None => if room then Some (entries ++ [fresh_prio ioprio], length entries) else None
  end.

Section SumPrio.
Context (pow : dbl → dbl → dbl).

(** The array with the samples in it, and whether it failed. *)
Definition clat_prio_stat_add_samples (room : bool) (ioprio : Z) (ios : io_stat) (plat : list Z) (a : prio_array) : prio_array * bool :=
  if samples ios =? 0 then (a, false) else
  match alloc_or_get_clat_prio_index room (default [] a) ioprio with
  | None => (a, true)
  | Some (entries, index) =>
      (Some (alter (λ e, ClatPrio (plat_add plat (prio_plat e)) (sum_stat pow false ios (prio_stat e)) (prio_ioprio e)) index entries), false)
  end.
(** A job without an array of priorities had one priority only. *)
Definition sum_clat_prio_stats_src_single_prio (room : bool) (src : thread_stat) (src_ddir : nat) (a : prio_array) : option (prio_array * bool) :=
  let lat := if lat_percentiles src then FIO_LAT else FIO_CLAT in
  plats ← io_u_plat src !! lat;
  plat ← plats !! src_ddir;
  ios ← (if lat_percentiles src then lat_stat src else clat_stat src) !! src_ddir;
  Some (clat_prio_stat_add_samples room (ioprio src) ios plat a).
Fixpoint add_prio_entries (room : nat → bool) (i : nat) (src : list clat_prio_stat) (a : prio_array) : prio_array * bool :=
  match src with
  | [] => (a, false)
  | e :: src =>
      let '(a, failed) := clat_prio_stat_add_samples (room i) (prio_ioprio e) (prio_stat e) (prio_plat e) a in
      if failed : bool then (a, true) else add_prio_entries room (S i) src a
  end.
Definition sum_clat_prio_stats_src_multi_prio (room : nat → bool) (src : list clat_prio_stat) (a : prio_array) : option (prio_array * bool) :=
  guard (src ≠ []);;
  Some (match a with None => if room 0%nat then (Some src, false) else (None, true) | Some _ => add_prio_entries room 0 src a end).
Definition sum_clat_prio_stats (room : nat → bool) (src : thread_stat) (dst_ddir src_ddir : nat) (dst : thread_stat) : option thread_stat :=
  if disable_prio_stat dst then Some dst else
  a ← clat_prio dst !! dst_ddir;
  s ← clat_prio src !! src_ddir;
  '(a, failed) ← match s with
                 | None => sum_clat_prio_stats_src_single_prio (room 0%nat) src src_ddir a
                 | Some entries => sum_clat_prio_stats_src_multi_prio room entries a
                 end;
  Some (dst <| clat_prio := <[dst_ddir := a]> (clat_prio dst) |>).

(** ** Adding up jobs *)
Definition add64 (s d : Z) : Z := u64 (d + s).
Definition max64 (s d : Z) : Z := if d <? s then s else d.
Definition into {A} (t l : nat) (f : A → A → A) (src dst : list A) : option (list A) := s ← src !! l; at_ddir t (f s) dst.
Definition add_lists (src dst : list Z) : list Z := zip_with (λ d s, u64 (d + s)) dst src.

(** Direction [l] of a job goes to direction [t] of the group. *)
Definition sum_ddir (room : nat → bool) (src : thread_stat) (l : nat) (dst : thread_stat) : option thread_stat :=
  let t := if unified_rw_rep dst =? UNIFIED_MIXED then 0%nat else l in
  clat ← into t l (sum_stat pow false) (clat_stat src) (clat_stat dst);
  slat ← into t l (sum_stat pow false) (slat_stat src) (slat_stat dst);
  lat ← into t l (sum_stat pow false) (lat_stat src) (lat_stat dst);
  bw ← into t l (sum_stat pow true) (bw_stat src) (bw_stat dst);
  iops ← into t l (sum_stat pow true) (iops_stat src) (iops_stat dst);
  dst ← sum_clat_prio_stats room src t l (put_stats clat slat lat bw iops dst);
  bytes ← into t l add64 (io_bytes src) (io_bytes dst);
  time ← into t l max64 (runtime src) (runtime dst);
  Some (dst <| io_bytes := bytes |> <| runtime := time |>).
Definition sum_io_u (src : thread_stat) (k : nat) (dst : thread_stat) : option thread_stat :=
  let t := if unified_rw_rep dst =? UNIFIED_MIXED then 0%nat else k in
  total ← into t k add64 (total_io_u src) (total_io_u dst);
  short ← into t k add64 (short_io_u src) (short_io_u dst);
  drop ← into t k add64 (drop_io_u src) (drop_io_u dst);
  Some (put_io_u total short drop dst).
Definition sum_plat (mixed : bool) (src : list (list Z)) (l : nat) (dst : list (list Z)) : option (list (list Z)) :=
  into (if mixed then 0%nat else l) l plat_add src dst.

Definition sum_thread_stats (room : nat → nat → bool) (src dst : thread_stat) : option thread_stat :=
  dst ← for_opt DDIR_RWDIR_CNT (λ l, sum_ddir (room l) src l) dst;
  let dst := dst <| sync_stat := sum_stat pow false (sync_stat src) (sync_stat dst) |> in
  let dst := put_usage (add64 (usr_time src) (usr_time dst)) (add64 (sys_time src) (sys_time dst)) (add64 (ctx src) (ctx dst))
               (add64 (majf src) (majf dst)) (add64 (minf src) (minf dst)) dst in
  let dst := put_maps (add_lists (io_u_map src) (io_u_map dst)) (add_lists (io_u_submit src) (io_u_submit dst))
               (add_lists (io_u_complete src) (io_u_complete dst)) (add_lists (io_u_lat_n src) (io_u_lat_n dst))
               (add_lists (io_u_lat_u src) (io_u_lat_u dst)) (add_lists (io_u_lat_m src) (io_u_lat_m dst)) dst in
  dst ← for_opt DDIR_RWDIR_CNT (sum_io_u src) dst;
  total ← into DDIR_SYNC DDIR_SYNC add64 (total_io_u src) (total_io_u dst);
  plats ← for_opt FIO_LAT_CNT (λ k plats,
    s ← io_u_plat src !! k;
    at_ddir_opt k (for_opt DDIR_RWDIR_CNT (sum_plat (unified_rw_rep dst =? UNIFIED_MIXED) s)) plats) (io_u_plat dst);
  let dst := put_plats total plats (plat_add (io_u_sync_plat src) (io_u_sync_plat dst)) dst in
  let dst := dst <| total_run_time := add64 (total_run_time src) (total_run_time dst) |> in
  Some (put_totals (add64 (total_submit src) (total_submit dst)) (add64 (total_complete src) (total_complete dst))
          (add64 (nr_zone_resets src) (nr_zone_resets dst)) (add64 (cachehit src) (cachehit dst))
          (add64 (cachemiss src) (cachemiss dst)) dst).
End SumPrio.

(** ** Starting again *)
Definition reset_clat_prio (a : prio_array) : prio_array :=
  match a with
  | None => None
  | Some entries => Some ((λ e, e <| prio_stat := reset_io_stat |> <| prio_plat := reset_io_u_plat |>) <$> entries)
  end.
Definition reset_io_stats (ts : thread_stat) : thread_stat :=
  let stats := replicate DDIR_RWDIR_CNT reset_io_stat in
  let ts := put_stats stats stats stats stats stats ts in
  let ts := ts <| io_bytes := zeros DDIR_RWDIR_CNT |> <| runtime := zeros DDIR_RWDIR_CNT |> in
  let ts := put_io_u (zeros DDIR_RWDIR_SYNC_CNT) (zeros DDIR_RWDIR_CNT) (zeros DDIR_RWDIR_CNT) ts in
  let ts := put_plats (total_io_u ts) (replicate FIO_LAT_CNT (replicate DDIR_RWDIR_CNT reset_io_u_plat)) reset_io_u_plat ts in
  let ts := ts <| clat_prio := reset_clat_prio <$> clat_prio ts |> in
  let ts := put_maps (zeros FIO_IO_U_MAP_NR) (zeros FIO_IO_U_MAP_NR) (zeros FIO_IO_U_MAP_NR)
              (zeros FIO_IO_U_LAT_N_NR) (zeros FIO_IO_U_LAT_U_NR) (zeros FIO_IO_U_LAT_M_NR) ts in
  put_totals 0 0 0 0 0 ts.

(** ** Groups of jobs *)
Record group_run_stats := GroupRunStats {
  max_run : list Z; min_run : list Z; max_bw : list Z; min_bw : list Z; iobytes : list Z; agg : list Z;
  kb_base : Z; unit_base : Z; sig_figs : Z }.
Definition init_group_run_stat : group_run_stats :=
  GroupRunStats (zeros 3) (replicate 3 ULONG_MAX) (zeros 3) (replicate 3 ULONG_MAX) (zeros 3) (zeros 3) 0 0 0.
(** [if (dst->min_run[i] && dst->min_run[i] > src->min_run[i])] *)
Definition min_nonzero (s d : Z) : Z := if negb (d =? 0) && (s <? d) then s else d.
Definition sum_group_stats (src dst : group_run_stats) : group_run_stats :=
  let each f (s d : list Z) := zip_with (λ d s, f s d) d s in
  GroupRunStats (each max64 (max_run src) (max_run dst)) (each min_nonzero (min_run src) (min_run dst))
    (each max64 (max_bw src) (max_bw dst)) (each min_nonzero (min_bw src) (min_bw dst))
    (each add64 (iobytes src) (iobytes dst)) (each add64 (agg src) (agg dst))
    (if kb_base dst =? 0 then kb_base src else kb_base dst) (if unit_base dst =? 0 then unit_base src else unit_base dst)
    (if sig_figs dst =? 0 then sig_figs src else sig_figs dst).
