(* ===== verification/StatSpec.v ===== *)
(** * The statistics of a group are those of all its samples (src/fio4emu/stat.c)

    What a statistic, a histogram and the table of priorities say of a list of samples;
    a new sample extends the list, adding up the statistics of jobs appends their
    lists, whatever the jobs are grouped by. *)
From Stdlib Require Import SpecFloat.
From S2P Require Import Prelude CInt Latency LatencySpec Stat.
#[local] Open Scope Z_scope.

(** ** One statistic *)
Definition stat_of (xs : list Z) (ios : io_stat) : Prop :=
  max_val ios = foldr Z.max 0 xs ∧ min_val ios = foldr Z.min ULONG_MAX xs ∧ samples ios = Z.of_nat (length xs).
Abbreviation few xs := (Z.of_nat (length xs) < 2 ^ 64).

Lemma fold_max_app xs ys : Forall is_latency ys → foldr Z.max 0 (xs ++ ys) = Z.max (foldr Z.max 0 xs) (foldr Z.max 0 ys).
Proof.
  intros Hys. assert (0 ≤ foldr Z.max 0 ys) by (induction Hys; cbn; lia). induction xs as [|x xs IH]; cbn [app foldr]; lia.
Qed.
Lemma fold_min_app xs ys : Forall is_latency ys → foldr Z.min ULONG_MAX (xs ++ ys) = Z.min (foldr Z.min ULONG_MAX xs) (foldr Z.min ULONG_MAX ys).
Proof.
  intros Hys. assert (foldr Z.min ULONG_MAX ys ≤ ULONG_MAX) by (induction Hys; cbn [foldr]; lia). induction xs as [|x xs IH]; cbn [app foldr]; lia.
Qed.
Lemma stat_of_nil : stat_of [] reset_io_stat.
Proof. done. Qed.

Lemma add_stat_sample_ok xs x ios : stat_of xs ios → is_latency x → few (xs ++ [x]) → stat_of (xs ++ [x]) (add_stat_sample x ios).
Proof.
  intros (Hmax & Hmin & Hn) Hx Hf. rewrite length_app in Hf. cbn [length] in Hf. unfold add_stat_sample. unfold is_latency, ULONG_MAX in *.
  assert (Forall is_latency [x]) by (constructor; [done|constructor]).
  destruct (negb _); (split; [|split]); cbn [max_val min_val samples]; rewrite ?max_ifE, ?min_ifE, ?Hmax, ?Hmin, ?Hn.
  1,4: rewrite fold_max_app by done; cbn; lia.
  1,3: rewrite fold_min_app by done; unfold ULONG_MAX; cbn [foldr]; lia.
  all: rewrite length_app; cbn [length]; unfold u64; rewrite wrap_small by (split; lia); lia.
Qed.

Lemma sum_stat_ok pow xs ys dst src : stat_of xs dst → stat_of ys src → Forall is_latency ys → few (xs ++ ys) →
  stat_of (xs ++ ys) (sum_stat pow false src dst).
Proof.
  intros (Hmax & Hmin & Hn) (Hmax' & Hmin' & Hn') Hys Hf. unfold sum_stat.
  destruct (Z.eqb_spec (samples src) 0) as [E|]; cbn [negb].
  { destruct ys; [rewrite app_nil_r; done|cbn in Hn'; lia]. }
  unfold __sum_stat. rewrite length_app in Hf.
  assert (Ht : u64 (samples dst + samples src) = Z.of_nat (length (xs ++ ys))).
  { rewrite length_app, Hn, Hn'. unfold u64. rewrite wrap_small by (split; lia). lia. }
  destruct (samples dst =? 0); (split; [|split]); cbn [max_val min_val samples];
    by rewrite ?fold_max_app, ?fold_min_app, ?Hmax, ?Hmin, ?Hmax', ?Hmin'.
Qed.

(** ** One histogram *)
Lemma plat_add_ok xs ys p q : histogram xs p → histogram ys q → few (xs ++ ys) → histogram (xs ++ ys) (plat_add q p).
Proof.
  intros [Hl Hc] [Hl' Hc'] Hf. rewrite length_app in Hf. assert (Hlen : length (plat_add q p) = length p).
  { unfold plat_add. rewrite length_zip_with. lia. }
  split; [lia|]. intros i Hi. rewrite Hlen in Hi. unfold plat_add. rewrite lookup_zip_with, Hc, Hc' by lia. cbn [mbind option_bind].
  rewrite counted_app. pose proof (counted_bound (eq (Z.of_nat i)) xs). pose proof (counted_bound (eq (Z.of_nat i)) ys).
  unfold u64. rewrite wrap_small by (split; lia). done.
Qed.

(** ** A value for each direction *)
(** An array whose [d]-th entry speaks of the samples [xs d]. *)
Definition family {A} (n : nat) (R : list Z → A → Prop) (xs : nat → list Z) (l : list A) : Prop :=
  length l = n ∧ ∀ d a, l !! d = Some a → R (xs d) a.
(** Where direction [l] of a job goes, and the samples after the first [n] directions. *)
Definition target (mixed : bool) (l : nat) : nat := if mixed then 0%nat else l.
Fixpoint merged (mixed : bool) (xs ys : nat → list Z) (n d : nat) : list Z :=
  match n with
  | O => xs d
  | S n => if decide (d = target mixed n) then merged mixed xs ys n d ++ ys n else merged mixed xs ys n d
  end.
Lemma merged_few mixed xs ys n d : few (merged mixed xs ys (S n) d) → few (merged mixed xs ys n d).
Proof. cbn [merged]. case_decide; [|done]. rewrite length_app. lia. Qed.
Lemma merged_own xs ys n d : merged false xs ys n d = xs d ++ (if decide (d < n)%nat then ys d else []).
Proof.
  induction n as [|n IH]; cbn [merged target]; [by rewrite app_nil_r|]. rewrite IH.
  repeat case_decide; subst; try lia; rewrite ?app_nil_r; done.
Qed.
Lemma target_lt mixed l n : (l < n)%nat → (target mixed l < n)%nat.
Proof. destruct mixed; cbn; lia. Qed.

Lemma family_at {A} n (R : list Z → A → Prop) xs l t f ys : family n R xs l → (t < n)%nat →
  (∀ a, R (xs t) a → R (xs t ++ ys) (f a)) →
  ∃ l', at_ddir t f l = Some l' ∧ family n R (λ d, if decide (d = t) then xs d ++ ys else xs d) l'.
Proof.
  intros [Hl Hr] Ht Hf. destruct (lookup_lt_is_Some_2 l t) as [a Ha]; [lia|]. unfold at_ddir. rewrite Ha.
  eexists. split; [reflexivity|]. split; [by rewrite length_insert|]. intros d b Hb. case_decide; subst.
  - rewrite list_lookup_insert_eq in Hb by lia. injection Hb as <-. by apply Hf, Hr.
  - rewrite list_lookup_insert_ne in Hb by done. by apply Hr.
Qed.

Section Loops.
Context {A : Type} (R : list Z → A → Prop) (f : A → A → A) (mixed : bool) (xs ys : nat → list Z).
Context (Hf : ∀ d s us vs, R us d → R vs s → Forall is_latency vs → few (us ++ vs) → R (us ++ vs) (f s d)).
Context (Hlat : ∀ d, Forall is_latency (ys d)) (Hfew : ∀ d, few (merged mixed xs ys DDIR_RWDIR_CNT d)).

Lemma merged_few_le n d : (n ≤ DDIR_RWDIR_CNT)%nat → few (merged mixed xs ys n d).
Proof using Hfew.
  intros Hn. remember (DDIR_RWDIR_CNT - n)%nat as k eqn:Ek. revert n Hn Ek. induction k as [|k IH]; intros n Hn Ek.
  - replace n with DDIR_RWDIR_CNT by lia. apply Hfew.
  - apply merged_few, IH; lia.
Qed.
Lemma family_into n src dst : (n < DDIR_RWDIR_CNT)%nat → family DDIR_RWDIR_CNT R ys src → family DDIR_RWDIR_CNT R (merged mixed xs ys n) dst →
  ∃ dst', into (target mixed n) n f src dst = Some dst' ∧ family DDIR_RWDIR_CNT R (merged mixed xs ys (S n)) dst'.
Proof using Hf Hlat Hfew.
  intros Hn [Hl Hr] Hd. destruct (lookup_lt_is_Some_2 src n) as [s Hs]; [lia|]. unfold into. rewrite Hs. cbn [mbind option_bind].
  destruct (family_at _ R _ dst (target mixed n) (f s) (ys n) Hd) as (dst' & E & Hd'); [by apply target_lt| |by exists dst'].
  intros a Ha. apply Hf; [done|by apply Hr|done|].
  pose proof (merged_few_le (S n) (target mixed n) Hn) as H. cbn [merged] in H. by rewrite decide_True in H.
Qed.
End Loops.

(** ** The samples of a job *)
(** The samples of each kind of latency in each direction: all, and those in the
    histograms; and the times of synchronising. *)
Record job_samples := JobSamples { of_lat : nat → nat → list Z; in_plat : nat → nat → list Z; of_sync : list Z; in_sync : list Z }.
Definition no_samples : job_samples := JobSamples (λ _ _, []) (λ _ _, []) [] [].
Definition each_kind (J : job_samples) (P : list Z → Prop) : Prop :=
  (∀ k d, P (of_lat J k d) ∧ P (in_plat J k d)) ∧ P (of_sync J) ∧ P (in_sync J).
Definition add_samples (mixed : bool) (J K : job_samples) : job_samples :=
  JobSamples (λ k, merged mixed (of_lat J k) (of_lat K k) DDIR_RWDIR_CNT) (λ k, merged mixed (in_plat J k) (in_plat K k) DDIR_RWDIR_CNT)
    (of_sync J ++ of_sync K) (in_sync J ++ in_sync K).

Definition stats_of := family DDIR_RWDIR_CNT stat_of.
Definition kinds_of (xs : nat → nat → list Z) (kinds : list (list (list Z))) : Prop :=
  length kinds = FIO_LAT_CNT ∧ ∀ k plats, kinds !! k = Some plats → family DDIR_RWDIR_CNT histogram (xs k) plats.
Definition shaped (ts : thread_stat) : Prop :=
  length (bw_stat ts) = DDIR_RWDIR_CNT ∧ length (iops_stat ts) = DDIR_RWDIR_CNT ∧ length (io_bytes ts) = DDIR_RWDIR_CNT ∧
  length (runtime ts) = DDIR_RWDIR_CNT ∧ length (total_io_u ts) = DDIR_RWDIR_SYNC_CNT ∧ length (short_io_u ts) = DDIR_RWDIR_CNT ∧
  length (drop_io_u ts) = DDIR_RWDIR_CNT ∧ length (clat_prio ts) = DDIR_RWDIR_CNT ∧ Forall (λ a, a ≠ Some []) (clat_prio ts).
(** The statistics of a job count its samples. *)
Definition counts (J : job_samples) (ts : thread_stat) : Prop :=
  stats_of (of_lat J FIO_SLAT) (slat_stat ts) ∧ stats_of (of_lat J FIO_CLAT) (clat_stat ts) ∧ stats_of (of_lat J FIO_LAT) (lat_stat ts) ∧
  stat_of (of_sync J) (sync_stat ts) ∧ kinds_of (in_plat J) (io_u_plat ts) ∧ histogram (in_sync J) (io_u_sync_plat ts) ∧ shaped ts.

Lemma init_counts : counts no_samples init_thread_stat.
Proof.
  assert (Hs : stats_of (λ _, []) (min_vals <$> replicate DDIR_RWDIR_CNT zero_stat)).
  { split; [done|]. intros d a Ha. apply list_lookup_fmap_Some in Ha as (b & -> & Hb). apply lookup_replicate in Hb as [-> _]. done. }
  do 4 (split; [done|]). split; [|split; [apply histogram_nil|]].
  - split; [done|]. intros k plats Hk. apply lookup_replicate in Hk as [-> _]. split; [done|].
    intros d plat Hd. apply lookup_replicate in Hd as [-> _]. apply histogram_nil.
  - do 8 (split; [done|]). by repeat constructor.
Qed.

(** ** Adding up two jobs *)
Lemma into_shape {A} t l n (f : A → A → A) src dst : length src = n → length dst = n → (t < n)%nat → (l < n)%nat →
  ∃ dst', into t l f src dst = Some dst' ∧ length dst' = n.
Proof.
  intros Hs Hd Ht Hl. unfold into, at_ddir. destruct (lookup_lt_is_Some_2 src l) as [s ->]; [lia|].
  destruct (lookup_lt_is_Some_2 dst t) as [d ->]; [lia|]. eexists. split; [reflexivity|]. by rewrite length_insert.
Qed.

Lemma find_prio_lt entries ioprio i : find_clat_prio_index entries ioprio = Some i → (i < length entries)%nat.
Proof. unfold find_clat_prio_index. intros [[j e] [(Hj & _)%list_find_Some ->]]%fmap_Some. by apply lookup_lt_Some in Hj. Qed.
Lemma add_samples_prio_ne pow room p ios plat a : a ≠ Some [] → fst (clat_prio_stat_add_samples pow room p ios plat a) ≠ Some [].
Proof.
  intros Ha. unfold clat_prio_stat_add_samples. destruct (_ =? 0); [done|]. unfold alloc_or_get_clat_prio_index.
  destruct (find_clat_prio_index _ _) as [i|] eqn:E.
  - apply find_prio_lt in E. cbn. intros [= H%(f_equal length)]. rewrite length_alter in H. cbn in H. lia.
  - destruct room; [|done]. cbn. intros [= H%(f_equal length)]. rewrite length_alter, length_app in H. cbn in H. lia.
Qed.
Lemma add_entries_prio_ne pow room i src a : a ≠ Some [] → fst (add_prio_entries pow room i src a) ≠ Some [].
Proof.
  revert i a. induction src as [|e src IH]; intros i a Ha; [done|]. cbn [add_prio_entries].
  pose proof (add_samples_prio_ne pow (room i) (prio_ioprio e) (prio_stat e) (prio_plat e) a Ha) as H.
  destruct (clat_prio_stat_add_samples _ _ _ _ _ _) as [a' [|]]; [done|]. by apply IH.
Qed.

Definition with_prio (ts : thread_stat) (cp : list prio_array) : thread_stat := ts <| clat_prio := cp |>.
Definition prio_shaped (cp : list prio_array) : Prop := length cp = DDIR_RWDIR_CNT ∧ Forall (λ a, a ≠ Some []) cp.

Lemma sum_prio_shape pow room src t l dst J : counts J src → prio_shaped (clat_prio dst) → (t < DDIR_RWDIR_CNT)%nat → (l < DDIR_RWDIR_CNT)%nat →
  ∃ cp, sum_clat_prio_stats pow room src t l dst = Some (with_prio dst cp) ∧ prio_shaped cp.
Proof.
  intros (_ & [Hcl _] & [Hll _] & _ & [Hkl Hk] & _ & Hs) [Hdl Hdn] Ht Hl. destruct Hs as (_ & _ & _ & _ & _ & _ & _ & Hsl & Hsn).
  unfold sum_clat_prio_stats. destruct (disable_prio_stat dst); [by exists (clat_prio dst); destruct dst|].
  destruct (lookup_lt_is_Some_2 (clat_prio dst) t) as [a Ha]; [lia|]. destruct (lookup_lt_is_Some_2 (clat_prio src) l) as [s Hs]; [lia|].
  rewrite Ha, Hs. cbn [mbind option_bind]. assert (Ha' := Forall_lookup_1 _ _ _ _ Hdn Ha). assert (Hs' := Forall_lookup_1 _ _ _ _ Hsn Hs).
  cbn beta in Ha', Hs'.
  assert (∃ a' b, (match s with
     | Some entries => sum_clat_prio_stats_src_multi_prio pow room entries a
     | None => sum_clat_prio_stats_src_single_prio pow (room 0%nat) src l a end) = Some (a', b) ∧ a' ≠ Some []) as (a' & b & E & Hn).
  { destruct s as [entries|].
    - unfold sum_clat_prio_stats_src_multi_prio. rewrite option_guard_True by congruence. cbn [mbind option_bind].
      destruct a as [es|].
      + pose proof (add_entries_prio_ne pow room 0 entries (Some es) Ha'). destruct (add_prio_entries _ _ _ _ _) as [a' b]. by exists a', b.
      + destruct (room 0%nat); eexists _, _; (split; [reflexivity|done]).
    - unfold sum_clat_prio_stats_src_single_prio.
      destruct (lookup_lt_is_Some_2 (io_u_plat src) (if lat_percentiles src then FIO_LAT else FIO_CLAT)) as [plats Hp];
        [rewrite Hkl; destruct (lat_percentiles src); unfold FIO_LAT, FIO_CLAT, FIO_LAT_CNT; lia|].
      destruct (Hk _ _ Hp) as [Hpl _]. destruct (lookup_lt_is_Some_2 plats l) as [plat Hp']; [lia|].
      destruct (lookup_lt_is_Some_2 (if lat_percentiles src then lat_stat src else clat_stat src) l) as [ios Hi];
        [destruct (lat_percentiles src); lia|].
      rewrite Hp. cbn [mbind option_bind]. rewrite Hp'. cbn [mbind option_bind]. rewrite Hi. cbn [mbind option_bind].
      pose proof (add_samples_prio_ne pow (room 0%nat) (ioprio src) ios plat a Ha').
      destruct (clat_prio_stat_add_samples _ _ _ _ _ _) as [a' b]. by exists a', b. }
  rewrite E. cbn [mbind option_bind]. eexists. split; [reflexivity|]. split; [by rewrite length_insert|].
  by apply Forall_insert.
Qed.

(** The loop over the directions: each of the families is extended. *)
Section Jobs.
Context (pow : dbl → dbl → dbl) (J K : job_samples) (src : thread_stat) (rep : Z).
Let mixed : bool := rep =? UNIFIED_MIXED.
Context (HK : counts K src) (Hlat : each_kind K (Forall is_latency)) (Hfew : each_kind (add_samples mixed J K) (λ xs, few xs)).

(** The sums so far: [n] directions of the statistics, [m] of the histograms. *)
Definition so_far (n : nat) : job_samples :=
  JobSamples (λ k, merged mixed (of_lat J k) (of_lat K k) n) (in_plat J) (of_sync J) (in_sync J).
Definition partial (n : nat) (ts : thread_stat) : Prop :=
  unified_rw_rep ts = rep ∧ counts (so_far n) ts.

Lemma stats_step k n s d : (n < DDIR_RWDIR_CNT)%nat → stats_of (of_lat K k) s → stats_of (of_lat (so_far n) k) d →
  ∃ d', into (target mixed n) n (sum_stat pow false) s d = Some d' ∧ stats_of (of_lat (so_far (S n)) k) d'.
Proof using Hlat Hfew.
  intros Hn. apply family_into; [|intros e; apply Hlat|intros e; apply Hfew|done].
  intros. by apply sum_stat_ok.
Qed.

Lemma sum_ddir_step room n dst : (n < DDIR_RWDIR_CNT)%nat → partial n dst →
  ∃ dst', sum_ddir pow room src n dst = Some dst' ∧ partial (S n) dst'.
Proof using HK Hlat Hfew.
  intros Hn (Hm & Hs & Hc & Hl & Hsync & Hp & Hps & Hsh). destruct Hsh as (Hbw & Hio & Hby & Hrt & Htot & Hsho & Hdr & Hcp & Hcn).
  pose proof HK as (Ks & Kc & Kl & Ksync & Kp & Kps & Kbw & Kio & Kby & Krt & Ktot & Ksho & Kdr & Kcp & Kcn).
  assert (Ht := target_lt mixed n _ Hn).
  destruct (stats_step FIO_CLAT n _ _ Hn Kc Hc) as (c' & Ec & Hc'). destruct (stats_step FIO_SLAT n _ _ Hn Ks Hs) as (s' & Es & Hs').
  destruct (stats_step FIO_LAT n _ _ Hn Kl Hl) as (l' & El & Hl').
  destruct (into_shape (target mixed n) n _ (sum_stat pow true) _ _ Kbw Hbw Ht Hn) as (bw' & Ebw & Hbw').
  destruct (into_shape (target mixed n) n _ (sum_stat pow true) _ _ Kio Hio Ht Hn) as (io' & Eio & Hio').
  destruct (into_shape (target mixed n) n _ add64 _ _ Kby Hby Ht Hn) as (by' & Eby & Hby').
  destruct (into_shape (target mixed n) n _ max64 _ _ Krt Hrt Ht Hn) as (rt' & Ert & Hrt').
  unfold sum_ddir. rewrite Hm. fold mixed. fold (target mixed n). rewrite Ec. cbn [mbind option_bind]. rewrite Es. cbn [mbind option_bind].
  rewrite El. cbn [mbind option_bind]. rewrite Ebw. cbn [mbind option_bind]. rewrite Eio. cbn [mbind option_bind].
  match goal with |- context [sum_clat_prio_stats _ _ _ _ _ ?d] =>
    destruct (sum_prio_shape pow room src (target mixed n) n d K HK) as (cp & E & Hcp'); [done..|] end.
  rewrite E. unfold with_prio. ts_fields. rewrite Eby. cbn [mbind option_bind]. rewrite Ert.
  eexists. split; [reflexivity|]. split; [exact Hm|]. repeat (split; [done|]). destruct Hcp'. done.
Qed.

Lemma sum_io_u_step n m dst : (n < DDIR_RWDIR_CNT)%nat → partial m dst → ∃ dst', sum_io_u src n dst = Some dst' ∧ partial m dst'.
Proof using HK.
  clear Hfew Hlat. intros Hn (Hm & Hs & Hc & Hl & Hsync & Hp & Hps & Hsh). destruct Hsh as (Hbw & Hio & Hby & Hrt & Htot & Hsho & Hdr & Hcp & Hcn).
  pose proof HK as (_ & _ & _ & _ & _ & _ & _ & _ & _ & _ & Ktot & Ksho & Kdr & _). assert (Ht := target_lt mixed n _ Hn).
  destruct (into_shape (target mixed n) n _ add64 _ _ Ktot Htot) as (x & Ex & Hx); [unfold DDIR_RWDIR_CNT, DDIR_RWDIR_SYNC_CNT in *; lia..|].
  destruct (into_shape (target mixed n) n _ add64 _ _ Ksho Hsho Ht Hn) as (y & Ey & Hy).
  destruct (into_shape (target mixed n) n _ add64 _ _ Kdr Hdr Ht Hn) as (z & Ez & Hz).
  unfold sum_io_u. rewrite Hm. fold mixed. fold (target mixed n). rewrite Ex. cbn [mbind option_bind]. rewrite Ey. cbn [mbind option_bind].
  rewrite Ez. ts_fields. eexists. split; [reflexivity|]. split; [exact Hm|]. done.
Qed.

(** The histograms of one kind, and of all. *)
Lemma sum_kind_step k s d : family DDIR_RWDIR_CNT histogram (in_plat K k) s → family DDIR_RWDIR_CNT histogram (in_plat J k) d →
  ∃ d', for_opt DDIR_RWDIR_CNT (sum_plat mixed s) d = Some d' ∧ family DDIR_RWDIR_CNT histogram (in_plat (add_samples mixed J K) k) d'.
Proof using Hlat Hfew.
  intros Hs Hd. apply (for_opt_inv (λ n d, family DDIR_RWDIR_CNT histogram (merged mixed (in_plat J k) (in_plat K k) n) d)); [done|].
  intros n d' Hn Hd'. apply family_into; [|intros e; apply Hlat|intros e; apply Hfew|done..].
  intros p q us vs Hp Hq _ Hf. by apply plat_add_ok.
Qed.
Lemma sum_kinds kinds : kinds_of (in_plat J) kinds →
  ∃ kinds', for_opt FIO_LAT_CNT (λ k plats, s ← io_u_plat src !! k; at_ddir_opt k (for_opt DDIR_RWDIR_CNT (sum_plat mixed s)) plats) kinds =
    Some kinds' ∧ kinds_of (in_plat (add_samples mixed J K)) kinds'.
Proof using HK Hlat Hfew.
  intros Hk. pose proof HK as (_ & _ & _ & _ & [Kl Kp] & _).
  destruct (for_opt_inv (λ n ks, kinds_of (λ k, if decide (k < n)%nat then in_plat (add_samples mixed J K) k else in_plat J k) ks)
    FIO_LAT_CNT (λ k plats, s ← io_u_plat src !! k; at_ddir_opt k (for_opt DDIR_RWDIR_CNT (sum_plat mixed s)) plats) kinds)
    as (kinds' & E & Hl & Hk'); [done| |].
  2: { exists kinds'. split; [exact E|]. split; [done|]. intros k plats Hp.
    specialize (Hk' k plats Hp). apply lookup_lt_Some in Hp. by rewrite decide_True in Hk' by lia. }
  { intros k ks Hlt [Hl Hks]. destruct (lookup_lt_is_Some_2 (io_u_plat src) k) as [s Hs]; [lia|].
    destruct (lookup_lt_is_Some_2 ks k) as [d Hd]; [lia|]. rewrite Hs. unfold at_ddir_opt. cbn [mbind option_bind]. rewrite Hd. cbn [mbind option_bind].
    assert (Hfd := Hks k d Hd). rewrite decide_False in Hfd by lia. destruct (sum_kind_step k s d) as (d' & -> & Hd'); [by apply Kp|done|].
    eexists. split; [reflexivity|]. split; [by rewrite length_insert|]. intros j e He. destruct (decide (j = k)) as [->|].
    + rewrite list_lookup_insert_eq in He by lia. injection He as <-. by rewrite decide_True by lia.
    + rewrite list_lookup_insert_ne in He by done. specialize (Hks j e He). by repeat case_decide; try lia. }
Qed.
End Jobs.

Definition add_sync (J K : job_samples) : job_samples := JobSamples (of_lat J) (in_plat J) (of_sync J ++ of_sync K) (in_sync J).

(** C35. The statistics of a group are those of all the samples of its jobs: when [dst]
    counts the samples [J] and [src] the samples [K], [sum_thread_stats] succeeds and
    [dst] then counts those of both, all in the first direction when reads, writes and
    trims are reported as one, each in its own otherwise: ranges, numbers of samples and
    every bucket of the histograms, from which the percentiles are computed.  Memory for
    the priorities may run out. *)
Theorem sum_thread_stats_counts pow room J K dst src (mixed := unified_rw_rep dst =? UNIFIED_MIXED) :
  counts J dst → counts K src → each_kind K (Forall is_latency) → each_kind (add_samples mixed J K) (λ xs, few xs) →
  ∃ dst', sum_thread_stats pow room src dst = Some dst' ∧ counts (add_samples mixed J K) dst' ∧ unified_rw_rep dst' = unified_rw_rep dst.
Proof.
  intros HJ HK Hlat Hfew. set (rep := unified_rw_rep dst). unfold sum_thread_stats.
  destruct (for_opt_inv (partial J K rep) DDIR_RWDIR_CNT (λ l, sum_ddir pow (room l) src l) dst) as (d1 & E1 & H1); [done| |].
  { intros n d Hn Hp. by apply sum_ddir_step. }
  rewrite E1. cbn [mbind option_bind].
  match goal with |- context [for_opt _ (sum_io_u src) ?d] => set (d1' := d) end.
  assert (H1' : partial (add_sync J K) K rep DDIR_RWDIR_CNT d1').
  { destruct H1 as (Hm & Hs & Hc & Hl & Hsync & Hp & Hps & Hsh). split; [exact Hm|].
    pose proof HK as (_ & _ & _ & Ksync & _). assert (Hss := sum_stat_ok pow _ _ _ _ Hsync Ksync (proj1 (proj2 Hlat)) (proj1 (proj2 Hfew))).
    repeat (split; [assumption|]). done. }
  destruct (for_opt_inv (λ _, partial (add_sync J K) K rep DDIR_RWDIR_CNT) DDIR_RWDIR_CNT (sum_io_u src) d1') as (d2 & E2 & H2); [done| |].
  { intros n d Hn Hp. by apply (sum_io_u_step (add_sync J K) K). }
  rewrite E2. cbn [mbind option_bind]. destruct H2 as (Hm & Hs & Hc & Hl & Hsync & Hp & Hps & Hsh).
  destruct Hsh as (Hbw & Hio & Hby & Hrt & Htot & Hrest). pose proof HK as (_ & _ & _ & _ & _ & Kps & _ & _ & _ & _ & Ktot & _).
  destruct (into_shape DDIR_SYNC DDIR_SYNC _ add64 _ _ Ktot Htot) as (x & Ex & Hx); [unfold DDIR_SYNC, DDIR_RWDIR_SYNC_CNT; lia..|].
  rewrite Ex. cbn [mbind option_bind]. rewrite Hm.
  destruct (sum_kinds J K src rep HK Hlat Hfew (io_u_plat d2) Hp) as (kinds & -> & Hkinds).
  ts_fields. eexists. split; [reflexivity|]. split; [|exact Hm].
  split; [exact Hs|]. split; [exact Hc|]. split; [exact Hl|]. split; [exact Hsync|]. split; [exact Hkinds|].
  split; [apply plat_add_ok; [done|done|apply Hfew]|]. repeat (split; [assumption|]). exact Hrest.
Qed.

(** A job with one completion latency. *)
Definition one_latency : thread_stat := init_thread_stat <| clat_stat := [add_stat_sample 100 reset_io_stat; reset_io_stat; reset_io_stat] |>.
Definition one_sample : job_samples := JobSamples (λ k d, if decide (k = FIO_CLAT ∧ d = 0%nat) then [100] else []) (λ _ _, []) [] [].
Lemma one_latency_counts : counts one_sample one_latency.
Proof.
  destruct init_counts as (H1 & _ & H3 & H4). split; [|split; [|split; [|exact H4]]].
  - exact H1.
  - split; [done|]. intros [|[|[|d]]] a [= <-]; [|done..]. by apply (add_stat_sample_ok [] 100).
  - exact H3.
Qed.
Lemma sum_thread_stats_counts_witness : ∃ dst',
  sum_thread_stats (λ x _, x) (λ _ _, true) one_latency init_thread_stat = Some dst' ∧ counts (add_samples false no_samples one_sample) dst'.
Proof.
  destruct (sum_thread_stats_counts (λ x _, x) (λ _ _, true) no_samples one_sample init_thread_stat one_latency init_counts one_latency_counts)
    as (dst' & E & Hc & _); [| |exists dst'; split; [exact E|exact Hc]].
  - split; [|done]. intros k d. split; [|done]. cbn. case_decide; by repeat constructor.
  - change (each_kind (add_samples false no_samples one_sample) (λ xs, few xs)). split; [|done]. intros k d.
    unfold add_samples. cbn [of_lat in_plat]. rewrite !merged_own. split; [|by destruct (decide _)]. cbn. repeat case_decide; done.
Defined.

(** ** Starting again *)
(** Starting the statistics again forgets the samples, but not those of synchronising:
    after [reset_io_stats] (at the end of the ramp time, say) the statistics count no
    latency, the histograms are empty, but [sync_stat] still counts all the
    synchronisations before, while their histogram is empty. *)
Theorem reset_keeps_sync J t : counts J t → counts (JobSamples (λ _ _, []) (λ _ _, []) (of_sync J) []) (reset_io_stats t).
Proof.
  intros (_ & _ & _ & Hsync & _ & _ & Hsh). destruct Hsh as (_ & _ & _ & _ & _ & _ & _ & Hcl & Hcn).
  assert (Hs : stats_of (λ _, []) (replicate DDIR_RWDIR_CNT reset_io_stat)) by (split; [done|]; intros d a Ha; apply lookup_replicate in Ha as [-> _]; done).
  do 3 (split; [exact Hs|]). split; [exact Hsync|]. split; [|split; [apply histogram_nil|]].
  - split; [done|]. intros k plats Hk. change (io_u_plat (reset_io_stats t)) with (replicate FIO_LAT_CNT (replicate DDIR_RWDIR_CNT reset_io_u_plat)) in Hk.
    apply lookup_replicate in Hk as [-> _]. split; [done|]. intros d plat Hd. apply lookup_replicate in Hd as [-> _]. apply histogram_nil.
  - do 7 (split; [done|]). change (clat_prio (reset_io_stats t)) with (reset_clat_prio <$> clat_prio t).
    split; [by rewrite length_fmap|]. apply Forall_fmap. eapply Forall_impl; [exact Hcn|]. intros [es|] Ha; [|done]. cbn.
    intros [= H%fmap_nil_inv]. by rewrite H in Ha.
Qed.
Lemma reset_keeps_sync_witness : counts one_sample one_latency ∧ counts (JobSamples (λ _ _, []) (λ _ _, []) [] []) (reset_io_stats one_latency).
Proof. split; [exact one_latency_counts|]. apply (reset_keeps_sync one_sample one_latency one_latency_counts). Defined.

(** ** Priorities *)
(** The table counts the samples [f p] of every priority [p]. *)
Definition prio_of (f : Z → list Z) (a : prio_array) : Prop :=
  let es := default [] a in NoDup (prio_ioprio <$> es) ∧
  (∀ e, e ∈ es → stat_of (f (prio_ioprio e)) (prio_stat e) ∧ histogram (f (prio_ioprio e)) (prio_plat e)) ∧
  ∀ p, f p ≠ [] → p ∈ (prio_ioprio <$> es).
Definition extend (f : Z → list Z) (p : Z) (xs : list Z) (q : Z) : list Z := if decide (q = p) then f q ++ xs else f q.

Lemma prio_of_alter f p xs g i e es : prio_of f (Some es) → es !! i = Some e → prio_ioprio e = p → prio_ioprio (g e) = p →
  stat_of (f p ++ xs) (prio_stat (g e)) → histogram (f p ++ xs) (prio_plat (g e)) → prio_of (extend f p xs) (Some (alter g i es)).
Proof.
  intros (Hnd & He & Hp) Hi Hpe Hpg Hs Hh. cbn [from_option id] in *.
  assert (Hfm : prio_ioprio <$> alter g i es = prio_ioprio <$> es).
  { apply list_eq. intros j. rewrite !list_lookup_fmap, list_lookup_alter. case_decide; [subst i|done]. rewrite Hi. cbn. congruence. }
  split; [|split]; cbn [from_option id].
  - by rewrite Hfm.
  - intros e' [j Hj]%list_elem_of_lookup. rewrite list_lookup_alter in Hj. case_decide as Eij.
    + subst j. rewrite Hi in Hj. injection Hj as <-. rewrite Hpg. unfold extend. by rewrite decide_True.
    + assert (prio_ioprio e' ≠ p) as Hne.
      { intros E. apply Eij. apply (NoDup_lookup _ i j p Hnd); rewrite list_lookup_fmap; [by rewrite Hi; cbn; f_equal|by rewrite Hj; cbn; f_equal]. }
      unfold extend. rewrite decide_False by done. apply He. by apply list_elem_of_lookup_2 in Hj.
  - intros q Hq. rewrite Hfm. unfold extend in Hq. case_decide; [subst q|by apply Hp].
    rewrite <- Hpe. apply list_elem_of_fmap. exists e. split; [done|by apply list_elem_of_lookup_2 in Hi].
Qed.

Lemma prio_of_fresh f p es : prio_of f (Some es) → p ∉ (prio_ioprio <$> es) → prio_of f (Some (es ++ [fresh_prio p])).
Proof.
  intros (Hnd & He & Hp) Hnew. cbn [from_option id] in *. assert (Hf : f p = []) by (destruct (f p) eqn:E; [done|exfalso; apply Hnew, Hp; by rewrite E]).
  split; [|split]; cbn [from_option id].
  - rewrite fmap_app. by apply NoDup_snoc.
  - intros e [Hin| ->%list_elem_of_singleton]%elem_of_app; [by apply He|]. cbn [fresh_prio prio_ioprio prio_stat prio_plat]. rewrite Hf.
    split; [done|apply histogram_nil].
  - intros q Hq. rewrite fmap_app. apply elem_of_app. left. by apply Hp.
Qed.

Lemma add_prio_samples_ok pow f p xs ios plat a : prio_of f a → stat_of xs ios → histogram xs plat → Forall is_latency xs → few (f p ++ xs) →
  ∃ a', clat_prio_stat_add_samples pow true p ios plat a = (a', false) ∧ prio_of (extend f p xs) a' ∧ (a ≠ None → a' ≠ None).
Proof.
  intros Ha Hs Hh Hxs Hf. unfold clat_prio_stat_add_samples. destruct (Z.eqb_spec (samples ios) 0) as [E|].
  { exists a. split; [done|]. assert (xs = []) as -> by (destruct Hs as (_ & _ & Hn); destruct xs; [done|cbn in Hn; lia]).
    split; [|done]. destruct Ha as (H1 & H2 & H3). assert (He : ∀ q, extend f p [] q = f q) by (intros q; unfold extend; case_decide; [apply app_nil_r|done]).
    split; [done|]. split; [intros e Hin; rewrite He; by apply H2|intros q; rewrite He; apply H3]. }
  assert (Ha' : prio_of f (Some (default [] a))) by by destruct a.
  assert (∃ es i e, alloc_or_get_clat_prio_index true (default [] a) p = Some (es, i) ∧ prio_of f (Some es) ∧ es !! i = Some e ∧ prio_ioprio e = p)
    as (es & i & e & -> & Hes & Hi & Hpe).
  { unfold alloc_or_get_clat_prio_index. destruct (find_clat_prio_index (default [] a) p) as [i|] eqn:E.
    - unfold find_clat_prio_index in E. apply fmap_Some in E as ([j e] & (Hj & He & _)%list_find_Some & ->). by exists (default [] a), j, e.
    - eexists _, _, (fresh_prio p). split; [reflexivity|]. split; [|split; [by rewrite lookup_app_r, Nat.sub_diag by lia|done]].
      apply prio_of_fresh; [done|]. intros (e & -> & He)%list_elem_of_fmap.
      unfold find_clat_prio_index in E. apply fmap_None in E. apply list_find_None in E.
      by apply (proj1 (Forall_forall _ _) E e He). }
  eexists. split; [reflexivity|]. split; [|done].
  destruct Hes as (H1 & H2 & H3). destruct (H2 e) as [Hse Hhe]; [by apply list_elem_of_lookup_2 in Hi|]. rewrite Hpe in Hse, Hhe.
  apply (prio_of_alter f p xs _ i e); [done|done|done|done| |]; cbn [prio_stat prio_plat].
  - by apply sum_stat_ok.
  - by apply plat_add_ok.
Qed.

(** The samples of the priorities of a list of entries. *)
Definition of_prios (g : Z → list Z) (es : list clat_prio_stat) (q : Z) : list Z :=
  if decide (q ∈ (prio_ioprio <$> es)) then g q else [].
Lemma prio_of_ext f f' a : (∀ q, f q = f' q) → prio_of f a → prio_of f' a.
Proof.
  intros He (H1 & H2 & H3). split; [done|]. split; [intros e Hin; rewrite <- He; by apply H2|intros q; rewrite <- He; apply H3].
Qed.
Lemma add_prio_entries_ok pow f g i es a : prio_of f a → NoDup (prio_ioprio <$> es) →
  Forall (λ e, let p := prio_ioprio e in Forall is_latency (g p) ∧ few (f p ++ g p) ∧ stat_of (g p) (prio_stat e) ∧ histogram (g p) (prio_plat e)) es →
  ∃ a', add_prio_entries pow (λ _, true) i es a = (a', false) ∧ prio_of (λ q, f q ++ of_prios g es q) a'.
Proof.
  revert f i a. induction es as [|e es IH]; intros f i a Ha Hnd He; cbn [add_prio_entries].
  { exists a. split; [done|]. revert Ha. apply prio_of_ext. intros q. unfold of_prios. cbn. by rewrite app_nil_r. }
  rewrite fmap_cons in Hnd. apply NoDup_cons in Hnd as [Hnew Hnd]. apply Forall_cons in He as [(Hl & Hf & Hs & Hh) He].
  destruct (add_prio_samples_ok pow f (prio_ioprio e) (g (prio_ioprio e)) (prio_stat e) (prio_plat e) a Ha Hs Hh Hl Hf) as (a1 & -> & H1 & _).
  set (f1 := extend f (prio_ioprio e) (g (prio_ioprio e))). fold f1 in H1.
  assert (Hf1 : ∀ q, q ∈ (prio_ioprio <$> es) → f1 q = f q) by (intros q Hq; unfold f1, extend; rewrite decide_False by congruence; done).
  destruct (IH f1 (S i) a1 H1 Hnd) as (a' & -> & Ha').
  { apply Forall_forall. intros e' Hin. rewrite Forall_forall in He. cbn zeta. rewrite Hf1 by (apply list_elem_of_fmap; eauto). by apply He. }
  exists a'. split; [done|]. revert Ha'. apply prio_of_ext. intros q. unfold of_prios, f1, extend.
  rewrite fmap_cons. destruct (decide (q = prio_ioprio e)) as [->|Hq].
  - rewrite (decide_False (P := prio_ioprio e ∈ prio_ioprio <$> es)) by done. rewrite decide_True by by left. by rewrite app_nil_r.
  - assert (Hiff : q ∈ prio_ioprio e :: (prio_ioprio <$> es) ↔ q ∈ prio_ioprio <$> es) by (rewrite elem_of_cons; naive_solver).
    f_equal. by apply decide_ext.
Qed.

(** The samples of the priorities of a job in one direction. *)
Definition job_prios (g : Z → list Z) (src : thread_stat) (l : nat) : Prop :=
  match clat_prio src !! l with
  | Some (Some es) => es ≠ [] ∧ prio_of g (Some es)
  | Some None => ∃ plats plat ios, io_u_plat src !! (if lat_percentiles src then FIO_LAT else FIO_CLAT) = Some plats ∧
      plats !! l = Some plat ∧ (if lat_percentiles src then lat_stat src else clat_stat src) !! l = Some ios ∧
      stat_of (g (ioprio src)) ios ∧ histogram (g (ioprio src)) plat ∧ ∀ q, q ≠ ioprio src → g q = []
  | None => False
  end.

(** C37. The table of priorities of a group counts the samples of every priority: when it
    is kept, the direction [t] of the group counts the samples [f p] of each priority [p]
    and direction [l] of the job counts [g p] (with a table of its own, or all under its
    only priority), and there is memory, [sum_clat_prio_stats] succeeds and the table
    then counts both, each priority once. *)
Theorem sum_clat_prio_stats_counts pow src t l dst a f g :
  disable_prio_stat dst = false → clat_prio dst !! t = Some a → prio_of f a → job_prios g src l →
  (∀ p, Forall is_latency (g p) ∧ few (f p ++ g p)) →
  ∃ dst' a', sum_clat_prio_stats pow (λ _, true) src t l dst = Some dst' ∧ clat_prio dst' = <[t := a']> (clat_prio dst) ∧
    prio_of (λ p, f p ++ g p) a'.
Proof.
  intros Hd Ha Hf Hg Hl. unfold sum_clat_prio_stats. rewrite Hd, Ha. cbn [mbind option_bind]. unfold job_prios in Hg.
  destruct (clat_prio src !! l) as [[es|]|]; [| |done]; cbn [mbind option_bind].
  - destruct Hg as [Hne Hg]. unfold sum_clat_prio_stats_src_multi_prio. rewrite option_guard_True by done. cbn [mbind option_bind].
    destruct a as [es0|].
    + pose proof Hg as (Hnd & He & Hp). destruct (add_prio_entries_ok pow f g 0 es (Some es0) Hf Hnd) as (a' & -> & Ha').
      { apply Forall_forall. intros e Hin. destruct (Hl (prio_ioprio e)), (He e Hin). done. }
      ts_fields. eexists _, a'. split; [reflexivity|]. split; [done|]. revert Ha'. apply prio_of_ext. intros q. unfold of_prios.
      case_decide as Hq; [done|]. f_equal. destruct (g q) eqn:E; [done|]. exfalso. apply Hq, Hp. by rewrite E.
    + ts_fields. eexists _, (Some es). split; [reflexivity|]. split; [done|]. revert Hg. apply prio_of_ext. intros q.
      destruct Hf as (_ & _ & Hf). destruct (f q) eqn:E; [done|]. exfalso. assert (Hq : f q ≠ []) by (by rewrite E).
      by apply Hf, not_elem_of_nil in Hq.
  - destruct Hg as (plats & plat & ios & E1 & E2 & E3 & Hs & Hh & Hq). unfold sum_clat_prio_stats_src_single_prio.
    rewrite E1. cbn [mbind option_bind]. rewrite E2. cbn [mbind option_bind]. rewrite E3. cbn [mbind option_bind].
    destruct (Hl (ioprio src)) as [Hlat Hfew]. destruct (add_prio_samples_ok pow f _ _ _ _ a Hf Hs Hh Hlat Hfew) as (a' & -> & Ha' & _).
    ts_fields. eexists _, a'. split; [reflexivity|]. split; [done|]. revert Ha'. apply prio_of_ext. intros q. unfold extend.
    case_decide as E; [by subst q|]. by rewrite Hq, app_nil_r.
Qed.
Lemma sum_clat_prio_stats_counts_witness : let src := init_thread_stat <| clat_prio := [Some [fresh_prio 5]; None; None] |> in
  ∃ dst' a', sum_clat_prio_stats (λ x _, x) (λ _, true) src 0 0 init_thread_stat = Some dst' ∧ clat_prio dst' = <[0%nat := a']> (clat_prio init_thread_stat) ∧
    prio_of (λ _, []) a'.
Proof.
  intros src. assert (He : prio_of (λ _, []) None) by (split; [constructor|]; split; [intros e []%not_elem_of_nil|done]).
  destruct (sum_clat_prio_stats_counts (λ x _, x) src 0 0 init_thread_stat None (λ _, []) (λ _, []) eq_refl eq_refl He) as (dst' & a' & E & Hd & Ha).
  - split; [done|]. apply (prio_of_fresh _ 5 []); [done|]. apply not_elem_of_nil.
  - done.
  - by exists dst', a'.
Defined.
