(* ===== verification/IoLog.v ===== *)
(** * Logs of samples (src/fio4emu/stat.c, iolog.c, iolog.h)

    A log keeps its samples in chunks that double in size; when the last chunk is full
    and the job must not allocate in its I/O path, samples wait in [pending] until
    [regrow_log] makes a new chunk.  With an averaging window, a window makes one sample.
    A chunk is the list of its samples and its capacity; writing beyond that has no
    result, nor has a NULL pointer followed or a failed [assert].  The state holds the
    log, the flag of its job that asks for a larger log, the answers of the allocator to
    come (no memory when there is none left), and the samples handed to the compression
    threads. *)
From Stdlib Require Import SpecFloat.
From S2P Require Import Prelude CInt Latency Stat.
#[local] Open Scope Z_scope.

(** ** Data *)
Inductive sample_data := sample_val (val : Z) | sample_plat (plat_entry : list Z).
Record io_sample := IoSample { time : Z; data : sample_data; __ddir : Z; priority : Z; bs : Z; offset : option Z }.
Record chunk := Chunk { log : list io_sample; max_samples : Z }.
Definition nr_samples (c : chunk) : Z := Z.of_nat (length (log c)).
(** The members of the job the log belongs to. *)
Record log_job := LogJob { log_entries : Z; io_submit_offload : bool; alternate_epoch : Z; log_max : bool; iodepth : Z }.
Record io_log := IoLogs {
  io_logs : list chunk; cur_log_max : Z; pending : option chunk; log_ddir_mask : Z; td : option log_job; log_type : Z;
  disabled : bool; log_offset : bool; log_gz : Z; log_gz_store : Z;
  avg_window : list io_stat; avg_msec : Z; avg_last : list Z }.
#[export] Instance eta_io_log : Settable io_log := λ r,
  IoLogs (io_logs r) (cur_log_max r) (pending r) (log_ddir_mask r) (td r) (log_type r) (disabled r) (log_offset r) (log_gz r)
    (log_gz_store r) (avg_window r) (avg_msec r) (avg_last r).
Record log_world := LogWorld { iolog : io_log; regrow_flag : bool; memory : list bool; compress_wq : list (list io_sample) }.
#[export] Instance eta_log_world : Settable log_world := λ r, LogWorld (iolog r) (regrow_flag r) (memory r) (compress_wq r).
Abbreviation L := (M log_world).
Definition on_log (f : io_log → io_log) : L unit := modify (λ w, w <| iolog := f (iolog w) |>).

Definition IO_LOG_TYPE_LAT : Z := 1.
Definition IO_LOG_TYPE_CLAT : Z := 2.
Definition IO_LOG_TYPE_SLAT : Z := 3.
Definition DEF_LOG_ENTRIES : Z := 1024.
Definition MAX_LOG_ENTRIES : Z := 1024 * DEF_LOG_ENTRIES.
Definition LOG_OFFSET_SAMPLE_BIT : Z := 0x80000000.
Definition LOG_PRIO_SAMPLE_BIT : Z := 0x40000000.
Definition LOG_MSEC_SLACK : Z := 1.

Definition per_unit_log (l : io_log) : bool := (avg_msec l =? 0) || negb (log_gz l =? 0) || negb (log_gz_store l =? 0).
Definition inline_log (l : io_log) : bool :=
  (log_type l =? IO_LOG_TYPE_LAT) || (log_type l =? IO_LOG_TYPE_CLAT) || (log_type l =? IO_LOG_TYPE_SLAT).
Definition iolog_cur_log (l : io_log) : option chunk := last (io_logs l).
Definition iolog_nr_samples (l : io_log) : Z := foldl (λ ret c, u64 (ret + nr_samples c)) 0 (io_logs l).

(** [roundup_pow2] of a depth, of which there are at most 2^31. *)
Definition roundup_pow2 (depth : Z) : Z := 2 ^ Z.log2_up depth.
Definition setup_log (job : option log_job) (type avg gz gz_store : Z) (off prio : bool) : io_log :=
  let pending := match job with
                 | Some j => if io_submit_offload j then None
                             else Some (Chunk [] (if DEF_LOG_ENTRIES <? iodepth j then roundup_pow2 (iodepth j) else DEF_LOG_ENTRIES))
                 | None => None
                 end in
  let mask := if off then LOG_OFFSET_SAMPLE_BIT else 0 in
  let mask := if prio then Z.lor mask LOG_PRIO_SAMPLE_BIT else mask in
  IoLogs [] 0 pending mask job type false off (match job with Some _ => gz | None => 0 end) gz_store
    (replicate DDIR_RWDIR_CNT zero_stat) avg (zeros DDIR_RWDIR_CNT).

(** ** Chunks *)
(** The allocator's next answer. *)
Definition allocate : L bool := λ w,
  match memory w with
  | [] => Some (false, w)
  | ok :: rest => Some (ok, w <| memory := rest |>)
  end.
(** Whether there is a new, empty last chunk. *)
Definition get_new_log : L bool :=
  l ← gets iolog;
  new_samples ← (if cur_log_max l =? 0 then match td l with Some j => mret (log_entries j) | None => undef end
                 else mret (Z.min (u32 (cur_log_max l * 2)) MAX_LOG_ENTRIES));
  ok ← allocate;
  if ok : bool then
    on_log (λ l, l <| io_logs := io_logs l ++ [Chunk [] new_samples] |> <| cur_log_max := u32 new_samples |>) ≫= λ _, mret true
  else mret false.

(** The last chunk goes to the compression threads and stays behind empty, without room. *)
Definition set_last (c : chunk) (l : io_log) : io_log := l <| io_logs := take (length (io_logs l) - 1) (io_logs l) ++ [c] |>.
Definition iolog_cur_flush (cur : chunk) : L bool :=
  ok ← allocate;
  if ok : bool then
    modify (λ w, w <| iolog := set_last (Chunk [] 0) (iolog w) |> <| compress_wq := compress_wq w ++ [log cur] |>) ≫= λ _, mret true
  else mret false.

(** The samples that wait go to the new chunk; there is no check that they fit. *)
Definition flush_pending : L unit :=
  l ← gets iolog;
  match pending l, iolog_cur_log l with
  | Some p, Some cur =>
      if nr_samples p =? 0 then skip
      else if nr_samples p <=? max_samples cur then
        on_log (λ l, set_last (Chunk (log p) (max_samples cur)) l <| pending := Some (Chunk [] (max_samples p)) |>)
      else undef
  | _, _ => skip
  end.
(** Whether the last chunk can be used. *)
Definition regrow_log : L bool :=
  l ← gets iolog;
  if disabled l then on_log (λ l, l <| disabled := true |>) ≫= λ _, mret false else
  have ← match iolog_cur_log l with Some _ => mret true | None => get_new_log end;
  if negb have then mret false else
  cur ← try_get (λ w, iolog_cur_log (iolog w));
  if nr_samples cur <? max_samples cur then mret true else
  flushed ← (if log_gz l =? 0 then mret true else iolog_cur_flush cur);
  if negb flushed then mret false else
  have ← get_new_log;
  if have : bool then flush_pending ≫= λ _, mret true else mret false.

(** Where the next sample goes. *)
Inductive place := in_current | in_pending | nowhere.
Definition get_cur_log : L place :=
  l ← gets iolog;
  have ← match iolog_cur_log l with Some _ => mret true | None => get_new_log end;
  if negb have then mret nowhere else
  cur ← try_get (λ w, iolog_cur_log (iolog w));
  if nr_samples cur <? max_samples cur then mret in_current else
  if (match td l with Some j => io_submit_offload j | None => false end) || negb (per_unit_log l) then
    ok ← regrow_log; mret (if ok : bool then in_current else nowhere)
  else
    (match td l with Some _ => modify (λ w, w <| regrow_flag := true |>) | None => skip end) ≫= λ _,
    match pending l with
    | Some p => if nr_samples p <? max_samples p then mret in_pending else undef
    | None => mret nowhere
    end.

Definition push (s : io_sample) (c : chunk) : option chunk :=
  if nr_samples c <? max_samples c then Some (Chunk (log c ++ [s]) (max_samples c)) else None.
Definition __add_log_sample (d : sample_data) (ddir : nat) (b t off prio : Z) : L unit :=
  l ← gets iolog;
  if disabled l then skip else
  (match io_logs l with
   | [] => try_mod (λ w, last ← at_ddir ddir (λ _, t) (avg_last (iolog w)); Some (w <| iolog := (iolog w) <| avg_last := last |> |>))
   | _ => skip
   end) ≫= λ _,
  where_ ← get_cur_log;
  let s := IoSample (u64 (t + match td l with Some j => alternate_epoch j | None => 0 end)) d
             (Z.lor (Z.of_nat ddir) (log_ddir_mask l)) (u16 prio) b (if log_offset l then Some off else None) in
  match where_ with
  | in_current => try_mod (λ w, c ← iolog_cur_log (iolog w); c ← push s c; Some (w <| iolog := set_last c (iolog w) |>))
  | in_pending => try_mod (λ w, c ← pending (iolog w); c ← push s c; Some (w <| iolog := (iolog w) <| pending := Some c |> |>))
  | nowhere => on_log (λ l, l <| disabled := true |>)
  end.

(** ** Averages *)
Definition __add_stat_to_log (ddir : nat) (elapsed : Z) (want_max : bool) : L unit :=
  win ← try_get (λ w, avg_window (iolog w) !! ddir);
  (if samples win =? 0 then skip else
   val ← try_get (λ _, if want_max : bool then Some (max_val win) else dbl_to_u64 (fadd (mean win) (fdiv (dbl_of 1) (dbl_of 2))));
   __add_log_sample (sample_val val) ddir 0 elapsed 0 0) ≫= λ _,
  try_mod (λ w, wins ← at_ddir ddir (λ _, reset_io_stat) (avg_window (iolog w)); Some (w <| iolog := (iolog w) <| avg_window := wins |> |>)).
Definition _add_stat_to_log (elapsed : Z) (want_max : bool) : L unit :=
  for_M DDIR_RWDIR_CNT 0 (λ ddir, __add_stat_to_log ddir elapsed want_max).

(** [elapsed] is the time since the job began; the result is the time to the end of the window. *)
Definition add_log_sample (want_max : bool) (elapsed val : Z) (ddir : nat) (b off prio : Z) : L Z :=
  if negb (ddir_rw ddir) then mret 0 else
  l ← gets iolog;
  if avg_msec l =? 0 then __add_log_sample (sample_val val) ddir b elapsed off prio ≫= λ _, mret 0 else
  try_mod (λ w, wins ← at_ddir ddir (add_stat_sample val) (avg_window (iolog w)); Some (w <| iolog := (iolog w) <| avg_window := wins |> |>)) ≫= λ _,
  last ← try_get (λ w, avg_last (iolog w) !! ddir);
  let this_window := u64 (elapsed - last) in
  let diff := u64 (avg_msec l - this_window) in
  if elapsed <? last then mret (u64 (last - elapsed))
  else if (this_window <? avg_msec l) && (inline_log l || (LOG_MSEC_SLACK <? diff)) then mret diff
  else
    __add_stat_to_log ddir elapsed want_max ≫= λ _,
    try_mod (λ w, lasts ← at_ddir ddir (λ _, u64 (elapsed - elapsed mod avg_msec l)) (avg_last (iolog w));
                  Some (w <| iolog := (iolog w) <| avg_last := lasts |> |>)) ≫= λ _,
    mret (avg_msec l).
