(* ===== verification/IoLogSpec.v ===== *)
(** * Logs keep their samples, in order (src/fio4emu/stat.c)

    The samples of a log are those handed to compression, those of its chunks and those
    that wait, in this order.  While the samples that may wait fit into a new chunk,
    every operation is defined and a sample is either appended or the log is disabled;
    otherwise [regrow_log] writes beyond the new chunk.  A log without a job follows a
    NULL pointer at its first sample. *)
From Stdlib Require Import SpecFloat.
From S2P Require Import Prelude CInt Latency LatencySpec Stat StatSpec IoLog.
#[local] Open Scope Z_scope.

Definition logged (w : log_world) : list io_sample :=
  concat (compress_wq w) ++ concat (log <$> io_logs (iolog w)) ++ match pending (iolog w) with Some p => log p | None => [] end.

(** All chunks but the last. *)
Definition front (l : io_log) : list chunk := take (length (io_logs l) - 1) (io_logs l).
Lemma last_split l c : iolog_cur_log l = Some c → io_logs l = front l ++ [c].
Proof.
  unfold iolog_cur_log, front. intros H. rewrite last_lookup in H. rewrite <- (take_drop (pred (length (io_logs l))) (io_logs l)) at 1.
  rewrite <- Nat.sub_1_r in *. f_equal. apply list_eq. intros [|i]; rewrite lookup_drop; [by rewrite Nat.add_0_r|].
  apply lookup_ge_None. apply lookup_lt_Some in H. lia.
Qed.
Lemma set_last_logs c l : io_logs (set_last c l) = front l ++ [c].
Proof. done. Qed.

Lemma split_last l cs c : io_logs l = cs ++ [c] → iolog_cur_log l = Some c ∧ front l = cs.
Proof.
  intros E. unfold iolog_cur_log, front. rewrite E, last_snoc, length_app. split; [done|]. cbn [length].
  by rewrite take_app_length' by lia.
Qed.

(** ** What is kept of a log *)
Definition immediate (l : io_log) : bool := (match td l with Some j => io_submit_offload j | None => false end) || negb (per_unit_log l).
Definition full (c : chunk) : Prop := max_samples c ≤ nr_samples c.
Record wf (l : io_log) (j : log_job) : Prop := {
  wf_td : td l = Some j;
  wf_entries : 1 ≤ log_entries j ≤ MAX_LOG_ENTRIES;
  wf_room : Forall (λ c, nr_samples c ≤ max_samples c) (io_logs l);
  wf_first : io_logs l = [] ↔ cur_log_max l = 0;
  wf_size : cur_log_max l ≠ 0 → log_entries j ≤ cur_log_max l ≤ MAX_LOG_ENTRIES;
  wf_gz : log_gz l ≠ 0 → Forall (λ c, log c = []) (front l);
  wf_pending : ∀ p, pending l = Some p → nr_samples p ≤ max_samples p ∧
    1 ≤ max_samples p ≤ Z.min (2 * log_entries j) MAX_LOG_ENTRIES ∧
    (log p ≠ [] → immediate l = false ∧ ∃ c, iolog_cur_log l = Some c ∧ full c);
  wf_inline : io_submit_offload j = false → is_Some (pending l) }.

(** The members that only the setup of a log and its windows change. *)
Definition settings (l : io_log) := (log_ddir_mask l, td l, log_type l, log_offset l, (log_gz l, log_gz_store l, avg_window l, avg_msec l)).
(** The samples that wait, and how many may. *)
Definition waiting (l : io_log) : Z := match pending l with Some p => nr_samples p | None => 0 end.
Definition may_wait (l : io_log) : option Z := match pending l with Some p => Some (max_samples p) | None => None end.
(** An operation that adds no sample. *)
Definition moved (w w' : log_world) : Prop :=
  logged w' = logged w ∧ settings (iolog w') = settings (iolog w) ∧ disabled (iolog w') = disabled (iolog w) ∧ avg_last (iolog w') = avg_last (iolog w) ∧
  may_wait (iolog w') = may_wait (iolog w) ∧ waiting (iolog w') ≤ waiting (iolog w).
Lemma moved_refl w : moved w w.
Proof. by repeat split. Qed.
Lemma moved_trans w1 w2 w3 : moved w1 w2 → moved w2 w3 → moved w1 w3.
Proof. intros (? & ? & ? & ? & ? & ?) (? & ? & ? & ? & ? & ?). repeat split; congruence || lia. Qed.

(** The allocator has memory for the next [n] requests. *)
Definition granted (n : nat) (w : log_world) : Prop := take n (memory w) = replicate n true.
Lemma granted_less n m w : (n ≤ m)%nat → granted m w → granted n w.
Proof.
  unfold granted. intros Hle E. replace (take n (memory w)) with (take n (take m (memory w))) by (rewrite take_take; f_equal; lia).
  rewrite E, take_replicate. f_equal. lia.
Qed.
Lemma granted_one n w : granted (S n) w → ∃ m, memory w = true :: m ∧ take n m = replicate n true.
Proof. unfold granted. destruct (memory w) as [|b m]; [done|]. cbn [take replicate]. intros [= -> E]. by exists m. Qed.

Lemma nr_nil c : nr_samples c = 0 ↔ log c = [].
Proof. unfold nr_samples. destruct (log c); cbn; split; try done; lia. Qed.

(** ** A new chunk *)
Definition new_chunk (n : Z) (l : io_log) : io_log := l <| io_logs := io_logs l ++ [Chunk [] n] |> <| cur_log_max := n |>.
Lemma get_new_log_ok w j : wf (iolog w) j → ∃ ok m n, get_new_log w =
    Some (ok, if ok : bool then w <| iolog := new_chunk n (iolog w) |> <| memory := m |> else w <| memory := m |>) ∧
  log_entries j ≤ n ≤ MAX_LOG_ENTRIES ∧ (cur_log_max (iolog w) ≠ 0 → Z.min (2 * log_entries j) MAX_LOG_ENTRIES ≤ n) ∧
  ∀ g, granted (S g) w → ok = true ∧ take g m = replicate g true.
Proof.
  intros Hw. destruct Hw as [Htd He _ Hf Hs _ _ _]. set (l := iolog w) in *.
  assert (∃ n, (if cur_log_max l =? 0 then match td l with Some j => mret (log_entries j) | None => undef end
                else mret (Z.min (u32 (cur_log_max l * 2)) MAX_LOG_ENTRIES)) w = Some (n, w) ∧ log_entries j ≤ n ≤ MAX_LOG_ENTRIES ∧
    (cur_log_max l ≠ 0 → Z.min (2 * log_entries j) MAX_LOG_ENTRIES ≤ n)) as (n & En & Hn & Hn2).
  { destruct (Z.eqb_spec (cur_log_max l) 0) as [E|E].
    - rewrite Htd. exists (log_entries j). split; [done|]. split; [lia|done].
    - specialize (Hs E). eexists. split; [reflexivity|]. unfold MAX_LOG_ENTRIES, DEF_LOG_ENTRIES in *.
      rewrite u32_small by lia. lia. }
  unfold get_new_log. erewrite bind_run by reflexivity. fold l. rewrite (bind_run _ _ _ _ _ En).
  unfold allocate. destruct (memory w) as [|[] m] eqn:Em.
  - exists false, [], n. split; [|do 2 (split; [done|]); intros g (? & E & _)%granted_one; congruence].
    erewrite bind_run by (rewrite Em; reflexivity). destruct w; cbn in *; by subst.
  - exists true, m, n. split; [|do 2 (split; [done|]); intros g (? & E & ?)%granted_one; split; congruence].
    erewrite bind_run by (rewrite Em; reflexivity). cbn. rewrite (u32_small n) by (unfold MAX_LOG_ENTRIES, DEF_LOG_ENTRIES in *; lia). done.
  - exists false, m, n. split; [|do 2 (split; [done|]); intros g (? & E & _)%granted_one; congruence].
    erewrite bind_run by (rewrite Em; reflexivity). done.
Qed.

Lemma logged_snoc w l cs c : io_logs l = cs ++ [c] → logged (w <| iolog := l |>) =
  concat (compress_wq w) ++ concat (log <$> cs) ++ log c ++ match pending l with Some p => log p | None => [] end.
Proof. intros E. unfold logged. cbn [iolog compress_wq set_field_of]. rewrite E, fmap_app, concat_app. cbn. by rewrite app_nil_r, <- app_assoc. Qed.

Lemma first_chunk_wf l j n : wf l j → io_logs l = [] → log_entries j ≤ n ≤ MAX_LOG_ENTRIES → wf (new_chunk n l) j.
Proof.
  intros [Htd He _ Hf Hs Hg Hp Hi] El Hn. assert (El' : io_logs (new_chunk n l) = [] ++ [Chunk [] n]) by (unfold new_chunk; cbn; by rewrite El).
  destruct (split_last _ _ _ El') as [Hlast Hfront]. split; [done|done| | |cbn; lia| | |exact Hi].
  - rewrite El'. constructor; [unfold nr_samples; cbn; lia|constructor].
  - rewrite El'. cbn. split; [done|lia].
  - intros _. rewrite Hfront. constructor.
  - intros p Hpe. destruct (Hp p Hpe) as (H1 & H2 & H3). do 2 (split; [done|]). intros Hne. destruct (H3 Hne) as (_ & c & Hc & _).
    unfold iolog_cur_log in Hc. by rewrite El in Hc.
Qed.

(** What waits fits into the chunk that follows a full one. *)
Lemma flush_pending_ok w j l c n : wf l j → iolog_cur_log l = Some c → full c → (log_gz l ≠ 0 → log c = []) →
  log_entries j ≤ n ≤ MAX_LOG_ENTRIES → Z.min (2 * log_entries j) MAX_LOG_ENTRIES ≤ n → iolog w = new_chunk n l →
  ∃ w', flush_pending w = Some (tt, w') ∧ wf (iolog w') j ∧ moved w w' ∧ memory w' = memory w ∧
    (immediate l = true → ∃ c', iolog_cur_log (iolog w') = Some c' ∧ nr_samples c' < max_samples c').
Proof.
  intros [Htd He Hr Hf Hs Hg Hp Hi] Hc Hfull Hgc Hn Hn2 Hw. assert (El : io_logs (iolog w) = io_logs l ++ [Chunk [] n]) by (rewrite Hw; done).
  destruct (split_last _ _ _ El) as [Hlast Hfront].
  assert (Hgz : log_gz l ≠ 0 → Forall (λ c, log c = []) (io_logs l)).
  { intros H. rewrite (last_split _ _ Hc). apply Forall_app. split; [by apply Hg|]. constructor; [by apply Hgc|constructor]. }
  assert (Hplain : (∀ p, pending l = Some p → log p = []) → wf (iolog w) j ∧ ∃ c', iolog_cur_log (iolog w) = Some c' ∧ nr_samples c' < max_samples c').
  { intros Hno. split; [|exists (Chunk [] n); split; [done|]; unfold nr_samples; cbn; lia].
    split; [by rewrite Hw|done|rewrite El; apply Forall_app; split; [done|]; constructor; [unfold nr_samples; cbn; lia|constructor]| | | | |by rewrite Hw].
    - rewrite El, Hw. cbn. split; [by destruct (io_logs l)|lia].
    - rewrite Hw. cbn. lia.
    - rewrite Hfront, Hw. done.
    - rewrite Hw. intros p Hpe. destruct (Hp p Hpe) as (H1 & H2 & _). do 2 (split; [done|]). by rewrite (Hno p Hpe). }
  unfold flush_pending. erewrite bind_run by reflexivity. rewrite Hlast, Hw. cbn [pending new_chunk set_field_of].
  destruct (pending l) as [p|] eqn:Ep; [|].
  2: { exists w. split; [done|]. destruct Hplain as [H1 H2]; [done|]. split; [done|]. split; [apply moved_refl|]. by split. }
  destruct (Z.eqb_spec (nr_samples p) 0) as [E0|E0].
  { exists w. split; [done|]. destruct Hplain as [H1 H2]; [|split; [done|]; split; [apply moved_refl|by split]].
    intros q [= <-]. by apply nr_nil. }
  destruct (Hp p eq_refl) as (H1 & H2 & H3). destruct H3 as [Him _]; [by rewrite <- nr_nil|].
  rewrite (proj2 (Z.leb_le _ _)) by (cbn; lia). unfold on_log, modify. cbn [max_samples].
  set (l' := set_last (Chunk (log p) n) ((iolog w) <| pending := Some (Chunk [] (max_samples p)) |>)).
  assert (El' : io_logs l' = io_logs l ++ [Chunk (log p) n]).
  { unfold l'. rewrite set_last_logs. f_equal. rewrite <- Hfront. done. }
  destruct (split_last _ _ _ El') as [Hlast' Hfront'].
  exists (w <| iolog := l' |>). split; [unfold l'; by rewrite Hw|]. change (iolog (w <| iolog := l' |>)) with l'. split; [|split; [|split; [done|congruence]]].
  - split; [unfold l'; by rewrite Hw|done|rewrite El'; apply Forall_app; split; [done|]; constructor; [unfold nr_samples in *; cbn; lia|constructor]| | | | |by eexists].
    + rewrite El'. unfold l'. rewrite Hw. cbn. split; [by destruct (io_logs l)|lia].
    + unfold l'. rewrite Hw. cbn. lia.
    + rewrite Hfront'. unfold l'. by rewrite Hw.
    + intros q [= <-]. split; [unfold nr_samples; cbn; lia|]. split; [cbn; lia|]. done.
  - split; [|unfold settings, may_wait, waiting, l'; rewrite Hw; cbn [pending new_chunk set_last set_field_of]; rewrite Ep; repeat split; unfold nr_samples; cbn; lia].
    rewrite (logged_snoc _ _ _ _ El'). unfold logged. rewrite El, fmap_app, concat_app, Hw.
    cbn [log fmap list_fmap concat app pending new_chunk set_field_of]. rewrite Ep, !app_nil_r. by rewrite <- ?app_assoc.
Qed.

Lemma logged_last w c : iolog_cur_log (iolog w) = Some c → logged w =
  concat (compress_wq w) ++ concat (log <$> front (iolog w)) ++ log c ++ match pending (iolog w) with Some p => log p | None => [] end.
Proof. intros Hc. rewrite <- (logged_snoc w (iolog w) _ c (last_split _ _ Hc)). by destruct w. Qed.
Lemma concat_empty cs : Forall (λ c, log c = []) cs → concat (log <$> cs) = [].
Proof. induction 1 as [|c cs E _ IH]; [done|]. rewrite fmap_cons. cbn. by rewrite E, IH. Qed.

(** Handing the last chunk to compression. *)
Lemma cur_flush_ok w j c : wf (iolog w) j → iolog_cur_log (iolog w) = Some c → log_gz (iolog w) ≠ 0 →
  ∃ ok w', iolog_cur_flush c w = Some (ok, w') ∧ moved w w' ∧ wf (iolog w') j ∧
    (ok = true → ∃ c', iolog_cur_log (iolog w') = Some c' ∧ full c' ∧ log c' = []) ∧ cur_log_max (iolog w') = cur_log_max (iolog w) ∧
    ∀ g, granted (S g) w → ok = true ∧ granted g w'.
Proof.
  intros [Htd He Hr Hf Hs Hg Hp Hi] Hc Hgz. unfold iolog_cur_flush, allocate. destruct (memory w) as [|[] m] eqn:Em.
  1,3: eexists false, _; split; [erewrite bind_run by (rewrite Em; reflexivity); reflexivity|]; split; [done|]; split; [by split|]; do 2 (split; [done|]); intros g (? & E & _)%granted_one; congruence.
  set (l' := set_last (Chunk [] 0) (iolog w)). assert (El' : io_logs l' = front (iolog w) ++ [Chunk [] 0]) by done.
  destruct (split_last _ _ _ El') as [Hlast' Hfront']. assert (Ec := last_split _ _ Hc).
  exists true, (w <| memory := m |> <| iolog := l' |> <| compress_wq := compress_wq w ++ [log c] |>).
  split; [by erewrite bind_run by (rewrite Em; reflexivity)|].
  assert (Hgf := concat_empty _ (Hg Hgz)). split; [split; [|done]|].
  { rewrite (logged_last w c Hc). unfold logged. cbn [iolog compress_wq set_field_of].
    rewrite El', fmap_app, !concat_app, Hgf. cbn [concat app log fmap list_fmap]. by rewrite !app_nil_r, <- app_assoc. }
  split; [|split; [intros _; by exists (Chunk [] 0)|split; [done|]; intros g (? & E & ?)%granted_one; split; [done|]; unfold granted; cbn; congruence]].
  cbn [iolog set_field_of]. split; [done|done| | |done| | |exact Hi].
  - rewrite El'. rewrite Ec in Hr. apply Forall_app in Hr as [Hr _]. apply Forall_app. split; [done|]. constructor; [done|constructor].
  - rewrite El'. change (cur_log_max l') with (cur_log_max (iolog w)). split; [by intros [_ ?]%app_nil|]. intros E%Hf. rewrite E in Ec. by destruct (front _).
  - by rewrite Hfront'.
  - intros p Hpe. destruct (Hp p Hpe) as (H1 & H2 & H3). do 2 (split; [done|]). intros Hne. destruct (H3 Hne) as [Him _].
    split; [done|]. by exists (Chunk [] 0).
Qed.

(** ** Making room *)
Lemma moved_memory w m : moved w (w <| memory := m |>).
Proof. done. Qed.
Lemma moved_new_chunk w m n : moved w (w <| iolog := new_chunk n (iolog w) |> <| memory := m |>).
Proof.
  split; [|done]. unfold logged. cbn [iolog compress_wq set_field_of new_chunk io_logs pending]. rewrite fmap_app, concat_app. cbn. by rewrite app_nil_r.
Qed.

(** The last chunk, or the first one if there is none, which has room. *)
Lemma have_log_ok w j : wf (iolog w) j →
  ∃ have w', (match iolog_cur_log (iolog w) with Some _ => mret true | None => get_new_log end) w = Some (have, w') ∧
    moved w w' ∧ wf (iolog w') j ∧ (have = true → ∃ c, iolog_cur_log (iolog w') = Some c) ∧
    pending (iolog w') = pending (iolog w) ∧
    if iolog_cur_log (iolog w) is Some _ then have = true ∧ w' = w
    else (∀ c, iolog_cur_log (iolog w') = Some c → nr_samples c < max_samples c) ∧ ∀ g, granted (S g) w → have = true ∧ granted g w'.
Proof.
  intros Hw. destruct (iolog_cur_log (iolog w)) as [c|] eqn:Ec.
  { exists true, w. do 3 (split; [done|]). split; [eauto|done]. }
  destruct (get_new_log_ok w j Hw) as (ok & m & n & E & Hn & _ & Hg). eexists ok, _. split; [exact E|].
  assert (El : io_logs (iolog w) = []) by (by apply last_None). pose proof (wf_entries _ _ Hw) as He.
  destruct ok; [|do 4 (split; [done|]); split; [cbn [iolog set_field_of]; rewrite Ec; done|done]].
  split; [apply moved_new_chunk|]. split; [by apply first_chunk_wf|].
  assert (iolog_cur_log (new_chunk n (iolog w)) = Some (Chunk [] n)) as Ec' by (unfold iolog_cur_log; cbn; by rewrite El).
  split; [intros _; by exists (Chunk [] n)|]. split; [done|]. split; [|done].
  intros c Hc. change (iolog_cur_log (new_chunk n (iolog w)) = Some c) in Hc. rewrite Ec' in Hc. injection Hc as <-. unfold nr_samples. cbn. lia.
Qed.

Lemma regrow_log_ok w j : wf (iolog w) j → disabled (iolog w) = false →
  ∃ ok w', regrow_log w = Some (ok, w') ∧ moved w w' ∧ wf (iolog w') j ∧
    (ok = true → immediate (iolog w) = true → ∃ c, iolog_cur_log (iolog w') = Some c ∧ nr_samples c < max_samples c) ∧
    ∀ g, is_Some (iolog_cur_log (iolog w)) → granted (S (S g)) w → ok = true ∧ granted g w'.
Proof.
  intros Hw Hd. unfold regrow_log. erewrite bind_run by reflexivity. rewrite Hd.
  destruct (have_log_ok w j Hw) as (have & w1 & E1 & M1 & W1 & C1 & P1 & G1). rewrite (bind_run _ _ _ _ _ E1).
  assert (is_Some (iolog_cur_log (iolog w)) → have = true ∧ w1 = w) as Hsame by (intros [c Hc]; by rewrite Hc in G1). clear G1.
  destruct have; [|by exists false, w1; do 4 (split; [done|]); intros g [? _]%Hsame]. destruct (C1 eq_refl) as [c Hc]. cbn [negb]. unfold try_get at 1.
  erewrite bind_run by (rewrite Hc; reflexivity).
  destruct (Z.ltb_spec (nr_samples c) (max_samples c)); [exists true, w1; do 3 (split; [done|]); split; [eauto|]; intros g [_ ->]%Hsame Hg; split; [done|]; by eapply granted_less; [|exact Hg]; lia|].
  assert (Hgz1 : log_gz (iolog w1) = log_gz (iolog w)) by (destruct M1 as (_ & [=] & _); congruence).
  assert (∃ flushed w2, (if log_gz (iolog w) =? 0 then mret true else iolog_cur_flush c) w1 = Some (flushed, w2) ∧ moved w1 w2 ∧ wf (iolog w2) j ∧
    (flushed = true → ∃ c', iolog_cur_log (iolog w2) = Some c' ∧ full c' ∧ (log_gz (iolog w2) ≠ 0 → log c' = [])) ∧
    cur_log_max (iolog w2) = cur_log_max (iolog w1) ∧ ∀ g, granted (S g) w1 → flushed = true ∧ granted g w2) as (flushed & w2 & E2 & M2 & W2 & C2 & S2 & G2).
  { destruct (Z.eqb_spec (log_gz (iolog w)) 0) as [E|E].
    - exists true, w1. split; [done|]. split; [apply moved_refl|]. split; [done|]. split; [|split; [done|]; intros g Hg; split; [done|]; by eapply granted_less; [|exact Hg]; lia].
      intros _. exists c. split; [done|]. split; [done|congruence].
    - destruct (cur_flush_ok w1 j c W1 Hc) as (ok & w2 & E2 & M2 & W2 & C2 & S2 & G2); [congruence|]. exists ok, w2.
      do 3 (split; [done|]). split; [|done]. intros Hok. destruct (C2 Hok) as (c' & ? & ? & ?). eauto. }
  rewrite (bind_run _ _ _ _ _ E2). destruct flushed; [|exists false, w2; split; [done|]; split; [by eapply moved_trans|]; do 2 (split; [done|]); intros g [_ ->]%Hsame Hg; by destruct (G2 (S g) Hg)].
  destruct (C2 eq_refl) as (c2 & Hc2 & Hf2 & Hg2). cbn [negb].
  destruct (get_new_log_ok w2 j W2) as (ok & m & n & E3 & Hn & Hn2 & G3). rewrite (bind_run _ _ _ _ _ E3).
  assert (M02 := moved_trans _ _ _ M1 M2).
  assert (∀ g, is_Some (iolog_cur_log (iolog w)) → granted (S (S g)) w → ok = true ∧ take g m = replicate g true) as G03.
  { intros g [_ ->]%Hsame Hg. apply G3. by apply G2. }
  destruct ok; [|exists false, (w2 <| memory := m |>); do 4 (split; [done|]); intros g Hs Hg; by destruct (G03 g Hs Hg)].
  set (w3 := w2 <| iolog := new_chunk n (iolog w2) |> <| memory := m |>).
  assert (Hne : cur_log_max (iolog w2) ≠ 0).
  { rewrite <- (wf_first _ _ W2), (last_split _ _ Hc2). by intros [_ ?]%app_nil. }
  destruct (flush_pending_ok w3 j (iolog w2) c2 n W2 Hc2 Hf2 Hg2 Hn (Hn2 Hne) eq_refl) as (w4 & E4 & W4 & M4 & Mem4 & C4).
  rewrite (bind_run _ _ _ _ _ E4). exists true, w4. split; [done|].
  split; [eapply moved_trans; [exact M02|]; eapply moved_trans; [apply moved_new_chunk|exact M4]|]. split; [done|].
  split; [|intros g Hs Hg; split; [done|]; unfold granted; rewrite Mem4; by apply G03].
  intros _ Him. apply C4. destruct M02 as (_ & Hset & _). unfold immediate, per_unit_log in *. unfold settings in Hset.
  injection Hset as _ -> _ _ -> -> _ ->. done.
Qed.

(** ** Adding a sample *)
Definition entry (l : io_log) (d : sample_data) (ddir : nat) (b t off prio : Z) : io_sample :=
  IoSample (u64 (t + match td l with Some j => alternate_epoch j | None => 0 end)) d
    (Z.lor (Z.of_nat ddir) (log_ddir_mask l)) (u16 prio) b (if log_offset l then Some off else None).
(** Where the next sample goes, there is room. *)
Definition ready (p : place) (l : io_log) : Prop :=
  match p with
  | in_current => ∃ c, iolog_cur_log l = Some c ∧ nr_samples c < max_samples c
  | in_pending => immediate l = false ∧ (∃ c, iolog_cur_log l = Some c ∧ full c) ∧ ∃ p, pending l = Some p ∧ nr_samples p < max_samples p
  | nowhere => True
  end.

Lemma moved_flag w b : moved w (w <| regrow_flag := b |>).
Proof. done. Qed.
Lemma moved_immediate w w' : moved w w' → immediate (iolog w') = immediate (iolog w).
Proof.
  intros (_ & Hset & _). unfold settings in Hset. injection Hset as _ Htd _ _ Hg Hgs _ Ha. unfold immediate, per_unit_log. by rewrite Htd, Hg, Hgs, Ha.
Qed.

Lemma get_cur_log_ok w j : wf (iolog w) j → disabled (iolog w) = false → (∀ p, pending (iolog w) = Some p → nr_samples p < max_samples p) →
  ∃ p w', get_cur_log w = Some (p, w') ∧ moved w w' ∧ wf (iolog w') j ∧ ready p (iolog w') ∧
    ∀ g, granted (S (S g)) w → p ≠ nowhere ∧ granted g w'.
Proof.
  intros Hw Hd Hp. unfold get_cur_log. erewrite bind_run by reflexivity.
  destruct (have_log_ok w j Hw) as (have & w1 & E1 & M1 & W1 & C1 & P1 & G1). rewrite (bind_run _ _ _ _ _ E1).
  assert (∀ g, granted (S (S g)) w → have = true ∧ granted g w1) as G01.
  { intros g Hg. destruct (iolog_cur_log (iolog w)); [destruct G1 as [-> ->]; split; [done|]|destruct (proj2 G1 _ Hg) as [-> Hg1]; split; [done|]];
      (eapply granted_less; [|done]); lia. }
  destruct have; [|exists nowhere, w1; do 4 (split; [done|]); intros g Hg; by destruct (G01 g Hg)]. destruct (C1 eq_refl) as [c Hc]. cbn [negb]. unfold try_get at 1.
  erewrite bind_run by (rewrite Hc; reflexivity).
  destruct (Z.ltb_spec (nr_samples c) (max_samples c)) as [|Hfull].
  { exists in_current, w1. do 3 (split; [done|]). split; [cbn; eauto|]. intros g Hg. split; [done|]. by apply G01. }
  assert (w1 = w) as E1w by (destruct (iolog_cur_log (iolog w)); [by destruct G1|]; specialize (proj1 G1 c Hc); lia).
  fold (immediate (iolog w)). destruct (immediate (iolog w)) eqn:Him.
  - assert (disabled (iolog w1) = false) as Hd1 by (destruct M1 as (_ & _ & -> & _); done).
    destruct (regrow_log_ok w1 j W1 Hd1) as (ok & w2 & E2 & M2 & W2 & C2 & G2). rewrite (bind_run _ _ _ _ _ E2).
    eexists _, w2. split; [reflexivity|]. split; [by eapply moved_trans|]. split; [done|].
    split; [|intros g Hg; rewrite <- E1w in Hg; destruct (G2 g) as [-> ?]; done].
    destruct ok; [|done]. apply C2; [done|]. by rewrite (moved_immediate _ _ M1).
  - rewrite (wf_td _ _ Hw). unfold modify. erewrite bind_run by reflexivity.
    assert (M2 := moved_trans _ _ _ M1 (moved_flag w1 true)). destruct (pending (iolog w)) as [p|] eqn:Ep.
    2:{ exists nowhere, (w1 <| regrow_flag := true |>). do 4 (split; [done|]). intros g Hg. exfalso.
        destruct (wf_inline _ _ Hw) as [p Hp']; [|by rewrite Ep in Hp']. unfold immediate in Him. rewrite (wf_td _ _ Hw) in Him. by apply orb_false_iff in Him as [? _]. }
    
    rewrite (proj2 (Z.ltb_lt _ _)) by by apply Hp. exists in_pending, (w1 <| regrow_flag := true |>). do 3 (split; [done|]).
    split; [|intros g Hg; split; [done|]; by apply (G01 g Hg)].
    cbn [iolog set_field_of]. split; [by rewrite (moved_immediate _ _ M1)|]. split; [eauto|]. exists p. split; [by rewrite P1|by apply Hp].
Qed.

Lemma nr_push (c : chunk) s n : nr_samples (Chunk (log c ++ [s]) n) = nr_samples c + 1.
Proof. unfold nr_samples. cbn [log]. rewrite length_app. cbn [length]. lia. Qed.
Lemma push_ok s c : nr_samples c < max_samples c → push s c = Some (Chunk (log c ++ [s]) (max_samples c)).
Proof. intros H. unfold push. by rewrite (proj2 (Z.ltb_lt _ _)). Qed.

(** A sample goes to the end. *)
Lemma push_current_ok w j s c : wf (iolog w) j → iolog_cur_log (iolog w) = Some c → nr_samples c < max_samples c →
  let w' := w <| iolog := set_last (Chunk (log c ++ [s]) (max_samples c)) (iolog w) |> in
  wf (iolog w') j ∧ logged w' = logged w ++ [s] ∧ settings (iolog w') = settings (iolog w).
Proof.
  intros [Htd He Hr Hf Hs Hg Hp Hi] Hc Hlt w'. set (l' := iolog w'). assert (Ec := last_split _ _ Hc).
  assert (El' : io_logs l' = front (iolog w) ++ [Chunk (log c ++ [s]) (max_samples c)]) by done.
  destruct (split_last _ _ _ El') as [Hlast' Hfront'].
  assert (Hno : ∀ p, pending (iolog w) = Some p → log p = []).
  { intros p Hpe. destruct (Hp p Hpe) as (_ & _ & H3). destruct (log p); [done|]. destruct H3 as (_ & c' & Hc' & Hfull); [done|].
    unfold full in Hfull. rewrite Hc in Hc'. injection Hc' as <-. lia. }
  split; [|split; [|done]].
  - split; [done|done| | |done| | |exact Hi].
    + rewrite El'. rewrite Ec in Hr. apply Forall_app in Hr as [Hr _]. apply Forall_app. split; [done|].
      constructor; [rewrite nr_push; cbn; lia|constructor].
    + rewrite El'. change (cur_log_max l') with (cur_log_max (iolog w)). split; [by intros [_ ?]%app_nil|].
      intros E%Hf. rewrite E in Ec. by destruct (front _).
    + by rewrite Hfront'.
    + intros p Hpe. destruct (Hp p Hpe) as (H1 & H2 & _). do 2 (split; [done|]). by rewrite (Hno p Hpe).
  - rewrite (logged_last w c Hc). change (logged w') with (logged (w <| iolog := l' |>)). rewrite (logged_snoc w _ _ _ El'). cbn [log]. change (pending l') with (pending (iolog w)).
    destruct (pending (iolog w)) as [p|]; [rewrite (Hno p eq_refl)|]; by rewrite !app_nil_r, <- !app_assoc.
Qed.
Lemma push_pending_ok w j s p : wf (iolog w) j → pending (iolog w) = Some p → nr_samples p < max_samples p → immediate (iolog w) = false →
  (∃ c, iolog_cur_log (iolog w) = Some c ∧ full c) →
  let w' := w <| iolog := (iolog w) <| pending := Some (Chunk (log p ++ [s]) (max_samples p)) |> |> in
  wf (iolog w') j ∧ logged w' = logged w ++ [s] ∧ settings (iolog w') = settings (iolog w).
Proof.
  intros [Htd He Hr Hf Hs Hg Hp Hi] Hpe Hlt Him Hfull w'. split; [|split; [|done]].
  - split; [done|done|done|done|done|done| |by eexists]. intros q [= <-]. destruct (Hp p Hpe) as (H1 & H2 & _). split; [rewrite nr_push; cbn; lia|]. split; [exact H2|]. done.
  - unfold logged. cbn [w' iolog compress_wq io_logs pending set_field_of]. rewrite Hpe. cbn [log]. by rewrite <- !app_assoc.
Qed.

(** One sample: it is the last of the log, unless the log is disabled. *)
Lemma add_sample_ok w j d ddir b t off prio :
  wf (iolog w) j → length (avg_last (iolog w)) = DDIR_RWDIR_CNT → ddir_rw ddir = true →
  (∀ p, pending (iolog w) = Some p → nr_samples p < max_samples p) →
  ∃ w', __add_log_sample d ddir b t off prio w = Some (tt, w') ∧ wf (iolog w') j ∧ settings (iolog w') = settings (iolog w) ∧
    length (avg_last (iolog w')) = DDIR_RWDIR_CNT ∧
    may_wait (iolog w') = may_wait (iolog w) ∧ waiting (iolog w') ≤ waiting (iolog w) + 1 ∧
    (if disabled (iolog w') then logged w' = logged w else logged w' = logged w ++ [entry (iolog w) d ddir b t off prio]) ∧
    ∀ g, disabled (iolog w) = false → granted (S (S g)) w → disabled (iolog w') = false ∧ granted g w'.
Proof.
  intros Hw Hlen Hdd Hp. unfold __add_log_sample. erewrite bind_run by reflexivity. destruct (disabled (iolog w)) eqn:Hd; [exists w; rewrite Hd; do 5 (split; [done|]); split; [lia|]; by split|].
  assert (Hdd' : (ddir < DDIR_RWDIR_CNT)%nat) by (unfold ddir_rw, DDIR_RWDIR_CNT in *; lia).
  assert (∃ w1, (match io_logs (iolog w) with
    | [] => try_mod (λ w, last ← at_ddir ddir (λ _, t) (avg_last (iolog w)); Some (w <| iolog := (iolog w) <| avg_last := last |> |>))
    | _ => skip end) w = Some (tt, w1) ∧ wf (iolog w1) j ∧ logged w1 = logged w ∧ settings (iolog w1) = settings (iolog w) ∧
      disabled (iolog w1) = false ∧ pending (iolog w1) = pending (iolog w) ∧ length (avg_last (iolog w1)) = DDIR_RWDIR_CNT ∧ memory w1 = memory w)
    as (w1 & E1 & W1 & L1 & S1 & D1 & P1 & A1 & Mem1).
  { destruct (io_logs (iolog w)); [|by exists w]. unfold try_mod, at_ddir. destruct (lookup_lt_is_Some_2 (avg_last (iolog w)) ddir) as [x ->]; [lia|].
    eexists. split; [reflexivity|]. split; [by destruct Hw|]. do 4 (split; [done|]). cbn. by rewrite length_insert. }
  assert (C1 : may_wait (iolog w1) = may_wait (iolog w)) by (unfold may_wait; by rewrite P1).
  assert (G1 : waiting (iolog w1) = waiting (iolog w)) by (unfold waiting; by rewrite P1).
  rewrite (bind_run _ _ _ _ _ E1).
  destruct (get_cur_log_ok w1 j W1 D1) as (p & w2 & E2 & (L2 & S2 & D2 & A2 & C2 & G2) & W2 & R2 & G02); [by rewrite P1|].
  assert (∀ g, granted (S (S g)) w → p ≠ nowhere ∧ granted g w2) as Hg by (intros g Hg; apply G02; unfold granted; by rewrite Mem1). clear G02. rewrite (bind_run _ _ _ _ _ E2).
  assert (S02 : settings (iolog w2) = settings (iolog w)) by congruence. assert (L02 : logged w2 = logged w) by congruence.
  fold (entry (iolog w) d ddir b t off prio). set (s := entry (iolog w) d ddir b t off prio).
  destruct p; cbn [ready] in R2.
  - destruct R2 as (c & Hc & Hlt). unfold try_mod. rewrite Hc. cbn [mbind option_bind]. rewrite push_ok by done. cbn [mbind option_bind].
    destruct (push_current_ok w2 j s c W2 Hc Hlt) as (W3 & L3 & S3). eexists. split; [reflexivity|]. split; [done|]. split; [congruence|].
    split; [cbn; congruence|]. split; [exact (eq_trans C2 C1)|]. split; [change (waiting (iolog w2) ≤ waiting (iolog w) + 1); lia|].
    change (disabled (iolog _)) with (disabled (iolog w2)). rewrite D2, D1. split; [congruence|].
    intros g _ Hg'. split; [done|]. by apply Hg.
  - destruct R2 as (Him & Hfull & p & Hpe & Hlt). unfold try_mod. rewrite Hpe. cbn [mbind option_bind]. rewrite push_ok by done. cbn [mbind option_bind].
    destruct (push_pending_ok w2 j s p W2 Hpe Hlt Him Hfull) as (W3 & L3 & S3). eexists. split; [reflexivity|]. split; [done|]. split; [congruence|].
    split; [cbn; congruence|]. split; [rewrite <- (eq_trans C2 C1); unfold may_wait; rewrite Hpe; done|].
    split; [unfold waiting at 1 in G2; rewrite Hpe in G2; change (nr_samples (Chunk (log p ++ [s]) (max_samples p)) ≤ waiting (iolog w) + 1); rewrite nr_push; lia|].
    change (disabled (iolog _)) with (disabled (iolog w2)). rewrite D2, D1. split; [congruence|].
    intros g _ Hg'. split; [done|]. by apply Hg.
  - eexists. split; [reflexivity|]. split; [by destruct W2|]. split; [exact S02|]. split; [cbn; congruence|].
    split; [exact (eq_trans C2 C1)|]. split; [change (waiting (iolog w2) ≤ waiting (iolog w) + 1); lia|]. split; [exact L02|].
    intros g _ Hg'. by destruct (Hg g Hg').
Qed.

(** A sequence of samples. *)
Record request := Request { rq_data : sample_data; rq_ddir : nat; rq_bs : Z; rq_time : Z; rq_offset : Z; rq_prio : Z }.
Definition entry_of (l : io_log) (r : request) : io_sample := entry l (rq_data r) (rq_ddir r) (rq_bs r) (rq_time r) (rq_offset r) (rq_prio r).
Fixpoint add_all (rs : list request) : M log_world unit :=
  match rs with
  | [] => skip
  | r :: rs => __add_log_sample (rq_data r) (rq_ddir r) (rq_bs r) (rq_time r) (rq_offset r) (rq_prio r) ≫= λ _, add_all rs
  end.
Lemma settings_entry l l' r : settings l' = settings l → entry_of l' r = entry_of l r.
Proof. unfold settings, entry_of, entry. intros H. injection H as -> -> _ -> _. done. Qed.
Lemma disabled_stays rs w : disabled (iolog w) = true → add_all rs w = Some (tt, w).
Proof.
  intros Hd. induction rs as [|r rs IH]; [done|]. cbn [add_all]. erewrite bind_run; [exact IH|].
  unfold __add_log_sample. erewrite bind_run by reflexivity. by rewrite Hd.
Qed.

(** C38. A log keeps its samples in order: when no more samples may wait than the next
    chunk has room for (the log is well formed, as [setup_log] makes it) and there is
    place for those of a sequence to wait, [__add_log_sample] succeeds for all of them,
    the log stays well formed, and it holds what it held before and then the first [k]
    samples, in order.  These are all, unless the log is disabled; and a log that was not
    disabled before is not disabled as long as the allocator has memory, which a sample
    asks for at most twice.  Chunks may fill up, grow and be compressed in between. *)
Theorem log_keeps_order w j rs :
  wf (iolog w) j → length (avg_last (iolog w)) = DDIR_RWDIR_CNT → Forall (λ r, ddir_rw (rq_ddir r) = true) rs →
  (∀ m, may_wait (iolog w) = Some m → waiting (iolog w) + Z.of_nat (length rs) ≤ m) →
  ∃ w' k, add_all rs w = Some (tt, w') ∧ wf (iolog w') j ∧ logged w' = logged w ++ (entry_of (iolog w) <$> take k rs) ∧
    (disabled (iolog w') = false → k = length rs) ∧
    (disabled (iolog w) = false → granted (2 * length rs) w → disabled (iolog w') = false).
Proof.
  intros Hw Hl Hd. revert w Hw Hl. induction Hd as [|r rs Hr Hd IH]; intros w Hw Hl Hm.
  { exists w, 0%nat. split; [done|]. split; [done|]. split; [by rewrite app_nil_r|by split]. }
  destruct (add_sample_ok w j (rq_data r) (rq_ddir r) (rq_bs r) (rq_time r) (rq_offset r) (rq_prio r) Hw Hl Hr)
    as (w1 & E1 & W1 & S1 & A1 & C1 & G1 & L1 & Hg).
  { intros p Hp. specialize (Hm (max_samples p)). unfold may_wait, waiting in Hm. rewrite Hp in Hm. cbn [length] in Hm. specialize (Hm eq_refl). lia. }
  replace (2 * length (r :: rs))%nat with (S (S (2 * length rs))) by (simpl; lia).
  cbn [add_all]. rewrite (bind_run _ _ _ _ _ E1). destruct (disabled (iolog w1)) eqn:D1.
  - exists w1, 0%nat. split; [by apply disabled_stays|]. split; [done|]. split; [by rewrite app_nil_r|]. split; [congruence|].
    intros D0 G0. by destruct (Hg _ D0 G0).
  - destruct (IH w1 W1 A1) as (w' & k & E & W & L & K & KG).
    { intros m Hm'. rewrite C1 in Hm'. specialize (Hm m Hm'). cbn [length] in Hm. lia. }
    exists w', (S k). split; [exact E|]. split; [done|]. split; [|split; [intros H; cbn; by rewrite K|intros D0 G0; apply KG; [done|]; by apply (Hg _ D0 G0)]].
    rewrite L, L1, <- app_assoc. f_equal. cbn [take]. rewrite fmap_cons. cbn [app]. f_equal.
    apply list_fmap_ext. intros _ q _. by apply settings_entry.
Qed.

(** ** A log without a job *)
(** The logs that [--bandwidth-log] makes have no job: at their first sample
    [get_new_log] follows the NULL pointer to the job's number of entries. *)
Theorem agg_log_crashes type off prio w d ddir b t o p :
  iolog w = setup_log None type 0 0 0 off prio → ddir_rw ddir = true → __add_log_sample d ddir b t o p w = None.
Proof.
  intros Hw Hd. destruct w as [l r m q]. cbn [iolog] in Hw. subst l.
  destruct ddir as [|[|[|ddir]]]; [..|done]; destruct off, prio; reflexivity.
Qed.
Lemma agg_log_crashes_witness :
  __add_log_sample (sample_val 5) 0 4096 0 0 0 (LogWorld (setup_log None 4 0 0 0 false false) false [true] []) = None.
Proof. by apply (agg_log_crashes 4 false false). Defined.

(** ** More waiting samples than the next chunk holds *)
Section Overflow.
Context (j : log_job) (mem : list bool) (type : Z).
Context (Hoff : io_submit_offload j = false) (Hn : 1 ≤ log_entries j) (Hn2 : 2 * log_entries j ≤ MAX_LOG_ENTRIES).
Context (Hdepth : DEF_LOG_ENTRIES < iodepth j) (Hbig : 2 * log_entries j < roundup_pow2 (iodepth j)).
Let n : Z := log_entries j.

Definition fresh_world : log_world := LogWorld (setup_log (Some j) type 0 0 0 false false) false (true :: true :: mem) [].
(** The log after [i] samples that nobody made room for. *)
Definition filling (i : nat) (w : log_world) : Prop :=
  let l := iolog w in
  td l = Some j ∧ disabled l = false ∧ avg_msec l = 0 ∧ log_gz l = 0 ∧ length (avg_last l) = DDIR_RWDIR_CNT ∧
  (∃ p, pending l = Some p ∧ max_samples p = roundup_pow2 (iodepth j) ∧ nr_samples p = Z.max 0 (Z.of_nat i - n)) ∧
  (if decide (i = 0)%nat then io_logs l = [] ∧ cur_log_max l = 0 ∧ memory w = true :: true :: mem
   else ∃ c, io_logs l = [c] ∧ max_samples c = n ∧ nr_samples c = Z.min (Z.of_nat i) n ∧ cur_log_max l = n ∧ memory w = true :: mem).

Lemma filling_fresh : filling 0 fresh_world.
Proof using Hoff Hn Hdepth.
  unfold filling, fresh_world, setup_log. cbn [iolog td disabled avg_msec log_gz avg_last pending io_logs cur_log_max memory].
  rewrite Hoff. rewrite (proj2 (Z.ltb_lt _ _)) by done. do 5 (split; [done|]). split; [|done].
  eexists. split; [done|]. split; [done|]. unfold nr_samples, n. cbn [log length]. lia.
Qed.

Ltac run_log :=
  cbv [__add_log_sample get_cur_log get_new_log try_get try_mod on_log gets modify allocate skip undef at_ddir push
    mbind M_bind mret M_ret option_bind];
  cbn -[u32 u64 Z.mul Z.lor Z.add Z.ltb nr_samples n].
Lemma filling_step i w s : (Z.of_nat i < 3 * n + 1) → filling i w → ∃ w', __add_log_sample (sample_val s) 0 1 0 0 0 w = Some (tt, w') ∧ filling (S i) w'.
Proof using Hoff Hn Hn2 Hbig.
  intros Hi (Htd & Hd & Hav & Hgz & Hal & (p & Hp & Hpm & Hpn) & Hc).
  destruct w as [[logs clm pend mask tdd ty dis off gz gzs win av lasts] r m q].
  cbn [iolog td disabled avg_msec log_gz avg_last pending io_logs cur_log_max memory] in *. subst tdd dis av gz pend.
  case_decide as Hi0.
  - destruct Hc as (-> & -> & ->). destruct lasts as [|a lasts]; [done|].
    run_log. rewrite (proj2 (Z.ltb_lt (nr_samples (Chunk [] (log_entries j))) _)) by (unfold nr_samples; cbn; lia).
    cbn -[u32 u64 Z.mul Z.lor Z.add Z.ltb nr_samples n].
    rewrite (proj2 (Z.ltb_lt (nr_samples (Chunk [] (log_entries j))) _)) by (unfold nr_samples; cbn; lia).
    eexists. split; [reflexivity|]. subst i. unfold filling. cbn [decide Nat.eq_dec]. split; [done|].
    do 4 (split; [done|]). split; [exists p; split; [done|]; split; [done|]; unfold n in *; lia|].
    eexists. split; [done|]. split; [done|]. split; [unfold nr_samples, n; cbn; lia|]. split; [|done].
    apply u32_small. unfold MAX_LOG_ENTRIES, DEF_LOG_ENTRIES in *. lia.
  - destruct Hc as (c & -> & Hcm & Hcn & -> & ->). run_log. rewrite Hcm, Hcn.
    destruct (Z.ltb_spec (Z.of_nat i `min` n) n) as [Hlt|Hge].
    + cbn -[u32 u64 Z.mul Z.lor Z.add Z.ltb nr_samples n]. rewrite Hcm, Hcn, (proj2 (Z.ltb_lt _ _)) by done.
      eexists. split; [reflexivity|]. unfold filling. rewrite decide_False by lia.
      do 5 (split; [done|]). split; [exists p; split; [done|]; split; [done|]; lia|].
      eexists. split; [done|]. split; [done|]. split; [rewrite nr_push; lia|]. done.
    + rewrite Hoff. cbn -[u32 u64 Z.mul Z.lor Z.add Z.ltb nr_samples n]. rewrite Hpm, Hpn.
      rewrite (proj2 (Z.ltb_lt _ _)) by (unfold n in *; lia). cbn -[u32 u64 Z.mul Z.lor Z.add Z.ltb nr_samples n].
      rewrite Hpm, Hpn, (proj2 (Z.ltb_lt _ _)) by (unfold n in *; lia).
      eexists. split; [reflexivity|]. unfold filling. rewrite decide_False by lia.
      do 5 (split; [done|]). split; [eexists; split; [done|]; split; [done|]; rewrite nr_push; lia|].
      exists c. split; [done|]. split; [done|]. split; [lia|]. done.
Qed.

(** C40. More samples may wait than the next chunk holds: a job whose depth, rounded up,
    is more than twice its number of log entries can have so many waiting that
    [regrow_log] copies them beyond the chunk it has just allocated. *)
Theorem regrow_log_overflows : ∃ w, for_M (Z.to_nat (3 * n + 1)) 0 (λ i, __add_log_sample (sample_val (Z.of_nat i)) 0 1 0 0 0) fresh_world =
  Some (tt, w) ∧ regrow_log w = None.
Proof using Hoff Hn Hn2 Hdepth Hbig.
  destruct (for_M_ind filling (Z.to_nat (3 * n + 1)) 0 (λ i, __add_log_sample (sample_val (Z.of_nat i)) 0 1 0 0 0) fresh_world) as (w & E & Hw).
  - apply filling_fresh.
  - intros i w Hi Hw. apply filling_step; [lia|done].
  - exists w. split; [exact E|]. clear E. destruct Hw as (Htd & Hd & Hav & Hgz & Hal & (p & Hp & Hpm & Hpn) & Hc).
    destruct w as [[logs clm pend mask tdd ty dis off gz gzs win av lasts] r m q].
    cbn [iolog td disabled avg_msec log_gz avg_last pending io_logs cur_log_max memory] in *. subst tdd dis av gz pend.
    rewrite decide_False in Hc by (unfold n; lia). destruct Hc as (c & -> & Hcm & Hcn & -> & ->).
    assert (Hu : u32 (n * 2) = 2 * n) by (rewrite u32_small; unfold n, MAX_LOG_ENTRIES, DEF_LOG_ENTRIES in *; lia).
    cbv [regrow_log flush_pending]. run_log. rewrite Hcm, Hcn, (proj2 (Z.ltb_ge _ _)) by lia.
    cbn -[u32 u64 Z.mul Z.lor Z.add Z.ltb nr_samples n MAX_LOG_ENTRIES].
    rewrite (proj2 (Z.eqb_neq n 0)) by (unfold n; lia). cbn -[u32 u64 Z.mul Z.lor Z.add Z.ltb Z.leb Z.eqb nr_samples n MAX_LOG_ENTRIES].
    rewrite Hu, Z.min_l by (unfold n; lia).
    rewrite (proj2 (Z.eqb_neq (nr_samples p) 0)), (proj2 (Z.leb_gt (nr_samples p) (2 * n))) by (unfold n in *; lia). done.
Qed.
End Overflow.
Lemma regrow_log_overflows_witness : let j := LogJob 1024 false 0 false 4096 in
  ∃ w, for_M (Z.to_nat (3 * log_entries j + 1)) 0 (λ i, __add_log_sample (sample_val (Z.of_nat i)) 0 1 0 0 0) (fresh_world j [] 1) = Some (tt, w) ∧
    regrow_log w = None.
Proof. intros j. apply (regrow_log_overflows j [] 1); by vm_compute. Defined.

(** The setup of a log makes one that is well formed, unless too many samples may wait. *)
Lemma setup_log_wf j type avg gz gz_store off prio : 1 ≤ log_entries j ≤ MAX_LOG_ENTRIES →
  (io_submit_offload j = false → Z.max DEF_LOG_ENTRIES (roundup_pow2 (iodepth j)) ≤ Z.min (2 * log_entries j) MAX_LOG_ENTRIES) →
  wf (setup_log (Some j) type avg gz gz_store off prio) j.
Proof.
  intros He Hd. split; [done|done|constructor|done|done|constructor| |].
  2:{ intros Eo. unfold setup_log. cbn [pending]. rewrite Eo. by eexists. }
  cbn [pending setup_log]. intros p Hp. destruct (io_submit_offload j) eqn:Eo; [done|]. injection Hp as <-. specialize (Hd eq_refl).
  unfold nr_samples. cbn [log max_samples length]. unfold DEF_LOG_ENTRIES in *.
  destruct (Z.ltb_spec 1024 (iodepth j)) as [Hgt|]; [|split; [lia|]; split; [lia|done]].
  assert (0 < roundup_pow2 (iodepth j)) by (apply Z.pow_pos_nonneg; [lia|apply Z.log2_up_nonneg]).
  split; [lia|]. split; [lia|done].
Qed.
Lemma log_keeps_order_witness : let j := LogJob 1024 false 0 false 8 in
  let w := LogWorld (setup_log (Some j) 1 0 0 0 false false) false [true; true; true; true; false] [] in
  let rs := [Request (sample_val 7) 1 4096 3 0 0; Request (sample_val 9) 0 512 4 0 0] in
  ∃ w', add_all rs w = Some (tt, w') ∧ wf (iolog w') j ∧ disabled (iolog w') = false ∧ logged w' = entry_of (iolog w) <$> rs.
Proof.
  intros j w rs. destruct (log_keeps_order w j rs) as (w' & k & E & Hw & Hlog & Hk & Hg).
  - apply setup_log_wf; [by vm_compute|]. intros _. by vm_compute.
  - done.
  - by repeat constructor.
  - intros m [= <-]. by vm_compute.
  - specialize (Hg eq_refl eq_refl). exists w'. do 3 (split; [done|]). by rewrite (Hk Hg) in Hlog.
Defined.

(** ** Windows *)
Definition window_of (xs : list Z) (ddir : nat) (l : io_log) : Prop := ∃ win, avg_window l !! ddir = Some win ∧ stat_of xs win.

(** Changing the windows, or when they began, changes nothing else. *)
Lemma wf_windows l j wins : wf l j → wf (l <| avg_window := wins |>) j.
Proof. by intros []. Qed.
Lemma wf_begins l j lasts : wf l j → wf (l <| avg_last := lasts |>) j.
Proof. by intros []. Qed.

Lemma add_stat_to_log_ok w j xs ddir elapsed : wf (iolog w) j → length (avg_last (iolog w)) = DDIR_RWDIR_CNT → ddir_rw ddir = true →
  (∀ p, pending (iolog w) = Some p → nr_samples p < max_samples p) → window_of xs ddir (iolog w) → xs ≠ [] →
  ∃ w', __add_stat_to_log ddir elapsed true w = Some (tt, w') ∧ wf (iolog w') j ∧ length (avg_last (iolog w')) = DDIR_RWDIR_CNT ∧
    window_of [] ddir (iolog w') ∧
    if disabled (iolog w') then logged w' = logged w
    else logged w' = logged w ++ [entry (iolog w) (sample_val (foldr Z.max 0 xs)) ddir 0 elapsed 0 0].
Proof.
  intros Hw Hlen Hdd Hp (win & Ewin & Hmax & Hmin & Hn) Hne. unfold __add_stat_to_log.
  rewrite (try_get_bind _ _ _ win) by done. rewrite (proj2 (Z.eqb_neq _ _)) by (rewrite Hn; destruct xs; [done|cbn; lia]).
  destruct (add_sample_ok w j (sample_val (max_val win)) ddir 0 elapsed 0 0 Hw Hlen Hdd Hp) as (w1 & E1 & W1 & S1 & A1 & _ & _ & L1 & _).
  erewrite bind_run by (rewrite (try_get_bind _ _ _ (max_val win)) by done; exact E1).
  assert (Ew : avg_window (iolog w1) = avg_window (iolog w)) by (unfold settings in S1; congruence).
  erewrite try_mod_run by (unfold at_ddir; rewrite Ew, Ewin; reflexivity). eexists. split; [reflexivity|].
  split; [by apply wf_windows|]. split; [done|]. split.
  - exists reset_io_stat. split; [|done]. cbn. apply list_lookup_insert_eq. by apply lookup_lt_Some in Ewin.
  - rewrite <- Hmax. exact L1.
Qed.

(** Whether the window that began at [last] is over. *)
Definition window_over (l : io_log) (elapsed last : Z) : bool :=
  (last <=? elapsed) && negb ((elapsed - last <? avg_msec l) && (inline_log l || (LOG_MSEC_SLACK <? avg_msec l - (elapsed - last)))).

(** C39. Averaging windows (with the largest value of each): in a log with windows a sample
    joins the window of its direction; when the window is over by then (its time has
    passed or, for logs that are not written inline, at most a millisecond is left),
    [add_log_sample] logs one entry, the largest of all samples of the window, unless the
    log is disabled, and an empty window begins at a multiple of its length; otherwise
    nothing is logged and it returns the time that is left. *)
Theorem averaged_log w j xs val ddir b off prio elapsed last :
  wf (iolog w) j → length (avg_last (iolog w)) = DDIR_RWDIR_CNT → ddir_rw ddir = true →
  (∀ p, pending (iolog w) = Some p → nr_samples p < max_samples p) →
  0 < avg_msec (iolog w) < 2 ^ 64 → window_of xs ddir (iolog w) → avg_last (iolog w) !! ddir = Some last →
  is_latency val → is_latency elapsed → is_latency last → few (xs ++ [val]) →
  ∃ r w', add_log_sample true elapsed val ddir b off prio w = Some (r, w') ∧ wf (iolog w') j ∧
    if window_over (iolog w) elapsed last then
      window_of [] ddir (iolog w') ∧ r = avg_msec (iolog w) ∧
      avg_last (iolog w') !! ddir = Some (elapsed - elapsed mod avg_msec (iolog w)) ∧
      if disabled (iolog w') then logged w' = logged w
      else logged w' = logged w ++ [entry (iolog w) (sample_val (foldr Z.max 0 (xs ++ [val]))) ddir 0 elapsed 0 0]
    else window_of (xs ++ [val]) ddir (iolog w') ∧ logged w' = logged w ∧
      r = if elapsed <? last then last - elapsed else avg_msec (iolog w) - (elapsed - last).
Proof.
  intros Hw Hlen Hdd Hp Hav (win & Ewin & Hst) Hlast Hv He Hl Hf. unfold is_latency in *. unfold add_log_sample. rewrite Hdd. cbn [negb].
  erewrite bind_run by reflexivity. rewrite (proj2 (Z.eqb_neq _ _)) by lia.
  set (wins := <[ddir := add_stat_sample val win]> (avg_window (iolog w))).
  set (w1 := w <| iolog := (iolog w) <| avg_window := wins |> |>).
  erewrite bind_run by (apply try_mod_run; unfold at_ddir; rewrite Ewin; reflexivity). fold w1.
  assert (H1 : window_of (xs ++ [val]) ddir (iolog w1)).
  { exists (add_stat_sample val win). split; [cbn; apply list_lookup_insert_eq; by apply lookup_lt_Some in Ewin|]. by apply add_stat_sample_ok. }
  assert (W1 : wf (iolog w1) j) by by apply wf_windows.
  rewrite (try_get_bind _ _ _ last) by done. unfold window_over.
  destruct (Z.ltb_spec elapsed last) as [Hlt|Hge].
  { rewrite (proj2 (Z.leb_gt _ _)) by done. eexists _, w1. split; [reflexivity|]. do 3 (split; [done|]). unfold u64. apply wrap_small. split; lia. }
  rewrite (proj2 (Z.leb_le _ _)) by done. cbn [andb]. assert (u64 (elapsed - last) = elapsed - last) as -> by (apply wrap_small; split; lia).
  set (msec := avg_msec (iolog w)) in *.
  assert (Hdiff : elapsed - last < msec → u64 (msec - (elapsed - last)) = msec - (elapsed - last)) by (intros; apply wrap_small; split; lia).
  destruct (Z.ltb_spec (elapsed - last) msec) as [Hin|Hout]; cbn [andb].
  1: rewrite Hdiff by done; destruct (inline_log (iolog w) || _) eqn:Eb; cbn [negb].
  1: { eexists _, w1. split; [reflexivity|]. done. }
  all: destruct (add_stat_to_log_ok w1 j (xs ++ [val]) ddir elapsed W1 Hlen Hdd Hp H1) as (w2 & E2 & W2 & A2 & N2 & L2); [by destruct xs|].
  all: rewrite (bind_run _ _ _ _ _ E2); destruct (lookup_lt_is_Some_2 (avg_last (iolog w2)) ddir) as [y Hy];
    [unfold ddir_rw, DDIR_RWDIR_CNT in *; lia|].
  all: erewrite bind_run by (apply try_mod_run; unfold at_ddir; rewrite Hy; reflexivity).
  all: eexists _, _; split; [reflexivity|]; split; [by apply wf_begins|].
  all: split; [exact N2|]; split; [done|]; split; [|exact L2].
  all: cbn; rewrite list_lookup_insert_eq by (by apply lookup_lt_Some in Hy); f_equal; apply wrap_small.
  all: pose proof (Z.mod_pos_bound elapsed msec ltac:(lia)); pose proof (Z.mod_le elapsed msec ltac:(lia) ltac:(lia)); split; lia.
Qed.
Lemma averaged_log_witness : let j := LogJob 1024 false 0 true 8 in
  let w := LogWorld ((setup_log (Some j) 4 500 0 0 false false) <| avg_window := replicate 3 reset_io_stat |>) false [true] [] in
  ∃ r w', add_log_sample true 100 7 1 4096 0 0 w = Some (r, w') ∧ r = 400 ∧ logged w' = logged w.
Proof.
  intros j w. destruct (averaged_log w j [] 7 1 4096 0 0 100 0) as (r & w' & E & _ & H); try done.
  - apply wf_windows, setup_log_wf; [by vm_compute|]. intros _. by vm_compute.
  - intros p Hp. injection Hp as <-. by vm_compute.
  - by exists reset_io_stat.
  - change (window_over (iolog w) 100 0) with false in H. destruct H as (_ & Hl & Hr). by exists r, w'.
Defined.
