(* ===== verification/JobStat.v ===== *)
(** * Accounting of completed I/O (src/fio4emu/stat.c, io_u.c)

    What a completed or submitted request adds to the statistics and logs of its job.
    [elapsed] is the time since the job began, in milliseconds.  A job's logs share the
    flag, the allocator and the compression threads of [log_world].  The lock around the
    functions, which is taken when verification threads run, is left out. *)
From Stdlib Require Import SpecFloat.
From S2P Require Import Prelude CInt Latency Stat IoLog.
#[local] Open Scope Z_scope.

(** ** A job *)
(** The histogram log, and for each direction the samples since its last entry and the time of that. *)
Record hist_log := HistLog { hist_iolog : io_log; hist_msec : Z; hist_samples : list Z; hist_last : list Z }.
#[export] Instance eta_hist_log : Settable hist_log := λ r, HistLog (hist_iolog r) (hist_msec r) (hist_samples r) (hist_last r).
Record job := Job {
  ts : thread_stat; slat_log : option io_log; clat_log : option io_log; lat_log : option io_log; bw_log : option io_log;
  iops_log : option io_log; clat_hist_log : option hist_log; want_log_max : bool;
  flag : bool; mem : list bool; wq : list (list io_sample);
  this_io_bytes : list Z; stat_io_bytes : list Z; this_io_blocks : list Z; stat_io_blocks : list Z;
  bw_avg_time : Z; iops_avg_time : Z; min_bs : list Z; max_bs : list Z }.
#[export] Instance eta_job : Settable job := λ r,
  Job (ts r) (slat_log r) (clat_log r) (lat_log r) (bw_log r) (iops_log r) (clat_hist_log r) (want_log_max r) (flag r) (mem r) (wq r)
    (this_io_bytes r) (stat_io_bytes r) (this_io_blocks r) (stat_io_blocks r) (bw_avg_time r) (iops_avg_time r) (min_bs r) (max_bs r).
Abbreviation J := (M job).
Definition on_ts (f : thread_stat → option thread_stat) : J unit := try_mod (λ j, t ← f (ts j); Some (j <| ts := t |>)).
(** An operation on one of the logs. *)
Definition log_run {A} (l : io_log) (m : L A) (put : io_log → job → job) : J A := λ j,
  '(a, w) ← m (LogWorld l (flag j) (mem j) (wq j));
  Some (a, put (iolog w) j <| flag := regrow_flag w |> <| mem := memory w |> <| wq := compress_wq w |>).
Definition when_log {A} (l : option io_log) (none : A) (m : L A) (put : io_log → job → job) : J A :=
  match l with Some l => log_run l m put | None => mret none end.

Definition stat_at (f : io_stat → io_stat) (ddir : nat) (get : thread_stat → list io_stat) (put : list io_stat → thread_stat → thread_stat) : J unit :=
  on_ts (λ t, stats ← at_ddir ddir f (get t); Some (put stats t)).

(** ** Latencies *)
Definition add_hist_sample (elapsed : Z) (ddir : nat) (b off prio : Z) : J unit :=
  h ← gets clat_hist_log;
  match h with
  | None => skip
  | Some h =>
      if hist_msec h =? 0 then skip else
      n ← try_get (λ _, hist_samples h !! ddir);
      last ← try_get (λ _, hist_last h !! ddir);
      let h := h <| hist_samples := <[ddir := u64 (n + 1)]> (hist_samples h) |> in
      let last := if last =? 0 then elapsed else last in
      let h := h <| hist_last := <[ddir := last]> (hist_last h) |> in
      let this_window := u64 (elapsed - last) in
      modify (λ j, j <| clat_hist_log := Some h |>) ≫= λ _,
      if this_window <? hist_msec h then skip else
      plat ← try_get (λ j, plats ← io_u_plat (ts j) !! FIO_CLAT; plats !! ddir);
      log_run (hist_iolog h) (__add_log_sample (sample_plat plat) ddir b elapsed off prio)
        (λ l j, j <| clat_hist_log := Some (h <| hist_iolog := l |>
            <| hist_last := <[ddir := u64 (elapsed - (this_window - hist_msec h))]> (hist_last h) |>
            <| hist_samples := <[ddir := 0]> (hist_samples h) |>) |>)
  end.

Definition add_clat_sample (elapsed : Z) (ddir : nat) (nsec b off prio : Z) (clat_prio_index : nat) : J unit :=
  stat_at (add_stat_sample nsec) ddir clat_stat (λ s t, t <| clat_stat := s |>) ≫= λ _,
  t ← gets ts;
  (if lat_percentiles t then skip else on_ts (add_stat_prio_sample nsec ddir clat_prio_index)) ≫= λ _,
  l ← gets clat_log;
  m ← gets want_log_max;
  when_log l 0 (add_log_sample m elapsed nsec ddir b off prio) (λ l j, j <| clat_log := Some l |>) ≫= λ _,
  (if clat_percentiles t then
     on_ts (add_lat_percentile_sample nsec ddir FIO_CLAT) ≫= λ _,
     if lat_percentiles t then skip else on_ts (add_lat_percentile_prio_sample nsec ddir clat_prio_index)
   else skip) ≫= λ _,
  add_hist_sample elapsed ddir b off prio.

Definition add_slat_sample (elapsed : Z) (ddir : nat) (nsec b off prio : Z) : J unit :=
  if negb (ddir_rw ddir) then skip else
  stat_at (add_stat_sample nsec) ddir slat_stat (λ s t, t <| slat_stat := s |>) ≫= λ _,
  l ← gets slat_log;
  m ← gets want_log_max;
  when_log l 0 (add_log_sample m elapsed nsec ddir b off prio) (λ l j, j <| slat_log := Some l |>) ≫= λ _,
  t ← gets ts;
  if slat_percentiles t then on_ts (add_lat_percentile_sample nsec ddir FIO_SLAT) else skip.

Definition add_lat_sample (elapsed : Z) (ddir : nat) (nsec b off prio : Z) (clat_prio_index : nat) : J unit :=
  if negb (ddir_rw ddir) then skip else
  stat_at (add_stat_sample nsec) ddir lat_stat (λ s t, t <| lat_stat := s |>) ≫= λ _,
  l ← gets lat_log;
  m ← gets want_log_max;
  when_log l 0 (add_log_sample m elapsed nsec ddir b off prio) (λ l j, j <| lat_log := Some l |>) ≫= λ _,
  t ← gets ts;
  if lat_percentiles t then
    on_ts (add_lat_percentile_sample nsec ddir FIO_LAT) ≫= λ _,
    on_ts (add_lat_percentile_prio_sample nsec ddir clat_prio_index) ≫= λ _,
    on_ts (add_stat_prio_sample nsec ddir clat_prio_index)
  else skip.

(** ** Rates *)
Definition copy_at (ddir : nat) (src dst : list Z) : option (list Z) := into ddir ddir (λ s _, s) src dst.
Definition add_bw_sample (elapsed : Z) (ddir : nat) (bytes spent off prio : Z) : J unit :=
  let rate := if spent =? 0 then 0 else u64 (bytes * 1000000) / spent in
  stat_at (add_stat_sample rate) ddir bw_stat (λ s t, t <| bw_stat := s |>) ≫= λ _,
  l ← gets bw_log;
  m ← gets want_log_max;
  when_log l 0 (add_log_sample m elapsed rate ddir bytes off prio) (λ l j, j <| bw_log := Some l |>) ≫= λ _,
  try_mod (λ j, d ← copy_at ddir (this_io_bytes j) (stat_io_bytes j); Some (j <| stat_io_bytes := d |>)).
Definition add_iops_sample (elapsed : Z) (ddir : nat) (bytes off prio : Z) : J unit :=
  stat_at (add_stat_sample 1) ddir iops_stat (λ s t, t <| iops_stat := s |>) ≫= λ _,
  l ← gets iops_log;
  m ← gets want_log_max;
  when_log l 0 (add_log_sample m elapsed 1 ddir bytes off prio) (λ l j, j <| iops_log := Some l |>) ≫= λ _,
  try_mod (λ j, d ← copy_at ddir (this_io_blocks j) (stat_io_blocks j); Some (j <| stat_io_blocks := d |>)).

(** The rates of the interval of [spent] milliseconds that ends now: the bandwidth or the operations. *)
Definition rate_of (is_kb : bool) (delta spent : Z) : Z :=
  if spent =? 0 then 0 else if is_kb then u64 (delta * 1000) / spent / 1024 else u64 (delta * 1000) / spent.
Definition add_rate (is_kb : bool) (elapsed spent : Z) (ddir : nat) (next_log : Z) : J Z :=
  this ← try_get (λ j, (if is_kb then this_io_bytes j else this_io_blocks j) !! ddir);
  stat ← try_get (λ j, (if is_kb then stat_io_bytes j else stat_io_blocks j) !! ddir);
  let delta := u64 (this - stat) in
  if delta =? 0 then mret next_log else
  let rate := rate_of is_kb delta spent in
  (if is_kb then stat_at (add_stat_sample rate) ddir bw_stat (λ s t, t <| bw_stat := s |>)
   else stat_at (add_stat_sample rate) ddir iops_stat (λ s t, t <| iops_stat := s |>)) ≫= λ _,
  l ← gets (if is_kb then bw_log else iops_log);
  m ← gets want_log_max;
  lo ← try_get (λ j, min_bs j !! ddir);
  hi ← try_get (λ j, max_bs j !! ddir);
  next ← when_log l next_log (add_log_sample m elapsed rate ddir (if lo =? hi then lo else 0) 0 0)
           (λ l j, if is_kb then j <| bw_log := Some l |> else j <| iops_log := Some l |>);
  (if is_kb then try_mod (λ j, d ← copy_at ddir (this_io_bytes j) (stat_io_bytes j); Some (j <| stat_io_bytes := d |>))
   else try_mod (λ j, d ← copy_at ddir (this_io_blocks j) (stat_io_blocks j); Some (j <| stat_io_blocks := d |>))) ≫= λ _,
  mret (Z.min next_log next).
(** The time until the next call, and whether the interval ended (then the next one begins now). *)
Definition __add_samples (is_kb : bool) (elapsed spent avg_time : Z) : J (Z * bool) :=
  if (spent <? avg_time) && (LOG_MSEC_SLACK <? avg_time - spent) then mret (avg_time - spent, false) else
  next_log ← add_rate is_kb elapsed spent 0 avg_time;
  next_log ← add_rate is_kb elapsed spent 1 next_log;
  next_log ← add_rate is_kb elapsed spent 2 next_log;
  let next := if spent <=? avg_time then avg_time else u64 (avg_time - (1 + spent - avg_time)) in
  mret (Z.min next next_log, true).
Definition add_bw_samples (elapsed spent : Z) : J (Z * bool) := t ← gets bw_avg_time; __add_samples true elapsed spent t.
Definition add_iops_samples (elapsed spent : Z) : J (Z * bool) := t ← gets iops_avg_time; __add_samples false elapsed spent t.

(** ** Distributions *)
Definition between (lo hi x : Z) : bool := (lo <=? x) && (x <=? hi).
Definition lat_bucket (x : Z) : nat :=
  if between 750 999 x then 9 else if between 500 749 x then 8 else if between 250 499 x then 7 else if between 100 249 x then 6
  else if between 50 99 x then 5 else if between 20 49 x then 4 else if between 10 19 x then 3 else if between 4 9 x then 2
  else if between 2 3 x then 1 else 0.
Definition msec_bucket (x : Z) : nat := if 2000 <=? x then 11 else if between 1000 1999 x then 10 else lat_bucket x.
Definition count_at (i : nat) (l : list Z) : option (list Z) := at_ddir i (λ n, u64 (n + 1)) l.
Definition io_u_mark_lat_nsec (nsec : Z) (t : thread_stat) : option thread_stat :=
  guard (nsec < 1000);; n ← count_at (lat_bucket nsec) (io_u_lat_n t); Some (t <| io_u_lat_n := n |>).
Definition io_u_mark_lat_usec (usec : Z) (t : thread_stat) : option thread_stat :=
  guard (1 ≤ usec < 1000);; n ← count_at (lat_bucket usec) (io_u_lat_u t); Some (t <| io_u_lat_u := n |>).
Definition io_u_mark_lat_msec (msec : Z) (t : thread_stat) : option thread_stat :=
  guard (1 ≤ msec);; n ← count_at (msec_bucket msec) (io_u_lat_m t); Some (t <| io_u_lat_m := n |>).
Definition io_u_mark_latency (nsec : Z) (t : thread_stat) : option thread_stat :=
  if nsec <? 1000 then io_u_mark_lat_nsec nsec t
  else if nsec <? 1000000 then io_u_mark_lat_usec (nsec / 1000) t
  else io_u_mark_lat_msec (nsec / 1000000) t.

Definition map_bucket (nr : Z) : nat :=
  if between 33 64 nr then 5 else if between 17 32 nr then 4 else if between 9 16 nr then 3 else if between 5 8 nr then 2
  else if between 1 4 nr then 1 else if nr =? 0 then 0 else 6.
Definition io_u_mark_submit (nr : Z) (t : thread_stat) : option thread_stat :=
  m ← count_at (map_bucket nr) (io_u_submit t); Some (t <| io_u_submit := m |> <| total_submit := u64 (total_submit t + 1) |>).
Definition io_u_mark_complete (nr : Z) (t : thread_stat) : option thread_stat :=
  m ← count_at (map_bucket nr) (io_u_complete t); Some (t <| io_u_complete := m |> <| total_complete := u64 (total_complete t + 1) |>).
Definition depth_bucket (depth : Z) : nat :=
  if between 32 63 depth then 5 else if between 16 31 depth then 4 else if between 8 15 depth then 3 else if between 4 7 depth then 2
  else if between 2 3 depth then 1 else if depth =? 1 then 0 else 6.
Definition io_u_mark_depth (cur_depth nr : Z) (t : thread_stat) : option thread_stat :=
  m ← at_ddir (depth_bucket cur_depth) (λ n, u64 (n + nr)) (io_u_map t); Some (t <| io_u_map := m |>).
