(* ===== verification/JobSpec.v ===== *)
(** * Every latency of a job is counted once (src/fio4emu/stat.c, io_u.c)

    A latency goes to the statistics and, if its percentiles are wanted, to the
    histogram of its kind and direction, whatever happens to the logs; and to one class
    of the distribution of latencies. *)
From Stdlib Require Import SpecFloat.
From S2P Require Import Prelude CInt Latency LatencySpec Double Stat StatSpec IoLog IoLogSpec JobStat.
#[local] Open Scope Z_scope.

(** ** The distribution of latencies *)
Definition total (l : list Z) : Z := foldr Z.add 0 l.
Definition lat_total (t : thread_stat) : Z := total (io_u_lat_n t) + total (io_u_lat_u t) + total (io_u_lat_m t).
Definition counters (t : thread_stat) : Prop :=
  length (io_u_lat_n t) = FIO_IO_U_LAT_N_NR ∧ length (io_u_lat_u t) = FIO_IO_U_LAT_U_NR ∧ length (io_u_lat_m t) = FIO_IO_U_LAT_M_NR ∧
  Forall (Z.le 0) (io_u_lat_n t) ∧ Forall (Z.le 0) (io_u_lat_u t) ∧ Forall (Z.le 0) (io_u_lat_m t).

Lemma total_insert l i x y : l !! i = Some x → total (<[i := y]> l) = total l - x + y.
Proof.
  revert i. induction l as [|a l IH]; intros [|i] H; [done|done| |]; cbn in *.
  - injection H as ->. lia.
  - change (foldr Z.add 0 (<[i := y]> l)) with (total (<[i := y]> l)). rewrite IH by done. unfold total. lia.
Qed.
Lemma total_pos l : Forall (Z.le 0) l → 0 ≤ total l.
Proof. induction 1; cbn; [lia|]. unfold total in *. lia. Qed.
Lemma total_ge l i x : Forall (Z.le 0) l → l !! i = Some x → 0 ≤ x ≤ total l.
Proof.
  intros Hl. revert i. induction Hl as [|a l Ha Hl IH]; intros [|i] H; [done|done| |]; cbn in *.
  - injection H as ->. pose proof (total_pos l Hl). unfold total in *. lia.
  - specialize (IH i H). unfold total in *. lia.
Qed.
Lemma count_at_ok i l : (i < length l)%nat → Forall (Z.le 0) l → total l + 1 < 2 ^ 64 →
  ∃ l', count_at i l = Some l' ∧ length l' = length l ∧ Forall (Z.le 0) l' ∧ total l' = total l + 1.
Proof.
  intros Hi Hl Ht. destruct (lookup_lt_is_Some_2 l i Hi) as [x Hx]. unfold count_at, at_ddir. rewrite Hx. cbn [mbind option_bind].
  destruct (total_ge l i x Hl Hx). assert (u64 (x + 1) = x + 1) as -> by (apply wrap_small; split; lia).
  eexists. split; [reflexivity|]. split; [by rewrite length_insert|]. split; [by apply Forall_insert; [|lia]|].
  rewrite (total_insert l i x) by done. lia.
Qed.
Lemma lat_bucket_lt x : (lat_bucket x < 10)%nat.
Proof. unfold lat_bucket. repeat case_match; lia. Qed.
Lemma msec_bucket_lt x : (msec_bucket x < 12)%nat.
Proof. unfold msec_bucket. pose proof (lat_bucket_lt x). repeat case_match; lia. Qed.

(** Each latency is in one class of the distribution: [io_u_mark_latency] succeeds for
    every latency and adds one to one counter of nanoseconds, microseconds or
    milliseconds, as the latency is less than a microsecond, less than a millisecond or
    more; no other statistic changes. *)
Theorem mark_latency_once t nsec : counters t → 0 ≤ nsec → lat_total t + 1 < 2 ^ 64 →
  ∃ n u m, io_u_mark_latency nsec t = Some (t <| io_u_lat_n := n |> <| io_u_lat_u := u |> <| io_u_lat_m := m |>) ∧
    let t' := t <| io_u_lat_n := n |> <| io_u_lat_u := u |> <| io_u_lat_m := m |> in
    counters t' ∧ lat_total t' = lat_total t + 1 ∧
    (if nsec <? 1000 then u = io_u_lat_u t ∧ m = io_u_lat_m t
     else if nsec <? 1000000 then n = io_u_lat_n t ∧ m = io_u_lat_m t else n = io_u_lat_n t ∧ u = io_u_lat_u t).
Proof.
  intros (Hn & Hu & Hm & Pn & Pu & Pm) Hns Ht. unfold lat_total in *.
  pose proof (total_pos _ Pn). pose proof (total_pos _ Pu). pose proof (total_pos _ Pm). unfold io_u_mark_latency.
  destruct (Z.ltb_spec nsec 1000); [|destruct (Z.ltb_spec nsec 1000000)].
  - unfold io_u_mark_lat_nsec. rewrite option_guard_True by lia. cbn [mbind option_bind].
    destruct (count_at_ok (lat_bucket nsec) (io_u_lat_n t)) as (n & -> & Hl & Pl & Hs); [rewrite Hn; apply lat_bucket_lt|done|lia|].
    exists n, (io_u_lat_u t), (io_u_lat_m t). split; [by destruct t|]. cbn zeta. split; [|split; [|done]].
    + unfold counters. ts_fields. repeat split; congruence || done.
    + ts_fields. lia.
  - unfold io_u_mark_lat_usec. rewrite option_guard_True by dlia. cbn [mbind option_bind].
    destruct (count_at_ok (lat_bucket (nsec / 1000)) (io_u_lat_u t)) as (u & -> & Hl & Pl & Hs); [rewrite Hu; apply lat_bucket_lt|done|lia|].
    exists (io_u_lat_n t), u, (io_u_lat_m t). split; [by destruct t|]. cbn zeta. split; [|split; [|done]].
    + unfold counters. ts_fields. repeat split; congruence || done.
    + ts_fields. lia.
  - unfold io_u_mark_lat_msec. rewrite option_guard_True by dlia. cbn [mbind option_bind].
    destruct (count_at_ok (msec_bucket (nsec / 1000000)) (io_u_lat_m t)) as (m & -> & Hl & Pl & Hs); [rewrite Hm; apply msec_bucket_lt|done|lia|].
    exists (io_u_lat_n t), (io_u_lat_u t), m. split; [by destruct t|]. cbn zeta. split; [|split; [|done]].
    + unfold counters. ts_fields. repeat split; congruence || done.
    + ts_fields. lia.
Qed.
Lemma mark_latency_once_witness : counters init_thread_stat ∧ ∃ n u m,
  io_u_mark_latency 54321 init_thread_stat = Some (init_thread_stat <| io_u_lat_n := n |> <| io_u_lat_u := u |> <| io_u_lat_m := m |>).
Proof.
  assert (Hc : counters init_thread_stat) by (do 3 (split; [done|]); split; [|split]; apply Forall_replicate; done).
  split; [exact Hc|]. destruct (mark_latency_once init_thread_stat 54321 Hc) as (n & u & m & E & _); [done|done|]. by exists n, u, m.
Defined.

(** ** Steps on the statistics *)
Definition extended (xs : nat → list Z) (d : nat) (x : Z) (d' : nat) : list Z := if decide (d' = d) then xs d' ++ [x] else xs d'.
Lemma stats_add xs stats d x : stats_of xs stats → (d < DDIR_RWDIR_CNT)%nat → is_latency x → few (xs d ++ [x]) →
  ∃ stats', at_ddir d (add_stat_sample x) stats = Some stats' ∧ stats_of (extended xs d x) stats'.
Proof.
  intros Hs Hd Hx Hf. apply (family_at DDIR_RWDIR_CNT stat_of xs stats d (add_stat_sample x) [x] Hs Hd).
  intros a Ha. by apply add_stat_sample_ok.
Qed.
Lemma kinds_add xs kinds k d x : kinds_of xs kinds → (k < FIO_LAT_CNT)%nat → (d < DDIR_RWDIR_CNT)%nat → is_latency x → few (xs k d ++ [x]) →
  ∃ kinds', at_ddir_opt k (at_ddir_opt d (plat_count x)) kinds = Some kinds' ∧
    kinds_of (λ k', if decide (k' = k) then extended (xs k) d x else xs k') kinds'.
Proof.
  intros [Hl Hk] Hlt Hd Hx Hf. destruct (lookup_lt_is_Some_2 kinds k) as [plats Hp]; [lia|]. destruct (Hk k plats Hp) as [Hpl Hh].
  destruct (lookup_lt_is_Some_2 plats d) as [plat Hpd]; [lia|].
  destruct (plat_count_ok (xs k d) x plat (Hh d plat Hpd) Hx) as (plat' & E & Hh'); [rewrite length_app in Hf; cbn in Hf; lia|].
  assert (E1 : at_ddir_opt d (plat_count x) plats = Some (<[d := plat']> plats)) by (unfold at_ddir_opt; rewrite Hpd; cbn [mbind option_bind]; by rewrite E).
  unfold at_ddir_opt at 1. rewrite Hp. cbn [mbind option_bind]. rewrite E1. eexists. split; [reflexivity|].
  split; [by rewrite length_insert|]. intros k' plats' Hk'. case_decide; subst.
  - rewrite list_lookup_insert_eq in Hk' by lia. injection Hk' as <-. split; [by rewrite length_insert|].
    intros d' q Hq. unfold extended. case_decide; subst.
    + rewrite list_lookup_insert_eq in Hq by lia. by injection Hq as <-.
    + rewrite list_lookup_insert_ne in Hq by done. by apply Hh.
  - rewrite list_lookup_insert_ne in Hk' by done. by apply Hk.
Qed.
(** The entry of the priority of a request. *)
Definition prio_ready (d i : nat) (t : thread_stat) : Prop :=
  match clat_prio t !! d with
  | Some (Some es) => ∃ e, es !! i = Some e ∧ length (prio_plat e) = Z.to_nat FIO_IO_U_PLAT_NR
  | Some None => True
  | None => False
  end.
Lemma at_prio_ok d i f t : prio_ready d i t → prio_shaped (clat_prio t) →
  (∀ e, length (prio_plat e) = Z.to_nat FIO_IO_U_PLAT_NR → ∃ e', f e = Some e' ∧ length (prio_plat e') = Z.to_nat FIO_IO_U_PLAT_NR) →
  ∃ cp, at_prio d i f t = Some (with_prio t cp) ∧ prio_shaped cp ∧ prio_ready d i (with_prio t cp).
Proof.
  intros Hr [Hl Hn] Hf. unfold prio_ready in Hr. unfold at_prio. destruct (clat_prio t !! d) as [[es|]|] eqn:E; [| |done]; cbn [mbind option_bind].
  - destruct Hr as (e & He & Hel). destruct (Hf e Hel) as (e' & Ef & Hel'). unfold at_ddir_opt. rewrite He. cbn [mbind option_bind]. rewrite Ef. cbn [mbind option_bind].
    eexists. split; [reflexivity|]. assert (Hi := lookup_lt_Some _ _ _ He). split; [split|].
    + by rewrite length_insert.
    + apply Forall_insert; [done|]. intros [= H%(f_equal length)]. rewrite length_insert in H. cbn in H. lia.
    + unfold prio_ready, with_prio. ts_fields. rewrite list_lookup_insert_eq by (by apply lookup_lt_Some in E).
      exists e'. split; [by apply list_lookup_insert_eq|done].
  - exists (clat_prio t). split; [by destruct t|]. split; [done|]. unfold prio_ready, with_prio. ts_fields. by rewrite E.
Qed.
Lemma plat_count_total x plat : is_latency x → length plat = Z.to_nat FIO_IO_U_PLAT_NR →
  ∃ plat', plat_count x plat = Some plat' ∧ length plat' = Z.to_nat FIO_IO_U_PLAT_NR.
Proof.
  intros Hx Hl. pose proof (val_idx_range x Hx). unfold plat_count. rewrite option_guard_True by lia. cbn [mbind option_bind].
  destruct (zget_is_Some plat (plat_val_to_idx x)) as [n ->]; [lia|]. cbn [mbind option_bind].
  rewrite zset_is_Some by lia. eexists. split; [reflexivity|]. by rewrite length_insert.
Qed.
Lemma prio_plat_ok x d i t : is_latency x → prio_ready d i t → prio_shaped (clat_prio t) →
  ∃ cp, add_lat_percentile_prio_sample x d i t = Some (with_prio t cp) ∧ prio_shaped cp ∧ prio_ready d i (with_prio t cp).
Proof.
  intros Hx Hr Hs. apply at_prio_ok; [done..|]. intros e He. destruct (plat_count_total x _ Hx He) as (p & -> & Hp). by eexists.
Qed.
Lemma prio_stat_ok x d i t : prio_ready d i t → prio_shaped (clat_prio t) →
  ∃ cp, add_stat_prio_sample x d i t = Some (with_prio t cp) ∧ prio_shaped cp ∧ prio_ready d i (with_prio t cp).
Proof. intros Hr Hs. apply at_prio_ok; [done..|]. intros e He. by eexists. Qed.
Lemma counts_prio J t cp : counts J t → prio_shaped cp → counts J (with_prio t cp).
Proof. intros (? & ? & ? & ? & ? & ? & Hs) [? ?]. do 6 (split; [done|]). destruct Hs as (? & ? & ? & ? & ? & ? & ? & _). done. Qed.
Lemma counts_prio_shaped J t : counts J t → prio_shaped (clat_prio t).
Proof. intros (_ & _ & _ & _ & _ & _ & Hs). by destruct Hs as (_ & _ & _ & _ & _ & _ & _ & ? & ?). Qed.

(** ** Logs do not matter *)
(** A window of samples up to 2^63: its mean is a number in that range. *)
Definition window_fine (s : io_stat) : Prop :=
  mean_ok (mean s) ∧ 0 ≤ samples s < 2 ^ 64 ∧ (samples s = 0 → sv (mean s) = 0).

Lemma window_mean x s : window_fine s → 0 ≤ x ≤ 2 ^ 63 → mean_ok (mean (add_stat_sample x s)).
Proof.
  intros (Hm & Hn & H0) Hx. unfold add_stat_sample. destruct (negb _); [|done]. by apply mean_step.
Qed.
Lemma window_add x s : window_fine s → 0 ≤ x ≤ 2 ^ 63 → samples s + 1 < 2 ^ 64 → window_fine (add_stat_sample x s).
Proof.
  intros Hw Hx Hs. split; [by apply window_mean|]. destruct Hw as (_ & Hn & _).
  assert (samples (add_stat_sample x s) = samples s + 1) as ->; [|split; lia].
  assert (u64 (samples s + 1) = samples s + 1) as <- by (apply wrap_small; split; lia). unfold add_stat_sample. by destruct (negb _).
Qed.
Lemma window_empty : window_fine reset_io_stat ∧ window_fine zero_stat.
Proof. assert (mean_ok (dbl_of 0)) by (split; [done|]; pose proof (scale_pos 63); cbn; lia). by split. Qed.

(** A log that is set up, with room for what waits.  A log of averages gets the largest value
    of a window, or the mean of samples up to 2^63: the mean of larger ones may not fit in
    64 bits, where C has no result. *)
Definition log_fine (want_max : bool) (val : Z) (l : io_log) : Prop :=
  (∃ lj, wf l lj) ∧ length (avg_last l) = DDIR_RWDIR_CNT ∧ length (avg_window l) = DDIR_RWDIR_CNT ∧
  (∀ p, pending l = Some p → nr_samples p < max_samples p) ∧
  (avg_msec l = 0 ∨ want_max = true ∨ 0 ≤ val ≤ 2 ^ 63 ∧ Forall window_fine (avg_window l)).
Lemma add_stat_to_log_total w j ddir elapsed m win : wf (iolog w) j → length (avg_last (iolog w)) = DDIR_RWDIR_CNT →
  avg_window (iolog w) !! ddir = Some win → m = true ∨ mean_ok (mean win) →
  ddir_rw ddir = true → (∀ p, pending (iolog w) = Some p → nr_samples p < max_samples p) →
  ∃ w', __add_stat_to_log ddir elapsed m w = Some (tt, w') ∧ length (avg_last (iolog w')) = DDIR_RWDIR_CNT.
Proof.
  intros Hw Hl Ewin Hm Hd Hp. unfold __add_stat_to_log.
  rewrite (try_get_bind _ _ _ win) by done. destruct (samples win =? 0).
  - erewrite bind_run by reflexivity. erewrite try_mod_run by (unfold at_ddir; rewrite Ewin; reflexivity). by eexists.
  - assert (∃ v, (if m then Some (max_val win) else dbl_to_u64 (fadd (mean win) (fdiv (dbl_of 1) (dbl_of 2)))) = Some v) as [v Ev].
    { destruct m; [by eexists|]. destruct Hm as [|Hm]; [done|]. by apply mean_converts. }
    destruct (add_sample_ok w j (sample_val v) ddir 0 elapsed 0 0 Hw Hl Hd Hp) as (w1 & E1 & _ & S1 & A1 & _).
    erewrite bind_run by (rewrite (try_get_bind _ _ _ v) by done; exact E1).
    assert (Ew : avg_window (iolog w1) = avg_window (iolog w)) by (unfold settings in S1; congruence).
    erewrite try_mod_run by (unfold at_ddir; rewrite Ew, Ewin; reflexivity). by eexists.
Qed.
Lemma add_log_sample_total m l elapsed val d b off prio w : log_fine m val l → ddir_rw d = true → iolog w = l →
  ∃ r w', add_log_sample m elapsed val d b off prio w = Some (r, w').
Proof.
  intros ([lj Hw] & Hl & Hwin & Hp & Hm) Hd <-. assert (Hlt : (d < DDIR_RWDIR_CNT)%nat) by (unfold ddir_rw, DDIR_RWDIR_CNT in *; lia).
  unfold add_log_sample. rewrite Hd. cbn [negb]. erewrite bind_run by reflexivity. destruct (Z.eqb_spec (avg_msec (iolog w)) 0) as [E|E].
  { destruct (add_sample_ok w lj (sample_val val) d b elapsed off prio Hw Hl Hd Hp) as (w1 & E1 & _).
    rewrite (bind_run _ _ _ _ _ E1). by eexists _, _. }
  destruct Hm as [?|Hm]; [done|]. destruct (lookup_lt_is_Some_2 (avg_window (iolog w)) d) as [win Ewin]; [lia|].
  destruct (lookup_lt_is_Some_2 (avg_last (iolog w)) d) as [last Elast]; [lia|].
  erewrite bind_run by (apply try_mod_run; unfold at_ddir; rewrite Ewin; reflexivity).
  rewrite (try_get_bind _ _ _ last) by done. destruct (elapsed <? last); [by eexists _, _|]. destruct (_ && _); [by eexists _, _|].
  match goal with |- ∃ r w', (_ ≫= _) ?w1 = _ => destruct (add_stat_to_log_total w1 lj d elapsed m (add_stat_sample val win)) as (w2 & E2 & A2) end;
    [by apply wf_windows|done|apply list_lookup_insert_eq; lia| |done|done|].
  { destruct Hm as [Hm|[Hv Hf]]; [by left|right]. apply window_mean; [|done]. by eapply Forall_lookup_1. }
  rewrite (bind_run _ _ _ _ _ E2). destruct (lookup_lt_is_Some_2 (avg_last (iolog w2)) d) as [y Hy]; [lia|].
  erewrite bind_run by (apply try_mod_run; unfold at_ddir; rewrite Hy; reflexivity). by eexists _, _.
Qed.

(** ** Latencies *)
Definition add_kind (k : nat) (elapsed : Z) (d : nat) (nsec b off prio : Z) (i : nat) : M job unit :=
  match k with
  | O => add_slat_sample elapsed d nsec b off prio
  | 1%nat => add_clat_sample elapsed d nsec b off prio i
  | _ => add_lat_sample elapsed d nsec b off prio i
  end.
Definition in_histogram (k : nat) (t : thread_stat) : bool :=
  match k with O => slat_percentiles t | 1%nat => clat_percentiles t | _ => lat_percentiles t end.
Definition extend_kind (k d : nat) (x : Z) (xs : nat → nat → list Z) (k' : nat) : nat → list Z :=
  if decide (k' = k) then extended (xs k) d x else xs k'.
Definition with_sample (k d : nat) (x : Z) (hist : bool) (J : job_samples) : job_samples :=
  JobSamples (extend_kind k d x (of_lat J)) (if hist then extend_kind k d x (in_plat J) else in_plat J) (of_sync J) (in_sync J).

Definition hist_fine (d : nat) (h : option hist_log) : Prop :=
  match h with
  | None => True
  | Some h => length (hist_samples h) = DDIR_RWDIR_CNT ∧ length (hist_last h) = DDIR_RWDIR_CNT ∧ (∃ lj, wf (hist_iolog h) lj) ∧
      length (avg_last (hist_iolog h)) = DDIR_RWDIR_CNT ∧
      ∀ p, pending (hist_iolog h) = Some p → nr_samples p < max_samples p
  end.
Definition job_fine (d i : nat) (x : Z) (j : job) : Prop :=
  (∀ l, slat_log j = Some l ∨ clat_log j = Some l ∨ lat_log j = Some l → log_fine (want_log_max j) x l) ∧
  hist_fine d (clat_hist_log j) ∧ prio_ready d i (ts j).

(** What a log operation leaves alone. *)
Definition same_stats (j j' : job) : Prop := ts j' = ts j ∧ clat_hist_log j' = clat_hist_log j.
Lemma when_log_ok l put j elapsed val d b off prio : (∀ l', l = Some l' → log_fine (want_log_max j) val l') → ddir_rw d = true →
  (∀ l' j', same_stats j' (put l' j')) →
  ∃ r j', when_log l 0 (add_log_sample (want_log_max j) elapsed val d b off prio) put j = Some (r, j') ∧ same_stats j j'.
Proof.
  intros Hl Hd Hput. destruct l as [l|]; [|by eexists _, j]. cbn [when_log]. unfold log_run.
  destruct (add_log_sample_total (want_log_max j) l elapsed val d b off prio (LogWorld l (flag j) (mem j) (wq j)) (Hl l eq_refl) Hd eq_refl)
    as (r & w & ->). cbn [mbind option_bind]. eexists r, _. split; [reflexivity|].
  split; [exact (proj1 (Hput _ _))|exact (proj2 (Hput _ _))].
Qed.
Lemma on_ts_run f j t : f (ts j) = Some t → on_ts f j = Some (tt, j <| ts := t |>).
Proof. intros E. unfold on_ts. apply try_mod_run. by rewrite E. Qed.
Lemma add_hist_ok elapsed d b off prio J j : hist_fine d (clat_hist_log j) → (d < DDIR_RWDIR_CNT)%nat → counts J (ts j) → ddir_rw d = true →
  ∃ j', add_hist_sample elapsed d b off prio j = Some (tt, j') ∧ ts j' = ts j.
Proof.
  intros Hh Hd Hc Hdd. unfold add_hist_sample. erewrite bind_run by reflexivity. destruct (clat_hist_log j) as [h|] eqn:Eh; [|by exists j].
  destruct Hh as (Hs & Hl & [lj Hw] & Ha & Hp). destruct (hist_msec h =? 0); [by exists j|].
  destruct (lookup_lt_is_Some_2 (hist_samples h) d) as [n En]; [lia|]. destruct (lookup_lt_is_Some_2 (hist_last h) d) as [la El]; [lia|].
  rewrite (try_get_bind _ _ _ n) by done. rewrite (try_get_bind _ _ _ la) by done. cbn [hist_last hist_msec set_field_of].
  erewrite bind_run by reflexivity. destruct (_ <? _); [by eexists|].
  destruct Hc as (_ & _ & _ & _ & [Hk Hkp] & _). destruct (lookup_lt_is_Some_2 (io_u_plat (ts j)) FIO_CLAT) as [plats Epl]; [unfold FIO_CLAT; unfold FIO_LAT_CNT in Hk; lia|].
  destruct (Hkp _ _ Epl) as [Hpl _]. destruct (lookup_lt_is_Some_2 plats d) as [plat Epd]; [lia|].
  rewrite (try_get_bind _ _ _ plat) by (cbn [ts set_field_of]; rewrite Epl; exact Epd).
  unfold log_run. match goal with |- context [__add_log_sample ?dt ?dd ?bb ?e ?o ?p ?w] =>
    destruct (add_sample_ok w lj dt dd bb e o p) as (w' & -> & _) end; [done..|]. cbn [mbind option_bind]. by eexists.
Qed.

Lemma counts_stat k d x J t : counts J t → (k < FIO_LAT_CNT)%nat → (d < DDIR_RWDIR_CNT)%nat → is_latency x → few (of_lat J k d ++ [x]) →
  ∃ stats', at_ddir d (add_stat_sample x) (match k with O => slat_stat t | 1%nat => clat_stat t | _ => lat_stat t end) = Some stats' ∧
    counts (with_sample k d x false J) (match k with O => t <| slat_stat := stats' |> | 1%nat => t <| clat_stat := stats' |> | _ => t <| lat_stat := stats' |> end).
Proof.
  intros (Hs & Hc & Hl & Hsync & Hp & Hps & Hsh) Hk Hd Hx Hf. unfold FIO_LAT_CNT in Hk.
  assert (Hst : stats_of (of_lat J k) (match k with O => slat_stat t | 1%nat => clat_stat t | _ => lat_stat t end)).
  { destruct k as [|[|[|k]]]; [done..|lia]. }
  destruct (stats_add _ _ d x Hst Hd Hx Hf) as (stats' & E & Hst'). exists stats'. split; [exact E|].
  destruct k as [|[|[|k]]]; [..|lia]; repeat (split; [done|]); done.
Qed.
Lemma counts_plat k d x J t : counts J t → (k < FIO_LAT_CNT)%nat → (d < DDIR_RWDIR_CNT)%nat → is_latency x → few (in_plat J k d ++ [x]) →
  ∃ t', add_lat_percentile_sample x d k t = Some t' ∧
    counts (JobSamples (of_lat J) (extend_kind k d x (in_plat J)) (of_sync J) (in_sync J)) t' ∧
    clat_prio t' = clat_prio t.
Proof.
  intros (Hs & Hc & Hl & Hsync & Hp & Hps & Hsh) Hk Hd Hx Hf. destruct (kinds_add _ _ k d x Hp Hk Hd Hx Hf) as (kinds' & E & Hk').
  unfold add_lat_percentile_sample. rewrite E. eexists. split; [reflexivity|]. split; [|done].
  do 4 (split; [done|]). split; [exact Hk'|]. done.
Qed.

Lemma stat_at_run d x (get : thread_stat → list io_stat) put j stats : at_ddir d (add_stat_sample x) (get (ts j)) = Some stats →
  stat_at (add_stat_sample x) d get put j = Some (tt, j <| ts := put stats (ts j) |>).
Proof. intros E. unfold stat_at. apply on_ts_run. by rewrite E. Qed.

Section Counted.
Context (J : job_samples) (j : job) (elapsed : Z) (d : nat) (x b off prio : Z) (i : nat).
Context (Hc : counts J (ts j)) (Hj : job_fine d i x j) (Hdd : ddir_rw d = true) (Hx : is_latency x).
Context (Hf : ∀ k, few (of_lat J k d ++ [x]) ∧ few (in_plat J k d ++ [x])).

Lemma d_lt : (d < DDIR_RWDIR_CNT)%nat.
Proof using Hdd. unfold ddir_rw, DDIR_RWDIR_CNT in *; lia. Qed.
(** The first two steps: the statistic, then the log. *)
Lemma stat_then_log k (get : thread_stat → list io_stat) put (Hk : (k < FIO_LAT_CNT)%nat)
  (Hget : get (ts j) = match k with O => slat_stat (ts j) | 1%nat => clat_stat (ts j) | _ => lat_stat (ts j) end) :
  ∃ stats, stat_at (add_stat_sample x) d get put j = Some (tt, j <| ts := put stats (ts j) |>) ∧
    counts (with_sample k d x false J) (match k with O => (ts j) <| slat_stat := stats |> | 1%nat => (ts j) <| clat_stat := stats |> | _ => (ts j) <| lat_stat := stats |> end).
Proof using Hc Hdd Hx Hf.
  destruct (counts_stat k d x J (ts j) Hc Hk d_lt Hx (proj1 (Hf k))) as (stats & E & Hs). rewrite <- Hget in E.
  exists stats. split; [by apply stat_at_run|exact Hs].
Qed.

Lemma slat_counted : ∃ j', add_slat_sample elapsed d x b off prio j = Some (tt, j') ∧ counts (with_sample 0 d x (slat_percentiles (ts j)) J) (ts j').
Proof using Hc Hj Hdd Hx Hf.
  destruct Hj as (Hl & _ & _). unfold add_slat_sample. rewrite Hdd. cbn [negb].
  destruct (stat_then_log 0 slat_stat (λ s t, t <| slat_stat := s |>) ) as (stats & E & H1); [unfold FIO_LAT_CNT; lia|done|].
  rewrite (bind_run _ _ _ _ _ E). set (j1 := j <| ts := _ |>). erewrite bind_run by reflexivity. erewrite bind_run by reflexivity.
  destruct (when_log_ok (slat_log j1) (λ l j, j <| slat_log := Some l |>) j1 elapsed x d b off prio) as (r & j2 & E2 & T2 & _);
    [intros l El; apply Hl; by left|done|by split|].
  rewrite (bind_run _ _ _ _ _ E2). erewrite bind_run by reflexivity. rewrite T2. cbn [j1 ts set_field_of slat_percentiles].
  destruct (slat_percentiles (ts j)).
  - destruct (counts_plat 0 d x _ _ H1) as (t' & Et & Ht & _); [unfold FIO_LAT_CNT; lia|apply d_lt|done|apply Hf|].
    rewrite (on_ts_run _ j2 t') by (rewrite T2; exact Et). eexists. split; [reflexivity|]. exact Ht.
  - exists j2. split; [done|]. rewrite T2. exact H1.
Qed.

Lemma lat_counted : ∃ j', add_lat_sample elapsed d x b off prio i j = Some (tt, j') ∧ counts (with_sample 2 d x (lat_percentiles (ts j)) J) (ts j').
Proof using Hc Hj Hdd Hx Hf.
  destruct Hj as (Hl & _ & Hp). unfold add_lat_sample. rewrite Hdd. cbn [negb].
  destruct (stat_then_log 2 lat_stat (λ s t, t <| lat_stat := s |>) ) as (stats & E & H1); [unfold FIO_LAT_CNT; lia|done|].
  rewrite (bind_run _ _ _ _ _ E). set (j1 := j <| ts := _ |>). erewrite bind_run by reflexivity. erewrite bind_run by reflexivity.
  destruct (when_log_ok (lat_log j1) (λ l j, j <| lat_log := Some l |>) j1 elapsed x d b off prio) as (r & j2 & E2 & T2 & _);
    [intros l El; apply Hl; auto|done|by split|].
  rewrite (bind_run _ _ _ _ _ E2). erewrite bind_run by reflexivity. rewrite T2. cbn [j1 ts set_field_of lat_percentiles].
  destruct (lat_percentiles (ts j)); [|exists j2; split; [done|]; rewrite T2; exact H1].
  destruct (counts_plat 2 d x _ _ H1) as (t' & Et & Ht & Ecp); [unfold FIO_LAT_CNT; lia|apply d_lt|done|apply Hf|].
  erewrite bind_run by (apply on_ts_run; rewrite T2; exact Et). assert (Hp' : prio_ready d i t') by (unfold prio_ready; rewrite Ecp; exact Hp).
  destruct (prio_plat_ok x d i t' Hx Hp' (counts_prio_shaped _ _ Ht)) as (cp & Ec & Hcp & Hp2).
  erewrite bind_run by (apply on_ts_run; exact Ec).
  destruct (prio_stat_ok x d i (with_prio t' cp) Hp2 Hcp) as (cp2 & Ec2 & Hcp2 & _).
  rewrite (on_ts_run _ _ (with_prio (with_prio t' cp) cp2)) by exact Ec2. eexists. split; [reflexivity|].
  apply counts_prio; [|done]. apply counts_prio; [|done]. exact Ht.
Qed.

Lemma clat_counted : ∃ j', add_clat_sample elapsed d x b off prio i j = Some (tt, j') ∧ counts (with_sample 1 d x (clat_percentiles (ts j)) J) (ts j').
Proof using Hc Hj Hdd Hx Hf.
  destruct Hj as (Hl & Hh & Hp). unfold add_clat_sample.
  destruct (stat_then_log 1 clat_stat (λ s t, t <| clat_stat := s |>)) as (stats & E & H1); [unfold FIO_LAT_CNT; lia|done|].
  rewrite (bind_run _ _ _ _ _ E). set (t1 := (ts j) <| clat_stat := stats |>) in *. set (j1 := j <| ts := t1 |>). erewrite bind_run by reflexivity.
  change (ts j1) with t1. change (lat_percentiles t1) with (lat_percentiles (ts j)). change (clat_percentiles t1) with (clat_percentiles (ts j)).
  (* the entry of the priority *)
  assert (∃ t2, (if lat_percentiles (ts j) then skip else on_ts (add_stat_prio_sample x d i)) j1 = Some (tt, j1 <| ts := t2 |>) ∧
    counts (with_sample 1 d x false J) t2 ∧ prio_ready d i t2) as (t2 & E2 & H2 & P2).
  { destruct (lat_percentiles (ts j)); [by exists t1|].
    destruct (prio_stat_ok x d i t1 Hp (counts_prio_shaped _ _ H1)) as (cp & Ec & Hcp & Hp2).
    exists (with_prio t1 cp). split; [by apply on_ts_run|]. split; [by apply counts_prio|done]. }
  rewrite (bind_run _ _ _ _ _ E2). set (j2 := j1 <| ts := t2 |>). erewrite bind_run by reflexivity. erewrite bind_run by reflexivity.
  destruct (when_log_ok (clat_log j2) (λ l j, j <| clat_log := Some l |>) j2 elapsed x d b off prio) as (r & j3 & E3 & T3 & H3);
    [intros l El; apply Hl; auto|done|by split|].
  rewrite (bind_run _ _ _ _ _ E3). change (ts j2) with t2 in T3. change (clat_hist_log j2) with (clat_hist_log j) in H3.
  (* the histograms *)
  assert (∃ t4, (if clat_percentiles (ts j) then on_ts (add_lat_percentile_sample x d FIO_CLAT) ≫= λ _,
      if lat_percentiles (ts j) then skip else on_ts (add_lat_percentile_prio_sample x d i) else skip) j3 = Some (tt, j3 <| ts := t4 |>) ∧
    counts (with_sample 1 d x (clat_percentiles (ts j)) J) t4) as (t4 & E4 & H4).
  { destruct (clat_percentiles (ts j)); [|exists t2; split; [rewrite <- T3; by destruct j3|done]].
    destruct (counts_plat 1 d x _ _ H2) as (t' & Et & Ht & Ecp); [unfold FIO_LAT_CNT; lia|apply d_lt|done|apply Hf|].
    erewrite bind_run by (apply on_ts_run; rewrite T3; exact Et).
    destruct (lat_percentiles (ts j)); [by exists t'|]. assert (Hp' : prio_ready d i t') by (unfold prio_ready; rewrite Ecp; exact P2).
    destruct (prio_plat_ok x d i t' Hx Hp' (counts_prio_shaped _ _ Ht)) as (cp & Ec & Hcp & _).
    exists (with_prio t' cp). split; [exact (on_ts_run _ (j3 <| ts := t' |>) _ Ec)|]. by apply counts_prio. }
  rewrite (bind_run _ _ _ _ _ E4).
  assert (Hh3 : hist_fine d (clat_hist_log (j3 <| ts := t4 |>))) by (change (hist_fine d (clat_hist_log j3)); by rewrite H3).
  destruct (add_hist_ok elapsed d b off prio _ (j3 <| ts := t4 |>) Hh3 d_lt H4 Hdd) as (j5 & E5 & T5).
  exists j5. split; [exact E5|]. rewrite T5. exact H4.
Qed.
End Counted.

(** C36. Every latency is counted once: for each kind of latency [k] (submission,
    completion, total), when the statistics of a job count the samples [J] and its logs
    are set up, [add_slat_sample], [add_clat_sample] and [add_lat_sample] succeed and the
    statistics then count one sample more, in its direction and kind, in the histogram
    exactly if the percentiles of that kind are wanted.  Of a log [job_fine] asks that it has
    room for one more waiting sample, if samples of it wait; it may grow, run out of memory
    or be switched off, and it may average, by the largest value of a window or by the mean:
    the mean of latencies up to 2^63 stays in that range, with the rounding of the doubles,
    and can be converted; a log that averages larger ones by their mean is excluded. *)
Theorem latencies_counted k J j elapsed d x b off prio i :
  (k < FIO_LAT_CNT)%nat → counts J (ts j) → job_fine d i x j → ddir_rw d = true → is_latency x →
  (∀ k, few (of_lat J k d ++ [x]) ∧ few (in_plat J k d ++ [x])) →
  ∃ j', add_kind k elapsed d x b off prio i j = Some (tt, j') ∧ counts (with_sample k d x (in_histogram k (ts j)) J) (ts j').
Proof.
  intros Hk Hc Hj Hdd Hx Hf. destruct k as [|[|[|k]]]; [| | |by unfold FIO_LAT_CNT in Hk; lia]; cbn [add_kind in_histogram].
  - by apply (slat_counted J j elapsed d x b off prio i).
  - by apply clat_counted.
  - by apply lat_counted.
Qed.
Definition plain_job : job := Job (init_thread_stat <| clat_percentiles := true |>) None None None None None None false false [] [] (zeros 3) (zeros 3) (zeros 3) (zeros 3) 500 500 (zeros 3) (zeros 3).
(** With a log of completion latencies that averages by the mean over half a second. *)
Definition demo_log : io_log := setup_log (Some (LogJob 1024 false 0 false 8)) IO_LOG_TYPE_CLAT 500 0 0 false false.
Definition averaging_job : job := plain_job <| clat_log := Some demo_log |>.
Lemma demo_log_fine : log_fine false 54321 demo_log.
Proof.
  split; [exists (LogJob 1024 false 0 false 8); apply setup_log_wf; [by vm_compute|intros _; by vm_compute]|].
  do 2 (split; [done|]). split; [intros p [= <-]; by vm_compute|]. do 2 right. split; [lia|].
  apply Forall_replicate, window_empty.
Qed.
Lemma latencies_counted_witness : counts no_samples (ts averaging_job) ∧ want_log_max averaging_job = false ∧
  ∃ j', add_kind FIO_CLAT 1000 1 54321 4096 0 0 0 averaging_job = Some (tt, j') ∧ counts (with_sample FIO_CLAT 1 54321 true no_samples) (ts j').
Proof.
  assert (Hc : counts no_samples (ts averaging_job)) by apply init_counts. split; [exact Hc|]. split; [done|].
  apply (latencies_counted FIO_CLAT no_samples averaging_job 1000 1 54321 4096 0 0 0 ltac:(unfold FIO_CLAT, FIO_LAT_CNT; lia) Hc); [|done|by split|done].
  split; [intros l [?|[[= <-]|?]]; [done|exact demo_log_fine|done]|]. split; [done|]. done.
Defined.
