(* ===== verification/BlockInfo.v ===== *)
(** * Lifetimes of blocks (src/fio4emu/stat.c, stat.h, io_u.c, iolog.c)

    With [block_error_hist] a word is kept for each block that is trimmed: its state
    in the three highest bits and the number of its trims below.  A failed [assert] and
    an access outside of an array have no result. *)
From Stdlib Require Import SpecFloat.
From S2P Require Import Prelude CInt Latency.
#[local] Open Scope Z_scope.

Definition MAX_NR_BLOCK_INFOS : Z := 8192.
Definition BLOCK_INFO_STATE_SHIFT : Z := 29.
Definition BLOCK_INFO_TRIMS (block_info : Z) : Z := Z.land block_info (Z.shiftl 1 BLOCK_INFO_STATE_SHIFT - 1).
Definition BLOCK_INFO_STATE (block_info : Z) : Z := Z.shiftr block_info BLOCK_INFO_STATE_SHIFT.
Definition BLOCK_INFO (state trim_cycles : Z) : Z := Z.lor trim_cycles (u32 (Z.shiftl (u32 state) BLOCK_INFO_STATE_SHIFT)).
Definition BLOCK_INFO_SET_STATE (block_info state : Z) : Z := BLOCK_INFO state (BLOCK_INFO_TRIMS block_info).
Definition BLOCK_STATE_UNINIT : Z := 0.
Definition BLOCK_STATE_TRIMMED : Z := 1.
Definition BLOCK_STATE_WRITTEN : Z := 2.
Definition BLOCK_STATE_TRIM_FAILURE : Z := 3.
Definition BLOCK_STATE_WRITE_FAILURE : Z := 4.
Definition BLOCK_STATE_COUNT : nat := 5.

(** ** What happens to a block *)
Definition trim_block_info (info : Z) : Z :=
  if BLOCK_STATE_TRIM_FAILURE <=? BLOCK_INFO_STATE info then info
  else BLOCK_INFO BLOCK_STATE_TRIMMED (u32 (BLOCK_INFO_TRIMS info + 1)).
(** The part of [unlog_io_piece]: a trim or a write of the block has failed. *)
Definition unlog_block_info (is_trim is_write : bool) (info : Z) : Z :=
  if BLOCK_INFO_STATE info <? BLOCK_STATE_TRIM_FAILURE then
    if is_trim then BLOCK_INFO_SET_STATE info BLOCK_STATE_TRIM_FAILURE
    else if is_write then BLOCK_INFO_SET_STATE info BLOCK_STATE_WRITE_FAILURE else info
  else info.
(** The block of a request in the array of [nr_block_infos] words. *)
Definition io_u_block_info (offset file_offset bs nr_block_infos : Z) : option Z :=
  guard (bs ≠ 0);; let idx := u64 (offset - file_offset) / bs in guard (idx < nr_block_infos);; Some idx.

(** ** Order *)
(** To a signed [int]. *)
Definition to_int (x : Z) : Z := let y := u32 x in if y <? 2 ^ 31 then y else y - 2 ^ 32.
Definition block_state_category (block_state : Z) : option Z :=
  if block_state =? BLOCK_STATE_UNINIT then Some 0
  else if (block_state =? BLOCK_STATE_TRIMMED) || (block_state =? BLOCK_STATE_WRITTEN) then Some 1
  else if (block_state =? BLOCK_STATE_WRITE_FAILURE) || (block_state =? BLOCK_STATE_TRIM_FAILURE) then Some 2
  else None.
(** The 64-bit words at the two pointers are compared. *)
Definition compare_block_infos (block1 block2 : Z) : option Z :=
  let state1 := to_int (BLOCK_INFO_STATE block1) in
  let state2 := to_int (BLOCK_INFO_STATE block2) in
  bscat1 ← block_state_category state1;
  bscat2 ← block_state_category state2;
  let cycles1 := BLOCK_INFO_TRIMS block1 in
  let cycles2 := BLOCK_INFO_TRIMS block2 in
  if bscat1 <? bscat2 then Some (-1) else if bscat2 <? bscat1 then Some 1
  else if cycles1 <? cycles2 then Some (-1) else if cycles2 <? cycles1 then Some 1
  else if state1 <? state2 then Some (-1) else if state2 <? state1 then Some 1
  else guard (block1 = block2);; Some 0.
(** The word at element [i] of an array of 32-bit words takes in the next element. *)
Definition load64 (infos : list Z) (i : nat) : option Z := lo ← infos !! i; hi ← infos !! S i; Some (lo + 2 ^ 32 * hi).

(** ** Percentiles of the lifetimes, after [qsort] has put the words in order *)
Fixpoint uninit_run (nr : nat) (infos : list Z) : nat :=
  match nr, infos with
  | S nr, info :: infos => if BLOCK_INFO_STATE info =? BLOCK_STATE_UNINIT then S (uninit_run nr infos) else 0
  | _, _ => 0
  end.
Definition percentile_index (p : dbl) (nr nr_uninit : Z) : option Z :=
  dbl_to_u64 (fadd (fdiv (fmul p (dbl_of (nr - nr_uninit))) (dbl_of 100)) (dbl_of nr_uninit)).
Definition count_state (types : list Z) (info : Z) : option (list Z) :=
  n ← zget types (BLOCK_INFO_STATE info); zset types (BLOCK_INFO_STATE info) (u32 (n + 1)).
(** The values of the percentiles and the numbers of blocks in each state; nothing without percentiles or used blocks. *)
Definition calc_block_percentiles (nr_block_infos : nat) (block_infos : list Z) (plist : list dbl) : option (list Z * list Z) :=
  let plist := sorted_plist plist in
  let nr_uninit := uninit_run nr_block_infos block_infos in
  if (length plist =? 0)%nat || (nr_uninit =? nr_block_infos)%nat then Some ([], []) else
  percentiles ← mapM (λ p, idx ← percentile_index p (Z.of_nat nr_block_infos) (Z.of_nat nr_uninit);
                           info ← zget block_infos idx; Some (BLOCK_INFO_TRIMS info)) plist;
  types ← foldl (λ types info, types ≫= λ t, count_state t info) (Some (replicate BLOCK_STATE_COUNT 0)) (take nr_block_infos block_infos);
  Some (percentiles, types).

(** ** Properties *)
Lemma trims_mod x : BLOCK_INFO_TRIMS x = x mod 2 ^ 29.
Proof. unfold BLOCK_INFO_TRIMS. change (Z.shiftl 1 BLOCK_INFO_STATE_SHIFT - 1) with (Z.ones 29). apply Z.land_ones. lia. Qed.
Lemma state_div x : BLOCK_INFO_STATE x = x / 2 ^ 29.
Proof. unfold BLOCK_INFO_STATE. by rewrite Z.shiftr_div_pow2. Qed.
Lemma info_sum s t : 0 ≤ s < 8 → 0 ≤ t < 2 ^ 29 → BLOCK_INFO s t = s * 2 ^ 29 + t.
Proof.
  intros Hs Ht. unfold BLOCK_INFO. rewrite (u32_small s) by lia. rewrite Z.shiftl_mul_pow2 by (unfold BLOCK_INFO_STATE_SHIFT; lia).
  change (2 ^ BLOCK_INFO_STATE_SHIFT) with (2 ^ 29). rewrite u32_small by lia. rewrite Z.lor_comm. symmetry. apply Z.add_nocarry_lor.
  apply Z.bits_inj'. intros n Hn. rewrite Z.land_spec, Z.bits_0, <- Z.shiftl_mul_pow2, Z.shiftl_spec by lia.
  destruct (decide (n < 29)); [by rewrite Z.testbit_neg_r by lia|]. rewrite (testbit_high 29 t) by (split || lia; lia). apply andb_false_r.
Qed.

(** State and trims of a word can be read back. *)
Lemma block_info_fields s t : 0 ≤ s < 8 → 0 ≤ t < 2 ^ 29 → BLOCK_INFO_STATE (BLOCK_INFO s t) = s ∧ BLOCK_INFO_TRIMS (BLOCK_INFO s t) = t.
Proof.
  intros Hs Ht. rewrite state_div, trims_mod, info_sum by done. split; [symmetry; apply (Z.div_unique_pos _ _ _ t); lia|].
  symmetry. apply (Z.mod_unique_pos _ _ s); lia.
Qed.

(** The trims of a block are counted while nothing fails; a failed block stays as it is. *)
Lemma trims_counted n : (0 < n)%nat → Z.of_nat n < 2 ^ 29 →
  Nat.iter n trim_block_info (BLOCK_INFO BLOCK_STATE_UNINIT 0) = BLOCK_INFO BLOCK_STATE_TRIMMED (Z.of_nat n).
Proof.
  intros Hn. induction Hn as [|n Hn IH]; intros Hb; [done|]. cbn [Nat.iter nat_rect]. change (nat_rect _ _ _ n) with (Nat.iter n trim_block_info (BLOCK_INFO BLOCK_STATE_UNINIT 0)).
  rewrite IH by lia. unfold trim_block_info. destruct (block_info_fields BLOCK_STATE_TRIMMED (Z.of_nat n)) as [-> ->]; [done|lia|].
  cbn [Z.leb]. rewrite u32_small by lia. change (BLOCK_STATE_TRIM_FAILURE <=? BLOCK_STATE_TRIMMED) with false. cbn iota. f_equal. lia.
Qed.
Lemma failed_stays s t is_trim is_write : BLOCK_STATE_TRIM_FAILURE ≤ s < 8 → 0 ≤ t < 2 ^ 29 →
  trim_block_info (BLOCK_INFO s t) = BLOCK_INFO s t ∧ unlog_block_info is_trim is_write (BLOCK_INFO s t) = BLOCK_INFO s t.
Proof.
  intros Hs Ht. unfold BLOCK_STATE_TRIM_FAILURE in Hs. destruct (block_info_fields s t) as [Es _]; [lia|done|].
  unfold trim_block_info, unlog_block_info, BLOCK_STATE_TRIM_FAILURE. rewrite Es.
  rewrite (proj2 (Z.leb_le _ _)), (proj2 (Z.ltb_ge _ _)) by lia. done.
Qed.

(** The comparison of an element whose successor has been trimmed fails its assertion:
    the comparison loads 64 bits where the elements have 32. *)
Lemma compare_block_infos_aborts infos i x hi y : load64 infos i = Some x → infos !! S i = Some hi → Forall (is_u 32) infos →
  BLOCK_INFO_TRIMS hi ≠ 0 → compare_block_infos x y = None.
Proof.
  unfold load64. intros Hx Hhi Hall Ht. destruct (infos !! i) as [lo|] eqn:El; [|done]. rewrite Hhi in Hx. cbn in Hx. injection Hx as <-.
  assert (Hlo := Forall_lookup_1 _ _ _ _ Hall El). assert (Hh := Forall_lookup_1 _ _ _ _ Hall Hhi). unfold is_u in *.
  rewrite trims_mod in Ht. unfold compare_block_infos. rewrite state_div.
  assert (Hs : u32 ((lo + 2 ^ 32 * hi) / 2 ^ 29) = lo / 2 ^ 29 + 8 * (hi mod 2 ^ 29)).
  { unfold u32, wrap. symmetry. apply (Z.mod_unique_pos _ _ (hi / 2 ^ 29)); dlia. }
  assert (block_state_category (to_int ((lo + 2 ^ 32 * hi) / 2 ^ 29)) = None) as ->; [|done].
  unfold to_int. rewrite Hs. assert (8 ≤ lo / 2 ^ 29 + 8 * (hi mod 2 ^ 29) < 2 ^ 32) by dlia.
  unfold block_state_category, BLOCK_STATE_UNINIT, BLOCK_STATE_TRIMMED, BLOCK_STATE_WRITTEN, BLOCK_STATE_WRITE_FAILURE, BLOCK_STATE_TRIM_FAILURE.
  destruct (Z.ltb_spec (lo / 2 ^ 29 + 8 * (hi mod 2 ^ 29)) (2 ^ 31)); repeat (rewrite (proj2 (Z.eqb_neq _ _)) by lia); done.
Qed.

(** The 100th percentile reads the word behind the last block; with all words in use that is outside of the array. *)
Example percentile_100_outside :
  percentile_index (dbl_of 100) MAX_NR_BLOCK_INFOS 0 = Some MAX_NR_BLOCK_INFOS ∧
  zget (replicate (Z.to_nat MAX_NR_BLOCK_INFOS) (BLOCK_INFO BLOCK_STATE_TRIMMED 1)) MAX_NR_BLOCK_INFOS = None.
Proof. split; [by vm_compute|]. unfold zget. rewrite decide_True by done. apply lookup_replicate_None. lia. Qed.
